(* ===== verification/_CoqProject ===== *)
-Q . S2P
Prelude.v
Bytes.v
RustStr.v
Config.v
ConfigMatch.v
ConfigParse.v
ConfigGrammar.v
ExampleConfigs.v
Filter.v
Checksum.v
Pnet.v
Packet.v
NatRewrite.v
NatChecksum.v
Sys.v
FdSet.v
Abort.v
Error.v
Interface.v
Logging.v
Bpf.v
Socket.v
F64.v
F64Round.v
RateLimit.v
RateProps.v
Relay.v
UnitTests.v
RelayCalls.v
RelaySpec.v
RelayReal.v
RelayProps.v
RateRelay.v
ExampleProps.v
Network.v
Startup.v
StartupProps.v
MainProps.v
MainRate.v
