(* ===== verification/Prelude.v ===== *)
(** * A verification of bcr, the broadcast relay

    bcr listens on some interfaces of a Linux host, and re-sends the UDP broadcasts and
    multicasts it receives out of other interfaces, filtered by an ordered list of rules, with
    optional rewriting of addresses and ports, a marker that prevents loops, and an optional rate
    limit.  This development models the whole program, from [main] to the bytes of the packets,
    and proves what makes it correct.

    ** The program and its model

    The program is one process with one thread.  [main] reads a configuration, checks the
    environment, opens a raw socket per interface, drops its privileges, and enters an endless
    loop: wait for sockets to be readable, read one packet from each, decide, rewrite, send.

    - [Prelude] (this file): the two ways a Rust computation fails, [outcome] (a panic: the
      crate is built with [panic = "abort"]) and [result]; slices and indices that may panic;
      tactics and hint databases ([bcr], [bcr_step]) the other files share.
    - [Bytes], [RustStr]: bytes, big-endian fields, [Ipv4Addr]; the functions of [str], the
      integer and address parsers, and their printing, with round trips.
    - [Config] (src/src/config.rs): the data types, matching ([Rule_matches], [find_match]) and
      the parser ([parse] and what it calls).  [ConfigMatch]: matching is membership in every
      field of a rule, the scan is first-match, the precomputed mask is a prefix test.
      [ConfigParse]: which files load, which line an error names, what holds of rules that load.
      [ConfigGrammar]: an abstract syntax, its printer, the round trip with the parser, and
      that every configuration that loads has a normal form in it.
    - [Filter] (src/src/filter.rs): the decision and the NAT lookup, which agree.
    - [Checksum]: RFC 1071 arithmetic, the specification of both checksums.
    - [Pnet]: the accessors of the [pnet] crate, as an interface ([Class Pnet]) with the laws the
      program relies on ([PnetLaws]), and an implementation [ref_pnet] used in witnesses.
    - [Packet] (src/src/packet.rs): header validation, classification, the loop marker.
      [relayable] and [marked] say what is recognised.
    - [NatRewrite] (src/src/nat.rs): [apply_nat], and the abstract rewriting [nat_spec] of the
      [view] of a datagram it refines.  [NatChecksum]: the checksums of what it leaves, and the
      one case where the UDP checksum is wrong.
    - [Sys]: the calls a program makes to the world ([sysop]: the kernel, the clock, the
      terminal), programs as trees of calls ([prog]), their traces ([exec]), and a runner
      ([run_prog]) for witnesses.  Printing a line is a call that may fail, and then panics.
      [Abort]: what a failed print does to a run.  [FdSet]: the descriptor sets of [nix], whose
      operations panic on a descriptor of 1024 or more, an interface like [Pnet].  [Error]:
      [BcrError] of src/src/main.rs and error contexts.
    - [Interface] (src/src/interface.rs), [Logging] (src/src/logging.rs).
    - [Bpf]: the kernel's packet filter machine, an interface like [Pnet].  [Socket]
      (src/src/socket.rs): the filter program, opening a socket, destination MACs, receive, send.
    - [F64], [F64Round]: binary64 arithmetic (the Standard Library's [SpecFloat]) and what its
      rounding does.  [RateLimit] (src/src/ratelimit.rs): the token bucket.  [RateProps]: the
      most and the least it admits.  [RateRelay]: what that means for the relay, and that traffic
      which keeps to the rate passes as if there were no limiter.
    - [Relay] (src/src/relay.rs): [should_relay_to], [nat_rewrite_target], and [Relay::run] cut
      at its loops: [relay_to] (one output), [relay_to_all], [relay_from] (one received packet),
      [relay_from_ready], [round] (one turn of the loop), [run].  The two buffers are state, and
      keep what earlier packets left in them.  [RelayCalls]: the calls they may make.  [RelaySpec]: the abstract relay, as step
      relations, and the refinement.  [RelayReal]: its converse, so the abstract relay does
      exactly what the program does.  [RelayProps]: what follows from the refinement.
    - [Network]: several hosts running the program, wired in any way: a step relation on the
      frames in flight, and why there are no storms.
    - [Startup] (src/src/main.rs): [validate_permissions], [validate_startup],
      [drop_privileges], [setup] ([main] up to the loop) and [main].  [StartupProps]: what a
      startup that succeeds has established.  [MainProps]: the theorems on the whole program.
      [MainRate]: its rate limit, from the command line.
    - [ExampleConfigs] (src/examples/): the example configurations and what they load as.
      [ExampleProps]: why their DHCP rule has no effect.  [UnitTests]: the test functions at the
      end of the source files, evaluated on the model as a check of it.

    ** What is proved

    Of the whole program ([MainProps], [RelayProps], [RelaySpec], [RelayReal], [RateRelay],
    [MainRate]): nothing is read or sent before a complete startup and a verified privilege drop;
    the loop refines the abstract relay, and does all that the abstract relay may; whatever is
    sent is the rewriting of the packet read last, allowed by the first matching rule of the
    configuration that was loaded, never back out of its interface, and well formed; every
    eligible output gets it; no relay forwards what a relay sent; the fan-out and the rate limiter
    bound what is sent, and the limiter neither lets more through than its bound nor starves
    traffic that keeps to its rate.  The program panics in two cases only: a line that cannot be
    printed (by the loop in verbose mode only), or an input whose descriptor is too large for
    [select]; a run that dies so is the beginning of one that does not, so that what is said of
    the packets sent holds of it too.  Of several hosts ([Network]): a datagram is relayed over
    one hop at most, and the receptions it causes are bounded, cycles or not, whether or not
    hosts die.  Of the parts: each parser, decision and rewriting function is characterised on
    every input, errors included.

    ** Bounds, fuel, and what is assumed

    The endless loop is [run n], its first [n] turns: every theorem holds for all [n], and [Ok]
    means that the loop is still running.  All other recursion is structural, but for printing
    of integers, whose fuel is one more than the number of binary digits.  Integers
    are [Z] with their widths where they matter: 16-bit ports, 32-bit addresses and rates, and
    doubles.  [world_ok] states the one thing asked of the kernel: [read] returns no more bytes
    than the buffer holds.  Nothing is assumed of the terminal: [println!] and [eprintln!] may
    fail at any line, and abort the process when they do; theorems that need more than that say
    so ([killed], [died], [calm]).  Nor is it assumed that [select] can wait for the sockets:
    theorems say [watchable] where they need it.  Theorems on the rate limiter ask for instants the clock's type can
    represent ([instant_ok]).  [PnetLaws], [FdSetsLaws] and [BpfLaws] state documented behaviour
    of code outside the repository, and are proved of the reference implementations.

    ** What is not modelled

    Command-line parsing (generated; [Cli] is its result), the text of system errors (a
    parameter), the layers of an [anyhow] error under its outermost context, closing of
    descriptors at exit, what the runtime prints for an error that [main] returns or for a panic,
    failure to allocate memory, signals, and the stub for systems other than Linux.  An error of
    [read] is taken to leave the buffer unchanged.  The network of [Network] is asynchronous: it
    has no time but what each host's clock answers, and hosts take one frame at a time. *)

From Stdlib Require Export ZArith Lia Bool.
From Stdlib Require Import Ascii String.
From stdpp Require Export base tactics option list numbers.

#[export] Set Default Proof Using "Type".
#[export] Set Warnings "-clear-no-such-hyp".

Declare Scope bcr_scope.
Delimit Scope bcr_scope with bcr.
#[global] Open Scope Z_scope.

(** ** Panics

    The crate is built with [panic = "abort"]: an index or a slice out of range, or an
    [unwrap] of [None], ends the process.  A computation that may panic has type
    [outcome A]. *)
Inductive outcome (A : Type) : Type :=
  | Ret (a : A)
  | Panic.
Arguments Ret {A} a.
Arguments Panic {A}.

#[export] Instance outcome_ret : MRet outcome := @Ret.
#[export] Instance outcome_bind : MBind outcome :=
  fun A B f m => match m with Ret a => f a | Panic => Panic end.

(** ** Fallible computations: Rust's [Result<A, E>]. *)
Inductive result (E A : Type) : Type :=
  | Ok (a : A)
  | Err (e : E).
Arguments Ok {E A} a.
Arguments Err {E A} e.

#[export] Instance result_ret E : MRet (result E) := @Ok E.
#[export] Instance result_bind E : MBind (result E) :=
  fun A B f m => match m with Ok a => f a | Err e => Err e end.

Definition is_ok {E A} (r : result E A) : bool :=
  match r with Ok _ => true | Err _ => false end.

(** [opt.ok_or_else(|| e)?] and [res.map_err(|_| e)?] ([with_context] keeps only the context
    in what [Display] prints). *)
Definition ok_or {E A} (o : option A) (e : E) : result E A :=
  match o with Some a => Ok a | None => Err e end.

Definition map_err {E F A} (f : E -> F) (r : result E A) : result F A :=
  match r with Ok a => Ok a | Err e => Err (f e) end.

(** [buf[i]] *)
Definition index {A} (l : list A) (i : nat) : outcome A :=
  match l !! i with Some a => Ret a | None => Panic end.

(** [&buf[..n]] and [&buf[n..]] *)
Definition slice_to {A} (n : nat) (l : list A) : outcome (list A) :=
  if decide (n <= length l)%nat then Ret (take n l) else Panic.

Definition slice_from {A} (n : nat) (l : list A) : outcome (list A) :=
  if decide (n <= length l)%nat then Ret (drop n l) else Panic.

(** [opt.unwrap()] *)
Definition unwrap {A} (o : option A) : outcome A :=
  match o with Some a => Ret a | None => Panic end.

(** [?] on an [Option], in a function that returns an [Option] and may panic. *)
Definition try {A B} (m : outcome (option A)) (f : A -> outcome (option B)) : outcome (option B) :=
  m ≫= fun o => match o with Some a => f a | None => Ret None end.

Notation "'let?' x := m 'in' k" := (try m (fun x => k))
  (at level 10, x name, m at level 100, k at level 200) : bcr_scope.
#[global] Open Scope bcr_scope.

(** ** Lemmas and automation shared by the components *)

Create HintDb bcr.
Create Rewrite HintDb bcr_step.

Lemma Ret_bind {A B} (a : A) (f : A -> outcome B) : (Ret a ≫= f) = f a.
Proof. reflexivity. Qed.

Lemma Ok_bind {E A B} (a : A) (f : A -> result E B) : (Ok a ≫= f) = f a.
Proof. reflexivity. Qed.

Lemma Err_bind {E A B} (e : E) (f : A -> result E B) : (Err e ≫= f) = Err e.
Proof. reflexivity. Qed.

Lemma bind_Ok {E A B} (m : result E A) (f : A -> result E B) b :
  (m ≫= f) = Ok b <-> exists a, m = Ok a /\ f a = Ok b.
Proof. destruct m; cbn; split; [eauto | by intros (?&[=->]&?) | done | by intros (?&?&?)]. Qed.

Lemma index_lt {A} (l : list A) i a : l !! i = Some a -> index l i = Ret a.
Proof. unfold index. by intros ->. Qed.

Lemma slice_to_le {A} n (l : list A) : (n <= length l)%nat -> slice_to n l = Ret (take n l).
Proof. intros. unfold slice_to. by rewrite decide_True. Qed.

Lemma slice_from_le {A} n (l : list A) : (n <= length l)%nat -> slice_from n l = Ret (drop n l).
Proof. intros. unfold slice_from. by rewrite decide_True. Qed.

#[export] Hint Rewrite @Ret_bind @Ok_bind @Err_bind : bcr_step.
#[export] Hint Rewrite @slice_to_le @slice_from_le using lia : bcr_step.

(** Step through bind, known slices and known indices. *)
Ltac run := repeat (cbn [mbind outcome_bind result_bind mret outcome_ret result_ret unwrap];
                    autorewrite with bcr_step).

(** Split the conjunctions of a boolean test in the context, turning [bool_decide] and the
    integer comparisons into propositions. *)
Ltac unbool :=
  repeat match goal with
  | H : (_ && _)%bool = true |- _ => apply andb_true_iff in H; destruct H
  | H : (_ || _)%bool = false |- _ => apply orb_false_iff in H; destruct H
  | H : negb _ = true |- _ => apply negb_true_iff in H
  | H : negb _ = false |- _ => apply negb_false_iff in H
  | H : bool_decide _ = true |- _ => apply bool_decide_eq_true in H
  | H : bool_decide _ = false |- _ => apply bool_decide_eq_false in H
  | H : (_ =? _) = true |- _ => apply Z.eqb_eq in H
  | H : (_ =? _) = false |- _ => apply Z.eqb_neq in H
  | H : (_ <? _) = true |- _ => apply Z.ltb_lt in H
  | H : (_ <? _) = false |- _ => apply Z.ltb_ge in H
  | H : (_ <=? _) = true |- _ => apply Z.leb_le in H
  | H : (_ <=? _) = false |- _ => apply Z.leb_gt in H
  end.
