(* ===== verification/Bytes.v ===== *)
(** * Bytes, big-endian words and IPv4 addresses

    The machine data of the program: [u8], slices of bytes read and written at an offset,
    network byte order, and [std::net::Ipv4Addr] with the operations the crate uses. *)

From Stdlib Require Strings.Byte.
From S2P Require Import Prelude.

(** ** [u8] *)

Definition u8 : Type := Init.Byte.byte.

Definition u8_val (b : u8) : Z := Z.of_N (Strings.Byte.to_N b).

(** The truncating cast [z as u8]. *)
Definition u8_of (z : Z) : u8 :=
  match Strings.Byte.of_N (Z.to_N (z mod 256)) with
  | Some b => b
  | None => Init.Byte.x00
  end.

#[export] Instance u8_eq_dec : EqDecision u8 := Strings.Byte.byte_eq_dec.
#[export] Instance u8_inhabited : Inhabited u8 := populate Init.Byte.x00.

(** ** Big-endian integers *)

(** [uN::from_be_bytes] *)
Definition be (bs : list u8) : Z := fold_left (fun acc b => acc * 256 + u8_val b) bs 0.

(** [u16::to_be_bytes] *)
Definition be16 (v : Z) : list u8 := [u8_of (v / 256); u8_of v].

(** The [n] bytes of [buf] at [off], and the same bytes overwritten. *)
Definition bytes_at (off n : nat) (buf : list u8) : list u8 := take n (drop off buf).

Definition put (off : nat) (bs buf : list u8) : list u8 :=
  take off buf ++ bs ++ drop (off + length bs) buf.

Definition byte_at (off : nat) (buf : list u8) : Z := be (bytes_at off 1 buf).
Definition word_at (off : nat) (buf : list u8) : Z := be (bytes_at off 2 buf).

(** ** [std::net::Ipv4Addr] *)

Record Ipv4Addr := mk_ip { oct0 : u8; oct1 : u8; oct2 : u8; oct3 : u8 }.

#[export] Instance Ipv4Addr_eq_dec : EqDecision Ipv4Addr.
Proof. solve_decision. Defined.

Definition Ipv4Addr_new (a b c d : Z) : Ipv4Addr := mk_ip (u8_of a) (u8_of b) (u8_of c) (u8_of d).

Definition octets (ip : Ipv4Addr) : list u8 := [oct0 ip; oct1 ip; oct2 ip; oct3 ip].

Definition ip_of_octets (bs : list u8) : Ipv4Addr :=
  match bs with
  | [a; b; c; d] => mk_ip a b c d
  | _ => mk_ip Init.Byte.x00 Init.Byte.x00 Init.Byte.x00 Init.Byte.x00
  end.

(** [u32::from_be_bytes(ip.octets())] *)
Definition ip_u32 (ip : Ipv4Addr) : Z := be (octets ip).

(** [Ipv4Addr::is_multicast]: 224.0.0.0/4. *)
Definition is_multicast (ip : Ipv4Addr) : bool :=
  (224 <=? u8_val (oct0 ip)) && (u8_val (oct0 ip) <=? 239).

Definition limited_broadcast : Ipv4Addr := Ipv4Addr_new 255 255 255 255.

Definition ip_at (off : nat) (buf : list u8) : Ipv4Addr := ip_of_octets (bytes_at off 4 buf).

(** ** Lemmas *)

Lemma u8_val_range b : 0 <= u8_val b < 256.
Proof. destruct b; cbv; split; congruence. Qed.

Lemma u8_of_val b : u8_of (u8_val b) = b.
Proof. by destruct b. Qed.

Lemma u8_val_of z : u8_val (u8_of z) = z mod 256.
Proof.
  unfold u8_val, u8_of.
  pose proof (Z.mod_pos_bound z 256 ltac:(lia)).
  destruct (Strings.Byte.of_N _) as [b|] eqn:E.
  - apply Strings.Byte.to_of_N in E. rewrite E. lia.
  - apply Strings.Byte.of_N_None_iff in E. lia.
Qed.

Lemma u8_val_inj a b : u8_val a = u8_val b -> a = b.
Proof. intros H. by rewrite <- (u8_of_val a), <- (u8_of_val b), H. Qed.

Lemma u8_val_small z : 0 <= z < 256 -> u8_val (u8_of z) = z.
Proof. intros. rewrite u8_val_of. by apply Z.mod_small. Qed.

Lemma be_one b : be [b] = u8_val b.
Proof. unfold be. cbn [fold_left]. lia. Qed.

Lemma be_two a b : be [a; b] = u8_val a * 256 + u8_val b.
Proof. unfold be. cbn [fold_left]. lia. Qed.

Lemma be_be16 v : 0 <= v < 65536 -> be (be16 v) = v.
Proof.
  intros. unfold be16. rewrite be_two, !u8_val_of.
  rewrite (Z.mod_small (v / 256)); [pose proof (Z.div_mod v 256); lia |].
  split; [apply Z.div_pos | apply Z.div_lt_upper_bound]; lia.
Qed.

Lemma be_app_one bs b : be (bs ++ [b]) = be bs * 256 + u8_val b.
Proof. unfold be. by rewrite fold_left_app. Qed.

Lemma be_bound bs : 0 <= be bs < 256 ^ Z.of_nat (length bs).
Proof.
  induction bs as [|b bs IH] using rev_ind; [cbn; lia |].
  rewrite be_app_one, length_app. cbn [length].
  rewrite Nat2Z.inj_add, Z.pow_add_r by lia.
  change (256 ^ Z.of_nat 1) with 256. pose proof (u8_val_range b). nia.
Qed.

Lemma length_be16 v : length (be16 v) = 2%nat.
Proof. reflexivity. Qed.

Lemma length_octets ip : length (octets ip) = 4%nat.
Proof. reflexivity. Qed.

Lemma ip_of_octets_octets ip : ip_of_octets (octets ip) = ip.
Proof. by destruct ip. Qed.

Lemma octets_ip_of_octets bs : length bs = 4%nat -> octets (ip_of_octets bs) = bs.
Proof. destruct bs as [|? [|? [|? [|? [|]]]]]; by intros. Qed.

Lemma lookup_bytes_at off n buf i :
  bytes_at off n buf !! i = if decide (i < n)%nat then buf !! (off + i)%nat else None.
Proof.
  unfold bytes_at. case_decide.
  - by rewrite lookup_take_lt, lookup_drop by lia.
  - by rewrite lookup_take_ge by lia.
Qed.

Lemma lookup_put off bs buf i :
  (off + length bs <= length buf)%nat ->
  put off bs buf !! i =
    if decide (off <= i < off + length bs)%nat then bs !! (i - off)%nat else buf !! i.
Proof.
  intros Hle. unfold put. assert (length (take off buf) = off) as Hlen by (rewrite length_take; lia).
  destruct (decide (i < off)%nat).
  - rewrite lookup_app_l, lookup_take_lt by lia. by rewrite decide_False by lia.
  - rewrite lookup_app_r, Hlen by lia. case_decide.
    + by rewrite lookup_app_l by lia.
    + rewrite lookup_app_r, lookup_drop by lia. f_equal. lia.
Qed.

Lemma length_put off bs buf :
  (off + length bs <= length buf)%nat -> length (put off bs buf) = length buf.
Proof. intros. unfold put. rewrite !length_app, length_take, length_drop. lia. Qed.

Lemma length_bytes_at off n buf :
  (off + n <= length buf)%nat -> length (bytes_at off n buf) = n.
Proof. intros. unfold bytes_at. rewrite length_take, length_drop. lia. Qed.

Lemma bytes_at_put_eq off bs buf n :
  n = length bs -> (off + n <= length buf)%nat -> bytes_at off n (put off bs buf) = bs.
Proof.
  intros -> Hle. apply list_eq. intros i. rewrite lookup_bytes_at, lookup_put by done.
  repeat case_decide; try lia.
  - f_equal. lia.
  - symmetry. apply lookup_ge_None. lia.
Qed.

Lemma bytes_at_put_ne off off' n bs buf :
  (off + length bs <= length buf)%nat ->
  (off' + n <= off \/ off + length bs <= off')%nat ->
  bytes_at off' n (put off bs buf) = bytes_at off' n buf.
Proof.
  intros. apply list_eq. intros i. rewrite !lookup_bytes_at, lookup_put by done.
  repeat case_decide; by try lia.
Qed.

Lemma byte_at_range off buf : 0 <= byte_at off buf < 256.
Proof.
  unfold byte_at, bytes_at. pose proof (be_bound (take 1 (drop off buf))).
  destruct (drop off buf) as [|b [|]]; cbn in *; lia.
Qed.

Lemma word_at_range off buf : 0 <= word_at off buf < 65536.
Proof.
  unfold word_at, bytes_at. pose proof (be_bound (take 2 (drop off buf))) as H.
  destruct (drop off buf) as [|b [|c [|]]]; cbn in *; lia.
Qed.

Lemma word_at_put_eq off v buf :
  0 <= v < 65536 -> (off + 2 <= length buf)%nat -> word_at off (put off (be16 v) buf) = v.
Proof. intros. unfold word_at. rewrite bytes_at_put_eq; [by apply be_be16 | done..]. Qed.

Lemma byte_at_put_eq off v buf :
  0 <= v < 256 -> (off + 1 <= length buf)%nat -> byte_at off (put off [u8_of v] buf) = v.
Proof.
  intros. unfold byte_at. rewrite bytes_at_put_eq, be_one by done. by apply u8_val_small.
Qed.

Lemma ip_at_put_eq off ip buf :
  (off + 4 <= length buf)%nat -> ip_at off (put off (octets ip) buf) = ip.
Proof. intros. unfold ip_at. rewrite bytes_at_put_eq by done. apply ip_of_octets_octets. Qed.

Lemma ip_u32_range ip : 0 <= ip_u32 ip < 2 ^ 32.
Proof. pose proof (be_bound (octets ip)) as H. unfold ip_u32. exact H. Qed.

Lemma be_inj bs bs' : length bs = length bs' -> be bs = be bs' -> bs = bs'.
Proof.
  revert bs'. induction bs as [|b bs IH] using rev_ind; intros bs' Hlen Heq.
  - by destruct bs'.
  - destruct bs' as [|b' bs'] using rev_ind.
    { rewrite length_app in Hlen. cbn in Hlen. lia. }
    clear IHbs'. rewrite !length_app in Hlen. cbn in Hlen. rewrite !be_app_one in Heq.
    pose proof (u8_val_range b). pose proof (u8_val_range b').
    assert (u8_val b = u8_val b') as Hb by lia.
    f_equal; [apply IH; lia | by rewrite (u8_val_inj _ _ Hb)].
Qed.

Lemma ip_u32_inj ip ip' : ip_u32 ip = ip_u32 ip' -> ip = ip'.
Proof.
  unfold ip_u32. intros H%be_inj; [| done].
  by rewrite <- (ip_of_octets_octets ip), H, ip_of_octets_octets.
Qed.

Create Rewrite HintDb bcr_bytes.

(** The [bcr_bytes] hints rewrite lengths of writes and drop reads past disjoint writes. *)
#[export] Hint Rewrite length_be16 length_octets : bcr_bytes.
#[export] Hint Rewrite length_put bytes_at_put_ne
  using (cbn [length be16 octets]; autorewrite with bcr_bytes; cbn [length be16 octets]; lia) : bcr_bytes.

(** Reads of fields that a write does not overlap. *)
Section put_ne.
Context (off off' : nat) (bs buf : list u8).
Hypothesis Hfit : (off + length bs <= length buf)%nat.

Lemma byte_at_put_ne :
  (off' + 1 <= off \/ off + length bs <= off')%nat -> byte_at off' (put off bs buf) = byte_at off' buf.
Proof using Hfit. intros. unfold byte_at. by rewrite bytes_at_put_ne. Qed.

Lemma word_at_put_ne :
  (off' + 2 <= off \/ off + length bs <= off')%nat -> word_at off' (put off bs buf) = word_at off' buf.
Proof using Hfit. intros. unfold word_at. by rewrite bytes_at_put_ne. Qed.

Lemma ip_at_put_ne :
  (off' + 4 <= off \/ off + length bs <= off')%nat -> ip_at off' (put off bs buf) = ip_at off' buf.
Proof using Hfit. intros. unfold ip_at. by rewrite bytes_at_put_ne. Qed.
End put_ne.

(** Side conditions of the read and write rules. *)
Ltac fit := cbn [length be16 octets]; autorewrite with bcr_bytes; cbn [length be16 octets]; lia.

#[export] Hint Rewrite byte_at_put_ne word_at_put_ne ip_at_put_ne
  using (cbn [length be16 octets]; autorewrite with bcr_bytes; cbn [length be16 octets]; lia) : bcr_bytes.

(** ** Writes *)

Lemma put_id off n buf : (off + n <= length buf)%nat -> put off (bytes_at off n buf) buf = buf.
Proof.
  intros. apply list_eq. intros i. rewrite lookup_put, length_bytes_at by (rewrite ?length_bytes_at; lia).
  case_decide; [| done]. rewrite lookup_bytes_at, decide_True by lia. f_equal. lia.
Qed.

Lemma be16_be bs : length bs = 2%nat -> be16 (be bs) = bs.
Proof.
  destruct bs as [|a [|b [|]]]; intros; try done. apply be_inj; [done |].
  apply be_be16. exact (be_bound [a; b]).
Qed.

Lemma put_be16_id off buf : (off + 2 <= length buf)%nat -> put off (be16 (word_at off buf)) buf = buf.
Proof.
  intros. unfold word_at. rewrite be16_be by (apply length_bytes_at; lia). by apply put_id.
Qed.

Lemma put_octets_id off buf : (off + 4 <= length buf)%nat -> put off (octets (ip_at off buf)) buf = buf.
Proof.
  intros. unfold ip_at. rewrite octets_ip_of_octets by (apply length_bytes_at; lia). by apply put_id.
Qed.

(** Writing inside the tail of a buffer. *)
Lemma drop_put h off bs buf :
  (h + off + length bs <= length buf)%nat ->
  drop h (put (h + off) bs buf) = put off bs (drop h buf).
Proof.
  intros. apply list_eq. intros i.
  rewrite lookup_drop, !lookup_put, lookup_drop by (rewrite ?length_drop; lia).
  repeat case_decide; try done; try lia. f_equal. lia.
Qed.

Lemma put_drop h buf buf' :
  (h <= length buf)%nat -> length buf' = length buf -> take h buf' = take h buf ->
  put h (drop h buf') buf = buf'.
Proof.
  intros Hh Hlen Ht. unfold put. rewrite <- Ht.
  rewrite (drop_ge buf) by (rewrite length_drop; lia). by rewrite app_nil_r, take_drop.
Qed.

Lemma take_put h off bs buf :
  (h <= off)%nat -> (off + length bs <= length buf)%nat -> take h (put off bs buf) = take h buf.
Proof.
  intros. pose proof (bytes_at_put_ne off 0 h bs buf) as H'. unfold bytes_at in H'.
  rewrite !drop_0 in H'. apply H'; lia.
Qed.

Lemma word_at_drop h off buf : word_at off (drop h buf) = word_at (h + off) buf.
Proof. unfold word_at, bytes_at. by rewrite drop_drop. Qed.

Lemma bytes_at_0_put h off bs buf :
  (off + length bs <= h)%nat -> (h <= length buf)%nat ->
  bytes_at 0 h (put off bs buf) = put off bs (bytes_at 0 h buf).
Proof.
  intros. apply list_eq. intros i.
  rewrite lookup_bytes_at, !lookup_put, lookup_bytes_at by (rewrite ?length_bytes_at; lia).
  repeat case_decide; try done; lia.
Qed.

Lemma bytes_at_rest h n buf : n = (length buf - h)%nat -> bytes_at h n buf = drop h buf.
Proof. intros ->. unfold bytes_at. apply take_ge. rewrite length_drop. lia. Qed.

Lemma drop_put_before h off bs buf :
  (off + length bs <= h)%nat -> (h <= length buf)%nat -> drop h (put off bs buf) = drop h buf.
Proof.
  intros. apply list_eq. intros i. rewrite !lookup_drop, lookup_put by lia.
  by rewrite decide_False by lia.
Qed.

(** Writes to the beginning of a buffer in two parts. *)
Lemma put_app off bs l l' :
  (off + length bs <= length l)%nat -> put off bs (l ++ l') = put off bs l ++ l'.
Proof.
  intros. unfold put. rewrite take_app_le, drop_app_le by lia. by rewrite <- !app_assoc.
Qed.
