(* ===== verification/RustStr.v ===== *)
(** * Rust strings

    [&str] as the list of its Unicode scalar values, with the operations of [core::str],
    [core::num] and [core::net] that the crate calls: line and field splitting, trimming,
    prefix tests, decimal parsing and printing of unsigned integers, and parsing and printing
    of [Ipv4Addr]. *)

From Stdlib Require Ascii String.
From S2P Require Import Prelude Bytes.
Export String.StringSyntax.

(** A [char]: its scalar value. *)
Abbreviation char := Z (only parsing).
Abbreviation str := (list Z) (only parsing).

(** A literal of the source. *)
Fixpoint lit (s : String.string) : str :=
  match s with
  | String.EmptyString => []
  | String.String c s => Z.of_N (Ascii.N_of_ascii c) :: lit s
  end.

Arguments lit s%_string_scope.

(** [char::is_whitespace]: the code points with the property White_Space. *)
Definition is_whitespace (c : char) : bool :=
  ((9 <=? c) && (c <=? 13)) || (c =? 32) || (c =? 133) || (c =? 160) || (c =? 5760)
  || ((8192 <=? c) && (c <=? 8202)) || (c =? 8232) || (c =? 8233) || (c =? 8239)
  || (c =? 8287) || (c =? 12288).

(** [str::split], on the characters that satisfy [p]: never the empty list. *)
Fixpoint split_pred (p : char -> bool) (s : str) : list str :=
  match s with
  | [] => [[]]
  | c :: s =>
      if p c then [] :: split_pred p s
      else match split_pred p s with
           | [] => [[c]]
           | w :: ws => (c :: w) :: ws
           end
  end.

Definition split_on (sep : char) (s : str) : list str := split_pred (fun c => c =? sep) s.

Definition is_empty {A} (l : list A) : bool := match l with [] => true | _ => false end.

(** [str::split_whitespace] *)
Definition split_whitespace (s : str) : list str :=
  List.filter (fun w => negb (is_empty w)) (split_pred is_whitespace s).

(** [str::split_inclusive(LF)] *)
Fixpoint split_inclusive_lf (s : str) : list str :=
  match s with
  | [] => []
  | c :: s =>
      if c =? 10 then [c] :: split_inclusive_lf s
      else match split_inclusive_lf s with
           | [] => [[c]]
           | w :: ws => (c :: w) :: ws
           end
  end.

Definition strip_last (c : char) (s : str) : option str :=
  match rev s with
  | d :: r => if d =? c then Some (rev r) else None
  | [] => None
  end.

(** [str::lines]: the terminator of a line is LF or CR LF. *)
Definition lines (s : str) : list str :=
  map (fun l => match strip_last 10 l with
                | None => l
                | Some l => match strip_last 13 l with None => l | Some l => l end
                end) (split_inclusive_lf s).

Fixpoint trim_start (s : str) : str :=
  match s with
  | c :: s' => if is_whitespace c then trim_start s' else s
  | [] => []
  end.

(** [str::trim] *)
Definition trim (s : str) : str := rev (trim_start (rev (trim_start s))).

Definition starts_with (c : char) (s : str) : bool :=
  match s with d :: _ => d =? c | [] => false end.

Definition contains (c : char) (s : str) : bool := existsb (fun d => d =? c) s.

Fixpoint strip_prefix (p s : str) : option str :=
  match p, s with
  | [], _ => Some s
  | a :: p, c :: s => if c =? a then strip_prefix p s else None
  | _ :: _, [] => None
  end.

(** ** Unsigned integers *)

Definition u16_max : Z := 65535.
Definition u32_max : Z := 4294967295.

(** [char::to_digit(10)] *)
Definition to_digit (c : char) : option Z :=
  if (48 <=? c) && (c <=? 57) then Some (c - 48) else None.

Inductive IntErrorKind := IntEmpty | IntInvalidDigit | IntPosOverflow.

(** The checked loop of [from_str_radix]. *)
Fixpoint parse_digits (max acc : Z) (s : str) : result IntErrorKind Z :=
  match s with
  | [] => Ok acc
  | c :: s =>
      match to_digit c with
      | None => Err IntInvalidDigit
      | Some d =>
          if max <? acc * 10 then Err IntPosOverflow
          else if max <? acc * 10 + d then Err IntPosOverflow
          else parse_digits max (acc * 10 + d) s
      end
  end.

(** [<uN as FromStr>::from_str], for the type whose greatest value is [max]. *)
Definition parse_uint (max : Z) (s : str) : result IntErrorKind Z :=
  match s with
  | [] => Err IntEmpty
  | [c] => if (c =? 43) || (c =? 45) then Err IntInvalidDigit else parse_digits max 0 s
  | c :: s' => if c =? 43 then parse_digits max 0 s' else parse_digits max 0 s
  end.

Definition parse_u16 : str -> result IntErrorKind Z := parse_uint u16_max.
Definition parse_u32 : str -> result IntErrorKind Z := parse_uint u32_max.

Fixpoint show_aux (fuel : nat) (n : Z) (acc : str) : str :=
  match fuel with
  | O => acc
  | S fuel =>
      let acc := (48 + n mod 10) :: acc in
      if n <? 10 then acc else show_aux fuel (n / 10) acc
  end.

(** [Display] of an unsigned integer: one digit per bit is fuel enough. *)
Definition show (n : Z) : str := show_aux (S (Z.to_nat (Z.log2 n))) n [].

(** ** [<Ipv4Addr as FromStr>::from_str] *)

(** The digit loop of [Parser::read_number(10, Some(3), false)]. *)
Fixpoint read_digits (acc : Z) (count : nat) (s : str) : option (Z * nat * str) :=
  match s with
  | c :: s' =>
      match to_digit c with
      | Some d =>
          if (3 <? S count)%nat then None else read_digits (acc * 10 + d) (S count) s'
      | None => Some (acc, count, s)
      end
  | [] => Some (acc, count, [])
  end.

Definition read_octet (s : str) : option (u8 * str) :=
  match read_digits 0 0 s with
  | None => None
  | Some (n, count, rest) =>
      if (count =? 0)%nat then None
      else if starts_with 48 s && (1 <? count)%nat then None
      else if n <=? 255 then Some (u8_of n, rest) else None
  end.

(** [Parser::read_separator] for the octets after the first. *)
Definition read_dot_octet (s : str) : option (u8 * str) :=
  match s with
  | c :: s => if c =? 46 then read_octet s else None
  | [] => None
  end.

Definition Ipv4Addr_from_str (s : str) : option Ipv4Addr :=
  if (15 <? length s)%nat then None
  else
    '(a, s) ← read_octet s;
    '(b, s) ← read_dot_octet s;
    '(c, s) ← read_dot_octet s;
    '(d, s) ← read_dot_octet s;
    if is_empty s then Some (mk_ip a b c d) else None.

Definition show_ip (ip : Ipv4Addr) : str :=
  show (u8_val (oct0 ip)) ++ lit "." ++ show (u8_val (oct1 ip)) ++ lit "."
  ++ show (u8_val (oct2 ip)) ++ lit "." ++ show (u8_val (oct3 ip)).

(** ** Lemmas *)

Definition is_digit (c : char) : Prop := 48 <= c <= 57.

Lemma to_digit_of d : 0 <= d <= 9 -> to_digit (48 + d) = Some d.
Proof.
  intros. unfold to_digit.
  rewrite (proj2 (Z.leb_le _ _)), (proj2 (Z.leb_le _ _)) by lia. cbn. f_equal. lia.
Qed.

Lemma show_aux_digits fuel n acc :
  Forall is_digit acc -> 0 <= n -> Forall is_digit (show_aux fuel n acc).
Proof.
  revert n acc. induction fuel as [|fuel IH]; intros n acc Hacc Hn; cbn [show_aux]; [done |].
  pose proof (Z.mod_pos_bound n 10 ltac:(lia)).
  assert (Forall is_digit ((48 + n mod 10) :: acc)) by (constructor; [red; lia | done]).
  destruct (n <? 10) eqn:E; [done |]. apply IH; [done |]. apply Z.div_pos; lia.
Qed.

Lemma show_aux_cons fuel n acc : exists c s, show_aux (S fuel) n acc = c :: s.
Proof.
  revert n acc. induction fuel as [|fuel IH]; intros n acc; cbn [show_aux].
  - destruct (n <? 10); eauto.
  - destruct (n <? 10); [eauto | apply IH].
Qed.

Lemma show_digits n : 0 <= n -> Forall is_digit (show n).
Proof. intros. by apply show_aux_digits. Qed.

Lemma show_cons n : exists c s, show n = c :: s.
Proof. apply show_aux_cons. Qed.

Lemma parse_show_aux max fuel n acc :
  0 <= n <= max -> n < 2 ^ Z.of_nat fuel ->
  parse_digits max 0 (show_aux fuel n acc) = parse_digits max n acc.
Proof.
  revert n acc. induction fuel as [|fuel IH]; intros n acc Hn Hf; cbn [show_aux].
  - cbn in Hf. by replace n with 0 by lia.
  - pose proof (Z.mod_pos_bound n 10 ltac:(lia)). pose proof (Z.div_mod n 10).
    destruct (n <? 10) eqn:E; unbool.
    + cbn [parse_digits]. rewrite to_digit_of by lia.
      rewrite (Z.mod_small n 10), !(proj2 (Z.ltb_ge _ _)) by lia. f_equal.
    + rewrite Nat2Z.inj_succ, Z.pow_succ_r in Hf by lia.
      rewrite IH; [| lia | lia]. cbn [parse_digits]. rewrite to_digit_of by lia.
      rewrite !(proj2 (Z.ltb_ge _ _)) by lia. f_equal. lia.
Qed.

Lemma parse_show max n : 0 <= n <= max -> parse_uint max (show n) = Ok n.
Proof.
  intros Hn. destruct (show_cons n) as (c & s & Hs).
  assert (is_digit c) as Hc.
  { pose proof (show_digits n ltac:(lia)) as Hd. rewrite Hs in Hd. by inversion Hd. }
  assert (parse_digits max 0 (show n) = Ok n) as Hp.
  { unfold show. rewrite parse_show_aux; [done | lia |].
    rewrite Nat2Z.inj_succ, Z2Nat.id by apply Z.log2_nonneg.
    destruct (decide (n = 0)) as [->|]; [done |]. apply Z.log2_spec. lia. }
  rewrite Hs in *. unfold parse_uint. red in Hc.
  rewrite (proj2 (Z.eqb_neq c 43)), (proj2 (Z.eqb_neq c 45)) by lia.
  by destruct s.
Qed.

Lemma read_octet_show b : read_octet (show (u8_val b)) = Some (b, []).
Proof. destruct b; vm_compute; reflexivity. Qed.

Lemma read_octet_show_dot b s :
  read_octet (show (u8_val b) ++ 46 :: s) = Some (b, 46 :: s).
Proof. destruct b; vm_compute; reflexivity. Qed.

Lemma read_dot_octet_dot s : read_dot_octet (46 :: s) = read_octet s.
Proof. reflexivity. Qed.

Lemma length_show_octet b : (length (show (u8_val b)) <= 3)%nat.
Proof. destruct b; vm_compute; lia. Qed.

Lemma Ipv4Addr_from_str_show ip : Ipv4Addr_from_str (show_ip ip) = Some ip.
Proof.
  destruct ip as [a b c d]. unfold Ipv4Addr_from_str.
  replace (15 <? length _)%nat with false.
  2: { symmetry. apply Nat.ltb_ge. unfold show_ip. cbn [oct0 oct1 oct2 oct3].
       rewrite !length_app. cbn [lit length].
       pose proof (length_show_octet a). pose proof (length_show_octet b).
       pose proof (length_show_octet c). pose proof (length_show_octet d). lia. }
  unfold show_ip. cbn [oct0 oct1 oct2 oct3 lit app].
  change (Z.of_N (Ascii.N_of_ascii _)) with 46.
  repeat (rewrite read_octet_show_dot; cbn [mbind option_bind]; rewrite read_dot_octet_dot).
  by rewrite read_octet_show.
Qed.

(** The digits a number is read from. *)
Definition digits_value (acc : Z) (ds : list Z) : Z := fold_left (fun acc d => acc * 10 + d) ds acc.

Lemma to_digit_Some c d : to_digit c = Some d -> c = 48 + d /\ 0 <= d <= 9.
Proof. unfold to_digit. destruct (_ && _) eqn:E; [| done]. intros [= <-]. unbool. lia. Qed.

Lemma read_digits_Some acc count s n k rest :
  read_digits acc count s = Some (n, k, rest) -> (count <= 3)%nat ->
  exists ds, s = map (fun d => 48 + d) ds ++ rest /\ Forall (fun d => 0 <= d <= 9) ds
    /\ k = (count + length ds)%nat /\ (k <= 3)%nat /\ n = digits_value acc ds.
Proof.
  revert acc count. induction s as [|c s IH]; intros acc count; cbn [read_digits].
  { intros [= <- <- <-] Hc. exists []. cbn. rewrite Nat.add_0_r. by split_and!. }
  destruct (to_digit c) as [d|] eqn:E.
  - destruct (3 <? S count)%nat eqn:E3; [done |]. apply Nat.ltb_ge in E3. intros H _.
    destruct (IH _ _ H) as (ds & -> & Hds & -> & Hk & ->); [lia |].
    apply to_digit_Some in E as [-> Hd]. exists (d :: ds). cbn. split_and!; [done | by constructor | lia.. | done].
  - intros [= <- <- <-] Hc. exists []. cbn. rewrite Nat.add_0_r. by split_and!.
Qed.

Lemma show_octet b :
  show (u8_val b)
  = let n := u8_val b in
    if n <? 10 then [48 + n]
    else if n <? 100 then [48 + n / 10; 48 + n mod 10]
    else [48 + n / 100; 48 + n / 10 mod 10; 48 + n mod 10].
Proof. destruct b; vm_compute; reflexivity. Qed.

(** An octet has one text. *)
Lemma read_octet_Some s b rest : read_octet s = Some (b, rest) -> s = show (u8_val b) ++ rest.
Proof.
  unfold read_octet. destruct (read_digits 0 0 s) as [[[n k] rest']|] eqn:E; [| done].
  apply read_digits_Some in E as (ds & -> & Hds & -> & Hk & ->); [| lia]. rewrite Nat.add_0_l in *.
  destruct (length ds =? 0)%nat eqn:E0; [done |]. destruct (_ && _) eqn:Ez; [done |].
  destruct (digits_value 0 ds <=? 255) eqn:E255; [| done]. intros [= <- <-].
  apply Z.leb_le in E255. apply Nat.eqb_neq in E0. rewrite show_octet, u8_val_of. f_equal.
  destruct ds as [|d1 [|d2 [|d3 [|]]]]; cbn [length map app starts_with] in *; try lia;
    repeat (apply Forall_cons_1 in Hds as [? Hds]); unfold digits_value in *; cbn [fold_left] in *;
    rewrite Z.mod_small by lia; cbn zeta; cbn [map].
  - by rewrite (proj2 (Z.ltb_lt _ _)) by lia.
  - assert (d1 <> 0) by (intros ->; discriminate Ez).
    rewrite (proj2 (Z.ltb_ge _ 10)), (proj2 (Z.ltb_lt _ 100)) by lia.
    f_equal; [| f_equal]; zify; Z.to_euclidean_division_equations; lia.
  - assert (d1 <> 0) by (intros ->; discriminate Ez).
    rewrite (proj2 (Z.ltb_ge _ 10)), (proj2 (Z.ltb_ge _ 100)) by lia.
    f_equal; [| f_equal; [| f_equal]]; zify; Z.to_euclidean_division_equations; lia.
Qed.

Lemma read_dot_octet_Some s b rest :
  read_dot_octet s = Some (b, rest) -> s = 46 :: show (u8_val b) ++ rest.
Proof.
  destruct s as [|c s]; [done |]. cbn [read_dot_octet]. destruct (c =? 46) eqn:E; [| done].
  apply Z.eqb_eq in E as ->. by intros ->%read_octet_Some.
Qed.

(** An address has one text. *)
Lemma Ipv4Addr_from_str_Some s ip : Ipv4Addr_from_str s = Some ip -> s = show_ip ip.
Proof.
  unfold Ipv4Addr_from_str. destruct (15 <? length s)%nat; [done |].
  destruct (read_octet s) as [[a s1]|] eqn:Ea; [| done]. cbn [mbind option_bind].
  destruct (read_dot_octet s1) as [[b s2]|] eqn:Eb; [| done]. cbn [mbind option_bind].
  destruct (read_dot_octet s2) as [[c s3]|] eqn:Ec; [| done]. cbn [mbind option_bind].
  destruct (read_dot_octet s3) as [[d s4]|] eqn:Ed; [| done]. cbn [mbind option_bind].
  destruct s4; [| done]. intros [= <-].
  apply read_octet_Some in Ea as ->. apply read_dot_octet_Some in Eb as ->, Ec as ->, Ed as ->.
  unfold show_ip. cbn [oct0 oct1 oct2 oct3]. by rewrite app_nil_r.
Qed.

Example from_str_leading_zero : Ipv4Addr_from_str (lit "10.0.0.01") = None.
Proof. reflexivity. Qed.

Lemma split_pred_ne p s : split_pred p s <> [].
Proof.
  induction s as [|c s IH]; cbn; [done |].
  destruct (p c); [done |]. by destruct (split_pred p s).
Qed.

(** Splitting a word with no separator, and a word followed by a separator. *)
Lemma split_pred_word p w : Forall (fun c => p c = false) w -> split_pred p w = [w].
Proof. induction 1 as [|c w Hc _ IH]; cbn; [done |]. by rewrite Hc, IH. Qed.

Lemma split_pred_app p w c s :
  Forall (fun c => p c = false) w -> p c = true ->
  split_pred p (w ++ c :: s) = w :: split_pred p s.
Proof.
  intros Hw Hc. induction Hw as [|d w Hd _ IH]; cbn; [by rewrite Hc |].
  by rewrite Hd, IH.
Qed.

Lemma contains_false c s : Forall (fun d => d <> c) s -> contains c s = false.
Proof.
  induction 1 as [|d s Hd _ IH]; [done |]. cbn.
  by rewrite (proj2 (Z.eqb_neq d c)) by done.
Qed.

Lemma contains_app c s t : contains c (s ++ t) = contains c s || contains c t.
Proof. apply existsb_app. Qed.
