(* ===== verification/Config.v ===== *)
(** * Configuration: rules, matching and the parser

    Models [src/src/config.rs].  The rule data are the source's enums and structs (their
    constructors carry the type's name as a prefix, since several enums share [Any] and
    [Exact]); [Rule_matches] and [find_match] are the hot path, [parse] and what it calls the
    strict line parser.  An [anyhow] error is the text its [Display] prints. *)

From S2P Require Import Prelude Bytes RustStr.

(** ** Data *)

Inductive Action := Allow | Deny.

Inductive Protocol := Protocol_Udp | Protocol_Any.

Inductive IpMatcher :=
  | IpMatcher_Any
  | IpMatcher_Exact (addr : Ipv4Addr)
  | IpMatcher_Cidr (addr mask : Z).

Inductive PortMatcher :=
  | PortMatcher_Any
  | PortMatcher_Exact (p : Z)
  | PortMatcher_Range (start end_ : Z).

Inductive BroadcastType := BroadcastType_Any | BroadcastType_Limited | BroadcastType_Directed.

Record NatOptions := mk_nat {
  source_ip : option Ipv4Addr;
  dest_ip : option Ipv4Addr;
  source_port : option Z;
  dest_port : option Z
}.

(** [NatOptions::default()] *)
Definition NatOptions_default : NatOptions := mk_nat None None None None.

Record PacketInfo := mk_info {
  pkt_protocol : Protocol;
  pkt_src_ip : Ipv4Addr;
  pkt_dst_ip : Ipv4Addr;
  pkt_src_port : Z;
  pkt_dst_port : Z
}.

Record Rule := mk_rule {
  action : Action;
  protocol : Protocol;
  src_ip : IpMatcher;
  src_port : PortMatcher;
  dst_ip : IpMatcher;
  dst_port : PortMatcher;
  broadcast_type : BroadcastType;
  rule_nat : NatOptions
}.

Record Config := mk_config { rules : list Rule }.

#[export] Instance Action_eq_dec : EqDecision Action.
Proof. solve_decision. Defined.
#[export] Instance Protocol_eq_dec : EqDecision Protocol.
Proof. solve_decision. Defined.
#[export] Instance NatOptions_eq_dec : EqDecision NatOptions.
Proof. solve_decision. Defined.

(** ** Matching *)

Definition IpMatcher_matches (m : IpMatcher) (ip : Ipv4Addr) : bool :=
  match m with
  | IpMatcher_Any => true
  | IpMatcher_Exact addr => bool_decide (addr = ip)
  | IpMatcher_Cidr addr mask => Z.land (ip_u32 ip) mask =? addr
  end.

Definition PortMatcher_matches (m : PortMatcher) (port : Z) : bool :=
  match m with
  | PortMatcher_Any => true
  | PortMatcher_Exact p => p =? port
  | PortMatcher_Range start end_ => (start <=? port) && (port <=? end_)
  end.

Definition Rule_matches (r : Rule) (pkt : PacketInfo) : bool :=
  if negb (bool_decide (protocol r = Protocol_Any))
     && negb (bool_decide (protocol r = pkt_protocol pkt)) then false
  else if negb (PortMatcher_matches (src_port r) (pkt_src_port pkt)) then false
  else if negb (PortMatcher_matches (dst_port r) (pkt_dst_port pkt)) then false
  else if negb (IpMatcher_matches (src_ip r) (pkt_src_ip pkt)) then false
  else if negb (IpMatcher_matches (dst_ip r) (pkt_dst_ip pkt)) then false
  else
    match broadcast_type r with
    | BroadcastType_Any => true
    | BroadcastType_Limited => bool_decide (pkt_dst_ip pkt = limited_broadcast)
    | BroadcastType_Directed =>
        (u8_val (oct3 (pkt_dst_ip pkt)) =? 255)
        && negb (bool_decide (pkt_dst_ip pkt = limited_broadcast))
    end.

Definition find_match (c : Config) (pkt : PacketInfo) : option Rule :=
  List.find (fun rule => Rule_matches rule pkt) (rules c).

Definition allow_all : Config :=
  mk_config [mk_rule Allow Protocol_Any IpMatcher_Any PortMatcher_Any IpMatcher_Any
               PortMatcher_Any BroadcastType_Any NatOptions_default].

(** ** Parsing *)

(** [<Ipv4Addr as FromStr>::from_str(s)?], whose error prints the standard library's text. *)
Definition from_str (s : str) : result str Ipv4Addr :=
  ok_or (Ipv4Addr_from_str s) (lit "invalid IPv4 address syntax").

(** [.with_context(|| text)?] *)
Definition with_context {E A} (r : result E A) (text : str) : result str A :=
  map_err (fun _ => text) r.

(** [if prefix_len == 0 { 0 } else { !0u32 << (32 - prefix_len) }] *)
Definition cidr_mask (prefix_len : Z) : Z :=
  if prefix_len =? 0 then 0 else Z.land (Z.shiftl u32_max (32 - prefix_len)) u32_max.

Definition cidr_matcher (addr : Ipv4Addr) (prefix_len : Z) : IpMatcher :=
  let mask := cidr_mask prefix_len in
  IpMatcher_Cidr (Z.land (ip_u32 addr) mask) mask.

Definition parse_ip_matcher (s : str) : result str IpMatcher :=
  if bool_decide (s = lit "any") then Ok IpMatcher_Any
  else if contains 47 s then
    match split_on 47 s with
    | [p0; p1] =>
        addr ← with_context (from_str p0) (lit "Invalid CIDR address: " ++ p0);
        prefix_len ← with_context (parse_u32 p1) (lit "Invalid CIDR prefix length: " ++ p1);
        if 32 <? prefix_len then Err (lit "Invalid CIDR prefix length: " ++ show prefix_len)
        else Ok (cidr_matcher addr prefix_len)
    | _ => Err (lit "Invalid CIDR notation: " ++ s)
    end
  else
    addr ← from_str s;
    Ok (IpMatcher_Exact addr).

Definition parse_port_matcher (s : str) : result str PortMatcher :=
  if bool_decide (s = lit "any") then Ok PortMatcher_Any
  else if contains 45 s then
    match split_on 45 s with
    | [p0; p1] =>
        start ← with_context (parse_u16 p0) (lit "Invalid port range start: " ++ p0);
        end_ ← with_context (parse_u16 p1) (lit "Invalid port range end: " ++ p1);
        if end_ <? start then
          Err (lit "Invalid port range: start " ++ show start
               ++ lit " is greater than end " ++ show end_)
        else Ok (PortMatcher_Range start end_)
    | _ => Err (lit "Invalid port range: " ++ s)
    end
  else
    port ← with_context (parse_u16 s) (lit "Invalid port: " ++ s);
    Ok (PortMatcher_Exact port).

Definition parse_addr_port (s : str) : result str (IpMatcher * PortMatcher) :=
  match split_on 58 s with
  | [p0; p1] =>
      ip ← parse_ip_matcher p0;
      port ← parse_port_matcher p1;
      Ok (ip, port)
  | _ => Err (lit "Invalid address:port format: " ++ s)
  end.

Definition parse_dest_addr_port (s : str) : result str (IpMatcher * PortMatcher * BroadcastType) :=
  match split_on 58 s with
  | [ip_str; port_str] =>
      port ← parse_port_matcher port_str;
      '(ip, bcast_type) ←
        (if bool_decide (ip_str = lit "255.255.255.255") then
           Ok (IpMatcher_Exact limited_broadcast, BroadcastType_Limited)
         else if bool_decide (ip_str = lit "directed") then
           Ok (IpMatcher_Any, BroadcastType_Directed)
         else if bool_decide (ip_str = lit "any") then
           Ok (IpMatcher_Any, BroadcastType_Any)
         else
           ip ← parse_ip_matcher ip_str;
           Ok (ip, BroadcastType_Any));
      Ok (ip, port, bcast_type)
  | _ => Err (lit "Invalid address:port format: " ++ s)
  end.

(** One turn of the loop over the NAT options. *)
Definition parse_nat_option (nat : NatOptions) (opt : str) : result str NatOptions :=
  match strip_prefix (lit "snat=") opt with
  | Some val =>
      ip ← with_context (from_str val) (lit "Invalid snat address: " ++ val);
      Ok (mk_nat (Some ip) (dest_ip nat) (source_port nat) (dest_port nat))
  | None =>
  match strip_prefix (lit "dnat=") opt with
  | Some val =>
      ip ← with_context (from_str val) (lit "Invalid dnat address: " ++ val);
      Ok (mk_nat (source_ip nat) (Some ip) (source_port nat) (dest_port nat))
  | None =>
  match strip_prefix (lit "sport=") opt with
  | Some val =>
      port ← with_context (parse_u16 val) (lit "Invalid sport: " ++ val);
      Ok (mk_nat (source_ip nat) (dest_ip nat) (Some port) (dest_port nat))
  | None =>
  match strip_prefix (lit "dport=") opt with
  | Some val =>
      port ← with_context (parse_u16 val) (lit "Invalid dport: " ++ val);
      Ok (mk_nat (source_ip nat) (dest_ip nat) (source_port nat) (Some port))
  | None =>
      Err (lit "Unknown option '" ++ opt ++ lit "' (expected snat=, dnat=, sport=, or dport=)")
  end end end end.

Fixpoint parse_nat_options (nat : NatOptions) (opts : list str) : result str NatOptions :=
  match opts with
  | [] => Ok nat
  | opt :: opts => nat ← parse_nat_option nat opt; parse_nat_options nat opts
  end.

Definition has_nat (nat : NatOptions) : bool :=
  bool_decide (is_Some (source_ip nat)) || bool_decide (is_Some (dest_ip nat))
  || bool_decide (is_Some (source_port nat)) || bool_decide (is_Some (dest_port nat)).

Definition parse_action (s : str) : result str Action :=
  if bool_decide (s = lit "allow") then Ok Allow
  else if bool_decide (s = lit "deny") then Ok Deny
  else Err (lit "Invalid action: " ++ s).

Definition parse_protocol (s : str) : result str Protocol :=
  if bool_decide (s = lit "udp") then Ok Protocol_Udp
  else if bool_decide (s = lit "any") then Ok Protocol_Any
  else if bool_decide (s = lit "tcp") then
    Err (lit "TCP is not supported: TCP has no broadcast/multicast semantics and is not relayed")
  else Err (lit "Invalid protocol: " ++ s).

Definition parse_rule (line : str) : result str Rule :=
  match split_whitespace line with
  | p0 :: p1 :: p2 :: p3 :: opts =>
      action ← parse_action p0;
      protocol ← parse_protocol p1;
      '(src_ip, src_port) ← parse_addr_port p2;
      '(dst_ip, dst_port, broadcast_type) ← parse_dest_addr_port p3;
      nat ← parse_nat_options NatOptions_default opts;
      if bool_decide (action = Deny) && has_nat nat then
        Err (lit "NAT options are not allowed on a deny rule")
      else
        Ok (mk_rule action protocol src_ip src_port dst_ip dst_port broadcast_type nat)
  | _ => Err (lit "Invalid rule format, expected: ACTION PROTO SRC DST [NAT...]")
  end.

(** [line.is_empty() || line.starts_with('#')], on a trimmed line. *)
Definition skipped (line : str) : bool := is_empty line || starts_with 35 line.

Definition line_error (line_num : nat) (e : str) : str :=
  lit "Config parse error at line " ++ show (Z.of_nat line_num + 1) ++ lit ": " ++ e.

(** The loop of [Config::parse] over the enumerated lines. *)
Fixpoint parse_lines (line_num : nat) (acc : list Rule) (ls : list str) : result str Config :=
  match ls with
  | [] => Ok (mk_config acc)
  | line :: ls =>
      let line := trim line in
      if skipped line then parse_lines (S line_num) acc ls
      else match parse_rule line with
           | Ok rule => parse_lines (S line_num) (acc ++ [rule]) ls
           | Err e => Err (line_error line_num e)
           end
  end.

Definition parse (content : str) : result str Config := parse_lines 0 [] (lines content).

(** [Config::from_file], given what [fs::read_to_string(path)] returned. *)
Definition from_file {E} (path : str) (read : result E str) : result str Config :=
  content ← with_context read (lit "Failed to read config file: " ++ path);
  parse content.
