(* ===== verification/ConfigMatch.v ===== *)
(** * Matching: what a rule covers, and first match wins

    Theorems on the hot path of [Config.v]: the meaning of a CIDR block as the source computes
    it (a pre-masked address and a mask), the declarative reading of [Rule_matches], and the
    first-match scan. *)

From S2P Require Import Prelude Bytes RustStr Config.

(** A rule's coverage, field by field. *)
Definition port_covers (m : PortMatcher) (port : Z) : Prop :=
  match m with
  | PortMatcher_Any => True
  | PortMatcher_Exact p => port = p
  | PortMatcher_Range start end_ => start <= port <= end_
  end.

Definition ip_covers (m : IpMatcher) (ip : Ipv4Addr) : Prop :=
  match m with
  | IpMatcher_Any => True
  | IpMatcher_Exact addr => ip = addr
  | IpMatcher_Cidr addr mask => Z.land (ip_u32 ip) mask = addr
  end.

Definition broadcast_covers (t : BroadcastType) (dst : Ipv4Addr) : Prop :=
  match t with
  | BroadcastType_Any => True
  | BroadcastType_Limited => dst = limited_broadcast
  | BroadcastType_Directed => u8_val (oct3 dst) = 255 /\ dst <> limited_broadcast
  end.

Definition rule_covers (r : Rule) (pkt : PacketInfo) : Prop :=
  (protocol r = Protocol_Any \/ protocol r = pkt_protocol pkt)
  /\ port_covers (src_port r) (pkt_src_port pkt)
  /\ port_covers (dst_port r) (pkt_dst_port pkt)
  /\ ip_covers (src_ip r) (pkt_src_ip pkt)
  /\ ip_covers (dst_ip r) (pkt_dst_ip pkt)
  /\ broadcast_covers (broadcast_type r) (pkt_dst_ip pkt).

Lemma PortMatcher_matches_iff m port : PortMatcher_matches m port = true <-> port_covers m port.
Proof. destruct m; cbn; [done | |]; lia. Qed.

Lemma IpMatcher_matches_iff m ip : IpMatcher_matches m ip = true <-> ip_covers m ip.
Proof.
  destruct m; cbn; [done | | apply Z.eqb_eq].
  rewrite bool_decide_eq_true. naive_solver.
Qed.

Lemma broadcast_matches_iff t dst :
  match t with
  | BroadcastType_Any => true
  | BroadcastType_Limited => bool_decide (dst = limited_broadcast)
  | BroadcastType_Directed =>
      (u8_val (oct3 dst) =? 255) && negb (bool_decide (dst = limited_broadcast))
  end = true <-> broadcast_covers t dst.
Proof.
  destruct t; cbn; [done | apply bool_decide_eq_true |].
  rewrite andb_true_iff, negb_true_iff, bool_decide_eq_false, Z.eqb_eq. done.
Qed.

(** The early exits of the source amount to a conjunction. *)
Lemma early_exit (b c : bool) : (if negb b then false else c) = b && c.
Proof. by destruct b. Qed.

Lemma protocol_matches_iff (p q : Protocol) :
  negb (negb (bool_decide (p = Protocol_Any)) && negb (bool_decide (p = q))) = true
  <-> p = Protocol_Any \/ p = q.
Proof.
  rewrite negb_true_iff, andb_false_iff, !negb_false_iff, !bool_decide_eq_true. done.
Qed.

Lemma Rule_matches_covers r pkt : Rule_matches r pkt = true <-> rule_covers r pkt.
Proof.
  unfold Rule_matches, rule_covers.
  rewrite <- (protocol_matches_iff (protocol r)), <- !PortMatcher_matches_iff,
    <- !IpMatcher_matches_iff, <- broadcast_matches_iff, !early_exit.
  destruct (_ && negb (bool_decide (protocol r = _))); cbn; rewrite ?andb_true_iff; intuition done.
Qed.

(** A rule matches a packet exactly when the packet is inside every field of the rule:
    its protocol, both inclusive port ranges, both address sets and the broadcast type. *)
Theorem Rule_matches_iff r pkt : Rule_matches r pkt = true <-> rule_covers r pkt.
Proof. apply Rule_matches_covers. Qed.

Lemma find_match_Some c pkt r :
  find_match c pkt = Some r <->
  exists pre post, rules c = pre ++ r :: post
    /\ Forall (fun r' => Rule_matches r' pkt = false) pre
    /\ Rule_matches r pkt = true.
Proof.
  unfold find_match. generalize (rules c) as rs.
  induction rs as [|r' rs IH]; cbn.
  - split; [done | intros (pre & post & H & _)]. by destruct pre.
  - destruct (Rule_matches r' pkt) eqn:E.
    + split.
      * intros [= <-]. exists [], rs. by repeat split.
      * intros (pre & post & H & Hpre & Hr).
        destruct pre as [|r'' pre]; cbn in H; simplify_eq; [done |].
        apply Forall_cons_1 in Hpre as [? _]. congruence.
    + rewrite IH. split.
      * intros (pre & post & -> & Hpre & Hr). exists (r' :: pre), post. by repeat constructor.
      * intros (pre & post & H & Hpre & Hr).
        destruct pre as [|r'' pre]; cbn in H; simplify_eq; [congruence |].
        apply Forall_cons_1 in Hpre as [_ Hpre]. eauto.
Qed.

Lemma find_match_none c pkt :
  find_match c pkt = None <-> Forall (fun r => Rule_matches r pkt = false) (rules c).
Proof.
  unfold find_match. induction (rules c) as [|r rs IH]; cbn; [by split |].
  rewrite Forall_cons_iff. destruct (Rule_matches r pkt) eqn:E.
  - split; [done | by intros [? _]].
  - rewrite IH. split; [by split | by intros []].
Qed.

(** ** CIDR blocks *)

Lemma testbit_cidr_mask n i :
  0 <= n <= 32 -> 0 <= i -> Z.testbit (cidr_mask n) i = (32 - n <=? i) && (i <? 32).
Proof.
  intros Hn Hi. unfold cidr_mask. destruct (n =? 0) eqn:E; unbool.
  - subst. rewrite Z.testbit_0_l. lia.
  - change u32_max with (Z.ones 32).
    rewrite Z.land_spec, Z.shiftl_spec, !Z.testbit_ones by lia. lia.
Qed.

Lemma land_cidr_mask x n :
  0 <= x < 2 ^ 32 -> 0 <= n <= 32 ->
  Z.land x (cidr_mask n) = Z.shiftl (Z.shiftr x (32 - n)) (32 - n).
Proof.
  intros Hx Hn. apply Z.bits_inj'. intros i Hi.
  rewrite Z.land_spec, testbit_cidr_mask by done.
  destruct (decide (i < 32 - n)).
  - rewrite Z.shiftl_spec_low by done.
    replace (32 - n <=? i) with false by lia. cbn. apply andb_false_r.
  - rewrite Z.shiftl_spec, Z.shiftr_spec, Z.sub_add by lia.
    destruct (decide (i < 32)).
    + assert ((32 - n <=? i) && (i <? 32) = true) as -> by lia. apply andb_true_r.
    + rewrite (proj1 (Z.bounded_iff_bits_nonneg 32 x ltac:(lia) ltac:(lia)) (proj2 Hx) i) by lia. done.
Qed.

(** C30: a CIDR matcher built from [a.b.c.d/n] matches an address exactly when the first [n]
    bits of the two addresses agree, for every prefix length, 0 and 32 included (the shift by
    [32 - n] never leaves the machine word, and /0 matches everything). *)
Theorem cidr_matcher_prefix addr n ip :
  0 <= n <= 32 ->
  IpMatcher_matches (cidr_matcher addr n) ip = true
  <-> ip_u32 ip / 2 ^ (32 - n) = ip_u32 addr / 2 ^ (32 - n).
Proof.
  intros Hn. cbn. rewrite Z.eqb_eq, !land_cidr_mask by (done || apply ip_u32_range).
  rewrite !Z.shiftr_div_pow2, !Z.shiftl_mul_pow2 by lia.
  pose proof (Z.pow_pos_nonneg 2 (32 - n) ltac:(lia) ltac:(lia)). nia.
Qed.

Lemma cidr_matcher_prefix_witness :
  0 <= 24 <= 32 /\
  (IpMatcher_matches (cidr_matcher (Ipv4Addr_new 192 168 1 0) 24) (Ipv4Addr_new 192 168 1 100)
   = true
   <-> ip_u32 (Ipv4Addr_new 192 168 1 100) / 2 ^ (32 - 24)
       = ip_u32 (Ipv4Addr_new 192 168 1 0) / 2 ^ (32 - 24)).
Proof. split; [lia | apply (cidr_matcher_prefix _ 24); lia]. Defined.
