(* ===== verification/ConfigParse.v ===== *)
(** * The parser is strict

    Theorems on [Config::parse]: which files load and with which rules, which line an error
    names, what every rule that loads satisfies, and which options a rule may carry. *)

From S2P Require Import Prelude Bytes RustStr Config ConfigMatch.

(** The lines of a file that hold a rule, trimmed and in order. *)
Definition rule_lines (content : str) : list str :=
  List.filter (fun l => negb (skipped l)) (map trim (lines content)).

(** A line that does not stop the parser. *)
Definition line_ok (line : str) : bool :=
  skipped (trim line) || is_ok (parse_rule (trim line)).

(** What the parser establishes of a rule. *)
Definition port_wf (m : PortMatcher) : Prop :=
  match m with
  | PortMatcher_Any => True
  | PortMatcher_Exact p => 0 <= p <= u16_max
  | PortMatcher_Range start end_ => 0 <= start <= end_ /\ end_ <= u16_max
  end.

Definition ip_wf (m : IpMatcher) : Prop :=
  match m with
  | IpMatcher_Cidr _ _ => exists a n, 0 <= n <= 32 /\ m = cidr_matcher a n
  | _ => True
  end.

Definition nat_wf (nat : NatOptions) : Prop :=
  (forall p, source_port nat = Some p -> 0 <= p <= u16_max)
  /\ (forall p, dest_port nat = Some p -> 0 <= p <= u16_max).

Record rule_wf (r : Rule) : Prop := {
  wf_src_ip : ip_wf (src_ip r);
  wf_src_port : port_wf (src_port r);
  wf_dst_ip : ip_wf (dst_ip r);
  wf_dst_port : port_wf (dst_port r);
  wf_nat : nat_wf (rule_nat r);
  wf_limited : broadcast_type r = BroadcastType_Limited ->
               dst_ip r = IpMatcher_Exact limited_broadcast;
  wf_directed : broadcast_type r = BroadcastType_Directed -> dst_ip r = IpMatcher_Any;
  wf_deny : action r = Deny -> rule_nat r = NatOptions_default
}.

(** ** Integers and matchers *)

Lemma parse_digits_bound max acc s n :
  0 <= acc <= max -> parse_digits max acc s = Ok n -> 0 <= n <= max.
Proof.
  revert acc. induction s as [|c s IH]; cbn; intros acc Hacc H; [by simplify_eq |].
  destruct (to_digit c) as [d|] eqn:E; [| done].
  unfold to_digit in E. destruct ((48 <=? c) && (c <=? 57)) eqn:Ec; simplify_eq. unbool.
  destruct (max <? acc * 10) eqn:E1; [done |].
  destruct (max <? acc * 10 + (c - 48)) eqn:E2; [done |]. unbool.
  apply (IH (acc * 10 + (c - 48))); [lia | done].
Qed.

Lemma parse_uint_bound max s n : 0 <= max -> parse_uint max s = Ok n -> 0 <= n <= max.
Proof.
  intros Hmax H. unfold parse_uint in H.
  destruct s as [|c [|c' s]]; [done | |].
  - destruct (_ || _); [done |]. by eapply parse_digits_bound in H.
  - destruct (c =? 43); by eapply parse_digits_bound in H.
Qed.

Lemma with_context_Ok {E A} (r : result E A) text a : with_context r text = Ok a <-> r = Ok a.
Proof. destruct r; cbn; split; intros H; by inversion H. Qed.

(** Break a successful parse into the successes of its steps. *)
Ltac invert_ok :=
  repeat match goal with
  | H : mbind _ _ = Ok _ |- _ => apply bind_Ok in H as (? & ? & H)
  | H : with_context _ _ = Ok _ |- _ => apply with_context_Ok in H
  | H : match ?p with _ => _ end = Ok _ |- _ => destruct p eqn:?
  | H : Err _ = Ok _ |- _ => discriminate H
  | H : Ok _ = Ok _ |- _ => injection H as H; subst
  end.

Lemma parse_u16_bound s n : parse_u16 s = Ok n -> 0 <= n <= u16_max.
Proof. by apply parse_uint_bound. Qed.

Lemma parse_u32_bound s n : parse_u32 s = Ok n -> 0 <= n <= u32_max.
Proof. by apply parse_uint_bound. Qed.

#[export] Hint Resolve parse_u16_bound parse_u32_bound : bcr.

Lemma parse_port_matcher_wf s m : parse_port_matcher s = Ok m -> port_wf m.
Proof.
  unfold parse_port_matcher. intros H. invert_ok; unbool; [done | cbn | cbn].
  - repeat match goal with H : parse_u16 _ = _ |- _ => apply parse_u16_bound in H end. lia.
  - eauto with bcr.
Qed.

Lemma parse_ip_matcher_wf s m : parse_ip_matcher s = Ok m -> ip_wf m.
Proof.
  unfold parse_ip_matcher. intros H. invert_ok; unbool; [done | | done].
  match goal with H : parse_u32 _ = _ |- _ => apply parse_u32_bound in H end.
  cbn. eexists _, _. split; [| reflexivity]. lia.
Qed.

Lemma parse_addr_port_wf s ip port :
  parse_addr_port s = Ok (ip, port) -> ip_wf ip /\ port_wf port.
Proof.
  unfold parse_addr_port. intros H. invert_ok.
  eauto using parse_ip_matcher_wf, parse_port_matcher_wf.
Qed.

Lemma parse_dest_addr_port_wf s ip port t :
  parse_dest_addr_port s = Ok (ip, port, t) ->
  ip_wf ip /\ port_wf port
  /\ (t = BroadcastType_Limited -> ip = IpMatcher_Exact limited_broadcast)
  /\ (t = BroadcastType_Directed -> ip = IpMatcher_Any).
Proof.
  unfold parse_dest_addr_port. intros H. invert_ok; simplify_eq; cbn;
    repeat split; try done; eauto using parse_ip_matcher_wf, parse_port_matcher_wf.
Qed.

(** ** NAT options *)

(** An option of the grammar, with the effect it has. *)
Inductive nat_option (nat : NatOptions) : str -> NatOptions -> Prop :=
  | opt_snat val ip : from_str val = Ok ip ->
      nat_option nat (lit "snat=" ++ val)
        (mk_nat (Some ip) (dest_ip nat) (source_port nat) (dest_port nat))
  | opt_dnat val ip : from_str val = Ok ip ->
      nat_option nat (lit "dnat=" ++ val)
        (mk_nat (source_ip nat) (Some ip) (source_port nat) (dest_port nat))
  | opt_sport val p : parse_u16 val = Ok p ->
      nat_option nat (lit "sport=" ++ val)
        (mk_nat (source_ip nat) (dest_ip nat) (Some p) (dest_port nat))
  | opt_dport val p : parse_u16 val = Ok p ->
      nat_option nat (lit "dport=" ++ val)
        (mk_nat (source_ip nat) (dest_ip nat) (source_port nat) (Some p)).

Lemma strip_prefix_Some p s t : strip_prefix p s = Some t <-> s = p ++ t.
Proof.
  revert s. induction p as [|a p IH]; intros s; cbn; [split; congruence |].
  destruct s as [|c s]; [done |]. destruct (c =? a) eqn:E; unbool.
  - rewrite IH. subst. split; congruence.
  - split; congruence.
Qed.

(** Evaluate the prefix tests on an option whose name is known. *)
Ltac eval_prefix :=
  repeat match goal with
  | |- context [strip_prefix ?p ?s] =>
      let r := eval lazy in (strip_prefix p s) in change (strip_prefix p s) with r
  end; cbn match.

(** Either the option has the prefix tested next, and constructor [c] describes it, or not. *)
Ltac next_option c :=
  let Hp := fresh "Hp" in
  destruct (strip_prefix _ _) eqn:Hp;
  [apply strip_prefix_Some in Hp as ->; intros H; invert_ok; by apply c | clear Hp].

Lemma parse_nat_option_iff nat opt nat' :
  parse_nat_option nat opt = Ok nat' <-> nat_option nat opt nat'.
Proof.
  unfold parse_nat_option. split.
  - next_option opt_snat. next_option opt_dnat. next_option opt_sport. next_option opt_dport.
    done.
  - destruct 1 as [? ? H|? ? H|? ? H|? ? H]; eval_prefix; by rewrite H.
Qed.

(** What an option says under a key, and what the last option to say something says. *)
Definition says {A E} (key : str) (from : str -> result E A) (opt : str) : option A :=
  val ← strip_prefix key opt; match from val with Ok a => Some a | Err _ => None end.

Definition last_said {A E} (key : str) (from : str -> result E A) (opts : list str) : option A :=
  list.last (omap (says key from) opts).

Lemma last_said_cons {A E} key (from : str -> result E A) opt opts :
  last_said key from (opt :: opts) = last_said key from opts ∪ says key from opt.
Proof.
  unfold last_said. cbn [omap list_omap]. destruct (says key from opt) as [a|].
  - rewrite last_cons. by destruct (list.last _).
  - by destruct (list.last _).
Qed.

(** The options asked for, over [nat]. *)
Definition asked (nat : NatOptions) (opts : list str) : NatOptions :=
  mk_nat (last_said (lit "snat=") from_str opts ∪ source_ip nat)
         (last_said (lit "dnat=") from_str opts ∪ dest_ip nat)
         (last_said (lit "sport=") parse_u16 opts ∪ source_port nat)
         (last_said (lit "dport=") parse_u16 opts ∪ dest_port nat).

Lemma option_union_assoc {A} (x y z : option A) : x ∪ (y ∪ z) = (x ∪ y) ∪ z.
Proof. by destruct x, y, z. Qed.

Lemma option_union_Some_l {A} (a : A) y : Some a ∪ y = Some a.
Proof. by destruct y. Qed.

Lemma nat_option_asked nat opt nat' opts :
  nat_option nat opt nat' -> asked nat' opts = asked nat (opt :: opts).
Proof.
  intros H. unfold asked. rewrite !last_said_cons.
  rewrite <- !option_union_assoc.
  destruct H as [val a Hv|val a Hv|val a Hv|val a Hv]; unfold says; eval_prefix; cbn [mbind option_bind];
    rewrite Hv; cbn [source_ip dest_ip source_port dest_port];
    by rewrite !(left_id_L None (∪)), option_union_Some_l.
Qed.

Lemma parse_nat_options_asked nat opts nat' :
  parse_nat_options nat opts = Ok nat' -> nat' = asked nat opts.
Proof.
  revert nat. induction opts as [|o os IH]; intros nat; cbn [parse_nat_options].
  - intros [= <-]. unfold asked, last_said. cbn [omap list_omap list.last].
    rewrite !(left_id_L None (∪)). by destruct nat.
  - intros H. invert_ok. erewrite IH by done. apply nat_option_asked. by apply parse_nat_option_iff.
Qed.

Lemma nat_option_wf nat opt nat' : nat_option nat opt nat' -> nat_wf nat -> nat_wf nat'.
Proof.
  destruct 1; intros [Hs Hd]; split; cbn; intros q Hq; simplify_eq; eauto with bcr.
Qed.

Lemma nat_option_has nat opt nat' : nat_option nat opt nat' -> has_nat nat' = true.
Proof.
  destruct 1; unfold has_nat; cbn [source_ip dest_ip source_port dest_port];
    rewrite ?(bool_decide_eq_true_2 (is_Some (Some _))) by done; by rewrite ?orb_true_r.
Qed.

Lemma parse_nat_options_wf nat opts nat' :
  parse_nat_options nat opts = Ok nat' -> nat_wf nat -> nat_wf nat'.
Proof.
  revert nat. induction opts as [|opt opts IH]; cbn; intros nat H Hwf; invert_ok; [done |].
  eapply IH; [done |]. eapply nat_option_wf; [by apply parse_nat_option_iff | done].
Qed.

Lemma nat_option_keeps nat opt nat' :
  nat_option nat opt nat' -> has_nat nat = true -> has_nat nat' = true.
Proof. intros H _. by eapply nat_option_has. Qed.

Lemma parse_nat_options_has nat opts nat' :
  parse_nat_options nat opts = Ok nat' -> opts <> [] -> has_nat nat' = true.
Proof.
  assert (forall os n n', parse_nat_options n os = Ok n' -> has_nat n = true ->
    has_nat n' = true) as Hkeep.
  { induction os as [|o os IH]; cbn; intros n n' H Hn; invert_ok; [done |].
    eapply IH; [done |]. eapply nat_option_keeps; [by apply parse_nat_option_iff | done]. }
  destruct opts as [|opt opts]; cbn; intros H Hne; invert_ok; [done |].
  eapply Hkeep; [done |]. eapply nat_option_has. by apply parse_nat_option_iff.
Qed.

Lemma parse_nat_options_known nat opts nat' :
  parse_nat_options nat opts = Ok nat' ->
  Forall (fun opt => exists n n', nat_option n opt n') opts.
Proof.
  revert nat. induction opts as [|opt opts IH]; cbn; intros nat H; [constructor |].
  invert_ok. constructor; [| by eapply IH]. eexists _, _. by apply parse_nat_option_iff.
Qed.

Lemma has_nat_false nat : has_nat nat = false -> nat = NatOptions_default.
Proof.
  destruct nat as [s d sp dp]. unfold has_nat. cbn. intros H. unbool.
  destruct s, d, sp, dp; try done; exfalso; naive_solver.
Qed.

(** ** Rules *)

(** The successful parses of a rule, step by step. *)
Lemma parse_rule_Ok line r :
  parse_rule line = Ok r ->
  exists p0 p1 p2 p3 opts,
    split_whitespace line = p0 :: p1 :: p2 :: p3 :: opts
    /\ parse_action p0 = Ok (action r)
    /\ parse_protocol p1 = Ok (protocol r)
    /\ parse_addr_port p2 = Ok (src_ip r, src_port r)
    /\ parse_dest_addr_port p3 = Ok (dst_ip r, dst_port r, broadcast_type r)
    /\ parse_nat_options NatOptions_default opts = Ok (rule_nat r)
    /\ bool_decide (action r = Deny) && has_nat (rule_nat r) = false.
Proof.
  unfold parse_rule. intros H. invert_ok. cbn. by eexists _, _, _, _, _.
Qed.

Lemma parse_rule_well_formed line r : parse_rule line = Ok r -> rule_wf r.
Proof.
  intros (p0 & p1 & p2 & p3 & opts & _ & _ & _ & Hsrc & Hdst & Hnat & Hdeny)%parse_rule_Ok.
  apply parse_addr_port_wf in Hsrc as [??].
  apply parse_dest_addr_port_wf in Hdst as (? & ? & ? & ?).
  apply parse_nat_options_wf in Hnat; [| by split].
  split; try done. intros Ha. apply has_nat_false.
  by rewrite (bool_decide_eq_true_2 _ Ha) in Hdeny.
Qed.

(** C29: every rule that loads is well formed: ports are 16-bit and their ranges are not
    inverted, CIDR masks come from a prefix of at most 32 bits, the broadcast keywords fix the
    destination matcher, and a deny rule has no NAT. *)
Theorem parse_rule_wf line r : parse_rule line = Ok r -> rule_wf r.
Proof. apply parse_rule_well_formed. Qed.

(** C28: the NAT of a rule that loads is what its options ask for, the last of each kind winning;
    each of them is an option of the grammar with a valid value, and a deny rule carries none at
    all: a misspelled option is never silently dropped. *)
Theorem parse_rule_options line r :
  parse_rule line = Ok r ->
  let opts := drop 4 (split_whitespace line) in
  rule_nat r = mk_nat (last_said (lit "snat=") from_str opts) (last_said (lit "dnat=") from_str opts)
                      (last_said (lit "sport=") parse_u16 opts) (last_said (lit "dport=") parse_u16 opts)
  /\ Forall (fun opt => exists n n', nat_option n opt n') opts
  /\ (action r = Deny -> opts = []).
Proof.
  intros (p0 & p1 & p2 & p3 & opts & -> & _ & _ & _ & _ & Hnat & Hdeny)%parse_rule_Ok.
  cbn. split_and!.
  - rewrite (parse_nat_options_asked _ _ _ Hnat). unfold asked. cbn [NatOptions_default source_ip dest_ip source_port dest_port].
    by rewrite !(right_id_L None (∪)).
  - by eapply parse_nat_options_known.
  - intros Ha. rewrite (bool_decide_eq_true_2 _ Ha) in Hdeny. cbn in Hdeny.
    destruct opts as [|o os]; [done |].
    by rewrite (parse_nat_options_has _ _ _ Hnat) in Hdeny.
Qed.

(** ** Files *)

Lemma parse_lines_Ok n acc ls c :
  parse_lines n acc ls = Ok c <->
  exists rs, Forall2 (fun l r => parse_rule l = Ok r)
               (List.filter (fun l => negb (skipped l)) (map trim ls)) rs
             /\ rules c = acc ++ rs.
Proof.
  revert n acc. induction ls as [|l ls IH]; intros n acc; cbn.
  - destruct c as [rs]. split.
    + intros [= ->]. exists []. cbn. by rewrite app_nil_r.
    + cbn. intros (rs' & Hrs%Forall2_nil_inv_l & ->). subst. by rewrite app_nil_r.
  - destruct (skipped (trim l)); cbn; [apply IH |].
    destruct (parse_rule (trim l)) as [r|e] eqn:E.
    + rewrite IH. split; intros (rs & Hrs & ->).
      * exists (r :: rs). rewrite <- app_assoc. by repeat constructor.
      * apply Forall2_cons_inv_l in Hrs as (r' & rs' & Hr & Hrs & ->).
        rewrite E in Hr. injection Hr as ->. exists rs'. by rewrite <- app_assoc.
    + split; [done |]. intros (rs & Hrs & _).
      apply Forall2_cons_inv_l in Hrs as (r' & rs' & Hr & _). congruence.
Qed.

Lemma parse_Ok content c :
  parse content = Ok c <-> Forall2 (fun l r => parse_rule l = Ok r) (rule_lines content) (rules c).
Proof.
  unfold parse. rewrite parse_lines_Ok. cbn. split; [by intros (rs & H & ->) | eauto].
Qed.

(** C26: a file loads exactly when each of its rule lines parses, and the rules are those of the
    lines, one for one and in the order of the file; blank lines and comments add nothing. *)
Theorem parse_Ok_iff content c :
  parse content = Ok c <-> Forall2 (fun l r => parse_rule l = Ok r) (rule_lines content) (rules c).
Proof. apply parse_Ok. Qed.

Lemma parse_lines_Err n acc ls m :
  parse_lines n acc ls = Err m <->
  exists i l e, ls !! i = Some l /\ skipped (trim l) = false /\ parse_rule (trim l) = Err e
    /\ Forall (fun l' => line_ok l' = true) (take i ls) /\ m = line_error (n + i) e.
Proof.
  revert n acc. induction ls as [|l ls IH]; intros n acc; cbn.
  - split; [done | by intros (i & l & e & Hi & _)].
  - assert (line_ok l = true ->
      (exists i l' e, ls !! i = Some l' /\ skipped (trim l') = false
        /\ parse_rule (trim l') = Err e /\ Forall (fun l' => line_ok l' = true) (take i ls)
        /\ m = line_error (S n + i) e) <->
      (exists i l' e, (l :: ls) !! i = Some l' /\ skipped (trim l') = false
        /\ parse_rule (trim l') = Err e /\ Forall (fun l' => line_ok l' = true) (take i (l :: ls))
        /\ m = line_error (n + i) e)) as Hshift.
    { intros Hl. split.
      - intros (i & l' & e & ? & ? & ? & ? & ->). exists (S i), l', e. cbn.
        rewrite Nat.add_succ_r. eauto 10 using Forall_cons_2.
      - intros (i & l' & e & Hi & Hs & He & Hok & ->). destruct i as [|i]; cbn in *.
        + simplify_eq. unfold line_ok in Hl. by rewrite Hs, He in Hl.
        + apply Forall_cons_1 in Hok as [_ Hok]. exists i, l', e.
          rewrite Nat.add_succ_r. eauto 10. }
    destruct (skipped (trim l)) eqn:Hs.
    + rewrite IH. apply Hshift. unfold line_ok. by rewrite Hs.
    + destruct (parse_rule (trim l)) as [r|e] eqn:He.
      * rewrite IH. apply Hshift. unfold line_ok. by rewrite He, orb_true_r.
      * split.
        -- intros [= <-]. exists 0%nat, l, e. rewrite Nat.add_0_r. by repeat split.
        -- intros (i & l' & e' & Hi & Hs' & He' & Hok & ->). destruct i as [|i]; cbn in *.
           ++ simplify_eq. by rewrite Nat.add_0_r, He in *; simplify_eq.
           ++ apply Forall_cons_1 in Hok as [Hok _]. unfold line_ok in Hok.
              by rewrite Hs, He in Hok.
Qed.

(** C27: loading fails exactly when some rule line does not parse, and the message names the
    first such line by its 1-based number, with that line's own error. *)
Theorem parse_Err_iff content m :
  parse content = Err m <->
  exists i l e, lines content !! i = Some l /\ skipped (trim l) = false
    /\ parse_rule (trim l) = Err e
    /\ Forall (fun l' => line_ok l' = true) (take i (lines content))
    /\ m = line_error i e.
Proof. apply (parse_lines_Err 0 []). Qed.

(** ** Witnesses *)

Lemma parse_rule_wf_witness :
  exists r, parse_rule (lit "allow udp 10.0.0.0/8:67-68 directed:any sport=68") = Ok r
            /\ rule_wf r.
Proof.
  eexists. split; [vm_compute; reflexivity |].
  apply (parse_rule_wf (lit "allow udp 10.0.0.0/8:67-68 directed:any sport=68")).
  vm_compute. reflexivity.
Defined.

Definition repeated_options : str := lit "allow any any:any 224.0.0.0/4:5353 sport=1 snat=10.0.0.1 sport=2".

Lemma parse_rule_options_witness :
  exists r, parse_rule repeated_options = Ok r
    /\ rule_nat r = mk_nat (Some (Ipv4Addr_new 10 0 0 1)) None (Some 2) None.
Proof.
  eexists. split; [vm_compute; reflexivity |].
  etransitivity; [exact (proj1 (parse_rule_options repeated_options _ eq_refl)) |].
  vm_compute. reflexivity.
Defined.
