(* ===== verification/ConfigGrammar.v ===== *)
(** * The configuration grammar: printing and parsing back

    An abstract syntax of the documented rule format
    ([ACTION PROTO SRC_IP:SRC_PORT DST_IP:DST_PORT [NAT_OPTIONS]]), its concrete text, and the
    rule each line denotes.  The round trip shows that the parser accepts every line of the
    grammar and gives it its meaning. *)

From S2P Require Import Prelude Bytes RustStr Config ConfigMatch ConfigParse.

(** ** Abstract syntax *)

Inductive ip_ast := A_any | A_addr (a : Ipv4Addr) | A_block (a : Ipv4Addr) (n : Z).

Inductive port_ast := P_any | P_one (p : Z) | P_range (a b : Z).

Inductive dst_ast := D_directed | D_ip (a : ip_ast).

Inductive opt_ast := O_snat (a : Ipv4Addr) | O_dnat (a : Ipv4Addr) | O_sport (p : Z) | O_dport (p : Z).

Record rule_ast := mk_ast {
  a_action : Action;
  a_protocol : Protocol;
  a_src : ip_ast;
  a_sport : port_ast;
  a_dst : dst_ast;
  a_dport : port_ast;
  a_opts : list opt_ast
}.

(** ** The rule a line denotes *)

Definition denote_ip (a : ip_ast) : IpMatcher :=
  match a with
  | A_any => IpMatcher_Any
  | A_addr a => IpMatcher_Exact a
  | A_block a n => cidr_matcher a n
  end.

Definition denote_port (p : port_ast) : PortMatcher :=
  match p with
  | P_any => PortMatcher_Any
  | P_one p => PortMatcher_Exact p
  | P_range a b => PortMatcher_Range a b
  end.

Definition denote_dst (d : dst_ast) : IpMatcher * BroadcastType :=
  match d with
  | D_directed => (IpMatcher_Any, BroadcastType_Directed)
  | D_ip (A_addr a) =>
      (IpMatcher_Exact a,
       if decide (a = limited_broadcast) then BroadcastType_Limited else BroadcastType_Any)
  | D_ip a => (denote_ip a, BroadcastType_Any)
  end.

(** A later option overrides an earlier one of the same kind. *)
Definition denote_opt (nat : NatOptions) (o : opt_ast) : NatOptions :=
  match o with
  | O_snat a => mk_nat (Some a) (dest_ip nat) (source_port nat) (dest_port nat)
  | O_dnat a => mk_nat (source_ip nat) (Some a) (source_port nat) (dest_port nat)
  | O_sport p => mk_nat (source_ip nat) (dest_ip nat) (Some p) (dest_port nat)
  | O_dport p => mk_nat (source_ip nat) (dest_ip nat) (source_port nat) (Some p)
  end.

Definition denote_rule (r : rule_ast) : Rule :=
  mk_rule (a_action r) (a_protocol r) (denote_ip (a_src r)) (denote_port (a_sport r))
    (denote_dst (a_dst r)).1 (denote_port (a_dport r)) (denote_dst (a_dst r)).2
    (fold_left denote_opt (a_opts r) NatOptions_default).

(** ** Concrete syntax *)

Definition print_ip (a : ip_ast) : str :=
  match a with
  | A_any => lit "any"
  | A_addr a => show_ip a
  | A_block a n => show_ip a ++ lit "/" ++ show n
  end.

Definition print_port (p : port_ast) : str :=
  match p with
  | P_any => lit "any"
  | P_one p => show p
  | P_range a b => show a ++ lit "-" ++ show b
  end.

Definition print_dst (d : dst_ast) : str :=
  match d with D_directed => lit "directed" | D_ip a => print_ip a end.

Definition print_opt (o : opt_ast) : str :=
  match o with
  | O_snat a => lit "snat=" ++ show_ip a
  | O_dnat a => lit "dnat=" ++ show_ip a
  | O_sport p => lit "sport=" ++ show p
  | O_dport p => lit "dport=" ++ show p
  end.

Definition print_action (a : Action) : str :=
  match a with Allow => lit "allow" | Deny => lit "deny" end.

Definition print_protocol (p : Protocol) : str :=
  match p with Protocol_Udp => lit "udp" | Protocol_Any => lit "any" end.

Definition rule_words (r : rule_ast) : list str :=
  [print_action (a_action r); print_protocol (a_protocol r);
   print_ip (a_src r) ++ lit ":" ++ print_port (a_sport r);
   print_dst (a_dst r) ++ lit ":" ++ print_port (a_dport r)]
  ++ map print_opt (a_opts r).

Fixpoint unwords (ws : list str) : str :=
  match ws with
  | [] => []
  | [w] => w
  | w :: ws => w ++ lit " " ++ unwords ws
  end.

Definition print_rule (r : rule_ast) : str := unwords (rule_words r).

(** One rule per line. *)
Definition print_config (rs : list rule_ast) : str :=
  concat (map (fun r => print_rule r ++ [10]) rs).

(** ** Well-formed syntax *)

Definition ip_ast_ok (a : ip_ast) : Prop :=
  match a with A_block _ n => 0 <= n <= 32 | _ => True end.

Definition port_ast_ok (p : port_ast) : Prop :=
  match p with
  | P_any => True
  | P_one p => 0 <= p <= u16_max
  | P_range a b => 0 <= a <= b /\ b <= u16_max
  end.

Definition opt_ast_ok (o : opt_ast) : Prop :=
  match o with O_sport p | O_dport p => 0 <= p <= u16_max | _ => True end.

Record rule_ast_ok (r : rule_ast) : Prop := {
  ok_src : ip_ast_ok (a_src r);
  ok_sport : port_ast_ok (a_sport r);
  ok_dst : forall a, a_dst r = D_ip a -> ip_ast_ok a;
  ok_dport : port_ast_ok (a_dport r);
  ok_opts : Forall opt_ast_ok (a_opts r);
  ok_deny : a_action r = Deny -> a_opts r = []
}.

(** ** The characters of the printed text *)

Definition addr_char (c : Z) : Prop := is_digit c \/ c = 46.

(** Printable ASCII: no white space, so no separator of words or lines. *)
Definition word_char (c : Z) : Prop := 33 <= c <= 126.

Lemma show_ip_chars ip : Forall addr_char (show_ip ip).
Proof.
  unfold show_ip.
  assert (forall b, Forall addr_char (show (u8_val b))) as Hb.
  { intros b. eapply List.Forall_impl; [by left |].
    apply show_digits. pose proof (u8_val_range b). lia. }
  repeat (apply Forall_app; split; [apply Hb |];
          apply Forall_app; split; [by repeat constructor; right |]). apply Hb.
Qed.

Lemma addr_word c : addr_char c -> word_char c.
Proof. unfold addr_char, is_digit, word_char. lia. Qed.

Lemma digit_word c : is_digit c -> word_char c.
Proof. unfold is_digit, word_char. lia. Qed.

Lemma word_not_space c : word_char c -> is_whitespace c = false.
Proof. unfold word_char, is_whitespace. lia. Qed.

Lemma show_word n : 0 <= n -> Forall word_char (show n).
Proof. intros. eapply List.Forall_impl; [apply digit_word | by apply show_digits]. Qed.

Lemma show_ip_word ip : Forall word_char (show_ip ip).
Proof. eapply List.Forall_impl; [apply addr_word | apply show_ip_chars]. Qed.

Lemma lit_any_word : Forall word_char (lit "any").
Proof. repeat constructor; cbv; congruence. Qed.

Lemma print_ip_word a : ip_ast_ok a -> Forall word_char (print_ip a).
Proof.
  destruct a; cbn [print_ip ip_ast_ok]; intros.
  - apply lit_any_word.
  - apply show_ip_word.
  - apply Forall_app. split; [apply show_ip_word |]. constructor; [cbv; split; congruence |].
    apply show_word. lia.
Qed.

Lemma print_port_word p : port_ast_ok p -> Forall word_char (print_port p).
Proof.
  destruct p; cbn [print_port port_ast_ok]; intros.
  - apply lit_any_word.
  - apply show_word. lia.
  - apply Forall_app. split; [apply show_word; lia |].
    constructor; [cbv; split; congruence |]. apply show_word. lia.
Qed.

(** ** Parsing the printed fields *)

Definition avoids (c : Z) (s : str) : Prop := Forall (fun d => d <> c) s.

Lemma show_avoids c n : 0 <= n -> ~ is_digit c -> avoids c (show n).
Proof. intros Hn Hc. eapply List.Forall_impl; [| by apply show_digits]. by intros d Hd ->. Qed.

Lemma show_ip_avoids c ip : ~ addr_char c -> avoids c (show_ip ip).
Proof. intros Hc. eapply List.Forall_impl; [| apply show_ip_chars]. by intros d Hd ->. Qed.

Lemma avoids_app c s t : avoids c s -> avoids c t -> avoids c (s ++ t).
Proof. intros. by apply Forall_app. Qed.

Lemma lit_any_avoids c : c < 97 -> avoids c (lit "any").
Proof. intros. repeat constructor; cbn; lia. Qed.

Lemma split_on_two sep w1 w2 :
  avoids sep w1 -> avoids sep w2 -> split_on sep (w1 ++ sep :: w2) = [w1; w2].
Proof.
  assert (forall w, avoids sep w -> Forall (fun c => (c =? sep) = false) w) as Hp.
  { intros w Hw. eapply List.Forall_impl; [| apply Hw]. intros. by apply Z.eqb_neq. }
  intros. unfold split_on. rewrite split_pred_app, split_pred_word; auto using Z.eqb_refl.
Qed.

Lemma contains_sep c s t : contains c (s ++ c :: t) = true.
Proof. rewrite contains_app. cbn. by rewrite Z.eqb_refl, orb_true_r. Qed.

Lemma not_any s (P : Z -> Prop) : Forall P s -> ~ P 97 -> bool_decide (s = lit "any") = false.
Proof.
  intros Hs Hp. apply bool_decide_eq_false. intros ->. apply Hp. by apply Forall_cons_1 in Hs as [? _].
Qed.

Lemma not_any_sep c s t : c < 97 -> bool_decide (s ++ c :: t = lit "any") = false.
Proof.
  intros Hc. apply bool_decide_eq_false. intros Heq.
  pose proof (contains_sep c s t) as H. rewrite Heq in H.
  by rewrite (contains_false c) in H by (by apply lit_any_avoids).
Qed.

Lemma from_str_show ip : from_str (show_ip ip) = Ok ip.
Proof. unfold from_str. by rewrite Ipv4Addr_from_str_show. Qed.

Lemma parse_u16_show p : 0 <= p <= u16_max -> parse_u16 (show p) = Ok p.
Proof. apply parse_show. Qed.

Lemma parse_ip_matcher_print a :
  ip_ast_ok a -> parse_ip_matcher (print_ip a) = Ok (denote_ip a).
Proof.
  unfold parse_ip_matcher. destruct a as [|a|a n]; cbn [print_ip ip_ast_ok denote_ip]; intros Hok.
  - done.
  - rewrite (not_any _ _ (show_ip_chars a)) by (unfold addr_char, is_digit; lia).
    rewrite contains_false by (apply show_ip_avoids; unfold addr_char, is_digit; lia).
    by rewrite from_str_show.
  - change (show_ip a ++ lit "/" ++ show n) with (show_ip a ++ 47 :: show n).
    rewrite not_any_sep, contains_sep by lia.
    rewrite split_on_two.
    2: apply show_ip_avoids; unfold addr_char, is_digit; lia.
    2: apply show_avoids; unfold is_digit; lia.
    rewrite from_str_show. cbn [with_context map_err mbind result_bind].
    unfold parse_u32. rewrite parse_show by (unfold u32_max; lia).
    cbn [with_context map_err mbind result_bind].
    by rewrite (proj2 (Z.ltb_ge 32 n)) by lia.
Qed.

Lemma parse_port_matcher_print p :
  port_ast_ok p -> parse_port_matcher (print_port p) = Ok (denote_port p).
Proof.
  unfold parse_port_matcher. destruct p as [|p|a b]; cbn [print_port port_ast_ok denote_port]; intros Hok.
  - done.
  - rewrite (not_any _ _ (show_digits p ltac:(lia))) by (unfold is_digit; lia).
    rewrite contains_false by (apply show_avoids; unfold is_digit; lia).
    by rewrite parse_u16_show.
  - change (show a ++ lit "-" ++ show b) with (show a ++ 45 :: show b).
    rewrite not_any_sep, contains_sep by lia.
    rewrite split_on_two by (apply show_avoids; unfold is_digit; lia).
    rewrite !parse_u16_show by lia. cbn [with_context map_err mbind result_bind].
    by rewrite (proj2 (Z.ltb_ge b a)) by lia.
Qed.

Lemma print_port_avoids p : port_ast_ok p -> avoids 58 (print_port p).
Proof.
  destruct p; cbn [print_port port_ast_ok]; intros.
  - by apply lit_any_avoids.
  - apply show_avoids; [| unfold is_digit]; lia.
  - apply avoids_app; [| constructor; [done |]];
      (apply show_avoids; [| unfold is_digit]; lia).
Qed.

Lemma print_ip_avoids a : ip_ast_ok a -> avoids 58 (print_ip a).
Proof.
  destruct a; cbn [print_ip ip_ast_ok]; intros.
  - by apply lit_any_avoids.
  - apply show_ip_avoids. unfold addr_char, is_digit. lia.
  - apply avoids_app; [| constructor; [done |]].
    + apply show_ip_avoids. unfold addr_char, is_digit. lia.
    + apply show_avoids; [| unfold is_digit]; lia.
Qed.

Lemma parse_addr_port_print a p :
  ip_ast_ok a -> port_ast_ok p ->
  parse_addr_port (print_ip a ++ lit ":" ++ print_port p) = Ok (denote_ip a, denote_port p).
Proof.
  intros. unfold parse_addr_port.
  change (lit ":" ++ print_port p) with (58 :: print_port p).
  rewrite split_on_two by auto using print_ip_avoids, print_port_avoids.
  rewrite parse_ip_matcher_print by done. run. by rewrite parse_port_matcher_print.
Qed.

Lemma show_ip_not_limited a :
  a <> limited_broadcast -> bool_decide (show_ip a = lit "255.255.255.255") = false.
Proof.
  intros Hne. apply bool_decide_eq_false. intros Heq. apply Hne.
  pose proof (Ipv4Addr_from_str_show a) as H. rewrite Heq in H.
  vm_compute in H. by injection H as <-.
Qed.

Lemma not_lit (P : Z -> Prop) s t :
  Forall P s -> Exists (fun c => ~ P c) t -> bool_decide (s = t) = false.
Proof.
  intros Hs Ht. apply bool_decide_eq_false. intros ->.
  apply Exists_exists in Ht as (c & Hc & Hn). rewrite List.Forall_forall in Hs. by apply Hn, Hs.
Qed.

Lemma not_lit_sep c s t w :
  contains c w = false -> bool_decide (s ++ c :: t = w) = false.
Proof.
  intros Hw. apply bool_decide_eq_false. intros <-. by rewrite contains_sep in Hw.
Qed.

Lemma directed_not_addr : Exists (fun c => ~ addr_char c) (lit "directed").
Proof. left. intros [[_ H]|H]; [by apply H | done]. Qed.

Lemma print_dst_avoids d : (forall a, d = D_ip a -> ip_ast_ok a) -> avoids 58 (print_dst d).
Proof.
  destruct d as [|a]; cbn [print_dst]; intros H.
  - repeat constructor; cbn; lia.
  - apply print_ip_avoids. by apply H.
Qed.

Lemma parse_dest_addr_port_print d p :
  (forall a, d = D_ip a -> ip_ast_ok a) -> port_ast_ok p ->
  parse_dest_addr_port (print_dst d ++ lit ":" ++ print_port p)
  = Ok ((denote_dst d).1, denote_port p, (denote_dst d).2).
Proof.
  intros Hd Hp. unfold parse_dest_addr_port.
  change (lit ":" ++ print_port p) with (58 :: print_port p).
  rewrite split_on_two by auto using print_dst_avoids, print_port_avoids.
  rewrite parse_port_matcher_print by done. run.
  destruct d as [|[|a|a n]]; cbn [print_dst print_ip denote_dst fst snd]; [done | done | |].
  - case_decide as Ha.
    + subst a. replace (show_ip limited_broadcast) with (lit "255.255.255.255") by done.
      by rewrite bool_decide_eq_true_2.
    + rewrite show_ip_not_limited by done.
      rewrite (not_lit addr_char _ (lit "directed")), (not_any _ addr_char)
        by (apply show_ip_chars || apply directed_not_addr || (unfold addr_char, is_digit; lia)).
      pose proof (parse_ip_matcher_print (A_addr a) I) as H. cbn [print_ip denote_ip] in H.
      by rewrite H.
  - change (show_ip a ++ lit "/" ++ show n) with (show_ip a ++ 47 :: show n).
    rewrite !not_lit_sep by done.
    pose proof (parse_ip_matcher_print (A_block a n) (Hd _ eq_refl)) as H.
    cbn [print_ip denote_ip] in H.
    change (show_ip a ++ lit "/" ++ show n) with (show_ip a ++ 47 :: show n) in H. by rewrite H.
Qed.

Lemma parse_nat_option_print nat o :
  opt_ast_ok o -> parse_nat_option nat (print_opt o) = Ok (denote_opt nat o).
Proof.
  intros Ho. apply parse_nat_option_iff.
  destruct o; cbn [print_opt denote_opt opt_ast_ok] in *; constructor;
    auto using from_str_show, parse_u16_show.
Qed.

Lemma parse_nat_options_print nat os :
  Forall opt_ast_ok os -> parse_nat_options nat (map print_opt os) = Ok (fold_left denote_opt os nat).
Proof.
  intros Hos. revert nat. induction Hos as [|o os Ho _ IH]; intros nat; cbn [parse_nat_options map fold_left];
    [done |]. rewrite parse_nat_option_print by done. apply IH.
Qed.

(** ** Words and lines *)

(** A field: non-empty, printable. *)
Definition word (w : str) : Prop := w <> [] /\ Forall word_char w.

Lemma unwords_cons w w' ws : unwords (w :: w' :: ws) = w ++ 32 :: unwords (w' :: ws).
Proof. reflexivity. Qed.

Lemma split_whitespace_unwords ws : Forall word ws -> split_whitespace (unwords ws) = ws.
Proof.
  assert (forall w, Forall word_char w -> Forall (fun c => is_whitespace c = false) w) as Hw.
  { intros w. apply List.Forall_impl. apply word_not_space. }
  unfold split_whitespace. induction 1 as [|w ws [Hne Hchars] Hws IH]; [done |].
  destruct ws as [|w' ws].
  - cbn [unwords]. rewrite split_pred_word by auto. by destruct w.
  - rewrite unwords_cons, split_pred_app by auto. cbn [List.filter].
    destruct w; [done |]. cbn [is_empty negb]. by f_equal.
Qed.

Lemma unwords_first w ws : word w -> exists c s, unwords (w :: ws) = c :: s /\ word_char c.
Proof.
  intros [Hne Hw]. destruct w as [|c w]; [done |]. apply Forall_cons_1 in Hw as [Hc _].
  destruct ws; cbn; eauto.
Qed.

Lemma unwords_last w ws :
  Forall word (w :: ws) -> exists d r, rev (unwords (w :: ws)) = d :: r /\ word_char d.
Proof.
  revert w. induction ws as [|w' ws IH]; intros w Hws; apply Forall_cons_1 in Hws as [[Hne Hw] Hws].
  - cbn [unwords]. destruct w as [|d w] using rev_ind; [done |].
    apply Forall_app in Hw as [_ Hd]. apply Forall_cons_1 in Hd as [Hd _].
    rewrite rev_app_distr. cbn. eauto.
  - destruct (IH w' Hws) as (d & r & Heq & Hd).
    rewrite unwords_cons, rev_app_distr. cbn [rev]. rewrite Heq. cbn. eauto.
Qed.

Lemma trim_unwords w ws : Forall word (w :: ws) -> trim (unwords (w :: ws)) = unwords (w :: ws).
Proof.
  intros Hws. pose proof (Forall_cons_1 _ _ _ Hws) as [Hw _].
  destruct (unwords_first w ws Hw) as (c & s & Hs & Hc%word_not_space).
  destruct (unwords_last w ws Hws) as (d & r & Hr & Hd%word_not_space).
  unfold trim. rewrite Hs in *. cbn [trim_start]. rewrite Hc, Hr. cbn [trim_start].
  rewrite Hd, <- Hr. apply rev_involutive.
Qed.

Lemma unwords_avoids ws c : Forall word ws -> c <= 31 -> avoids c (unwords ws).
Proof.
  intros Hws Hc. assert (forall w, word w -> avoids c w) as Hw.
  { intros w [_ Hw]. eapply List.Forall_impl; [| apply Hw]. unfold word_char. lia. }
  induction Hws as [|w ws Hword Hws IH]; [constructor |].
  destruct ws as [|w' ws]; [by apply Hw |].
  rewrite unwords_cons. apply avoids_app; [by apply Hw |]. constructor; [lia | done].
Qed.

Lemma split_inclusive_line l s :
  avoids 10 l -> split_inclusive_lf (l ++ 10 :: s) = (l ++ [10]) :: split_inclusive_lf s.
Proof.
  induction 1 as [|c l Hc _ IH]; [done |]. cbn.
  by rewrite (proj2 (Z.eqb_neq c 10)), IH by done.
Qed.

Lemma lines_unlines ls :
  Forall (fun l => avoids 10 l /\ strip_last 13 l = None) ls ->
  lines (concat (map (fun l => l ++ [10]) ls)) = ls.
Proof.
  unfold lines. induction 1 as [|l ls [Hl Hcr] _ IH]; [done |].
  cbn [map concat]. rewrite <- app_assoc. cbn [app].
  rewrite split_inclusive_line by done. cbn [map]. f_equal; [| done].
  unfold strip_last at 1. rewrite rev_app_distr. cbn [rev app Z.eqb Pos.eqb].
  by rewrite rev_involutive, Hcr.
Qed.

Lemma lit_word (s : String.string) :
  forallb (fun c => (33 <=? c) && (c <=? 126)) (lit s) = true -> lit s <> [] -> word (lit s).
Proof.
  intros H Hne. split; [done |]. apply List.Forall_forall. intros c Hc.
  rewrite forallb_forall in H. apply H in Hc. unfold word_char. lia.
Qed.

Lemma word_app s t : s <> [] -> Forall word_char s -> Forall word_char t -> word (s ++ t).
Proof. intros Hne Hs Ht. split; [by destruct s | by apply Forall_app]. Qed.

Lemma print_opt_word o : opt_ast_ok o -> word (print_opt o).
Proof.
  destruct o; cbn [print_opt opt_ast_ok]; intros; apply word_app;
    first [done | apply show_ip_word | apply show_word; lia | by apply lit_word].
Qed.

Lemma print_dst_word d :
  (forall a, d = D_ip a -> ip_ast_ok a) -> Forall word_char (print_dst d).
Proof.
  destruct d as [|a]; cbn [print_dst]; intros H; [by apply lit_word | by apply print_ip_word, H].
Qed.

Lemma addr_port_word s t :
  Forall word_char s -> Forall word_char t -> word (s ++ lit ":" ++ t).
Proof.
  intros. split; [by destruct s |]. apply Forall_app. split; [done |].
  apply Forall_app. split; [by apply lit_word | done].
Qed.

Lemma rule_words_ok r : rule_ast_ok r -> Forall word (rule_words r).
Proof.
  intros []. unfold rule_words. apply Forall_app. split.
  - repeat apply List.Forall_cons; [| | | | constructor].
    + destruct (a_action r); by apply lit_word.
    + destruct (a_protocol r); by apply lit_word.
    + apply addr_port_word; [by apply print_ip_word | by apply print_port_word].
    + apply addr_port_word; [by apply print_dst_word | by apply print_port_word].
  - apply Forall_map. eapply List.Forall_impl; [apply print_opt_word | done].
Qed.

Lemma parse_action_print a : parse_action (print_action a) = Ok a.
Proof. by destruct a. Qed.

Lemma parse_protocol_print p : parse_protocol (print_protocol p) = Ok p.
Proof. by destruct p. Qed.

Lemma parse_rule_print r : rule_ast_ok r -> parse_rule (print_rule r) = Ok (denote_rule r).
Proof.
  intros Hr. unfold parse_rule, print_rule.
  rewrite split_whitespace_unwords by by apply rule_words_ok. destruct Hr.
  unfold rule_words. cbn [app]. rewrite parse_action_print. run.
  rewrite parse_protocol_print. run. rewrite parse_addr_port_print by done. run.
  rewrite parse_dest_addr_port_print by done. run.
  rewrite parse_nat_options_print by done. run.
  replace (_ && _) with false; [done |]. symmetry.
  destruct (a_action r); [done |]. by rewrite ok_deny0.
Qed.

Lemma rule_words_cons r : rule_ast_ok r -> exists w ws, rule_words r = w :: ws /\ Forall word (w :: ws).
Proof. intros Hr. eexists _, _. split; [reflexivity | by apply (rule_words_ok r)]. Qed.

Lemma print_rule_not_skipped r : rule_ast_ok r -> skipped (print_rule r) = false.
Proof.
  intros _. unfold print_rule, rule_words, skipped. cbn [app]. rewrite unwords_cons.
  by destruct (a_action r).
Qed.

Lemma print_rule_line r : rule_ast_ok r -> trim (print_rule r) = print_rule r.
Proof.
  intros (w & ws & Heq & Hws)%rule_words_cons. unfold print_rule. rewrite Heq. by apply trim_unwords.
Qed.

Lemma print_rule_no_eol r :
  rule_ast_ok r -> avoids 10 (print_rule r) /\ strip_last 13 (print_rule r) = None.
Proof.
  intros Hr. split; [apply unwords_avoids; [by apply rule_words_ok | lia] |].
  apply rule_words_cons in Hr as (w & ws & Heq & Hws). unfold print_rule, strip_last. rewrite Heq.
  destruct (unwords_last w ws Hws) as (d & r' & -> & Hd).
  unfold word_char in Hd. by rewrite (proj2 (Z.eqb_neq d 13)) by lia.
Qed.

Lemma parse_printed rs :
  Forall rule_ast_ok rs -> parse (print_config rs) = Ok (mk_config (map denote_rule rs)).
Proof.
  intros Hrs. apply parse_Ok. unfold rule_lines.
  replace (lines (print_config rs)) with (map print_rule rs).
  - induction Hrs as [|r rs Hr _ IH]; cbn [map List.filter rules]; [constructor |].
    rewrite print_rule_line, print_rule_not_skipped by done. cbn [negb].
    constructor; [by apply parse_rule_print | done].
  - symmetry. unfold print_config. rewrite <- (map_map print_rule (fun l => l ++ [10])).
    apply lines_unlines. apply Forall_map.
    eapply List.Forall_impl; [apply print_rule_no_eol | done].
Qed.

(** C24: every configuration of the documented grammar loads, and gives exactly the rules its
    lines denote, in order: parsing inverts printing. *)
Theorem parse_print rs :
  Forall rule_ast_ok rs -> parse (print_config rs) = Ok (mk_config (map denote_rule rs)).
Proof. apply parse_printed. Qed.

(** ** Every configuration that loads has a text in the grammar *)

Lemma from_str_Ok s ip : from_str s = Ok ip -> s = show_ip ip.
Proof.
  unfold from_str. destruct (Ipv4Addr_from_str s) as [ip'|] eqn:E; [| done].
  intros [= ->]. by apply Ipv4Addr_from_str_Some.
Qed.

Lemma parse_ip_matcher_exact s a : parse_ip_matcher s = Ok (IpMatcher_Exact a) -> s = show_ip a.
Proof.
  unfold parse_ip_matcher. intros H. invert_ok; try discriminate; by apply from_str_Ok.
Qed.

(** The limited broadcast address has one text, so it always gets its broadcast type. *)
Lemma parse_dest_limited s p t :
  parse_dest_addr_port s = Ok (IpMatcher_Exact limited_broadcast, p, t) -> t = BroadcastType_Limited.
Proof.
  unfold parse_dest_addr_port. intros H. invert_ok; simplify_eq; try done.
  match goal with H : parse_ip_matcher _ = Ok _ |- _ => apply parse_ip_matcher_exact in H end.
  subst. by match goal with H : bool_decide (show_ip _ = lit "255.255.255.255") = false |- _ =>
    apply bool_decide_eq_false in H end.
Qed.

Lemma ip_denoted m : ip_wf m -> exists a, ip_ast_ok a /\ denote_ip a = m.
Proof.
  destruct m as [|a|a mask]; cbn [ip_wf].
  - by exists A_any.
  - by exists (A_addr a).
  - intros (a' & n & Hn & ->). by exists (A_block a' n).
Qed.

Lemma port_denoted m : port_wf m -> exists p, port_ast_ok p /\ denote_port p = m.
Proof.
  destruct m as [|p|a b]; cbn [port_wf]; intros H.
  - by exists P_any.
  - by exists (P_one p).
  - by exists (P_range a b).
Qed.

Lemma dst_denoted m t :
  ip_wf m -> (t = BroadcastType_Limited -> m = IpMatcher_Exact limited_broadcast) ->
  (t = BroadcastType_Directed -> m = IpMatcher_Any) ->
  (m = IpMatcher_Exact limited_broadcast -> t = BroadcastType_Limited) ->
  exists d, (forall a, d = D_ip a -> ip_ast_ok a) /\ denote_dst d = (m, t).
Proof.
  intros Hwf Hl Hd Hx. destruct t.
  - destruct (ip_denoted m Hwf) as (a & Ha & <-). exists (D_ip a).
    split; [by intros ? [= <-] |]. destruct a as [|a|a n]; [done | | done]. cbn [denote_dst denote_ip].
    rewrite decide_False; [done |]. intros ->. by specialize (Hx eq_refl).
  - rewrite (Hl eq_refl). exists (D_ip (A_addr limited_broadcast)).
    split; [by intros ? [= <-] |]. reflexivity.
  - rewrite (Hd eq_refl). by exists D_directed.
Qed.

(** The options of a rule, in the order of the documentation. *)
Definition opts_of (nat : NatOptions) : list opt_ast :=
  option_list (O_snat <$> source_ip nat) ++ option_list (O_dnat <$> dest_ip nat)
  ++ option_list (O_sport <$> source_port nat) ++ option_list (O_dport <$> dest_port nat).

Lemma opts_denoted nat :
  nat_wf nat -> Forall opt_ast_ok (opts_of nat) /\ fold_left denote_opt (opts_of nat) NatOptions_default = nat.
Proof.
  destruct nat as [[] [] [] []]; intros [Hs Hd]; cbn in *; (split; [| reflexivity]);
    repeat (apply List.Forall_cons; [cbn; auto |]); constructor.
Qed.

Lemma rule_denoted line r :
  parse_rule line = Ok r -> exists a, rule_ast_ok a /\ denote_rule a = r.
Proof.
  intros H. destruct (parse_rule_well_formed _ _ H) as [Hsrc Hsp Hdst Hdp Hnat Hlim Hdir Hdeny].
  assert (dst_ip r = IpMatcher_Exact limited_broadcast -> broadcast_type r = BroadcastType_Limited) as Hx.
  { apply parse_rule_Ok in H as (? & ? & ? & p3 & ? & _ & _ & _ & _ & Hd & _). intros Heq.
    rewrite Heq in Hd. by apply parse_dest_limited in Hd. }
  destruct (ip_denoted _ Hsrc) as (src & Hs1 & Hs2), (port_denoted _ Hsp) as (sport & Hp1 & Hp2),
    (dst_denoted _ _ Hdst Hlim Hdir Hx) as (dst & Hd1 & Hd2), (port_denoted _ Hdp) as (dport & Hq1 & Hq2),
    (opts_denoted _ Hnat) as [Ho1 Ho2].
  exists (mk_ast (action r) (protocol r) src sport dst dport (opts_of (rule_nat r))). split.
  - split; cbn; try done. intros Ha. by rewrite (Hdeny Ha).
  - unfold denote_rule. cbn. rewrite Hs2, Hp2, Hd2, Hq2, Ho2. by destruct r.
Qed.

(** C25 (roundtrip): every configuration that loads has a normal form: a text of the documented
    grammar, one rule per line, that denotes its rules and loads as the same configuration.
    Nothing the parser accepts is outside what the grammar can say. *)
Theorem parse_normal_form content c :
  parse content = Ok c ->
  exists rs, Forall rule_ast_ok rs /\ rules c = map denote_rule rs /\ parse (print_config rs) = Ok c.
Proof.
  intros H%parse_Ok.
  assert (exists rs, Forall rule_ast_ok rs /\ rules c = map denote_rule rs) as (rs & Hok & Heq).
  { induction H as [|l r ls rs' Hl _ (rs & Hok & ->)]; [by exists [] |].
    apply rule_denoted in Hl as (a & Ha & <-). exists (a :: rs). by split; [constructor |]. }
  exists rs. split_and!; [done | done |]. rewrite (parse_printed rs Hok), <- Heq. by destruct c.
Qed.

Definition example_asts : list rule_ast :=
  [mk_ast Allow Protocol_Udp (A_block (Ipv4Addr_new 192 168 1 0) 24) (P_one 1900)
     (D_ip (A_addr limited_broadcast)) (P_range 1900 1901)
     [O_snat (Ipv4Addr_new 10 0 0 1); O_sport 1900];
   mk_ast Deny Protocol_Any A_any P_any D_directed P_any []].

Lemma parse_print_witness :
  Forall rule_ast_ok example_asts
  /\ parse (print_config example_asts) = Ok (mk_config (map denote_rule example_asts)).
Proof.
  assert (Forall rule_ast_ok example_asts) as H.
  { repeat constructor; cbn; try (intros; simplify_eq; cbn; done); unfold u16_max; lia. }
  split; [exact H | exact (parse_print example_asts H)].
Defined.

(** A text with comments, odd spacing and a repeated option, and its normal form. *)
Definition messy_text : str :=
  lit "# comment" ++ [10; 10]
  ++ lit "  allow   udp 192.168.1.77/24:1900   255.255.255.255:1900-1901  sport=1 snat=10.0.0.1 sport=1900" ++ [13; 10]
  ++ lit "deny any any:any directed:any".

Example messy_normal_form :
  parse messy_text = parse (print_config example_asts).
Proof. vm_compute. reflexivity. Qed.

Lemma parse_normal_form_witness :
  exists c, parse messy_text = Ok c /\
  exists rs, Forall rule_ast_ok rs /\ rules c = map denote_rule rs /\ parse (print_config rs) = Ok c.
Proof.
  destruct (parse messy_text) as [c|e] eqn:E; [| vm_compute in E; discriminate E].
  exists c. split; [reflexivity | exact (parse_normal_form messy_text c E)].
Defined.
