(* ===== verification/ExampleConfigs.v ===== *)
(** * The example configurations

    The files [src/examples/sample.conf] and [src/examples/test.conf], character for character
    (34 is the quotation mark, 8212 the em dash), and what they mean. *)

From S2P Require Import Prelude Bytes RustStr Config.

(** A file of lines that all end in LF. *)
Definition text (ls : list str) : str := flat_map (fun l => l ++ [10]) ls.

Definition sample_conf : str := text [
  lit "# bcr.conf " ++ [8212] ++ lit " Broadcast Relay configuration";
  lit "#";
  lit "# Rule format:";
  lit "#   ACTION PROTO SRC_IP[:SRC_PORT] DST_IP[:DST_PORT] [NAT_OPTIONS]";
  lit "#";
  lit "#   ACTION    allow | deny";
  lit "#   PROTO     udp | any            (TCP is not relayed)";
  lit "#   SRC_IP    x.x.x.x | x.x.x.x/n | any";
  lit "#   DST_IP    x.x.x.x | x.x.x.x/n | 255.255.255.255 | directed | any";
  lit "#   *_PORT    port | start-end | any";
  lit "#";
  lit "#   NAT_OPTIONS (optional, allow rules only):";
  lit "#     snat=IP     rewrite source IP";
  lit "#     dnat=IP     rewrite destination IP";
  lit "#     sport=PORT  rewrite source port";
  lit "#     dport=PORT  rewrite destination port";
  lit "#";
  lit "# Rules are evaluated top-to-bottom; the FIRST match wins.";
  lit "#";
  lit "# Deny-by-default is built in: any packet that matches no rule is dropped.";
  lit "# You do NOT need a trailing " ++ [34] ++ lit "deny any any:any any:any" ++ [34] ++ lit " " ++ [8212] ++ lit " it is redundant.";
  lit "#";
  lit "# Parsing is strict: typos, bad values, inverted port ranges, and NAT options";
  lit "# on a deny rule are startup errors, not silent no-ops. Start bcr once after";
  lit "# editing to confirm the config loads.";
  lit "#";
  lit "# Keep this file as tight as possible: a broadcast relay moves traffic between";
  lit "# segments that are otherwise isolated, so only allow what you actually need.";
  [];
  lit "# --- Windows / SMB discovery -------------------------------------------------";
  lit "# NetBIOS name service, datagram service, and session service.";
  lit "allow udp any:137-139 255.255.255.255:137-139";
  [];
  lit "# --- DHCP --------------------------------------------------------------------";
  lit "# Relay DHCP discover/offer broadcasts. Scope SRC_IP if you can.";
  lit "allow udp any:67-68 255.255.255.255:67-68";
  [];
  lit "# --- Zero-config / service discovery (multicast) -----------------------------";
  lit "# mDNS / Bonjour / Avahi";
  lit "allow udp any:5353 224.0.0.251:5353";
  lit "# SSDP / UPnP";
  lit "allow udp any:1900 239.255.255.250:1900";
  [];
  lit "# --- Directed broadcasts from a trusted subnet -------------------------------";
  lit "# Relay subnet-directed broadcasts that originate from 10.0.0.0/24.";
  lit "allow udp 10.0.0.0/24:any directed:any";
  [];
  lit "# --- Example with source NAT -------------------------------------------------";
  lit "# Relay SSDP from 192.168.1.0/24 but masquerade the source as the relay's";
  lit "# address on the destination segment.";
  lit "# allow udp 192.168.1.0/24:1900 255.255.255.255:1900 snat=10.0.0.1"
].

Definition test_conf : str := text [
  lit "# Minimal test config " ++ [8212] ++ lit " used by the README veth walkthrough.";
  lit "#";
  lit "# Allows all UDP broadcast and multicast so you can verify relaying end to end.";
  lit "# This is intentionally permissive; do not use it in production.";
  lit "#";
  lit "# (Deny-by-default is built in, so no trailing " ++ [34] ++ lit "deny" ++ [34] ++ lit " rule is needed.)";
  [];
  lit "# Limited broadcast (e.g. the README's test to 255.255.255.255:9999)";
  lit "allow udp any:any 255.255.255.255:any";
  [];
  lit "# Subnet-directed broadcasts (e.g. 192.168.100.255)";
  lit "allow udp any:any directed:any";
  [];
  lit "# Multicast (mDNS, SSDP, ...)";
  lit "allow udp any:any 224.0.0.0/4:any"
].

(** ** What they load as *)

Definition limited_rule (ports : PortMatcher) : Rule :=
  mk_rule Allow Protocol_Udp IpMatcher_Any ports (IpMatcher_Exact limited_broadcast) ports BroadcastType_Limited
    NatOptions_default.

Definition multicast_rule (port : Z) (group : Ipv4Addr) : Rule :=
  mk_rule Allow Protocol_Udp IpMatcher_Any (PortMatcher_Exact port) (IpMatcher_Exact group)
    (PortMatcher_Exact port) BroadcastType_Any NatOptions_default.

(** NetBIOS, DHCP, mDNS, SSDP, and directed broadcasts from 10.0.0.0/24. *)
Definition sample_rules : list Rule := [
  limited_rule (PortMatcher_Range 137 139);
  limited_rule (PortMatcher_Range 67 68);
  multicast_rule 5353 (Ipv4Addr_new 224 0 0 251);
  multicast_rule 1900 (Ipv4Addr_new 239 255 255 250);
  mk_rule Allow Protocol_Udp (IpMatcher_Cidr (ip_u32 (Ipv4Addr_new 10 0 0 0)) 4294967040)
    PortMatcher_Any IpMatcher_Any PortMatcher_Any BroadcastType_Directed NatOptions_default
].

Lemma sample_conf_loads : parse sample_conf = Ok (mk_config sample_rules).
Proof. vm_compute. reflexivity. Qed.

(** Limited broadcasts, directed broadcasts and multicasts, on all ports. *)
Definition test_rules : list Rule := [
  limited_rule PortMatcher_Any;
  mk_rule Allow Protocol_Udp IpMatcher_Any PortMatcher_Any IpMatcher_Any PortMatcher_Any
    BroadcastType_Directed NatOptions_default;
  mk_rule Allow Protocol_Udp IpMatcher_Any PortMatcher_Any
    (IpMatcher_Cidr (ip_u32 (Ipv4Addr_new 224 0 0 0)) 4026531840) PortMatcher_Any
    BroadcastType_Any NatOptions_default
].

Lemma test_conf_loads : parse test_conf = Ok (mk_config test_rules).
Proof. vm_compute. reflexivity. Qed.
