(* ===== verification/Filter.v ===== *)
(** * The filter

    Models [src/src/filter.rs]: the decision taken on a packet and the rule whose NAT options
    apply to it.  The two agree, which is what makes the relay's [unwrap] safe. *)

From S2P Require Import Prelude Bytes RustStr Config ConfigMatch.

Record Filter := mk_filter { config : Config }.

(** [Filter::new] *)
Definition Filter_new (c : Config) : Filter := mk_filter c.

Definition should_relay (f : Filter) (pkt : PacketInfo) : bool :=
  match find_match (config f) pkt with
  | Some rule => bool_decide (action rule = Allow)
  | None => false
  end.

(** [Option::filter] *)
Definition option_filter {A} (p : A -> bool) (o : option A) : option A :=
  match o with Some a => if p a then Some a else None | None => None end.

Definition get_nat_rule (f : Filter) (pkt : PacketInfo) : option Rule :=
  option_filter (fun r => bool_decide (action r = Allow)) (find_match (config f) pkt).

(** C31: a packet is relayed exactly when the first rule that matches it allows it; it is denied
    when that rule denies it and when no rule matches. *)
Theorem should_relay_iff f pkt :
  should_relay f pkt = true <->
  exists pre r post, rules (config f) = pre ++ r :: post
    /\ Forall (fun r' => ~ rule_covers r' pkt) pre /\ rule_covers r pkt /\ action r = Allow.
Proof.
  assert (forall pre, Forall (fun r' => Rule_matches r' pkt = false) pre
                      <-> Forall (fun r' => ~ rule_covers r' pkt) pre) as Hpre.
  { intros pre. rewrite !List.Forall_forall. setoid_rewrite <- Rule_matches_covers.
    by setoid_rewrite not_true_iff_false. }
  unfold should_relay. destruct (find_match (config f) pkt) as [r|] eqn:E.
  - rewrite bool_decide_eq_true. split.
    + intros Ha. apply find_match_Some in E as (pre & post & Heq & Hp%Hpre & Hr%Rule_matches_covers).
      by exists pre, r, post.
    + intros (pre & r' & post & Heq & Hp%Hpre & Hr%Rule_matches_covers & Ha).
      assert (find_match (config f) pkt = Some r') as E' by (apply find_match_Some; eauto).
      congruence.
  - split; [done |]. intros (pre & r & post & Heq & Hp%Hpre & Hr%Rule_matches_covers & Ha).
    assert (find_match (config f) pkt = Some r) by (apply find_match_Some; eauto). congruence.
Qed.

Lemma get_nat_rule_Some f pkt r :
  get_nat_rule f pkt = Some r <->
  should_relay f pkt = true /\ find_match (config f) pkt = Some r.
Proof.
  unfold get_nat_rule, should_relay, option_filter.
  destruct (find_match (config f) pkt) as [r'|]; [| split; [done | by intros []]].
  destruct (bool_decide _) eqn:E; split; [by intros [= ->] | by intros [_ ?] | done | by intros []].
Qed.

Lemma should_relay_rule f pkt :
  should_relay f pkt = true -> exists r, get_nat_rule f pkt = Some r /\ action r = Allow.
Proof.
  intros H. pose proof H as H'. unfold should_relay in H'.
  destruct (find_match (config f) pkt) as [r|] eqn:E; [| done].
  exists r. rewrite get_nat_rule_Some. apply bool_decide_eq_true in H'. done.
Qed.

Lemma allow_all_relays pkt : should_relay (Filter_new allow_all) pkt = true.
Proof. done. Qed.
