(* ===== verification/Checksum.v ===== *)
(** * The Internet checksum

    RFC 1071's sum of 16-bit words in ones' complement, over which the IPv4 header checksum and
    the UDP checksum are defined, and the fact both rely on: storing the complement of the sum
    in the zeroed checksum field makes the whole sum come out as all ones. *)

From S2P Require Import Prelude Bytes.

(** The 16-bit words of a buffer; an odd last byte is padded with a zero byte. *)
Fixpoint words (bs : list u8) : list Z :=
  match bs with
  | a :: b :: bs => u8_val a * 256 + u8_val b :: words bs
  | [a] => [u8_val a * 256]
  | [] => []
  end.

(** Addition with end-around carry. *)
Definition oc_add (a b : Z) : Z := Z.land (a + b) 65535 + Z.shiftr (a + b) 16.

Definition oc_sum (ws : list Z) : Z := fold_left oc_add ws 0.

(** The ones' complement of the sum: what goes in the checksum field. *)
Definition oc_checksum (ws : list Z) : Z := 65535 - oc_sum ws.

(** What a receiver tests, checksum field included. *)
Definition oc_valid (ws : list Z) : bool := oc_sum ws =? 65535.

Definition zero_word (off : nat) (buf : list u8) : list u8 :=
  put off [Init.Byte.x00; Init.Byte.x00] buf.

(** RFC 791: the checksum of a header, its field (at 10) regarded as zero. *)
Definition header_checksum (hdr : list u8) : Z := oc_checksum (words (zero_word 10 hdr)).

(** RFC 768: the pseudo-header (addresses, protocol, UDP length) before the datagram. *)
Definition pseudo_words (src dst : Ipv4Addr) (len : Z) : list Z :=
  words (octets src ++ octets dst) ++ [17; len].

Definition udp_checksum (src dst : Ipv4Addr) (seg : list u8) : Z :=
  oc_checksum (pseudo_words src dst (Z.of_nat (length seg)) ++ words (zero_word 6 seg)).

Definition zsum (ws : list Z) : Z := fold_left Z.add ws 0.

(** ** The sum, up to multiples of 65535 *)

(** The representative of [s] that ones' complement addition computes: 65535 for a non-zero
    multiple of 65535. *)
Definition oc_repr (s : Z) : Z := if s =? 0 then 0 else (s - 1) mod 65535 + 1.

Definition is_word (w : Z) : Prop := 0 <= w <= 65535.

Lemma oc_repr_word s : 0 <= s -> is_word (oc_repr s).
Proof.
  unfold oc_repr, is_word. intros. destruct (s =? 0); [lia |].
  pose proof (Z.mod_pos_bound (s - 1) 65535). lia.
Qed.

Lemma oc_add_word a b :
  is_word a -> is_word b ->
  oc_add a b = if a + b <=? 65535 then a + b else a + b - 65535.
Proof.
  unfold is_word, oc_add. intros. change 65535 with (Z.ones 16) at 1.
  rewrite Z.land_ones, Z.shiftr_div_pow2 by lia. change (2 ^ 16) with 65536.
  destruct (a + b <=? 65535) eqn:E; unbool.
  - rewrite Z.mod_small, Z.div_small; lia.
  - rewrite (Z.mod_eq (a + b) 65536) by lia.
    replace ((a + b) / 65536) with 1; [lia |]. apply (Z.div_unique _ _ _ (a + b - 65536)); lia.
Qed.

Lemma oc_repr_add s w : 0 <= s -> is_word w -> oc_add (oc_repr s) w = oc_repr (s + w).
Proof.
  intros Hs Hw. rewrite oc_add_word by (done || by apply oc_repr_word).
  unfold is_word in Hw. unfold oc_repr.
  destruct (s =? 0) eqn:E1, (s + w =? 0) eqn:E2; unbool; [| | lia |].
  - by replace w with 0 by lia.
  - subst. rewrite Z.add_0_l, Z.mod_small by lia. destruct (w <=? 65535) eqn:E; unbool; lia.
  - pose proof (Z.mod_pos_bound (s - 1) 65535 ltac:(lia)).
    pose proof (Z.div_mod (s - 1) 65535 ltac:(lia)).
    set (r := (s - 1) mod 65535) in *. set (q := (s - 1) / 65535) in *.
    destruct (_ <=? 65535) eqn:E3; unbool.
    + rewrite <- (Z.mod_unique (s + w - 1) 65535 q (r + w)); lia.
    + rewrite <- (Z.mod_unique (s + w - 1) 65535 (q + 1) (r + w - 65535)); lia.
Qed.

Lemma fold_oc_repr ws s :
  0 <= s -> Forall is_word ws ->
  fold_left oc_add ws (oc_repr s) = oc_repr (fold_left Z.add ws s).
Proof.
  intros Hs Hws. revert s Hs. induction Hws as [|w ws Hw _ IH]; intros s Hs; [done |].
  cbn. rewrite oc_repr_add by done. apply IH. unfold is_word in Hw. lia.
Qed.

Lemma oc_sum_repr ws : Forall is_word ws -> oc_sum ws = oc_repr (zsum ws).
Proof. apply (fold_oc_repr ws 0). done. Qed.

Lemma fold_add_acc ws a : fold_left Z.add ws a = a + zsum ws.
Proof.
  unfold zsum. revert a. induction ws as [|w ws IH]; intros a; cbn [fold_left]; [lia |].
  rewrite (IH (a + w)), (IH (0 + w)). lia.
Qed.

Lemma zsum_cons w ws : zsum (w :: ws) = w + zsum ws.
Proof. unfold zsum at 1. cbn. apply fold_add_acc. Qed.

Lemma zsum_app ws ws' : zsum (ws ++ ws') = zsum ws + zsum ws'.
Proof. unfold zsum at 1. rewrite fold_left_app, !fold_add_acc. unfold zsum. lia. Qed.

Lemma zsum_nonneg ws : Forall is_word ws -> 0 <= zsum ws.
Proof. induction 1 as [|w ws Hw _ IH]; [done |]. rewrite zsum_cons. red in Hw. lia. Qed.

Lemma words_are_words bs : Forall is_word (words bs).
Proof.
  assert (forall n bs, (length bs <= n)%nat -> Forall is_word (words bs)) as H; [| by eapply H].
  induction n as [|n IH]; intros [|a [|b l]] Hl; cbn in *; try lia; repeat constructor;
    unfold is_word; pose proof (u8_val_range a);
    try (pose proof (u8_val_range b)); try lia. apply IH. lia.
Qed.

Lemma oc_checksum_word ws : Forall is_word ws -> is_word (oc_checksum ws).
Proof.
  intros H. unfold oc_checksum. rewrite oc_sum_repr by done.
  pose proof (oc_repr_word (zsum ws) (zsum_nonneg _ H)). unfold is_word in *. lia.
Qed.

(** A buffer whose word at [off] holds the checksum of the rest is valid.  Zero may stand as
    0xffff, its other representation (RFC 768 sends it so). *)
Lemma oc_checksum_valid ws ws' c :
  Forall is_word ws -> Forall is_word ws' ->
  c = oc_checksum ws \/ (oc_checksum ws = 0 /\ c = 65535) ->
  zsum ws' = zsum ws + c -> oc_valid ws' = true.
Proof.
  intros Hws Hws' Hc Hsum. unfold oc_valid. rewrite oc_sum_repr, Hsum by done.
  unfold oc_checksum in Hc. rewrite oc_sum_repr in Hc by done.
  pose proof (zsum_nonneg _ Hws) as Hpos. apply Z.eqb_eq.
  unfold oc_repr in *. destruct (zsum ws =? 0) eqn:E; unbool.
  - rewrite E. destruct Hc as [->|[? ->]]; [done | lia].
  - pose proof (Z.mod_pos_bound (zsum ws - 1) 65535 ltac:(lia)).
    pose proof (Z.div_mod (zsum ws - 1) 65535 ltac:(lia)).
    set (r := (zsum ws - 1) mod 65535) in *. set (q := (zsum ws - 1) / 65535) in *.
    destruct (_ =? 0) eqn:E0; unbool; [destruct Hc as [->|[? ->]]; lia |].
    destruct Hc as [->|[? ->]].
    + rewrite <- (Z.mod_unique _ 65535 q 65534); lia.
    + rewrite <- (Z.mod_unique _ 65535 (q + 1) 65534); lia.
Qed.

(** Writing a word at an even offset adds it to the sum of the zeroed buffer. *)
Lemma zsum_put k a b buf :
  (2 * k + 2 <= length buf)%nat ->
  zsum (words (put (2 * k) [a; b] buf))
  = zsum (words (zero_word (2 * k) buf)) + (u8_val a * 256 + u8_val b).
Proof.
  revert buf. induction k as [|k IH]; intros buf Hlen.
  - destruct buf as [|x [|y buf]]; cbn in Hlen; try lia.
    unfold zero_word, put. cbn [Nat.mul take app length Nat.add drop words].
    rewrite !zsum_cons. cbn. lia.
  - destruct buf as [|x [|y buf]]; cbn in Hlen; try lia.
    specialize (IH buf ltac:(lia)). unfold zero_word, put in *.
    replace (2 * S k)%nat with (S (S (2 * k))) by lia.
    cbn [take drop app length words] in *. rewrite !zsum_cons.
    replace (S (S (2 * k)) + 2)%nat with (S (S (2 * k + 2))) by lia. cbn [drop]. lia.
Qed.

Lemma zsum_put_word k v buf :
  0 <= v <= 65535 -> (2 * k + 2 <= length buf)%nat ->
  zsum (words (put (2 * k) (be16 v) buf)) = zsum (words (zero_word (2 * k) buf)) + v.
Proof.
  intros Hv Hlen. unfold be16. rewrite zsum_put, <- be_two by done.
  pose proof (be_be16 v ltac:(lia)) as H. unfold be16 in H. lia.
Qed.

(** A word that is off by less than 65535 spoils the sum. *)
Lemma oc_checksum_off ws ws' c n :
  Forall is_word ws -> Forall is_word ws' -> 0 < n < 65535 -> n <= zsum ws ->
  c = oc_checksum ws \/ (oc_checksum ws = 0 /\ c = 65535) ->
  zsum ws' = zsum ws + c - n -> oc_valid ws' = false.
Proof.
  intros Hws Hws' Hn Hpos Hc Hsum. unfold oc_valid. rewrite oc_sum_repr, Hsum by done.
  unfold oc_checksum in Hc. rewrite oc_sum_repr in Hc by done. apply Z.eqb_neq.
  unfold oc_repr in *. destruct (zsum ws =? 0) eqn:E; unbool; [lia |].
  pose proof (Z.mod_pos_bound (zsum ws - 1) 65535 ltac:(lia)).
  pose proof (Z.div_mod (zsum ws - 1) 65535 ltac:(lia)).
  set (r := (zsum ws - 1) mod 65535) in *. set (q := (zsum ws - 1) / 65535) in *.
  destruct (_ =? 0) eqn:E0; [done |]. unbool.
  assert (exists p, zsum ws + c - n - 1 = 65535 * p + (65534 - n)) as [p Hp]
    by (destruct Hc as [->|[? ->]]; [exists q | exists (q + 1)]; lia).
  rewrite <- (Z.mod_unique _ 65535 p (65534 - n)); lia.
Qed.

(** Zero bytes at the end do not change the sum. *)
Lemma zsum_words_zeros l n : zsum (words (l ++ replicate n (u8_of 0))) = zsum (words l).
Proof.
  assert (forall m n, (n <= m)%nat -> zsum (words (replicate n (u8_of 0))) = 0) as H0.
  { induction m as [|m IH]; intros [|[|n']] Hn; try done; [lia |].
    cbn [replicate words]. rewrite zsum_cons, IH by lia. done. }
  assert (forall m l, (length l <= m)%nat ->
    zsum (words (l ++ replicate n (u8_of 0))) = zsum (words l)) as H; [| by eapply H].
  induction m as [|m IH]; intros [|a [|b l']] Hl; cbn in Hl; try lia; try by eapply H0.
  - destruct n as [|n']; [done |]. cbn [app replicate words]. rewrite !zsum_cons, (H0 n' n') by done.
    change (u8_val (u8_of 0)) with 0. cbn. lia.
  - cbn [app words]. by rewrite !zsum_cons, IH by lia.
Qed.
