(* ===== verification/Pnet.v ===== *)
(** * The packet library, as an interface

    The crate reads and writes headers through [pnet], whose code is not part of the
    repository.  [Pnet] lists the operations the crate calls, with a packet represented by the
    buffer it views; [PnetLaws] states what the crate relies on: the documented layout of the
    IPv4 header (RFC 791) and of the UDP header (RFC 768), the minimum sizes [new] asks for, and
    the checksums.  [payload] and [checksum] slice by the header-length field, so they may
    panic; their laws speak only of headers that fit their buffer.

    [ref_pnet] is one implementation of the interface, used to evaluate the model. *)

From S2P Require Import Prelude Bytes Checksum.

(** The internet header length, in bytes. *)
Definition header_len (buf : list u8) : nat := Z.to_nat (Z.land (byte_at 0 buf) 15) * 4.

Definition total_length (buf : list u8) : nat := Z.to_nat (word_at 2 buf).

(** A header whose declared length is legal and inside the buffer. *)
Definition header_fits (buf : list u8) : Prop := (20 <= header_len buf <= length buf)%nat.

Class Pnet := {
  (** [Ipv4Packet::new], [MutableIpv4Packet::new] *)
  Ipv4Packet_new : list u8 -> option (list u8);
  get_total_length : list u8 -> Z;
  get_identification : list u8 -> Z;
  get_ttl : list u8 -> Z;
  get_next_level_protocol : list u8 -> Z;
  get_source : list u8 -> Ipv4Addr;
  get_destination : list u8 -> Ipv4Addr;
  payload : list u8 -> outcome (list u8);
  set_identification : list u8 -> Z -> list u8;
  set_ttl : list u8 -> Z -> list u8;
  set_checksum : list u8 -> Z -> list u8;
  set_source : list u8 -> Ipv4Addr -> list u8;
  set_destination : list u8 -> Ipv4Addr -> list u8;
  (** [pnet::packet::ipv4::checksum] *)
  ipv4_checksum : list u8 -> outcome Z;
  (** [UdpPacket::new], [MutableUdpPacket::new] *)
  UdpPacket_new : list u8 -> option (list u8);
  udp_get_source : list u8 -> Z;
  udp_get_destination : list u8 -> Z;
  udp_set_source : list u8 -> Z -> list u8;
  udp_set_destination : list u8 -> Z -> list u8;
  udp_set_checksum : list u8 -> Z -> list u8;
  (** [pnet::packet::udp::ipv4_checksum] *)
  udp_ipv4_checksum : list u8 -> Ipv4Addr -> Ipv4Addr -> Z;
  (** [IpNextHeaderProtocols::Udp] *)
  IpNextHeaderProtocols_Udp : Z
}.

Class PnetLaws (P : Pnet) : Prop := {
  ipv4_new_law b : Ipv4Packet_new b = if decide (20 <= length b)%nat then Some b else None;
  get_total_length_law b : (20 <= length b)%nat -> get_total_length b = word_at 2 b;
  get_identification_law b : (20 <= length b)%nat -> get_identification b = word_at 4 b;
  get_ttl_law b : (20 <= length b)%nat -> get_ttl b = byte_at 8 b;
  get_next_level_protocol_law b :
    (20 <= length b)%nat -> get_next_level_protocol b = byte_at 9 b;
  get_source_law b : (20 <= length b)%nat -> get_source b = ip_at 12 b;
  get_destination_law b : (20 <= length b)%nat -> get_destination b = ip_at 16 b;
  (** the bytes between the header and the end the total length gives *)
  payload_law b :
    header_fits b -> (20 <= total_length b <= length b)%nat ->
    payload b = Ret (bytes_at (header_len b) (total_length b - header_len b) b);
  set_identification_law b v : (20 <= length b)%nat -> set_identification b v = put 4 (be16 v) b;
  set_ttl_law b v : (20 <= length b)%nat -> set_ttl b v = put 8 [u8_of v] b;
  set_checksum_law b v : (20 <= length b)%nat -> set_checksum b v = put 10 (be16 v) b;
  set_source_law b ip : (20 <= length b)%nat -> set_source b ip = put 12 (octets ip) b;
  set_destination_law b ip : (20 <= length b)%nat -> set_destination b ip = put 16 (octets ip) b;
  ipv4_checksum_law b :
    header_fits b -> ipv4_checksum b = Ret (header_checksum (bytes_at 0 (header_len b) b));
  udp_new_law b : UdpPacket_new b = if decide (8 <= length b)%nat then Some b else None;
  udp_get_source_law b : (8 <= length b)%nat -> udp_get_source b = word_at 0 b;
  udp_get_destination_law b : (8 <= length b)%nat -> udp_get_destination b = word_at 2 b;
  udp_set_source_law b v : (8 <= length b)%nat -> udp_set_source b v = put 0 (be16 v) b;
  udp_set_destination_law b v : (8 <= length b)%nat -> udp_set_destination b v = put 2 (be16 v) b;
  udp_set_checksum_law b v : (8 <= length b)%nat -> udp_set_checksum b v = put 6 (be16 v) b;
  (** over the bytes of the packet; a computed zero may be given as 0xffff *)
  udp_ipv4_checksum_law b src dst :
    (8 <= length b)%nat -> Z.of_nat (length b) <= 65535 ->
    udp_ipv4_checksum b src dst = udp_checksum src dst b
    \/ (udp_checksum src dst b = 0 /\ udp_ipv4_checksum b src dst = 65535);
  udp_protocol_law : IpNextHeaderProtocols_Udp = 17
}.

(** ** A reference implementation *)

Definition ref_pnet : Pnet := {|
  Ipv4Packet_new b := if decide (20 <= length b)%nat then Some b else None;
  get_total_length := word_at 2;
  get_identification := word_at 4;
  get_ttl := byte_at 8;
  get_next_level_protocol := byte_at 9;
  get_source := ip_at 12;
  get_destination := ip_at 16;
  payload b :=
    tail ← slice_from (header_len b) b;
    Ret (take (total_length b - header_len b) tail);
  set_identification b v := put 4 (be16 v) b;
  set_ttl b v := put 8 [u8_of v] b;
  set_checksum b v := put 10 (be16 v) b;
  set_source b ip := put 12 (octets ip) b;
  set_destination b ip := put 16 (octets ip) b;
  ipv4_checksum b := hdr ← slice_to (header_len b) b; Ret (header_checksum hdr);
  UdpPacket_new b := if decide (8 <= length b)%nat then Some b else None;
  udp_get_source := word_at 0;
  udp_get_destination := word_at 2;
  udp_set_source b v := put 0 (be16 v) b;
  udp_set_destination b v := put 2 (be16 v) b;
  udp_set_checksum b v := put 6 (be16 v) b;
  udp_ipv4_checksum b src dst := udp_checksum src dst b;
  IpNextHeaderProtocols_Udp := 17
|}.

Lemma ref_pnet_laws : PnetLaws ref_pnet.
Proof.
  split; try done; cbn; intros.
  - unfold header_fits in *. by rewrite slice_from_le by lia.
  - unfold header_fits in *. by rewrite slice_to_le by lia.
  - by left.
Qed.

(** ** Rewriting by the laws *)

Create Rewrite HintDb bcr_pnet.

#[export] Hint Rewrite @ipv4_new_law @udp_new_law @udp_protocol_law using typeclasses eauto : bcr_pnet.
#[export] Hint Rewrite @get_total_length_law @get_identification_law @get_ttl_law
  @get_next_level_protocol_law @get_source_law @get_destination_law
  @set_identification_law @set_ttl_law @set_checksum_law @set_source_law @set_destination_law
  @udp_get_source_law @udp_get_destination_law @udp_set_source_law @udp_set_destination_law
  @udp_set_checksum_law using first [typeclasses eauto | fit] : bcr_pnet.
