(* ===== verification/Packet.v ===== *)
(** * Packet validation and classification

    Models [src/src/packet.rs]: the header check that guards every header access, the
    classification of addresses, the extraction of the fields the filter needs, and the loop
    marker.  Indexing may panic, so the functions that touch the buffer return an [outcome]. *)

From S2P Require Import Prelude Bytes RustStr Config Checksum Pnet.

Definition validate_ipv4_header (buf : list u8) : outcome (option nat) :=
  if (length buf <? 20)%nat then Ret None
  else
    b ← index buf 0;
    let version := Z.shiftr (u8_val b) 4 in
    b ← index buf 0;
    let ihl := Z.to_nat (Z.land (u8_val b) 15) in
    if negb (version =? 4) || (ihl <? 5)%nat then Ret None
    else
      let header_len := (ihl * 4)%nat in
      if (length buf <? header_len)%nat then Ret None else Ret (Some header_len).

Definition is_broadcast (ip : Ipv4Addr) : bool :=
  bool_decide (ip = limited_broadcast) || (u8_val (oct3 ip) =? 255) || is_multicast ip.

(** 0xBCBC *)
Definition RELAY_MARKER_IP_ID : Z := 48316.

Section packet.
Context {P : Pnet}.

Definition extract_packet_info (buf : list u8) : outcome (option PacketInfo) :=
  let? _ := validate_ipv4_header buf in
  let? ip_packet := Ret (Ipv4Packet_new buf) in
  let total_length := Z.to_nat (get_total_length ip_packet) in
  if (total_length <? 20)%nat || (length buf <? total_length)%nat then Ret None
  else
    let dst_ip := get_destination ip_packet in
    if negb (is_broadcast dst_ip) then Ret None
    else
      let src_ip := get_source ip_packet in
      if bool_decide (src_ip = Ipv4Addr_new 0 0 0 0) || is_broadcast src_ip then Ret None
      else
        let protocol_num := get_next_level_protocol ip_packet in
        payload ← payload ip_packet;
        if protocol_num =? IpNextHeaderProtocols_Udp then
          let? udp := Ret (UdpPacket_new payload) in
          Ret (Some (mk_info Protocol_Udp src_ip dst_ip (udp_get_source udp)
                       (udp_get_destination udp)))
        else Ret None.

Definition is_already_relayed (buf : list u8) : outcome bool :=
  o ← validate_ipv4_header buf;
  match o with
  | None => Ret false
  | Some _ =>
      match Ipv4Packet_new buf with
      | None => Ret false
      | Some ip_packet =>
          Ret ((get_ttl ip_packet =? 1) && (get_identification ip_packet =? RELAY_MARKER_IP_ID))
      end
  end.
End packet.

(** ** Specification *)

(** A well-formed IPv4 header inside the buffer. *)
Definition header_ok (buf : list u8) : Prop := byte_at 0 buf / 16 = 4 /\ header_fits buf.

#[export] Instance header_ok_dec buf : Decision (header_ok buf).
Proof. unfold header_ok, header_fits. apply _. Defined.

(** An address legitimate traffic may come from, as the code sees it. *)
Definition unicast_source (ip : Ipv4Addr) : Prop :=
  ip <> Ipv4Addr_new 0 0 0 0 /\ is_broadcast ip = false.

(** The datagrams the relay handles, with what it extracts from them: a whole UDP/IPv4
    datagram to a broadcast or multicast address, from a unicast source. *)
Record relayable (buf : list u8) (info : PacketInfo) : Prop := {
  rel_header : header_ok buf;
  rel_total : (20 <= total_length buf <= length buf)%nat;
  rel_udp : (header_len buf + 8 <= total_length buf)%nat;
  rel_proto : byte_at 9 buf = 17;
  rel_dst : is_broadcast (ip_at 16 buf) = true;
  rel_src : unicast_source (ip_at 12 buf);
  rel_info : info = mk_info Protocol_Udp (ip_at 12 buf) (ip_at 16 buf)
                      (word_at (header_len buf) buf) (word_at (header_len buf + 2) buf)
}.

Definition marked (buf : list u8) : Prop :=
  header_ok buf /\ byte_at 8 buf = 1 /\ word_at 4 buf = RELAY_MARKER_IP_ID.

#[export] Instance marked_dec buf : Decision (marked buf).
Proof. unfold marked. apply _. Defined.

(** ** Theorems *)

Lemma byte_at_lookup i buf b : buf !! i = Some b -> byte_at i buf = u8_val b.
Proof.
  intros H. unfold byte_at, bytes_at. rewrite (drop_S _ b i H). cbn [take]. by rewrite take_0, be_one.
Qed.

Lemma validate_ipv4_header_eq buf :
  validate_ipv4_header buf = Ret (if decide (header_ok buf) then Some (header_len buf) else None).
Proof.
  unfold validate_ipv4_header. destruct (length buf <? 20)%nat eqn:E.
  - apply Nat.ltb_lt in E. rewrite decide_False; [done |]. intros [_ H]. red in H. lia.
  - apply Nat.ltb_ge in E.
    destruct (lookup_lt_is_Some_2 buf 0 ltac:(lia)) as [b Hb].
    rewrite (index_lt _ _ _ Hb). run. rewrite Z.shiftr_div_pow2 by lia. change (2 ^ 4) with 16.
    set (ihl := Z.to_nat (Z.land (u8_val b) 15)).
    assert (header_len buf = ihl * 4)%nat as Hlen.
    { unfold header_len. by rewrite (byte_at_lookup _ _ _ Hb). }
    assert (header_ok buf <-> u8_val b / 16 = 4 /\ (20 <= ihl * 4 <= length buf)%nat) as Hok.
    { unfold header_ok, header_fits. by rewrite Hlen, (byte_at_lookup _ _ _ Hb). }
    rewrite Hlen. clearbody ihl.
    destruct (u8_val b / 16 =? 4) eqn:Ev, (ihl <? 5)%nat eqn:Ei, (length buf <? ihl * 4)%nat eqn:El;
      cbn [negb orb]; case_decide as H; rewrite Hok in H; try done; exfalso;
      rewrite ?Nat.ltb_lt, ?Nat.ltb_ge, ?Z.eqb_eq, ?Z.eqb_neq in *; lia.
Qed.

(** The header check never indexes out of range, whatever the buffer, and accepts exactly
    the version-4 headers of at least 20 bytes that end inside the buffer, returning their
    length. *)
Theorem validate_ipv4_header_spec buf :
  validate_ipv4_header buf = Ret (if decide (header_ok buf) then Some (header_len buf) else None).
Proof. apply validate_ipv4_header_eq. Qed.

Lemma is_broadcast_iff ip :
  is_broadcast ip = true <-> u8_val (oct3 ip) = 255 \/ 224 <= u8_val (oct0 ip) <= 239.
Proof.
  unfold is_broadcast, is_multicast. rewrite !orb_true_iff, bool_decide_eq_true, andb_true_iff, Z.eqb_eq, !Z.leb_le.
  assert (ip = limited_broadcast -> u8_val (oct3 ip) = 255) by (by intros ->). tauto.
Qed.

Lemma header_ok_len buf : header_ok buf -> (20 <= length buf)%nat.
Proof. intros [_ H]. red in H. lia. Qed.

#[export] Hint Resolve header_ok_len : bcr.

Lemma length_payload_bytes buf :
  (header_len buf <= total_length buf <= length buf)%nat ->
  length (bytes_at (header_len buf) (total_length buf - header_len buf) buf)
  = (total_length buf - header_len buf)%nat.
Proof. intros. apply length_bytes_at. lia. Qed.

Lemma word_at_bytes_at off n i buf :
  (i + 2 <= n)%nat -> word_at i (bytes_at off n buf) = word_at (off + i) buf.
Proof.
  intros. unfold word_at. f_equal. apply list_eq. intros j.
  rewrite !lookup_bytes_at. repeat case_decide; try done; try lia. f_equal. lia.
Qed.

Section theorems.
Context {P : Pnet} {L : PnetLaws P}.

(** The extraction, with the packet library's operations replaced by the fields they read. *)
Lemma extract_eq buf :
  header_ok buf ->
  extract_packet_info buf =
    if (total_length buf <? 20)%nat || (length buf <? total_length buf)%nat then Ret None
    else if negb (is_broadcast (ip_at 16 buf)) then Ret None
    else if bool_decide (ip_at 12 buf = Ipv4Addr_new 0 0 0 0) || is_broadcast (ip_at 12 buf)
      then Ret None
    else if byte_at 9 buf =? 17 then
      Ret (if decide (8 <= total_length buf - header_len buf)%nat then
             Some (mk_info Protocol_Udp (ip_at 12 buf) (ip_at 16 buf)
                     (word_at (header_len buf) buf) (word_at (header_len buf + 2) buf))
           else None)
    else Ret None.
Proof using L.
  intros Hok. pose proof (header_ok_len _ Hok). pose proof (proj2 Hok) as Hfit.
  unfold extract_packet_info, try. rewrite validate_ipv4_header_eq, decide_True by done. run.
  rewrite ipv4_new_law, decide_True by done. run.
  rewrite get_total_length_law, get_destination_law, get_source_law,
    get_next_level_protocol_law, udp_protocol_law by done.
  fold (total_length buf).
  destruct (_ || _) eqn:E; [done |]. apply orb_false_iff in E as [E1%Nat.ltb_ge E2%Nat.ltb_ge].
  destruct (negb _); [done |]. destruct (bool_decide _ || _); [done |].
  rewrite payload_law by (done || lia). run.
  destruct (byte_at 9 buf =? 17); [| done]. rewrite udp_new_law.
  destruct (decide (header_len buf <= total_length buf)%nat).
  - rewrite length_payload_bytes by lia. case_decide as H8; run; [| done].
    rewrite udp_get_source_law, udp_get_destination_law by (rewrite length_payload_bytes; lia).
    rewrite !word_at_bytes_at, Nat.add_0_r by lia. done.
  - replace (total_length buf - header_len buf)%nat with 0%nat by lia.
    unfold bytes_at. rewrite take_0. by rewrite !decide_False by (cbn; lia).
Qed.

Lemma relayable_iff buf info :
  relayable buf info <->
  header_ok buf
  /\ (total_length buf <? 20)%nat || (length buf <? total_length buf)%nat = false
  /\ is_broadcast (ip_at 16 buf) = true
  /\ bool_decide (ip_at 12 buf = Ipv4Addr_new 0 0 0 0) || is_broadcast (ip_at 12 buf) = false
  /\ byte_at 9 buf = 17
  /\ (8 <= total_length buf - header_len buf)%nat
  /\ info = mk_info Protocol_Udp (ip_at 12 buf) (ip_at 16 buf)
              (word_at (header_len buf) buf) (word_at (header_len buf + 2) buf).
Proof using.
  rewrite !orb_false_iff, !Nat.ltb_ge, bool_decide_eq_false. split.
  - intros [? [] ? ? ? [] ->]. split_and!; try done; lia.
  - intros (? & [] & ? & [] & ? & ? & ->). split; try done; lia.
Qed.

Lemma extract_packet_info_total buf :
  exists o, extract_packet_info buf = Ret o /\ forall info, o = Some info <-> relayable buf info.
Proof using L.
  setoid_rewrite relayable_iff. destruct (decide (header_ok buf)) as [Hok|Hok].
  - rewrite extract_eq by done.
    destruct (_ || (_ <? _)%nat); [exists None; naive_solver |].
    destruct (is_broadcast (ip_at 16 buf)); [cbn [negb] | exists None; naive_solver].
    destruct (_ || is_broadcast _); [exists None; naive_solver |].
    destruct (byte_at 9 buf =? 17) eqn:E17; unbool; [| exists None; naive_solver].
    eexists. split; [reflexivity |]. intros info. case_decide; naive_solver.
  - exists None. unfold extract_packet_info, try.
    rewrite validate_ipv4_header_eq, decide_False by done. naive_solver.
Qed.

(** C18: extraction returns on every buffer (no malformed packet can panic the relay), and
    accepts exactly the relayable datagrams, with the addresses and ports they carry. *)
Theorem extract_packet_info_spec buf :
  exists o, extract_packet_info buf = Ret o /\ forall info, o = Some info <-> relayable buf info.
Proof using L. apply extract_packet_info_total. Qed.

Lemma is_already_relayed_eq buf :
  is_already_relayed buf = Ret (bool_decide (marked buf)).
Proof using L.
  unfold is_already_relayed. rewrite validate_ipv4_header_eq. unfold marked.
  destruct (decide (header_ok buf)) as [Hok|Hok]; run.
  - pose proof (header_ok_len _ Hok). rewrite ipv4_new_law, decide_True by done.
    rewrite get_ttl_law, get_identification_law by done. f_equal.
    apply eq_true_iff_eq. rewrite andb_true_iff, !Z.eqb_eq, bool_decide_eq_true. naive_solver.
  - by rewrite bool_decide_eq_false_2 by naive_solver.
Qed.

(** C19: the loop check returns on every buffer, and recognises exactly the well-formed headers
    with TTL 1 and the marker in the Identification field. *)
Theorem is_already_relayed_spec buf :
  is_already_relayed buf = Ret (bool_decide (marked buf)).
Proof using L. apply is_already_relayed_eq. Qed.
End theorems.

(** ** Witnesses *)

(** The packet of the unit tests of [packet.rs]: 28 bytes, TTL 64, ports 1234 and 5353. *)
Definition sample_udp (src dst : Ipv4Addr) : list u8 :=
  map u8_of [69; 0; 0; 28; 0; 0; 0; 0; 64; 17; 0; 0] ++ octets src ++ octets dst
  ++ map u8_of [4; 210; 20; 233; 0; 8; 18; 52].

Definition host_50 : Ipv4Addr := Ipv4Addr_new 192 168 1 50.
Definition mdns : Ipv4Addr := Ipv4Addr_new 224 0 0 251.

Example extract_unicast_source :
  extract_packet_info (P := ref_pnet) (sample_udp host_50 mdns)
  = Ret (Some (mk_info Protocol_Udp host_50 mdns 1234 5353)).
Proof. reflexivity. Qed.

Example extract_multicast_source :
  extract_packet_info (P := ref_pnet) (sample_udp mdns limited_broadcast) = Ret None.
Proof. reflexivity. Qed.

Lemma extract_packet_info_spec_witness :
  PnetLaws ref_pnet /\
  exists o, extract_packet_info (P := ref_pnet) (sample_udp host_50 mdns) = Ret o
    /\ forall info, o = Some info <-> relayable (sample_udp host_50 mdns) info.
Proof.
  split; [exact ref_pnet_laws |].
  exact (extract_packet_info_spec (L := ref_pnet_laws) (sample_udp host_50 mdns)).
Defined.

Lemma is_already_relayed_spec_witness :
  PnetLaws ref_pnet /\
  is_already_relayed (P := ref_pnet) (sample_udp host_50 mdns)
  = Ret (bool_decide (marked (sample_udp host_50 mdns))).
Proof.
  split; [exact ref_pnet_laws |].
  exact (is_already_relayed_spec (L := ref_pnet_laws) (sample_udp host_50 mdns)).
Defined.
