(* ===== verification/NatRewrite.v ===== *)
(** * NAT rewriting and the loop marker

    Models [src/src/nat.rs]: the in-place rewriting of a datagram before it is relayed.  The
    functions return the buffer as they leave it, on the error paths too. *)

From S2P Require Import Prelude Bytes RustStr Config Checksum Pnet Packet.

Section nat.
Context {P : Pnet}.

Definition apply_udp_nat (buf : list u8) (ip_header_len : nat) (nat : NatOptions)
    (src dst : Ipv4Addr) : outcome (result str unit * list u8) :=
  tail ← slice_from ip_header_len buf;
  match UdpPacket_new tail with
  | None => Ret (Err (lit "Invalid UDP packet"), buf)
  | Some udp_pkt =>
      let udp_pkt := match source_port nat with
                     | Some new_sport => udp_set_source udp_pkt new_sport
                     | None => udp_pkt
                     end in
      let udp_pkt := match dest_port nat with
                     | Some new_dport => udp_set_destination udp_pkt new_dport
                     | None => udp_pkt
                     end in
      let checksum := udp_ipv4_checksum udp_pkt src dst in
      let udp_pkt := udp_set_checksum udp_pkt checksum in
      Ret (Ok tt, put ip_header_len udp_pkt buf)
  end.

Definition apply_nat (buf : list u8) (nat : NatOptions) (dest_broadcast : Ipv4Addr)
    : outcome (result str unit * list u8) :=
  o ← validate_ipv4_header buf;
  match o with
  | None => Ret (Err (lit "Malformed IPv4 header"), buf)
  | Some ip_header_len =>
  match Ipv4Packet_new buf with
  | None => Ret (Err (lit "Invalid IP packet"), buf)
  | Some ip_pkt =>
      let ip_pkt := match source_ip nat with
                    | Some new_src => set_source ip_pkt new_src
                    | None => ip_pkt
                    end in
      let ip_pkt := match dest_ip nat with
                    | Some new_dst => set_destination ip_pkt new_dst
                    | None =>
                        if negb (is_multicast (get_destination ip_pkt))
                        then set_destination ip_pkt dest_broadcast
                        else ip_pkt
                    end in
      let ip_pkt := set_ttl ip_pkt 1 in
      let ip_pkt := set_identification ip_pkt RELAY_MARKER_IP_ID in
      let protocol := get_next_level_protocol ip_pkt in
      let final_src := get_source ip_pkt in
      let final_dst := get_destination ip_pkt in
      let buf := ip_pkt in
      '(r, buf) ← (if protocol =? IpNextHeaderProtocols_Udp
                   then apply_udp_nat buf ip_header_len nat final_src final_dst
                   else Ret (Ok tt, buf));
      match r with
      | Err e => Ret (Err e, buf)
      | Ok _ =>
          ip_pkt ← unwrap (Ipv4Packet_new buf);
          checksum ← ipv4_checksum ip_pkt;
          Ret (Ok tt, set_checksum ip_pkt checksum)
      end
  end
  end.
End nat.

(** ** Specification *)

(** What a datagram says, checksums apart: the header fields NAT may rewrite, and everything
    else as it is on the wire. *)
Record datagram := mk_datagram {
  d_version_length : list u8;   (** version, IHL, TOS, total length *)
  d_id : Z;
  d_fragment : list u8;         (** flags and fragment offset *)
  d_ttl : Z;
  d_proto : Z;
  d_src : Ipv4Addr;
  d_dst : Ipv4Addr;
  d_options : list u8;
  d_sport : Z;
  d_dport : Z;
  d_udp_length : Z;
  d_data : list u8
}.

Definition view (buf : list u8) : datagram :=
  let h := header_len buf in
  mk_datagram (bytes_at 0 4 buf) (word_at 4 buf) (bytes_at 6 2 buf) (byte_at 8 buf)
    (byte_at 9 buf) (ip_at 12 buf) (ip_at 16 buf) (bytes_at 20 (h - 20) buf)
    (word_at h buf) (word_at (h + 2) buf) (word_at (h + 4) buf)
    (bytes_at (h + 8) (length buf - (h + 8)) buf).

(** The destination of a rewritten packet: [dnat] if given; a multicast group is kept; any
    other address becomes the broadcast address of the output interface. *)
Definition nat_destination (nat : NatOptions) (dest_broadcast dst : Ipv4Addr) : Ipv4Addr :=
  match dest_ip nat with
  | Some d => d
  | None => if is_multicast dst then dst else dest_broadcast
  end.

Definition nat_spec (nat : NatOptions) (dest_broadcast : Ipv4Addr) (d : datagram) : datagram :=
  mk_datagram (d_version_length d) RELAY_MARKER_IP_ID (d_fragment d) 1 (d_proto d)
    (default (d_src d) (source_ip nat)) (nat_destination nat dest_broadcast (d_dst d))
    (d_options d) (default (d_sport d) (source_port nat)) (default (d_dport d) (dest_port nat))
    (d_udp_length d) (d_data d).

(** What [apply_nat] needs of a buffer to succeed on it. *)
Definition nat_ok (buf : list u8) : Prop :=
  header_ok buf /\ (byte_at 9 buf = 17 -> (header_len buf + 8 <= length buf)%nat).

#[export] Instance nat_ok_dec buf : Decision (nat_ok buf).
Proof. unfold nat_ok. apply _. Defined.

(** A receiver's checks on the checksums. *)
Definition ip_checksum_ok (buf : list u8) : bool :=
  oc_valid (words (bytes_at 0 (header_len buf) buf)).

(** RFC 768: over the pseudo-header with the datagram's own UDP length, and that many bytes. *)
Definition udp_checksum_ok (buf : list u8) : bool :=
  let h := header_len buf in
  let len := word_at (h + 4) buf in
  oc_valid (pseudo_words (ip_at 12 buf) (ip_at 16 buf) len ++ words (bytes_at h (Z.to_nat len) buf)).

(** ** The rewriting as writes at fixed offsets *)

Definition write_ip (nat : NatOptions) (dest_broadcast : Ipv4Addr) (buf : list u8) : list u8 :=
  let b := put 12 (octets (default (ip_at 12 buf) (source_ip nat))) buf in
  let b := put 16 (octets (nat_destination nat dest_broadcast (ip_at 16 buf))) b in
  let b := put 8 [u8_of 1] b in
  put 4 (be16 RELAY_MARKER_IP_ID) b.

Definition write_ports (nat : NatOptions) (buf : list u8) : list u8 :=
  let h := header_len buf in
  let b := put h (be16 (default (word_at h buf) (source_port nat))) buf in
  put (h + 2) (be16 (default (word_at (h + 2) buf) (dest_port nat))) b.

Definition write_ip_checksum (buf : list u8) : list u8 :=
  put 10 (be16 (header_checksum (bytes_at 0 (header_len buf) buf))) buf.

Lemma header_len_put off bs buf :
  (1 <= off)%nat -> (off + length bs <= length buf)%nat ->
  header_len (put off bs buf) = header_len buf.
Proof. intros. unfold header_len. by rewrite byte_at_put_ne by lia. Qed.

#[export] Hint Rewrite header_len_put using fit : bcr_bytes.

Lemma length_write_ip nat db buf : (20 <= length buf)%nat -> length (write_ip nat db buf) = length buf.
Proof. intros. unfold write_ip. autorewrite with bcr_bytes. done. Qed.

Lemma header_len_write_ip nat db buf :
  (20 <= length buf)%nat -> header_len (write_ip nat db buf) = header_len buf.
Proof. intros. unfold write_ip. autorewrite with bcr_bytes. done. Qed.

Lemma length_write_ports nat buf :
  (header_len buf + 8 <= length buf)%nat -> length (write_ports nat buf) = length buf.
Proof. intros. unfold write_ports. autorewrite with bcr_bytes. done. Qed.

Lemma header_len_write_ports nat buf :
  (1 <= header_len buf)%nat -> (header_len buf + 8 <= length buf)%nat ->
  header_len (write_ports nat buf) = header_len buf.
Proof. intros. unfold write_ports. autorewrite with bcr_bytes. done. Qed.

Lemma length_write_ip_checksum buf :
  (20 <= length buf)%nat -> length (write_ip_checksum buf) = length buf.
Proof. intros. unfold write_ip_checksum. autorewrite with bcr_bytes. done. Qed.

Lemma header_len_write_ip_checksum buf :
  (20 <= length buf)%nat -> header_len (write_ip_checksum buf) = header_len buf.
Proof. intros. unfold write_ip_checksum. autorewrite with bcr_bytes. done. Qed.

#[export] Hint Rewrite length_write_ip header_len_write_ip length_write_ports header_len_write_ports
  length_write_ip_checksum header_len_write_ip_checksum using fit : bcr_bytes.

Definition write_udp_checksum (c : Z) (buf : list u8) : list u8 :=
  put (header_len buf + 6) (be16 c) buf.

Lemma length_write_udp_checksum c buf :
  (header_len buf + 8 <= length buf)%nat -> length (write_udp_checksum c buf) = length buf.
Proof. intros. unfold write_udp_checksum. autorewrite with bcr_bytes. done. Qed.

Lemma header_len_write_udp_checksum c buf :
  (header_len buf + 8 <= length buf)%nat -> header_len (write_udp_checksum c buf) = header_len buf.
Proof. intros. unfold write_udp_checksum. autorewrite with bcr_bytes. done. Qed.

#[export] Hint Rewrite length_write_udp_checksum header_len_write_udp_checksum using fit : bcr_bytes.

Section rewriting.
Context {P : Pnet} {L : PnetLaws P}.

(** The checksum the library computes for the datagram of a buffer. *)
Definition lib_udp_checksum (buf : list u8) : Z :=
  udp_ipv4_checksum (drop (header_len buf) buf) (ip_at 12 buf) (ip_at 16 buf).

(** The successful result of [apply_nat], as writes. *)
Definition rewritten (nat : NatOptions) (db : Ipv4Addr) (buf : list u8) : list u8 :=
  let b := write_ip nat db buf in
  write_ip_checksum
    (if byte_at 9 buf =? 17 then
       let b := write_ports nat b in write_udp_checksum (lib_udp_checksum b) b
     else b).

Lemma udp_set_source_opt o s :
  (8 <= length s)%nat ->
  match o with Some v => udp_set_source s v | None => s end
  = put 0 (be16 (default (word_at 0 s) o)) s.
Proof using L.
  intros. destruct o; cbn; [by apply udp_set_source_law | by rewrite put_be16_id by lia].
Qed.

Lemma udp_set_destination_opt o s :
  (8 <= length s)%nat ->
  match o with Some v => udp_set_destination s v | None => s end
  = put 2 (be16 (default (word_at 2 s) o)) s.
Proof using L.
  intros. destruct o; cbn; [by apply udp_set_destination_law | by rewrite put_be16_id by lia].
Qed.

(** The ports, written in the tail of the buffer, are written in the buffer. *)
Lemma drop_write_ports nat buf :
  (header_len buf + 8 <= length buf)%nat ->
  let s := drop (header_len buf) buf in
  let s' := put 0 (be16 (default (word_at 0 s) (source_port nat))) s in
  put 2 (be16 (default (word_at 2 s') (dest_port nat))) s'
  = drop (header_len buf) (write_ports nat buf).
Proof using.
  intros Hlen. cbn zeta. unfold write_ports. set (h := header_len buf) in *.
  rewrite drop_put by (autorewrite with bcr_bytes; fit).
  rewrite <- (Nat.add_0_r h) at 6. rewrite (Nat.add_0_r h) at 1.
  rewrite (word_at_put_ne 0 2) by (rewrite ?length_drop; fit).
  rewrite !word_at_drop, Nat.add_0_r.
  rewrite <- (drop_put h 0) by fit. by rewrite Nat.add_0_r.
Qed.

Lemma apply_udp_nat_ok nat buf src dst :
  (20 <= header_len buf)%nat -> (header_len buf + 8 <= length buf)%nat ->
  apply_udp_nat buf (header_len buf) nat src dst =
    let b := write_ports nat buf in
    Ret (Ok tt, write_udp_checksum (udp_ipv4_checksum (drop (header_len buf) b) src dst) b).
Proof using L.
  intros Hh Hlen. unfold apply_udp_nat. rewrite slice_from_le by lia. run.
  assert (8 <= length (drop (header_len buf) buf))%nat as Hs by (rewrite length_drop; lia).
  rewrite udp_new_law, decide_True, udp_set_source_opt, udp_set_destination_opt
    by (autorewrite with bcr_bytes; fit).
  rewrite drop_write_ports by done. cbn zeta. do 2 f_equal.
  assert (length (write_ports nat buf) = length buf) as Hw by (autorewrite with bcr_bytes; done).
  assert (header_len (write_ports nat buf) = header_len buf) as Hhw
    by (autorewrite with bcr_bytes; done).
  rewrite udp_set_checksum_law by (rewrite length_drop; lia).
  unfold write_udp_checksum. rewrite Hhw, <- drop_put by (rewrite length_be16; lia).
  apply put_drop; [lia | autorewrite with bcr_bytes; fit |].
  rewrite take_put by (autorewrite with bcr_bytes; fit). unfold write_ports.
  by rewrite !take_put by (autorewrite with bcr_bytes; fit).
Qed.

Lemma apply_udp_nat_short nat buf h src dst :
  (h <= length buf < h + 8)%nat ->
  apply_udp_nat buf h nat src dst = Ret (Err (lit "Invalid UDP packet"), buf).
Proof using L.
  intros. unfold apply_udp_nat. rewrite slice_from_le by lia. run.
  by rewrite udp_new_law, decide_False by (rewrite length_drop; lia).
Qed.

Lemma set_source_opt o b :
  (20 <= length b)%nat ->
  match o with Some ip => set_source b ip | None => b end
  = put 12 (octets (default (ip_at 12 b) o)) b.
Proof using L.
  intros. destruct o; cbn; [by apply set_source_law | by rewrite put_octets_id by lia].
Qed.

Lemma set_destination_opt nat db b :
  (20 <= length b)%nat ->
  match dest_ip nat with
  | Some ip => set_destination b ip
  | None => if negb (is_multicast (get_destination b)) then set_destination b db else b
  end = put 16 (octets (nat_destination nat db (ip_at 16 b))) b.
Proof using L.
  intros. unfold nat_destination. rewrite get_destination_law by done.
  destruct (dest_ip nat); [by apply set_destination_law |].
  destruct (is_multicast _); cbn; [by rewrite put_octets_id by lia | by apply set_destination_law].
Qed.

Lemma write_ip_fields nat db buf :
  (20 <= length buf)%nat ->
  byte_at 9 (write_ip nat db buf) = byte_at 9 buf
  /\ ip_at 12 (write_ip nat db buf) = default (ip_at 12 buf) (source_ip nat)
  /\ ip_at 16 (write_ip nat db buf) = nat_destination nat db (ip_at 16 buf).
Proof using.
  intros. unfold write_ip. split_and!; autorewrite with bcr_bytes; [done | |];
    by rewrite ip_at_put_eq by fit.
Qed.

Lemma write_ports_fields nat buf :
  (20 <= header_len buf)%nat -> (header_len buf + 8 <= length buf)%nat ->
  ip_at 12 (write_ports nat buf) = ip_at 12 buf /\ ip_at 16 (write_ports nat buf) = ip_at 16 buf.
Proof using. intros. unfold write_ports. split; autorewrite with bcr_bytes; done. Qed.

(** [apply_nat], evaluated on a header that passes the check. *)
Lemma apply_nat_eq nat db buf :
  header_ok buf ->
  apply_nat buf nat db =
    if decide (nat_ok buf) then Ret (Ok tt, rewritten nat db buf)
    else Ret (Err (lit "Invalid UDP packet"), write_ip nat db buf).
Proof using L.
  intros Hok. pose proof (header_ok_len _ Hok) as Hlen. pose proof (proj2 Hok) as Hfit.
  red in Hfit. unfold apply_nat. rewrite validate_ipv4_header_eq, decide_True by done. run.
  rewrite ipv4_new_law, decide_True, set_source_opt by done.
  rewrite set_destination_opt by (autorewrite with bcr_bytes; fit).
  rewrite (ip_at_put_ne 12 16) by fit.
  rewrite set_ttl_law, set_identification_law by (autorewrite with bcr_bytes; fit).
  fold (write_ip nat db buf). unfold rewritten.
  destruct (write_ip_fields nat db buf Hlen) as (H9 & H12 & H16).
  set (b := write_ip nat db buf) in *.
  assert (length b = length buf) as Hb by by apply length_write_ip.
  assert (header_len b = header_len buf) as Hh by by apply header_len_write_ip.
  rewrite get_next_level_protocol_law, get_source_law, get_destination_law, udp_protocol_law by lia.
  rewrite H9, <- Hh. destruct (byte_at 9 buf =? 17) eqn:E; unbool.
  - destruct (decide (header_len b + 8 <= length buf)%nat) as [H8|H8].
    + rewrite apply_udp_nat_ok by lia. rewrite (decide_True (P := nat_ok buf)) by (split; [done | lia]).
      cbn zeta. run.
      destruct (write_ports_fields nat b ltac:(lia) ltac:(lia)) as [Hp12 Hp16].
      unfold lib_udp_checksum. rewrite Hp12, Hp16, header_len_write_ports by lia.
      set (b' := write_udp_checksum _ _).
      assert (length b' = length buf) as Hb' by (unfold b'; autorewrite with bcr_bytes; fit).
      assert (header_len b' = header_len b) as Hh' by (unfold b'; autorewrite with bcr_bytes; fit).
      rewrite ipv4_new_law, decide_True by lia. run.
      rewrite ipv4_checksum_law by (red; lia). run. by rewrite set_checksum_law by lia.
    + rewrite apply_udp_nat_short by lia. run. rewrite decide_False; [done |].
      intros [_ H]. specialize (H E). lia.
  - rewrite (decide_True (P := nat_ok buf)) by by split. run. rewrite ipv4_new_law, decide_True by lia. run.
    rewrite ipv4_checksum_law by (red; lia). run. by rewrite set_checksum_law by lia.
Qed.
End rewriting.

(** ** What each write does to the view *)

(** Fields of the view, one by one: the reads a write does not overlap go through it. *)
Ltac view_fields :=
  unfold view; autorewrite with bcr_bytes; f_equal;
  autorewrite with bcr_bytes;
  rewrite ?word_at_put_eq, ?byte_at_put_eq, ?ip_at_put_eq by fit; autorewrite with bcr_bytes; try done.

Lemma view_write_ip nat db buf :
  header_fits buf -> (header_len buf + 8 <= length buf)%nat ->
  view (write_ip nat db buf) =
    let d := view buf in
    mk_datagram (d_version_length d) RELAY_MARKER_IP_ID (d_fragment d) 1 (d_proto d)
      (default (d_src d) (source_ip nat)) (nat_destination nat db (d_dst d)) (d_options d)
      (d_sport d) (d_dport d) (d_udp_length d) (d_data d).
Proof. intros [] ?. cbn zeta. unfold write_ip, RELAY_MARKER_IP_ID. view_fields. Qed.

Lemma default_port_range o w :
  (forall p, o = Some p -> 0 <= p <= u16_max) -> 0 <= w < 65536 -> 0 <= default w o < 65536.
Proof. destruct o; cbn; [intros H _; specialize (H _ eq_refl); unfold u16_max in H; lia | done]. Qed.

Lemma view_write_ports nat buf :
  header_fits buf -> (header_len buf + 8 <= length buf)%nat ->
  0 <= default (word_at (header_len buf) buf) (source_port nat) < 65536 ->
  0 <= default (word_at (header_len buf + 2) buf) (dest_port nat) < 65536 ->
  view (write_ports nat buf) =
    let d := view buf in
    mk_datagram (d_version_length d) (d_id d) (d_fragment d) (d_ttl d) (d_proto d) (d_src d)
      (d_dst d) (d_options d) (default (d_sport d) (source_port nat))
      (default (d_dport d) (dest_port nat)) (d_udp_length d) (d_data d).
Proof. intros [] ? ? ?. cbn zeta. unfold write_ports. view_fields. Qed.

Lemma view_write_udp_checksum c buf :
  header_fits buf -> (header_len buf + 8 <= length buf)%nat ->
  view (write_udp_checksum c buf) = view buf.
Proof. intros [] ?. unfold write_udp_checksum. view_fields. Qed.

Lemma view_write_ip_checksum buf :
  header_fits buf -> (header_len buf + 8 <= length buf)%nat ->
  view (write_ip_checksum buf) = view buf.
Proof. intros [] ?. unfold write_ip_checksum. view_fields. Qed.

(** ** Theorems *)

Section theorems.
Context {P : Pnet} {L : PnetLaws P}.

Lemma apply_nat_total nat db buf :
  apply_nat buf nat db = Ret (
    if decide (nat_ok buf) then (Ok tt, rewritten nat db buf)
    else if decide (header_ok buf) then (Err (lit "Invalid UDP packet"), write_ip nat db buf)
    else (Err (lit "Malformed IPv4 header"), buf)).
Proof using L.
  destruct (decide (header_ok buf)) as [Hok|Hok].
  - rewrite apply_nat_eq by done. by case_decide.
  - rewrite decide_False by (by intros []). unfold apply_nat.
    by rewrite validate_ipv4_header_eq, decide_False.
Qed.

Lemma length_rewritten nat db buf : nat_ok buf -> length (rewritten nat db buf) = length buf.
Proof using.
  intros [Hok Hudp]. pose proof (header_ok_len _ Hok) as Hlen. pose proof (proj2 Hok) as [].
  unfold rewritten. destruct (byte_at 9 buf =? 17) eqn:E; unbool.
  - specialize (Hudp E). autorewrite with bcr_bytes; fit.
  - autorewrite with bcr_bytes; fit.
Qed.

(** C23: rewriting returns on every buffer, keeps its length, and succeeds exactly on the
    buffers with a valid IPv4 header and, for UDP, room for the UDP header; the error names
    which of the two fails, and a malformed header leaves the buffer untouched. *)
Theorem apply_nat_returns nat db buf :
  exists r buf', apply_nat buf nat db = Ret (r, buf') /\ length buf' = length buf
    /\ (r = Ok tt <-> nat_ok buf)
    /\ (r = Err (lit "Malformed IPv4 header") <-> ~ header_ok buf)
    /\ (~ header_ok buf -> buf' = buf).
Proof using L.
  rewrite apply_nat_total. destruct (decide (nat_ok buf)) as [Hn|Hn].
  - eexists _, _. split_and!; [reflexivity | by apply length_rewritten | done | | by intros []; destruct Hn].
    split; [done | intros []; by destruct Hn].
  - destruct (decide (header_ok buf)) as [Hok|Hok]; eexists _, _.
    + split_and!; [reflexivity | apply length_write_ip; by apply header_ok_len | done | done | done].
    + split_and!; [reflexivity | done | done | done | done].
Qed.

(** The rewriting of a UDP datagram. *)
Lemma rewritten_udp nat db buf :
  byte_at 9 buf = 17 ->
  rewritten nat db buf =
    let b := write_ports nat (write_ip nat db buf) in
    write_ip_checksum (write_udp_checksum (lib_udp_checksum b) b).
Proof using. intros H. unfold rewritten. by rewrite (proj2 (Z.eqb_eq _ _) H). Qed.

Lemma word_at_default_range o off buf :
  (forall p, o = Some p -> 0 <= p <= u16_max) -> 0 <= default (word_at off buf) o < 65536.
Proof using. intros. apply default_port_range; [done | apply word_at_range]. Qed.

Lemma rewritten_view nat db buf :
  nat_ok buf -> byte_at 9 buf = 17 ->
  (forall p, source_port nat = Some p \/ dest_port nat = Some p -> 0 <= p <= u16_max) ->
  view (rewritten nat db buf) = nat_spec nat db (view buf).
Proof using.
  intros Hn H17 Hports. rewrite rewritten_udp by done.
  destruct Hn as [Hok Hudp]. specialize (Hudp H17).
  pose proof (header_ok_len _ Hok). pose proof (proj2 Hok) as Hfit.
  set (b1 := write_ip nat db buf).
  assert (length b1 = length buf) as Hl1 by (unfold b1; autorewrite with bcr_bytes; done).
  assert (header_len b1 = header_len buf) as Hh1 by (unfold b1; autorewrite with bcr_bytes; done).
  cbn zeta. set (b2 := write_ports nat b1). red in Hfit.
  assert (length b2 = length buf) as Hl2 by (unfold b2; autorewrite with bcr_bytes; fit).
  assert (header_len b2 = header_len buf) as Hh2 by (unfold b2; autorewrite with bcr_bytes; fit).
  rewrite view_write_ip_checksum
    by (unfold header_fits; autorewrite with bcr_bytes; fit).
  rewrite view_write_udp_checksum by (unfold header_fits; lia).
  unfold b2. rewrite view_write_ports;
    [| unfold header_fits; lia | lia | apply word_at_default_range; auto ..].
  unfold b1. by rewrite view_write_ip by (unfold header_fits; lia).
Qed.

(** C10 (refinement): on a UDP datagram, the bytes [apply_nat] leaves read back as the abstract
    rewriting of what the datagram read before: source and destination address, ports, TTL and
    Identification are set as specified, and every other header byte, the options, the lengths
    and the payload are untouched. *)
Theorem apply_nat_refines nat db buf :
  nat_ok buf -> byte_at 9 buf = 17 ->
  (forall p, source_port nat = Some p \/ dest_port nat = Some p -> 0 <= p <= u16_max) ->
  exists buf', apply_nat buf nat db = Ret (Ok tt, buf') /\ view buf' = nat_spec nat db (view buf).
Proof using L.
  intros. exists (rewritten nat db buf). rewrite apply_nat_total, decide_True by done.
  split; [done |]. by apply rewritten_view.
Qed.

Lemma rewritten_marked nat db buf : nat_ok buf -> marked (rewritten nat db buf).
Proof using.
  intros Hn. pose proof Hn as [[Hv Hfit] Hudp]. pose proof (header_ok_len _ (proj1 Hn)). red in Hfit.
  assert (forall b, b = write_ip nat db buf -> header_ok b /\ byte_at 8 b = 1
            /\ word_at 4 b = RELAY_MARKER_IP_ID) as Hip.
  { intros b ->. unfold header_ok, header_fits. autorewrite with bcr_bytes.
    unfold write_ip. split_and!; autorewrite with bcr_bytes; try (done || lia);
      [by rewrite byte_at_put_eq by fit | by rewrite word_at_put_eq by (unfold RELAY_MARKER_IP_ID; fit)]. }
  destruct (Hip _ eq_refl) as ([Hv' _] & H8 & H4). unfold marked, header_ok, header_fits.
  unfold rewritten. destruct (byte_at 9 buf =? 17) eqn:E; unbool.
  - specialize (Hudp E). cbn zeta. unfold write_ip_checksum, write_udp_checksum, write_ports.
    autorewrite with bcr_bytes. split_and!; done || lia.
  - unfold write_ip_checksum. autorewrite with bcr_bytes. split_and!; done || lia.
Qed.

(** Whatever is relayed carries the loop marker: the loop check of any relay recognises
    every buffer [apply_nat] succeeds on, so no relay forwards it again. *)
Theorem apply_nat_marks nat db buf buf' :
  apply_nat buf nat db = Ret (Ok tt, buf') -> is_already_relayed buf' = Ret true.
Proof using L.
  rewrite apply_nat_total. intros H. destruct (decide (nat_ok buf)) as [Hn|]; [| by case_decide].
  injection H as <-. rewrite is_already_relayed_eq. f_equal.
  by apply bool_decide_eq_true, rewritten_marked.
Qed.
End theorems.
