(* ===== verification/NatChecksum.v ===== *)
(** * The checksums of relayed packets

    What [apply_nat] leaves passes a receiver's checks: the IPv4 header checksum always, the UDP
    checksum when the datagram fills the captured buffer; and why that condition is needed. *)

From S2P Require Import Prelude Bytes RustStr Config Checksum Pnet Packet NatRewrite.

Lemma length_pseudo src dst len : Forall is_word (pseudo_words src dst len) <-> is_word len.
Proof.
  unfold pseudo_words. rewrite !Forall_app, Forall_cons_iff, List.Forall_cons_iff. split; [tauto |].
  intros. split; [apply words_are_words | split; [done | by split]].
Qed.

Section theorems.
Context {P : Pnet} {L : PnetLaws P}.

Lemma write_ip_checksum_ok buf : header_fits buf -> ip_checksum_ok (write_ip_checksum buf) = true.
Proof using.
  intros Hfit. red in Hfit. unfold ip_checksum_ok.
  rewrite header_len_write_ip_checksum by lia. unfold write_ip_checksum.
  rewrite bytes_at_0_put by fit. set (hdr := bytes_at 0 (header_len buf) buf).
  assert (length hdr = header_len buf) as Hlen by (apply length_bytes_at; lia).
  pose proof (oc_checksum_word _ (words_are_words (zero_word 10 hdr))) as Hc.
  eapply (oc_checksum_valid (words (zero_word 10 hdr))); try apply words_are_words; [by left |].
  by apply (zsum_put_word 5); [red in Hc | fit].
Qed.

Lemma rewritten_ip_checksum nat db buf :
  nat_ok buf -> ip_checksum_ok (rewritten nat db buf) = true.
Proof using.
  intros [[Hv Hfit] Hudp]. red in Hfit. unfold rewritten. apply write_ip_checksum_ok. red.
  destruct (byte_at 9 buf =? 17) eqn:E; unbool; [specialize (Hudp E) |];
    autorewrite with bcr_bytes; fit.
Qed.

(** C21: the IPv4 header checksum of every relayed packet verifies. *)
Theorem apply_nat_ip_checksum nat db buf buf' :
  apply_nat buf nat db = Ret (Ok tt, buf') -> ip_checksum_ok buf' = true.
Proof using L.
  rewrite apply_nat_total. intros H. destruct (decide (nat_ok buf)) as [Hn|]; [| by case_decide].
  injection H as <-. by apply rewritten_ip_checksum.
Qed.

(** Writing the library's checksum in the UDP header makes the checksum of the datagram that
    fills the buffer verify. *)
Lemma write_udp_checksum_ok buf :
  header_fits buf -> (header_len buf + 8 <= length buf)%nat ->
  Z.of_nat (length buf) <= 65535 ->
  word_at (header_len buf + 4) buf = Z.of_nat (length buf - header_len buf) ->
  let b := write_udp_checksum (lib_udp_checksum buf) buf in udp_checksum_ok b = true.
Proof using L.
  intros Hfit Hudp Hmax Hlen. cbn zeta. red in Hfit. unfold udp_checksum_ok.
  rewrite header_len_write_udp_checksum by lia. set (h := header_len buf) in *.
  unfold write_udp_checksum. fold h. autorewrite with bcr_bytes.
  rewrite Hlen, Nat2Z.id, bytes_at_rest, drop_put by fit.
  set (seg := drop h buf). assert (length seg = length buf - h)%nat as Hseg
    by (unfold seg; rewrite length_drop; lia).
  pose proof (udp_ipv4_checksum_law seg (ip_at 12 buf) (ip_at 16 buf) ltac:(lia) ltac:(lia)) as Hc.
  unfold lib_udp_checksum. fold h seg.
  set (c := udp_ipv4_checksum seg _ _) in *. unfold udp_checksum in Hc. rewrite Hseg in Hc.
  set (pseudo := pseudo_words _ _ _) in *.
  assert (Forall is_word pseudo) as Hp by (apply length_pseudo; unfold is_word; lia).
  assert (Forall is_word (pseudo ++ words (zero_word 6 seg))) as Hws
    by (apply Forall_app; split; [done | apply words_are_words]).
  pose proof (oc_checksum_word _ Hws) as Hr. red in Hr.
  eapply (oc_checksum_valid (pseudo ++ words (zero_word 6 seg)) _ c);
    [done | apply Forall_app; split; [done | apply words_are_words] | lia |].
  rewrite !zsum_app, (zsum_put_word 3) by (lia || (cbn [Nat.mul Nat.add]; lia)).
  change (2 * 3)%nat with 6%nat. lia.
Qed.

Lemma udp_checksum_ok_write_ip_checksum buf :
  (20 <= header_len buf)%nat -> (header_len buf + 8 <= length buf)%nat ->
  udp_checksum_ok (write_ip_checksum buf) = udp_checksum_ok buf.
Proof using.
  intros. unfold udp_checksum_ok. rewrite header_len_write_ip_checksum by lia.
  unfold write_ip_checksum. by autorewrite with bcr_bytes.
Qed.

Lemma rewritten_udp_checksum nat db buf :
  nat_ok buf -> byte_at 9 buf = 17 -> Z.of_nat (length buf) <= 65535 ->
  word_at (header_len buf + 4) buf = Z.of_nat (length buf - header_len buf) ->
  udp_checksum_ok (rewritten nat db buf) = true.
Proof using L.
  intros [[Hv Hfit] Hudp] H17 Hmax Hudplen. specialize (Hudp H17). red in Hfit.
  rewrite rewritten_udp by done. cbn zeta.
  assert (forall b, b = write_ports nat (write_ip nat db buf) ->
    length b = length buf /\ header_len b = header_len buf
    /\ word_at (header_len buf + 4) b = word_at (header_len buf + 4) buf) as Hb.
  { intros b ->. split_and!; [autorewrite with bcr_bytes; fit .. |].
    unfold write_ports, write_ip. autorewrite with bcr_bytes. done. }
  destruct (Hb _ eq_refl) as (Hl & Hh & Hw). set (b := write_ports nat _) in *.
  rewrite udp_checksum_ok_write_ip_checksum by (autorewrite with bcr_bytes; fit).
  apply write_udp_checksum_ok; [unfold header_fits; lia | lia | lia |]. by rewrite Hh, Hl, Hw.
Qed.
(** C20: the UDP checksum of a relayed datagram verifies, over its own UDP length, whenever the
    datagram is the whole captured buffer. *)
Theorem apply_nat_udp_checksum nat db buf buf' :
  apply_nat buf nat db = Ret (Ok tt, buf') -> byte_at 9 buf = 17 ->
  Z.of_nat (length buf) <= 65535 ->
  word_at (header_len buf + 4) buf = Z.of_nat (length buf - header_len buf) ->
  udp_checksum_ok buf' = true.
Proof using L.
  rewrite apply_nat_total. intros H. destruct (decide (nat_ok buf)) as [Hn|]; [| by case_decide].
  injection H as <-. by apply rewritten_udp_checksum.
Qed.

(** ** Padding *)

(** The same when the datagram is followed by [n] zero bytes: the library counts them in the
    length of its pseudo-header. *)
Lemma write_udp_checksum_padded buf len n :
  (20 <= header_len buf)%nat -> (8 <= len)%nat -> (header_len buf + len + n = length buf)%nat ->
  word_at (header_len buf + 4) buf = Z.of_nat len ->
  bytes_at (header_len buf + len) n buf = replicate n (u8_of 0) ->
  (0 < n)%nat -> Z.of_nat (length buf) <= 65535 ->
  udp_checksum_ok (write_udp_checksum (lib_udp_checksum buf) buf) = false.
Proof using L.
  intros Hh Hlen Hsize Hword Hpad Hn Hmax. unfold udp_checksum_ok.
  rewrite header_len_write_udp_checksum by lia. set (h := header_len buf) in *.
  unfold write_udp_checksum. fold h. autorewrite with bcr_bytes. rewrite Hword, Nat2Z.id.
  set (seg := bytes_at h len buf). assert (length seg = len) as Hseg by (apply length_bytes_at; lia).
  assert (drop h buf = seg ++ replicate n (u8_of 0)) as Hdrop.
  { rewrite <- Hpad. unfold seg, bytes_at. rewrite (take_ge (drop (h + len) buf)) by (rewrite length_drop; lia).
    by rewrite <- drop_drop, take_drop. }
  unfold bytes_at. rewrite drop_put, Hdrop, put_app, take_app_length' by fit.
  unfold lib_udp_checksum. fold h. rewrite Hdrop.
  pose proof (udp_ipv4_checksum_law (seg ++ replicate n (u8_of 0)) (ip_at 12 buf) (ip_at 16 buf)
    ltac:(rewrite length_app; lia) ltac:(rewrite length_app, length_replicate; lia)) as Hc.
  set (c := udp_ipv4_checksum _ _ _) in *. unfold udp_checksum in Hc.
  rewrite length_app, length_replicate, Hseg in Hc. unfold zero_word in Hc. rewrite put_app in Hc by (cbn [length]; lia).
  fold (zero_word 6 seg) in Hc.
  set (ws := pseudo_words _ _ (Z.of_nat (len + n)) ++ _) in Hc.
  assert (Forall is_word ws) as Hws
    by (apply Forall_app; split; [apply length_pseudo; unfold is_word; lia | apply words_are_words]).
  pose proof (oc_checksum_word _ Hws) as Hr. red in Hr.
  assert (zsum ws = zsum (pseudo_words (ip_at 12 buf) (ip_at 16 buf) (Z.of_nat len)) + Z.of_nat n + zsum (words (zero_word 6 seg)))
    as Hsum.
  { unfold ws, pseudo_words. rewrite !zsum_app, zsum_words_zeros, !zsum_cons, Nat2Z.inj_add. lia. }
  assert (0 <= zsum (pseudo_words (ip_at 12 buf) (ip_at 16 buf) (Z.of_nat len))) as Hp0
    by (apply zsum_nonneg, length_pseudo; unfold is_word; lia).
  pose proof (zsum_nonneg _ (words_are_words (zero_word 6 seg))) as Hs0.
  apply (oc_checksum_off ws _ c (Z.of_nat n)); [done | | lia | lia | exact Hc |].
  - apply Forall_app. split; [apply length_pseudo; unfold is_word; lia | apply words_are_words].
  - rewrite zsum_app, (zsum_put_word 3) by (lia || (cbn [Nat.mul Nat.add]; lia)).
    change (2 * 3)%nat with 6%nat. lia.
Qed.

(** C22: the checksum of a padded frame is wrong.  When the captured buffer is longer than the
    datagram (Ethernet pads short frames with zeros), [apply_nat] computes the checksum over the
    padding too, with the padded length in the pseudo-header: whatever the datagram, the options
    and the padding, what it leaves never passes the receiver's check of the UDP checksum, while
    the same datagram without padding does. *)
Theorem udp_checksum_padding nat db pkt n buf' :
  let buf := pkt ++ replicate n (u8_of 0) in
  (0 < n)%nat -> Z.of_nat (length buf) <= 65535 ->
  byte_at 9 buf = 17 -> (header_len buf + 8 <= length pkt)%nat ->
  word_at (header_len buf + 4) buf = Z.of_nat (length pkt - header_len buf) ->
  apply_nat buf nat db = Ret (Ok tt, buf') ->
  udp_checksum_ok buf' = false
  /\ exists pkt', apply_nat pkt nat db = Ret (Ok tt, pkt') /\ udp_checksum_ok pkt' = true.
Proof using L.
  intros buf Hn Hmax H17 Hudp Hlen H. rewrite apply_nat_total in H.
  destruct (decide (nat_ok buf)) as [Hok|]; [| by case_decide]. injection H as <-.
  assert (length buf = length pkt + n)%nat as Hl by (unfold buf; by rewrite length_app, length_replicate).
  pose proof Hok as [Hhdr _]. pose proof (proj2 Hhdr) as Hh. red in Hh.
  assert (forall off k, (off + k <= length pkt)%nat -> bytes_at off k buf = bytes_at off k pkt) as Hat.
  { intros off k Hle. unfold buf, bytes_at. rewrite drop_app_le by lia. apply take_app_le. rewrite length_drop. lia. }
  assert (header_len buf = header_len pkt) as Hhl by (unfold header_len, byte_at; by rewrite Hat by lia).
  split.
  - rewrite rewritten_udp by done. cbn zeta. set (b := write_ports nat (write_ip nat db buf)).
    assert (length b = length buf /\ header_len b = header_len buf
            /\ word_at (header_len buf + 4) b = word_at (header_len buf + 4) buf
            /\ bytes_at (length pkt) n b = bytes_at (length pkt) n buf) as (Hbl & Hbh & Hbw & Hbp).
    { unfold b, write_ports, write_ip. split_and!; autorewrite with bcr_bytes; done || fit. }
    rewrite udp_checksum_ok_write_ip_checksum by (autorewrite with bcr_bytes; fit).
    apply (write_udp_checksum_padded b (length pkt - header_len buf) n); rewrite ?Hbh, ?Hbl; try lia.
    replace (header_len buf + (length pkt - header_len buf))%nat with (length pkt) by lia.
    rewrite Hbp. unfold buf, bytes_at. rewrite drop_app_length. apply take_ge. by rewrite length_replicate.
  - assert (nat_ok pkt) as Hokp.
    { destruct Hhdr as [Hv Hfit]. split; [| rewrite <- Hhl; lia].
      split; [| unfold header_fits; lia]. unfold byte_at in *. by rewrite <- Hat by lia. }
    rewrite apply_nat_total, decide_True by done. eexists. split; [done |].
    apply rewritten_udp_checksum; [done | | lia |].
    + unfold byte_at in *. by rewrite <- Hat by lia.
    + unfold word_at in *. by rewrite <- Hat, <- Hhl, Hlen by lia.
Qed.
End theorems.

(** ** Witnesses *)

(** [sample_packet] of the unit tests of [nat.rs]: a 33-byte datagram carrying "hello". *)
Definition sample_packet (ttl ip_id udp_cksum : Z) : list u8 :=
  map u8_of [69; 0; 0; 33] ++ be16 ip_id ++ map u8_of [0; 0; ttl; 17; 0; 0]
  ++ octets host_50 ++ octets limited_broadcast
  ++ map u8_of [4; 210; 20; 233; 0; 13] ++ be16 udp_cksum ++ map u8_of [104; 101; 108; 108; 111].

Definition snat_options : NatOptions :=
  mk_nat (Some (Ipv4Addr_new 10 0 0 1)) None None (Some 9999).

Definition bcast_10 : Ipv4Addr := Ipv4Addr_new 10 0 0 255.

Lemma sample_packet_nat_ok : nat_ok (sample_packet 64 4369 0).
Proof. apply (bool_decide_unpack _). vm_compute. exact I. Qed.

Lemma apply_nat_returns_witness :
  PnetLaws ref_pnet /\
  exists r buf',
    apply_nat (P := ref_pnet) (sample_packet 64 4369 0) snat_options bcast_10 = Ret (r, buf')
    /\ length buf' = length (sample_packet 64 4369 0)
    /\ (r = Ok tt <-> nat_ok (sample_packet 64 4369 0))
    /\ (r = Err (lit "Malformed IPv4 header") <-> ~ header_ok (sample_packet 64 4369 0))
    /\ (~ header_ok (sample_packet 64 4369 0) -> buf' = sample_packet 64 4369 0).
Proof.
  split; [exact ref_pnet_laws |].
  exact (apply_nat_returns (L := ref_pnet_laws) snat_options bcast_10 (sample_packet 64 4369 0)).
Defined.

Lemma apply_nat_refines_witness :
  nat_ok (sample_packet 64 4369 0) /\ byte_at 9 (sample_packet 64 4369 0) = 17 /\
  exists buf',
    apply_nat (P := ref_pnet) (sample_packet 64 4369 0) snat_options bcast_10 = Ret (Ok tt, buf')
    /\ view buf' = nat_spec snat_options bcast_10 (view (sample_packet 64 4369 0)).
Proof.
  split; [exact sample_packet_nat_ok |]. split; [vm_compute; reflexivity |].
  apply (apply_nat_refines (L := ref_pnet_laws));
    [exact sample_packet_nat_ok | vm_compute; reflexivity |].
  cbn. intros p [H|H]; simplify_eq. split; apply Z.leb_le; reflexivity.
Defined.

Lemma apply_nat_marks_witness :
  exists buf',
    apply_nat (P := ref_pnet) (sample_packet 64 4369 0) snat_options bcast_10 = Ret (Ok tt, buf')
    /\ is_already_relayed (P := ref_pnet) buf' = Ret true.
Proof.
  eexists. split; [vm_compute; reflexivity |].
  apply (apply_nat_marks (L := ref_pnet_laws) snat_options bcast_10 (sample_packet 64 4369 0)).
  vm_compute. reflexivity.
Defined.

Lemma apply_nat_ip_checksum_witness :
  exists buf',
    apply_nat (P := ref_pnet) (sample_packet 64 4369 0) snat_options bcast_10 = Ret (Ok tt, buf')
    /\ ip_checksum_ok buf' = true.
Proof.
  eexists. split; [vm_compute; reflexivity |].
  apply (apply_nat_ip_checksum (L := ref_pnet_laws) snat_options bcast_10 (sample_packet 64 4369 0)).
  vm_compute. reflexivity.
Defined.

Lemma apply_nat_udp_checksum_witness :
  exists buf',
    apply_nat (P := ref_pnet) (sample_packet 64 4369 0) snat_options bcast_10 = Ret (Ok tt, buf')
    /\ udp_checksum_ok buf' = true.
Proof.
  eexists. split; [vm_compute; reflexivity |].
  apply (apply_nat_udp_checksum (L := ref_pnet_laws) snat_options bcast_10 (sample_packet 64 4369 0));
    [vm_compute; reflexivity | vm_compute; reflexivity | apply Z.leb_le; vm_compute; reflexivity
    | vm_compute; reflexivity].
Defined.

(** The 28-byte datagram of the unit tests as an Ethernet frame carries it: padded to the
    46-byte minimum payload. *)
Lemma udp_checksum_padding_witness :
  exists buf',
    apply_nat (P := ref_pnet) (sample_udp host_50 limited_broadcast ++ replicate 18 (u8_of 0))
      NatOptions_default limited_broadcast = Ret (Ok tt, buf')
    /\ udp_checksum_ok buf' = false.
Proof.
  eexists. split; [vm_compute; reflexivity |].
  apply (udp_checksum_padding (L := ref_pnet_laws) NatOptions_default limited_broadcast
           (sample_udp host_50 limited_broadcast) 18).
  - lia.
  - apply Z.leb_le. vm_compute. reflexivity.
  - vm_compute. reflexivity.
  - apply Nat.leb_le. vm_compute. reflexivity.
  - vm_compute. reflexivity.
  - vm_compute. reflexivity.
Defined.
