(* ===== verification/Sys.v ===== *)
(** * System calls and effectful programs

    The program talks to the world through calls that are not part of the repository: the
    kernel (through [nix], [libc] and [std]), the clock and the terminal.  [sysop] lists them
    with the type of their answers; a [prog] is a program that makes such calls, one after the
    other, and whose continuation gets the answer.  The meaning of a program is the set of its
    traces: the calls made, each with an answer the world may give. *)

From S2P Require Import Prelude Bytes RustStr.

(** ** Data exchanged with the kernel *)

Definition Errno : Type := Z.

(** [libc::sock_filter] *)
Record sock_filter := mk_insn { code : Z; jt : nat; jf : nat; k : Z }.

(** [libc::sockaddr_ll]; the protocol is a field in network byte order. *)
Record sockaddr_ll := mk_sll {
  sll_family : Z;
  sll_protocol : list u8;
  sll_ifindex : Z;
  sll_hatype : Z;
  sll_pkttype : Z;
  sll_halen : Z;
  sll_addr : list u8
}.

(** A socket address, as far as [as_sockaddr_in] looks into it. *)
Inductive sockaddr := Sockaddr_in (ip : Ipv4Addr) | Sockaddr_other.

(** [nix::ifaddrs::InterfaceAddress] *)
Record InterfaceAddress := mk_ifaddr {
  interface_name : str;
  iff_up : bool;
  broadcast : option sockaddr
}.

(** [nix::unistd::User] *)
Record User := mk_user { user_uid : Z; user_gid : Z }.

(** ** Calls *)

Inductive sysop : Type -> Type :=
  | Geteuid : sysop Z
  | Read_to_string (path : str) : sysop (result Errno str)
  | Getifaddrs : sysop (result Errno (list InterfaceAddress))
  | Socket : sysop (result Errno Z)
  | If_nametoindex (name : str) : sysop (result Errno Z)
  | Bind (fd : Z) (addr : sockaddr_ll) : sysop (result Errno unit)
  | Add_membership_allmulti (fd ifindex : Z) : sysop (result Errno unit)
  | Attach_filter (fd : Z) (prog : list sock_filter) : sysop (result Errno unit)
  | User_from_name (name : str) : sysop (result Errno (option User))
  | Setgroups (gids : list Z) : sysop (result Errno unit)
  | Setgid (gid : Z) : sysop (result Errno unit)
  | Setuid (uid : Z) : sysop (result Errno unit)
  | Seteuid (uid : Z) : sysop (result Errno unit)
  | Select (fds : list Z) (timeout_s : Z) : sysop (result Errno (Z * list Z))
      (** the count, and what is left in the set *)
  | Read (fd : Z) (count : nat) : sysop (result Errno (list u8))
  | Sendto (fd : Z) (data : list u8) (addr : sockaddr_ll) : sysop (result Errno Z)
  | Instant_now : sysop Z
      (** nanoseconds of a monotonic clock *)
  | Println (line : str) : sysop (result Errno unit)
  | Eprintln (line : str) : sysop (result Errno unit).
      (** writing a line to the standard output or error stream *)

(** ** Programs *)

Inductive prog (A : Type) : Type :=
  | Done (a : A)
  | Crash
  | Do {X : Type} (op : sysop X) (k : X -> prog A).
Arguments Done {A} a.
Arguments Crash {A}.
Arguments Do {A X} op k.

Fixpoint prog_bind {A B} (f : A -> prog B) (m : prog A) : prog B :=
  match m with
  | Done a => f a
  | Crash => Crash
  | Do op k => Do op (fun x => prog_bind f (k x))
  end.

#[export] Instance prog_ret_inst : MRet prog := @Done.
#[export] Instance prog_bind_inst : MBind prog := fun A B f m => prog_bind f m.

Definition call {X} (op : sysop X) : prog X := Do op Done.

(** [println!] and [eprintln!] panic when the line cannot be written: a closed pipe, a full
    disk. *)
Definition print (op : sysop (result Errno unit)) : prog unit :=
  call op ≫= fun written => match written with Ok _ => Done tt | Err _ => Crash end.

Definition println (line : str) : prog unit := print (Println line).

Definition eprintln (line : str) : prog unit := print (Eprintln line).

(** A pure computation that may panic. *)
Definition lift {A} (m : outcome A) : prog A :=
  match m with Ret a => Done a | Panic => Crash end.

(** [?] in an effectful function that returns a [Result]. *)
Definition tryp {E A B} (m : prog (result E A)) (f : A -> prog (result E B)) : prog (result E B) :=
  m ≫= fun r => match r with Ok a => f a | Err e => Done (Err e) end.

Notation "'let!' x := m 'in' k" := (tryp m (fun x => k))
  (at level 10, x name, m at level 100, k at level 200) : bcr_scope.

(** ** Traces *)

Inductive event : Type :=
  | Ev {X : Type} (op : sysop X) (answer : X).

(** [exec p t o]: [p] may make the calls of [t], get their answers, and end with [o]. *)
Fixpoint exec {A} (p : prog A) (t : list event) (o : outcome A) : Prop :=
  match p with
  | Done a => t = [] /\ o = Ret a
  | Crash => t = [] /\ o = Panic
  | Do op k => exists x t', t = Ev op x :: t' /\ exec (k x) t' o
  end.

(** The answer of a [read]. *)
Definition read_of (e : event) : option (result Errno (list u8)) :=
  match e with @Ev X op x =>
    match op in sysop X return X -> option (result Errno (list u8)) with
    | Read _ _ => Some
    | _ => fun _ => None
    end x
  end.

Definition packet_of (e : event) : bool := match read_of e with Some (Ok _) => true | _ => false end.

(** The answers of the clock. *)
Definition instant_of (e : event) : option Z :=
  match e with @Ev X op x =>
    match op in sysop X return X -> option Z with
    | Instant_now => Some
    | _ => fun _ => None
    end x
  end.

Definition instants (t : list event) : list Z := omap instant_of t.

(** A line that was printed or not, and whether it could not be. *)
Definition print_of (e : event) : option (result Errno unit) :=
  match e with @Ev X op x =>
    match op in sysop X return X -> option (result Errno unit) with
    | Println _ | Eprintln _ => Some
    | _ => fun _ => None
    end x
  end.

Definition print_failed (e : event) : bool :=
  match print_of e with Some (Err _) => true | _ => false end.

(** What the kernel guarantees: [read] never returns more bytes than asked for. *)
Definition event_ok (e : event) : Prop :=
  match e with
  | @Ev _ (Read _ count) answer =>
      (match answer with Ok bs => length bs <= count | Err _ => True end)%nat
  | _ => True
  end.

Definition world_ok (t : list event) : Prop := Forall event_ok t.

(** A world that can be run: a state and a function that answers each call. *)
Definition handler (S : Type) : Type := forall X, sysop X -> S -> X * S.

Fixpoint run_prog {A S} (h : handler S) (p : prog A) (s : S) : list event * outcome A * S :=
  match p with
  | Done a => ([], Ret a, s)
  | Crash => ([], Panic, s)
  | Do op k =>
      let '(x, s) := h _ op s in
      let '(t, o, s) := run_prog h (k x) s in
      (Ev op x :: t, o, s)
  end.

(** ** Lemmas *)

Lemma exec_ret {A} (a : A) t o : exec (Done a) t o <-> t = [] /\ o = Ret a.
Proof. done. Qed.

Lemma exec_call {X A} (op : sysop X) (f : X -> prog A) t o :
  exec (call op ≫= f) t o <-> exists x t', t = Ev op x :: t' /\ exec (f x) t' o.
Proof. done. Qed.

Lemma exec_bind {A B} (m : prog A) (f : A -> prog B) t o :
  exec (m ≫= f) t o <->
  (exec m t Panic /\ o = Panic)
  \/ exists a t1 t2, exec m t1 (Ret a) /\ exec (f a) t2 o /\ t = t1 ++ t2.
Proof.
  revert t. induction m as [a| |X op k IH]; intros t; cbn.
  - split.
    + intros H. right. by exists a, [], t.
    + intros [[[_ ?] _]|(a' & t1 & t2 & [-> Ha] & Hf & ->)]; [done |]. by injection Ha as ->.
  - split.
    + intros [-> ->]. by left.
    + intros [[[-> _] ->]|(a' & t1 & t2 & [_ H] & _)]; done.
  - split.
    + intros (x & t' & -> & Hk). apply IH in Hk as [[Hp ->]|(a & t1 & t2 & H1 & H2 & ->)].
      * left. eauto.
      * right. exists a, (Ev op x :: t1), t2. eauto 8.
    + intros [[(x & t' & -> & H) ->]|(a & t1 & t2 & (x & t' & -> & H1) & H2 & ->)].
      * exists x, t'. split; [done |]. apply IH. by left.
      * exists x, (t' ++ t2). split; [done |]. apply IH. right. eauto 8.
Qed.

Lemma exec_print {A} op (f : unit -> prog A) t o :
  exec (print op ≫= f) t o <->
  (exists t', t = Ev op (Ok tt) :: t' /\ exec (f tt) t' o)
  \/ (exists e, t = [Ev op (Err e)] /\ o = Panic).
Proof.
  split.
  - intros ([[]|e] & t' & -> & H); [left; by exists t' | right]. destruct H as [-> ->]. by exists e.
  - intros [(t' & -> & H)|(e & -> & ->)]; [by exists (Ok tt), t' | by exists (Err e), []].
Qed.

Lemma exec_lift {A} (m : outcome A) t o : exec (lift m) t o <-> t = [] /\ o = m.
Proof. by destruct m. Qed.

Lemma exec_lift_bind {A B} (m : outcome A) (f : A -> prog B) t o a :
  m = Ret a -> exec (lift m ≫= f) t o <-> exec (f a) t o.
Proof. by intros ->. Qed.

Lemma exec_tryp {E A B} (m : prog (result E A)) (f : A -> prog (result E B)) t o :
  exec (let! x := m in f x) t o <->
  (exec m t Panic /\ o = Panic)
  \/ (exists e, exec m t (Ret (Err e)) /\ o = Ret (Err e))
  \/ exists a t1 t2, exec m t1 (Ret (Ok a)) /\ exec (f a) t2 o /\ t = t1 ++ t2.
Proof.
  unfold tryp. rewrite exec_bind. split.
  - intros [?|([a|e] & t1 & t2 & H1 & H2 & ->)]; [by left | right; right; eauto 8 |].
    destruct H2 as [-> ->]. right. left. exists e. by rewrite app_nil_r.
  - intros [?|[(e & H & ->)|(a & t1 & t2 & H1 & H2 & ->)]]; [by left | |]; right; [|eauto 8].
    exists (Err e), t, []. by rewrite app_nil_r.
Qed.

Lemma run_prog_exec {A S} (h : handler S) (p : prog A) s t o s' :
  run_prog h p s = (t, o, s') -> exec p t o.
Proof.
  revert s t. induction p as [a| |X op k IH]; intros s t; cbn.
  - by intros [= <- <- _].
  - by intros [= <- <- _].
  - destruct (h X op s) as [x s1]. destruct (run_prog h (k x) s1) as [[t1 o1] s2] eqn:E.
    intros [= <- <- <-]. exists x, t1. split; [done |]. by apply (IH _ _ _ E).
Qed.

Lemma world_ok_app t1 t2 : world_ok (t1 ++ t2) <-> world_ok t1 /\ world_ok t2.
Proof. apply Forall_app. Qed.

Lemma run_prog_runs {A S} (h : handler S) (p : prog A) s :
  exec p (run_prog h p s).1.1 (run_prog h p s).1.2.
Proof. destruct (run_prog h p s) as [[t o] s'] eqn:E. by apply run_prog_exec in E. Qed.

(** ** Programs that make only some calls *)

(** [only c ok p]: whatever the answers, [p] makes only calls that [ok] holds of, and panics only
    if [c]. *)
Fixpoint only {A} (c : Prop) (ok : event -> Prop) (p : prog A) : Prop :=
  match p with
  | Done _ => True
  | Crash => c
  | Do op k => forall x, ok (Ev op x) /\ only c ok (k x)
  end.

Lemma only_exec {A} c ok (p : prog A) t o :
  only c ok p -> exec p t o -> Forall ok t /\ (o = Panic -> c).
Proof.
  revert t. induction p as [a| |X op k IH]; intros t Hp.
  - by intros [-> ->].
  - by intros [-> ->].
  - intros (x & t' & -> & H). destruct (Hp x) as [Hop Hk]. destruct (IH _ _ Hk H) as [??].
    split; [by constructor | done].
Qed.

Lemma only_done {A} c ok (a : A) : only c ok (Done a).
Proof. done. Qed.

Lemma only_bind {A B} c ok (m : prog A) (f : A -> prog B) :
  only c ok m -> (forall a, only c ok (f a)) -> only c ok (m ≫= f).
Proof.
  intros Hm Hf. induction m as [a| |X op k IH]; cbn in *; [apply Hf | done |].
  intros x. destruct (Hm x). split; [done | by apply IH].
Qed.

Lemma only_call {X} c ok (op : sysop X) : (forall x, ok (Ev op x)) -> only c ok (call op).
Proof. intros H x. by split. Qed.

Lemma only_print ok op : (forall x, ok (Ev op x)) -> only True ok (print op).
Proof. intros H x. split; [done |]. by destruct x. Qed.

Lemma only_lift {A} ok (m : outcome A) : only True ok (lift m).
Proof. by destruct m. Qed.

Lemma only_tryp {E A B} c ok (m : prog (result E A)) (f : A -> prog (result E B)) :
  only c ok m -> (forall a, only c ok (f a)) -> only c ok (tryp m f).
Proof. intros Hm Hf. apply only_bind; [done |]. by intros [a|e]. Qed.

(** Go through a program, case by case, down to its calls. *)
Ltac only_step :=
  match goal with
  | |- only _ _ (Done _) => apply only_done
  | |- only _ _ (call _) => apply only_call; intros ?; try reflexivity
  | |- only _ _ (println _) => apply only_print; intros ?; try reflexivity
  | |- only _ _ (eprintln _) => apply only_print; intros ?; try reflexivity
  | |- only _ _ (lift _) => apply only_lift
  | |- only _ _ (tryp _ _) => apply only_tryp; [| intros ?]
  | |- only _ _ (_ ≫= _) => apply only_bind; [| intros ?]
  | |- only _ _ (if ?b then _ else _) => destruct b
  | |- only _ _ (match ?x with _ => _ end) => destruct x
  | |- only _ _ _ => solve [eauto with bcr]
  end.

Lemma exec_tryp_Ok {E A B} (m : prog (result E A)) (f : A -> prog (result E B)) t b :
  exec (let! x := m in f x) t (Ret (Ok b)) <->
  exists a t1 t2, exec m t1 (Ret (Ok a)) /\ exec (f a) t2 (Ret (Ok b)) /\ t = t1 ++ t2.
Proof.
  rewrite exec_tryp. split; [intros [[_ [=]]|[(e & _ & [=])|H]]; exact H | by right; right].
Qed.
