(* ===== verification/FdSet.v ===== *)
(** * The descriptor sets of [select]

    [nix::sys::select::FdSet], which is not part of the repository, as an interface: a set of
    the descriptors that were inserted in it, whose operations assert that a descriptor is one
    that a set of [FD_SETSIZE] bits can hold. *)

From S2P Require Import Prelude Sys.

(** The constant of [libc], on Linux. *)
Definition FD_SETSIZE : Z := 1024.

Definition selectable (fd : Z) : Prop := 0 <= fd < FD_SETSIZE.

#[export] Instance selectable_dec fd : Decision (selectable fd).
Proof. unfold selectable. apply _. Defined.

Class FdSets := {
  FdSet_insert : list Z -> Z -> outcome (list Z);
  FdSet_contains : list Z -> Z -> outcome bool
}.

(** What the program relies on. *)
Class FdSetsLaws (F : FdSets) := {
  FdSet_insert_law set fd :
    FdSet_insert set fd = if decide (selectable fd) then Ret (set ++ [fd]) else Panic;
  FdSet_contains_law set fd :
    FdSet_contains set fd = if decide (selectable fd) then Ret (bool_decide (fd ∈ set)) else Panic
}.

(** An implementation, for witnesses. *)
Definition ref_fdsets : FdSets := {|
  FdSet_insert set fd := if decide (selectable fd) then Ret (set ++ [fd]) else Panic;
  FdSet_contains set fd := if decide (selectable fd) then Ret (bool_decide (fd ∈ set)) else Panic
|}.

Lemma ref_fdsets_laws : FdSetsLaws ref_fdsets.
Proof. by split. Qed.
