(* ===== verification/Abort.v ===== *)
(** * Programs that a failed print ends

    The crate is built with [panic = "abort"], and [println!] panics when its line cannot be
    written: any print may be the last call of the process.  This file relates a run that ends
    so to the runs that would have gone on: it is the beginning of one in which the print, and
    all later ones, succeed. *)

From S2P Require Import Prelude Bytes RustStr Sys.

(** ** Worlds in which all prints succeed *)

Definition event_calm (e : event) : Prop := event_ok e /\ print_failed e = false.

Definition calm (t : list event) : Prop := Forall event_calm t.

Lemma calm_app t1 t2 : calm (t1 ++ t2) <-> calm t1 /\ calm t2.
Proof. apply Forall_app. Qed.

Lemma calm_world_ok t : calm t -> world_ok t.
Proof. apply List.Forall_impl. by intros e []. Qed.

(** The last call is a print that failed, and no other did. *)
Definition killed (t : list event) : Prop :=
  exists t0 e, t = t0 ++ [e] /\ print_failed e = true /\ Forall (fun e => print_failed e = false) t0.

Lemma killed_app t1 t2 :
  Forall (fun e => print_failed e = false) t1 -> killed t2 -> killed (t1 ++ t2).
Proof.
  intros H1 (t0 & e & -> & He & H0). exists (t1 ++ t0), e. rewrite <- app_assoc.
  split_and!; [done | done | by apply Forall_app].
Qed.

(** ** Programs that a failed print ends *)

(** A print that fails is the end of [p], which panics for other reasons only if [c]. *)
Fixpoint aborts {A} (c : Prop) (p : prog A) : Prop :=
  match p with
  | Done _ => True
  | Crash => c
  | Do op k => forall x, if print_failed (Ev op x) then k x = Crash else aborts c (k x)
  end.

Lemma aborts_exec {A} c (p : prog A) t o :
  aborts c p -> exec p t o ->
  (Forall (fun e => print_failed e = false) t /\ (o = Panic -> c)) \/ (o = Panic /\ killed t).
Proof.
  revert t. induction p as [a| |X op k IH]; intros t Hp.
  - intros [-> ->]. by left.
  - intros [-> ->]. by left.
  - intros (x & t' & -> & H). specialize (Hp x). destruct (print_failed (Ev op x)) eqn:E.
    + rewrite Hp in H. destruct H as [-> ->]. right. split; [done |]. by exists [], (Ev op x).
    + destruct (IH _ _ Hp H) as [[? ?]|[-> Hk]]; [left; split; [by constructor | done] |].
      right. split; [done |]. apply (killed_app [Ev op x]); [by constructor | done].
Qed.

Lemma aborts_bind {A B} c (m : prog A) (f : A -> prog B) :
  aborts c m -> (forall a, aborts c (f a)) -> aborts c (m ≫= f).
Proof.
  intros Hm Hf. induction m as [a| |X op k IH]; cbn in *; [apply Hf | done |].
  intros x. specialize (Hm x). destruct (print_failed _); [by rewrite Hm | by apply IH].
Qed.

Lemma aborts_tryp {E A B} c (m : prog (result E A)) (f : A -> prog (result E B)) :
  aborts c m -> (forall a, aborts c (f a)) -> aborts c (tryp m f).
Proof. intros Hm Hf. apply aborts_bind; [done |]. by intros [a|e]. Qed.

Lemma aborts_call {X} c (op : sysop X) : (forall x, print_of (Ev op x) = None) -> aborts c (call op).
Proof. intros H x. unfold print_failed. by rewrite H. Qed.

Lemma aborts_print c op : (forall x, print_of (Ev op x) = Some x) -> aborts c (print op).
Proof. intros H [[]|e]; unfold print_failed; by rewrite H. Qed.

Lemma aborts_lift {A} (m : outcome A) : aborts True (lift m).
Proof. by destruct m. Qed.

(** ** The clock and prints

    [clockless]: the clock is not asked before the next packet is read.  [settled]: that holds
    after every print, so that a run cut by a print can be completed without the clock. *)

Fixpoint clockless {A} (p : prog A) : Prop :=
  match p with
  | Do op k => forall x, instant_of (Ev op x) = None /\ (packet_of (Ev op x) = false -> clockless (k x))
  | _ => True
  end.

Fixpoint settled {A} (p : prog A) : Prop :=
  match p with
  | Do op k => forall x, (print_of (Ev op x) <> None -> clockless (k x)) /\ settled (k x)
  | _ => True
  end.

Lemma clockless_exec {A} (p : prog A) t o :
  clockless p -> exec p t o -> Forall (fun e => packet_of e = false) t -> instants t = [].
Proof.
  revert t. induction p as [a| |X op k IH]; intros t Hp.
  - by intros [-> ->].
  - by intros [-> ->].
  - intros (x & t' & -> & H) [Hx Ht]%Forall_cons_1. destruct (Hp x) as [Hi Hk].
    unfold instants. cbn [omap list_omap]. rewrite Hi. by apply (IH x); [apply Hk | |].
Qed.

Lemma settled_exec {A} (p : prog A) t1 e t2 o :
  settled p -> exec p (t1 ++ e :: t2) o -> print_of e <> None ->
  Forall (fun e => packet_of e = false) t2 -> instants t2 = [].
Proof.
  revert t1. induction p as [a| |X op k IH]; intros t1 Hp.
  - by intros [? _] ? ?; destruct t1.
  - by intros [? _] ? ?; destruct t1.
  - intros (x & t' & Heq & H) He Ht2. destruct (Hp x) as [Hc Hs].
    destruct t1 as [|e1 t1]; cbn in Heq; simplify_eq.
    + by eapply clockless_exec; [apply Hc | |].
    + by apply (IH x t1).
Qed.

Lemma clockless_bind {A B} (m : prog A) (f : A -> prog B) :
  clockless m -> (forall a, clockless (f a)) -> clockless (m ≫= f).
Proof.
  intros Hm Hf. induction m as [a| |X op k IH]; cbn in *; [apply Hf | done |].
  intros x. destruct (Hm x). split; [done | auto].
Qed.

Lemma settled_bind {A B} (m : prog A) (f : A -> prog B) :
  settled m -> (forall a, settled (f a)) -> (forall a, clockless (f a)) -> settled (m ≫= f).
Proof.
  intros Hm Hf Hc. induction m as [a| |X op k IH]; cbn in *; [apply Hf | done |].
  intros x. destruct (Hm x). split; [| auto]. intros. by apply clockless_bind; auto.
Qed.

(** Before the first print, the clock may be asked. *)
Lemma settled_bind_silent {A B} (m : prog A) (f : A -> prog B) :
  only True (fun e => print_of e = None) m -> (forall a, settled (f a)) -> settled (m ≫= f).
Proof.
  intros Hm Hf. induction m as [a| |X op k IH]; cbn in *; [apply Hf | done |].
  intros x. destruct (Hm x) as [Hp Hk]. split; [by rewrite Hp | auto].
Qed.

(** ** Going on after a failed print *)

(** The answer of each call, given what a [read] finds and what the clock shows; lines are
    printed, everything else fails. *)
Definition world_answer (found : result Errno (list u8)) (now : Z) (X : Type) (op : sysop X) : X :=
  match op in sysop X return X with
  | Geteuid => 0
  | Read _ count =>
      match found with
      | Ok bs => if decide (length bs <= count)%nat then Ok bs else Err 0
      | Err e => Err e
      end
  | Instant_now => now
  | Println _ | Eprintln _ => Ok tt
  | Read_to_string _ | Getifaddrs | Socket | If_nametoindex _ | Bind _ _
  | Add_membership_allmulti _ _ | Attach_filter _ _ | User_from_name _ | Setgroups _
  | Setgid _ | Setuid _ | Seteuid _ | Select _ _ | Sendto _ _ _ => Err 0
  end.

Definition answered (found : result Errno (list u8)) (now : Z) (e : event) : Prop :=
  match e with @Ev X op x => x = world_answer found now X op end.

Lemma exec_answered {A} found now (p : prog A) :
  exists t o, exec p t o /\ Forall (answered found now) t.
Proof.
  induction p as [a| |X op k IH]; [by exists [], (Ret a) | by exists [], Panic |].
  destruct (IH (world_answer found now X op)) as (t & o & H & Ht).
  exists (Ev op (world_answer found now X op) :: t), o. split; [by exists (world_answer found now X op), t |].
  by constructor.
Qed.

Lemma answered_calm found now e : answered found now e -> event_calm e.
Proof.
  destruct e as [X op x]. destruct op; cbn; intros ->; try done.
  split; [| done]. cbn. destruct found as [bs|e]; [| done]. by case_decide.
Qed.

(** The same call, its line printed. *)
Definition printed_after_all (e : event) : event :=
  match e with @Ev X op x =>
    match op with
    | Println line => Ev (Println line) (Ok tt)
    | Eprintln line => Ev (Eprintln line) (Ok tt)
    | _ => e
    end
  end.

(** Had the print that ended a run succeeded, the program would have gone on. *)
Lemma exec_goes_on {A} found now (p : prog A) t e o :
  exec p (t ++ [e]) o -> print_failed e = true ->
  exists t' o', exec p (t ++ printed_after_all e :: t') o' /\ Forall (answered found now) t'.
Proof.
  revert t. induction p as [a| |X op k IH]; intros t.
  - by intros [? _]; destruct t.
  - by intros [? _]; destruct t.
  - intros (x & t1 & Heq & H) He. destruct t as [|e1 t]; cbn in Heq; simplify_eq.
    + assert (exists y, printed_after_all (Ev op x) = Ev op y) as [y Hy] by (destruct op; by eexists).
      destruct (exec_answered found now (k y)) as (t' & o' & H' & Ht').
      exists t', o'. split; [| done]. cbn [app]. rewrite Hy. by exists y, t'.
    + destruct (IH x t H He) as (t' & o' & H' & Ht'). exists t', o'. split; [| done].
      by exists x, (t ++ printed_after_all e :: t').
Qed.

Lemma printed_after_all_calm e : print_failed e = true -> event_calm (printed_after_all e).
Proof. by destruct e as [X op x]; destruct op. Qed.

(** Go through a program, case by case, to show one of the predicates of this file. *)
Ltac abort_step :=
  match goal with
  | |- aborts _ (Done _) => exact I
  | |- aborts _ (call _) => apply aborts_call; done
  | |- aborts _ (println _) => apply aborts_print; done
  | |- aborts _ (eprintln _) => apply aborts_print; done
  | |- aborts True (lift _) => apply aborts_lift
  | |- aborts _ (tryp _ _) => apply aborts_tryp; [| intros ?]
  | |- aborts _ (_ ≫= _) => apply aborts_bind; [| intros ?]
  | |- aborts _ (if ?b then _ else _) => destruct b
  | |- aborts _ (match ?x with _ => _ end) => destruct x
  | |- aborts _ _ => solve [eauto with bcr]
  end.

Lemma clockless_call {X} (op : sysop X) : (forall x, instant_of (Ev op x) = None) -> clockless (call op).
Proof. intros H x. by split. Qed.

Lemma clockless_print op : (forall x, instant_of (Ev op x) = None) -> clockless (print op).
Proof. intros H x. split; [done |]. by destruct x. Qed.

Lemma clockless_lift {A} (m : outcome A) : clockless (lift m).
Proof. by destruct m. Qed.

Lemma clockless_tryp {E A B} (m : prog (result E A)) (f : A -> prog (result E B)) :
  clockless m -> (forall a, clockless (f a)) -> clockless (tryp m f).
Proof. intros Hm Hf. apply clockless_bind; [done |]. by intros [a|e]. Qed.

Lemma settled_print op : settled (print op).
Proof. intros x. by destruct x. Qed.

Lemma settled_lift {A} (m : outcome A) : settled (lift m).
Proof. by destruct m. Qed.

Ltac clock_step :=
  match goal with
  | |- clockless (Done _) => exact I
  | |- clockless (call _) => apply clockless_call; done
  | |- clockless (println _) => apply clockless_print; done
  | |- clockless (eprintln _) => apply clockless_print; done
  | |- clockless (lift _) => apply clockless_lift
  | |- clockless (tryp _ _) => apply clockless_tryp; [| intros ?]
  | |- clockless (_ ≫= _) => apply clockless_bind; [| intros ?]
  | |- clockless (if ?b then _ else _) => destruct b
  | |- clockless (match ?x with _ => _ end) => destruct x
  | |- clockless _ => solve [eauto with bcr]
  end.

Ltac settled_step :=
  match goal with
  | |- settled (Done _) => exact I
  | |- settled (lift _) => apply settled_lift
  | |- settled (call _) => intros ?; done
  | |- settled (call _ ≫= _) => apply settled_bind_silent; [by apply only_call | intros ?]
  | |- settled (lift _ ≫= _) => apply settled_bind_silent; [apply only_lift | intros ?]
  | |- settled (_ ≫= _) => apply settled_bind; [| intros ? | intros ?; repeat clock_step]
  | |- settled (if ?b then _ else _) => destruct b
  | |- settled (match ?x with _ => _ end) => destruct x
  | |- settled _ => solve [eauto with bcr]
  end.
