(* ===== verification/Error.v ===== *)
(** * Errors of the program

    Models [BcrError] of [src/src/main.rs] and what the program keeps of an [anyhow::Error]:
    its outermost layer. *)

From S2P Require Import Prelude Bytes RustStr Sys.

Inductive BcrError :=
  | BcrError_Config (text : str)
  | BcrError_Interface (text : str)
  | BcrError_Socket (e : Errno)
  | BcrError_Permission (text : str)
  | BcrError_Io (e : Errno).

(** [Display], as the [#[error(..)]] attributes derive it, given how an [Errno] prints. *)
Definition BcrError_display (errno_text : Errno -> str) (e : BcrError) : str :=
  match e with
  | BcrError_Config text => lit "Configuration error: " ++ text
  | BcrError_Interface text => lit "Interface error: " ++ text
  | BcrError_Socket e => lit "Socket error: " ++ errno_text e
  | BcrError_Permission text =>
      lit "Permission denied: " ++ text ++ lit ". bcr requires CAP_NET_RAW or root privileges"
  | BcrError_Io e => lit "I/O error: " ++ errno_text e
  end.

(** [anyhow::Error]: an error of the program, a system error, or a context over another. *)
Inductive error :=
  | Bcr (e : BcrError)
  | Nix (e : Errno)
  | Context (text : str).

(** [.context(text)?] and [.with_context(|| text)?] in an effectful function. *)
Definition pcontext {E A} (m : prog (result E A)) (text : str) : prog (result error A) :=
  r ← m; Done (map_err (fun _ => Context text) r).

(** A bare [?] on a system error. *)
Definition pnix {A} (m : prog (result Errno A)) : prog (result error A) :=
  r ← m; Done (map_err Nix r).

Lemma exec_pcontext {X A} (op : sysop (result Errno X)) text (f : X -> prog (result error A)) t o :
  exec (let! x := pcontext (call op) text in f x) t o <->
  (exists e, t = [Ev op (Err e)] /\ o = Ret (Err (Context text)))
  \/ exists a t', t = Ev op (Ok a) :: t' /\ exec (f a) t' o.
Proof.
  unfold tryp, pcontext, call. cbn [mbind prog_bind_inst prog_bind exec]. split.
  - intros ([a|e] & t' & -> & H); cbn in H; [by right; eauto |]. destruct H as [-> ->]. left. eauto.
  - intros [(e & -> & ->)|(a & t' & -> & H)]; [exists (Err e), [] | exists (Ok a), t']; done.
Qed.

Lemma exec_pnix {X A} (op : sysop (result Errno X)) (f : X -> prog (result error A)) t o :
  exec (let! x := pnix (call op) in f x) t o <->
  (exists e, t = [Ev op (Err e)] /\ o = Ret (Err (Nix e)))
  \/ exists a t', t = Ev op (Ok a) :: t' /\ exec (f a) t' o.
Proof.
  unfold tryp, pnix, call. cbn [mbind prog_bind_inst prog_bind exec]. split.
  - intros ([a|e] & t' & -> & H); cbn in H; [by right; eauto |]. destruct H as [-> ->]. left. eauto.
  - intros [(e & -> & ->)|(a & t' & -> & H)]; [exists (Err e), [] | exists (Ok a), t']; done.
Qed.

Lemma only_pcontext {E A} c ok (m : prog (result E A)) text : only c ok m -> only c ok (pcontext m text).
Proof. intros. by apply only_bind. Qed.

Lemma only_pnix {A} c ok (m : prog (result Errno A)) : only c ok m -> only c ok (pnix m).
Proof. intros. by apply only_bind. Qed.

#[export] Hint Resolve only_pcontext only_pnix : bcr.

Lemma exec_pcontext_Ok {E A} (m : prog (result E A)) text t a :
  exec (pcontext m text) t (Ret (Ok a)) <-> exec m t (Ret (Ok a)).
Proof.
  unfold pcontext. rewrite exec_bind. split.
  - intros [[_ [=]]|([a'|e] & t1 & t2 & H & [-> [=]] & ->)]. subst. by rewrite app_nil_r.
  - intros H. right. exists (Ok a), t, []. by rewrite app_nil_r.
Qed.
