(* ===== verification/Interface.v ===== *)
(** * Interface discovery

    Models [src/src/interface.rs]. *)

From stdpp Require Import gmap sets.
From S2P Require Import Prelude Bytes RustStr Sys Error.

Record Interface := mk_interface { name : str; is_up : bool }.

(** The loop of [discover_interfaces]: [seen_names] is its hash set. *)
Fixpoint discover_loop (interfaces : list Interface) (seen_names : gset str)
    (ifaddrs : list InterfaceAddress) : list Interface :=
  match ifaddrs with
  | [] => interfaces
  | ifaddr :: ifaddrs =>
      let name := interface_name ifaddr in
      if bool_decide (name ∈ seen_names) then discover_loop interfaces seen_names ifaddrs
      else discover_loop (interfaces ++ [mk_interface name (iff_up ifaddr)])
             ({[name]} ∪ seen_names) ifaddrs
  end.

Definition discover_interfaces : prog (result error (list Interface)) :=
  let! ifaddrs := pnix (call Getifaddrs) in
  Done (Ok (discover_loop [] ∅ ifaddrs)).

(** ** Theorems *)

(** The first entry of an interface in the kernel's list. *)
Definition first_entry (ifaddrs : list InterfaceAddress) (i : Interface) : Prop :=
  exists pre a post, ifaddrs = pre ++ a :: post
    /\ i = mk_interface (interface_name a) (iff_up a)
    /\ Forall (fun a' => interface_name a' <> interface_name a) pre.

Lemma first_entry_cons a l i :
  first_entry (a :: l) i <->
  i = mk_interface (interface_name a) (iff_up a)
  \/ (interface_name a <> name i /\ first_entry l i).
Proof.
  split.
  - intros ([|b pre] & a' & post & Heq & -> & Hpre); injection Heq as <- ->; [by left |].
    apply Forall_cons_1 in Hpre as [Hne Hpre]. right. split; [done |]. by exists pre, a', post.
  - intros [->|(Hne & pre & a' & post & -> & -> & Hpre)].
    + by exists [], a, l.
    + exists (a :: pre), a', post. split_and!; [done..|]. by constructor.
Qed.

Lemma discover_loop_spec acc seen l :
  NoDup (map name acc) -> (forall n, n ∈ seen <-> n ∈ map name acc) ->
  NoDup (map name (discover_loop acc seen l))
  /\ forall i, i ∈ discover_loop acc seen l <->
       i ∈ acc \/ ((name i ∉ seen) /\ first_entry l i).
Proof.
  revert acc seen. induction l as [|a l IH]; intros acc seen Hnd Hseen; cbn [discover_loop].
  - split; [done |]. intros i. split; [by left |].
    intros [?|(_ & pre & b & post & Heq & _)]; [done |]. by destruct pre.
  - case_bool_decide as Hin.
    + destruct (IH acc seen Hnd Hseen) as [? H]. split; [done |]. intros i. rewrite H.
      rewrite first_entry_cons. split; (intros [?|[Hn Hf]]; [by left | right; split; [done |]]).
      * right. split; [congruence | done].
      * by destruct Hf as [-> |[_ ?]].
    + destruct (IH (acc ++ [mk_interface (interface_name a) (iff_up a)])
                  ({[interface_name a]} ∪ seen)) as [? H].
      { rewrite map_app. apply list.NoDup_app. split_and!; [done | | apply list.NoDup_singleton].
        intros n Hn%Hseen. cbn. by intros ->%list_elem_of_singleton. }
      { intros n. rewrite map_app. set_solver. }
      split; [done |]. intros i. rewrite H, first_entry_cons, elem_of_app, list_elem_of_singleton.
      split.
      * intros [[?| ->]|[Hn Hf]]; [by left | by right; split; [| left] | right].
        split; [set_solver |]. right. split; [set_solver | done].
      * intros [?|[Hn [->|[Hne Hf]]]]; [by left; left | by left; right | right].
        split; [set_solver | done].
Qed.

(** C40: discovering the interfaces makes one system call and never panics; it fails exactly
    when the call fails, and otherwise returns each interface name once, with the state of its
    first entry. *)
Theorem discover_interfaces_spec t o :
  exec discover_interfaces t o ->
  (exists e, t = [Ev Getifaddrs (Err e)] /\ o = Ret (Err (Nix e)))
  \/ exists ifaddrs ifs, t = [Ev Getifaddrs (Ok ifaddrs)] /\ o = Ret (Ok ifs)
       /\ NoDup (map name ifs) /\ forall i, i ∈ ifs <-> first_entry ifaddrs i.
Proof.
  intros [(e & -> & ->)|(l & t' & -> & -> & ->)]%exec_pnix; [by left; eauto | right].
  destruct (discover_loop_spec [] ∅ l (base.NoDup_nil_2)) as [Hnd Hin]; [set_solver |].
  exists l, (discover_loop [] ∅ l). split_and!; [done.. | done |]. intros i. rewrite Hin. set_solver.
Qed.

(** An interface with two addresses is listed once, with the state of its first entry. *)
Definition two_addresses : list InterfaceAddress :=
  [mk_ifaddr (lit "eth0") true None; mk_ifaddr (lit "lo") true None; mk_ifaddr (lit "eth0") false None].

Lemma discover_interfaces_spec_witness :
  exists t o, exec discover_interfaces t o /\
  ((exists e, t = [Ev Getifaddrs (Err e)] /\ o = Ret (Err (Nix e)))
   \/ exists ifaddrs ifs, t = [Ev Getifaddrs (Ok ifaddrs)] /\ o = Ret (Ok ifs)
        /\ NoDup (map name ifs) /\ forall i, i ∈ ifs <-> first_entry ifaddrs i).
Proof.
  exists [Ev Getifaddrs (Ok two_addresses)],
    (Ret (Ok [mk_interface (lit "eth0") true; mk_interface (lit "lo") true])).
  assert (exec discover_interfaces [Ev Getifaddrs (Ok two_addresses)]
    (Ret (Ok [mk_interface (lit "eth0") true; mk_interface (lit "lo") true]))) as H.
  { exists (Ok two_addresses), []. split; [reflexivity |]. split; [reflexivity |]. vm_compute. reflexivity. }
  split; [exact H | exact (discover_interfaces_spec _ _ H)].
Defined.
