(* ===== verification/Logging.v ===== *)
(** * Logging

    Models [src/src/logging.rs]: the lines printed for relayed and filtered packets. *)

From S2P Require Import Prelude Bytes RustStr Config Sys.

Definition protocol_name (proto : Protocol) : str :=
  match proto with
  | Protocol_Udp => lit "UDP"
  | Protocol_Any => lit "ANY"
  end.

(** ["{}:{} -> {}:{} ({}"] *)
Definition flow_text (pkt : PacketInfo) : str :=
  show_ip (pkt_src_ip pkt) ++ lit ":" ++ show (pkt_src_port pkt) ++ lit " -> "
  ++ show_ip (pkt_dst_ip pkt) ++ lit ":" ++ show (pkt_dst_port pkt) ++ lit " ("
  ++ protocol_name (pkt_protocol pkt).

Definition log_relay (pkt : PacketInfo) (size : nat) (output_if : str) : prog unit :=
  println (lit "RELAY: " ++ flow_text pkt ++ lit ", " ++ show (Z.of_nat size)
           ++ lit " bytes) via " ++ output_if).

Definition log_filtered (reason : str) (pkt : PacketInfo) : prog unit :=
  println (lit "FILTERED(" ++ reason ++ lit "): " ++ flow_text pkt ++ lit ")").
