(* ===== verification/Bpf.v ===== *)
(** * Classic BPF, as an interface

    The kernel runs the filter a socket carries; its interpreter is not part of the repository.
    [Bpf] is that interpreter, and [BpfLaws] what the program relies on: the documented meaning
    of the four instructions the filter is written with (an absolute byte load ends the program
    with 0 when it is out of range).  [ref_bpf] is an implementation, used to evaluate. *)

From S2P Require Import Prelude Bytes RustStr Sys.

(** Opcodes, as the source composes them. *)
Definition BPF_LD : Z := 0.
Definition BPF_B : Z := 16.
Definition BPF_ABS : Z := 32.
Definition BPF_K : Z := 0.
Definition BPF_ALU : Z := 4.
Definition BPF_AND : Z := 80.
Definition BPF_JMP : Z := 5.
Definition BPF_JEQ : Z := 16.
Definition BPF_RET : Z := 6.

Definition LD_B_ABS : Z := Z.lor (Z.lor BPF_LD BPF_B) BPF_ABS.
Definition ALU_AND_K : Z := Z.lor (Z.lor BPF_ALU BPF_AND) BPF_K.
Definition JMP_JEQ_K : Z := Z.lor (Z.lor BPF_JMP BPF_JEQ) BPF_K.
Definition RET_K : Z := Z.lor BPF_RET BPF_K.

Class Bpf := {
  (** the verdict on a packet: the number of bytes to keep, 0 to drop it *)
  bpf_run : list sock_filter -> list u8 -> Z;
  (** the verdict from instruction [pc] on, with accumulator [a] *)
  bpf_at : list sock_filter -> nat -> Z -> list u8 -> Z
}.

Class BpfLaws (B : Bpf) : Prop := {
  bpf_start p pkt : bpf_run p pkt = bpf_at p 0 0 pkt;
  bpf_ld p pc a pkt jt jf k :
    p !! pc = Some (mk_insn LD_B_ABS jt jf k) ->
    bpf_at p pc a pkt = match pkt !! Z.to_nat k with
                        | Some b => bpf_at p (S pc) (u8_val b) pkt
                        | None => 0
                        end;
  bpf_and p pc a pkt jt jf k :
    p !! pc = Some (mk_insn ALU_AND_K jt jf k) ->
    bpf_at p pc a pkt = bpf_at p (S pc) (Z.land a k) pkt;
  bpf_jeq p pc a pkt jt jf k :
    p !! pc = Some (mk_insn JMP_JEQ_K jt jf k) ->
    bpf_at p pc a pkt = bpf_at p (S pc + if a =? k then jt else jf) a pkt;
  bpf_ret p pc a pkt jt jf k :
    p !! pc = Some (mk_insn RET_K jt jf k) -> bpf_at p pc a pkt = k
}.

(** ** A reference interpreter *)

(** Jumps only go forward, so a program runs by structural recursion: [skip] instructions are
    passed over before the next one is executed. *)
Fixpoint bpf_go (p : list sock_filter) (skip : nat) (a : Z) (pkt : list u8) : Z :=
  match p with
  | [] => 0
  | i :: p =>
      match skip with
      | S skip => bpf_go p skip a pkt
      | O =>
          if code i =? LD_B_ABS then
            match pkt !! Z.to_nat (k i) with
            | Some b => bpf_go p 0 (u8_val b) pkt
            | None => 0
            end
          else if code i =? ALU_AND_K then bpf_go p 0 (Z.land a (k i)) pkt
          else if code i =? JMP_JEQ_K then bpf_go p (if a =? k i then jt i else jf i) a pkt
          else if code i =? RET_K then k i
          else 0
      end
  end.

Definition ref_bpf : Bpf := {|
  bpf_run p pkt := bpf_go p 0 0 pkt;
  bpf_at p pc a pkt := bpf_go p pc a pkt
|}.

Lemma bpf_go_skip p n m a pkt : bpf_go p (n + m) a pkt = bpf_go (drop n p) m a pkt.
Proof. revert n. induction p as [|i p IH]; intros [|n]; try done. apply IH. Qed.

Lemma bpf_go_at p pc i a pkt :
  p !! pc = Some i -> bpf_go p pc a pkt = bpf_go (i :: drop (S pc) p) 0 a pkt.
Proof. intros H. by rewrite <- (Nat.add_0_r pc), bpf_go_skip, (drop_S _ _ _ H), Nat.add_0_r. Qed.

Lemma bpf_go_next p pc a pkt : bpf_go (drop (S pc) p) 0 a pkt = bpf_go p (S pc) a pkt.
Proof. by rewrite <- bpf_go_skip, Nat.add_0_r. Qed.

(** Decide the opcode tests on a known instruction. *)
Ltac opcodes :=
  repeat match goal with
  | |- context [Z.eqb ?x ?y] =>
      let b := eval vm_compute in (Z.eqb x y) in
      lazymatch b with true => idtac | false => idtac end; change (Z.eqb x y) with b
  end.

Lemma ref_bpf_laws : BpfLaws ref_bpf.
Proof.
  split; cbn [ref_bpf bpf_run bpf_at]; [done | intros p pc a pkt j1 j2 c H ..];
    erewrite bpf_go_at by eassumption; cbn [bpf_go code k jt jf]; opcodes; cbn match;
    rewrite ?bpf_go_next; try done.
  - destruct (pkt !! Z.to_nat c); [apply bpf_go_next | done].
  - by rewrite <- bpf_go_skip.
Qed.
