(* ===== verification/Socket.v ===== *)
(** * Packet sockets

    Models [src/src/socket.rs]: opening a socket on an interface, the kernel filter it carries,
    the destination MAC of an outgoing packet, receiving and sending. *)

From stdpp Require Import sets.
From S2P Require Import Prelude Bytes RustStr Config Checksum Pnet Packet Sys Bpf.

Record PacketSocket := mk_socket {
  fd : Z;
  ifindex : Z;
  ifname : str;
  broadcast_addrs : list Ipv4Addr
}.

(** ** The filter program *)

Definition packet_filter : list sock_filter := [
  (* 0: A = ip[0] *)
  mk_insn LD_B_ABS 0 0 0;
  (* 1: A &= 0xf0 *)
  mk_insn ALU_AND_K 0 0 240;
  (* 2: if A == 0x40 continue else reject *)
  mk_insn JMP_JEQ_K 0 8 64;
  (* 3: A = ip[9] *)
  mk_insn LD_B_ABS 0 0 9;
  (* 4: if A == 17 continue else reject *)
  mk_insn JMP_JEQ_K 0 6 17;
  (* 5: A = ip[16] *)
  mk_insn LD_B_ABS 0 0 16;
  (* 6: A &= 0xf0 *)
  mk_insn ALU_AND_K 0 0 240;
  (* 7: if A == 0xe0 accept *)
  mk_insn JMP_JEQ_K 2 0 224;
  (* 8: A = ip[19] *)
  mk_insn LD_B_ABS 0 0 19;
  (* 9: if A == 0xff accept else reject *)
  mk_insn JMP_JEQ_K 0 1 255;
  (* 10: accept *)
  mk_insn RET_K 0 0 262144;
  (* 11: reject *)
  mk_insn RET_K 0 0 0
].

(** A call whose error is replaced by a context. *)
Definition call_ctx {A} (op : sysop (result Errno A)) (text : str) : prog (result str A) :=
  r ← call op; Done (with_context r text).

Definition attach_packet_filter (fd : Z) : prog (result str unit) :=
  call_ctx (Attach_filter fd packet_filter) (lit "setsockopt(SO_ATTACH_FILTER) failed").

(** ** Opening a socket *)

(** Constants of [libc]. *)
Definition AF_PACKET : Z := 17.
Definition ETH_P_ALL : Z := 3.
Definition ETH_P_IP : Z := 2048.

(** The cast of a [u32] to [i32]. *)
Definition as_i32 (z : Z) : Z := if z <? 2147483648 then z else z - 4294967296.

Definition bind_address (ifindex : Z) : sockaddr_ll :=
  mk_sll AF_PACKET (be16 ETH_P_ALL) (as_i32 ifindex) 0 0 0 (replicate 8 (u8_of 0)).

(** [a.broadcast.and_then(|b| b.as_sockaddr_in().map(|s| s.ip()))] *)
Definition broadcast_ip (a : InterfaceAddress) : option Ipv4Addr :=
  match broadcast a with
  | Some (Sockaddr_in ip) => Some ip
  | _ => None
  end.

(** The loop that collects the broadcast addresses of an interface, without repeats. *)
Fixpoint collect_broadcasts (ifname : str) (acc : list Ipv4Addr) (addrs : list InterfaceAddress)
    : list Ipv4Addr :=
  match addrs with
  | [] => acc
  | a :: addrs =>
      if bool_decide (interface_name a = ifname) then
        match broadcast_ip a with
        | Some bcast =>
            if bool_decide (bcast ∈ acc) then collect_broadcasts ifname acc addrs
            else collect_broadcasts ifname (acc ++ [bcast]) addrs
        | None => collect_broadcasts ifname acc addrs
        end
      else collect_broadcasts ifname acc addrs
  end.

(** The broadcast addresses of a socket, from the answer of [getifaddrs]. *)
Definition socket_broadcasts (ifname : str) (addrs : result Errno (list InterfaceAddress))
    : list Ipv4Addr :=
  let broadcast_addrs :=
    match addrs with Ok addrs => collect_broadcasts ifname [] addrs | Err _ => [] end in
  if is_empty broadcast_addrs then [limited_broadcast] else broadcast_addrs.

Definition quoted (s : str) : str := lit "'" ++ s ++ lit "'".

Definition PacketSocket_new (ifname : str) : prog (result str PacketSocket) :=
  let! fd := call_ctx Socket (lit "Failed to create AF_PACKET socket") in
  let! ifindex := call_ctx (If_nametoindex ifname)
                    (lit "Failed to get index for interface " ++ quoted ifname) in
  let! _ := call_ctx (Bind fd (bind_address ifindex))
              (lit "Failed to bind socket to interface " ++ quoted ifname) in
  let! _ := call_ctx (Add_membership_allmulti fd (as_i32 ifindex))
              (lit "Failed to enable all-multicast membership on interface " ++ quoted ifname) in
  let! _ := (r ← attach_packet_filter fd;
             Done (with_context r (lit "Failed to attach BPF filter on interface " ++ quoted ifname))) in
  addrs ← call Getifaddrs;
  Done (Ok (mk_socket fd (as_i32 ifindex) ifname (socket_broadcasts ifname addrs))).

(** ** Sending and receiving *)

Definition dest_mac (data : list u8) : outcome (list u8) :=
  let broadcast_mac := map u8_of [255; 255; 255; 255; 255; 255; 0; 0] in
  if (20 <=? length data)%nat then
    d0 ← index data 16;
    d1 ← index data 17;
    d2 ← index data 18;
    d3 ← index data 19;
    if (224 <=? u8_val d0) && (u8_val d0 <=? 239) then
      Ret [u8_of 1; u8_of 0; u8_of 94; u8_of (Z.land (u8_val d1) 127); d2; d3; u8_of 0; u8_of 0]
    else Ret broadcast_mac
  else Ret broadcast_mac.

(** Reading into a buffer of [size] bytes. *)
Definition recv (s : PacketSocket) (size : nat) : prog (result Errno (list u8)) :=
  call (Read (fd s) size).

Definition send_address (s : PacketSocket) (mac : list u8) : sockaddr_ll :=
  mk_sll AF_PACKET (be16 ETH_P_IP) (ifindex s) 0 0 6 mac.

Definition send (s : PacketSocket) (data : list u8) : prog (result Errno Z) :=
  mac ← lift (dest_mac data);
  call (Sendto (fd s) data (send_address s mac)).

(** ** Theorems: the kernel filter *)

(** What the filter accepts, read off the documented fields. *)
Definition filter_accepts (pkt : list u8) : Prop :=
  byte_at 0 pkt / 16 = 4 /\ byte_at 9 pkt = 17 /\ is_broadcast (ip_at 16 pkt) = true.

Lemma land_240 b : Z.land (u8_val b) 240 = u8_val b / 16 * 16.
Proof. by destruct b. Qed.

Lemma ip_at_lookup off buf a b c d :
  buf !! off = Some a -> buf !! (off + 1)%nat = Some b -> buf !! (off + 2)%nat = Some c ->
  buf !! (off + 3)%nat = Some d -> ip_at off buf = mk_ip a b c d.
Proof.
  intros Ha Hb Hc Hd. unfold ip_at, bytes_at.
  rewrite (drop_S _ _ _ Ha), (drop_S _ b) by (by rewrite <- Nat.add_1_r).
  rewrite (drop_S _ c) by (by rewrite <- Hc; f_equal; lia).
  rewrite (drop_S _ d) by (by rewrite <- Hd; f_equal; lia). done.
Qed.

Section filter.
Context {B : Bpf} {L : BpfLaws B}.

Lemma bpf_load p pc a pkt j1 j2 c b :
  p !! pc = Some (mk_insn LD_B_ABS j1 j2 c) -> pkt !! Z.to_nat c = Some b ->
  bpf_at p pc a pkt = bpf_at p (S pc) (u8_val b) pkt.
Proof using L. intros Hi Hb. by rewrite (bpf_ld _ _ _ _ _ _ _ Hi), Hb. Qed.

(** The program, instruction by instruction, on a packet whose four tested bytes are known. *)
Lemma packet_filter_run pkt b0 b9 b16 b19 :
  pkt !! 0%nat = Some b0 -> pkt !! 9%nat = Some b9 ->
  pkt !! 16%nat = Some b16 -> pkt !! 19%nat = Some b19 ->
  bpf_run packet_filter pkt =
    if (u8_val b0 / 16 * 16 =? 64) && (u8_val b9 =? 17)
       && ((u8_val b16 / 16 * 16 =? 224) || (u8_val b19 =? 255)) then 262144 else 0.
Proof using L.
  intros H0 H9 H16 H19.
  assert (forall pc a i, packet_filter !! pc = Some i -> code i = RET_K ->
            bpf_at packet_filter pc a pkt = k i) as Hret.
  { intros pc a [c j1 j2 n] Hi Hc. cbn in Hc. subst c. by rewrite (bpf_ret _ _ _ _ _ _ _ Hi). }
  rewrite bpf_start, (bpf_load _ 0 _ _ 0 0 0 b0), (bpf_and _ 1 _ _ 0 0 240), land_240 by done.
  rewrite (bpf_jeq _ 2 _ _ 0 8 64) by done.
  destruct (_ =? 64); cbn [Nat.add andb]; [| by rewrite (Hret 11%nat _ (mk_insn RET_K 0 0 0))].
  rewrite (bpf_load _ 3 _ _ 0 0 9 b9), (bpf_jeq _ 4 _ _ 0 6 17) by done.
  destruct (_ =? 17); cbn [Nat.add andb]; [| by rewrite (Hret 11%nat _ (mk_insn RET_K 0 0 0))].
  rewrite (bpf_load _ 5 _ _ 0 0 16 b16), (bpf_and _ 6 _ _ 0 0 240), land_240 by done.
  rewrite (bpf_jeq _ 7 _ _ 2 0 224) by done.
  destruct (_ =? 224); cbn [Nat.add orb];
    [by rewrite (Hret 10%nat _ (mk_insn RET_K 0 0 262144)) |].
  rewrite (bpf_load _ 8 _ _ 0 0 19 b19), (bpf_jeq _ 9 _ _ 0 1 255) by done.
  destruct (_ =? 255); cbn [Nat.add];
    [by rewrite (Hret 10%nat _ (mk_insn RET_K 0 0 262144))
    | by rewrite (Hret 11%nat _ (mk_insn RET_K 0 0 0))].
Qed.

Lemma filter_verdict pkt :
  (20 <= length pkt)%nat ->
  (filter_accepts pkt -> bpf_run packet_filter pkt = 262144)
  /\ (~ filter_accepts pkt -> bpf_run packet_filter pkt = 0).
Proof using L.
  intros Hlen.
  assert (forall i, (i < 20)%nat -> exists b, pkt !! i = Some b) as Hb.
  { intros i Hi. apply lookup_lt_is_Some_2. lia. }
  destruct (Hb 0%nat ltac:(lia)) as [b0 H0], (Hb 9%nat ltac:(lia)) as [b9 H9].
  destruct (Hb 16%nat ltac:(lia)) as [b16 H16], (Hb 17%nat ltac:(lia)) as [b17 H17].
  destruct (Hb 18%nat ltac:(lia)) as [b18 H18], (Hb 19%nat ltac:(lia)) as [b19 H19].
  rewrite (packet_filter_run _ _ _ _ _ H0 H9 H16 H19). unfold filter_accepts.
  rewrite (byte_at_lookup _ _ _ H0), (byte_at_lookup _ _ _ H9).
  rewrite (ip_at_lookup 16 _ _ _ _ _ H16 H17 H18 H19), is_broadcast_iff. cbn [oct0 oct3].
  pose proof (u8_val_range b16).
  assert (u8_val b16 / 16 * 16 = 224 <-> 224 <= u8_val b16 <= 239) as H224.
  { pose proof (Z.div_mod (u8_val b16) 16). pose proof (Z.mod_pos_bound (u8_val b16) 16). lia. }
  destruct (_ && _) eqn:E; (split; [intros Ha | intros Ha]; try done; exfalso);
    rewrite ?andb_true_iff, ?andb_false_iff, ?orb_true_iff, ?orb_false_iff, ?Z.eqb_eq, ?Z.eqb_neq in E;
    lia.
Qed.

(** C33: On a packet long enough for an IPv4 header, the verdict of the attached program is to
    keep it whole exactly when it is version 4, UDP, and addressed to a multicast group or an
    address ending in 255, and to drop it otherwise. *)
Theorem packet_filter_verdict pkt :
  (20 <= length pkt)%nat ->
  (filter_accepts pkt -> bpf_run packet_filter pkt = 262144)
  /\ (~ filter_accepts pkt -> bpf_run packet_filter pkt = 0).
Proof using L. apply filter_verdict. Qed.

(** C32: the kernel filter hides nothing the relay would forward: every datagram the relay
    accepts is kept whole by the filter. *)
Theorem packet_filter_complete pkt info :
  relayable pkt info -> bpf_run packet_filter pkt = 262144.
Proof using L.
  intros [Hok Htotal Hudp Hproto Hdst Hsrc Hinfo].
  apply filter_verdict; [lia |]. split_and!; [apply Hok | done | done].
Qed.
End filter.

Lemma packet_filter_verdict_witness :
  BpfLaws ref_bpf /\ (20 <= length (sample_udp host_50 mdns))%nat
  /\ bpf_run (Bpf := ref_bpf) packet_filter (sample_udp host_50 mdns) = 262144.
Proof.
  split; [apply ref_bpf_laws | split; [vm_compute; lia |]].
  apply (packet_filter_verdict (L := ref_bpf_laws)); [vm_compute; lia |].
  by split_and!.
Defined.

Lemma packet_filter_complete_witness :
  BpfLaws ref_bpf /\ bpf_run (Bpf := ref_bpf) packet_filter (sample_udp host_50 mdns) = 262144.
Proof.
  split; [apply ref_bpf_laws |].
  apply (packet_filter_complete (L := ref_bpf_laws) _ (mk_info Protocol_Udp host_50 mdns 1234 5353)).
  split; try done; vm_compute; lia.
Defined.


(** ** Theorems: addresses *)

(** The Ethernet destination of a packet. *)
Definition ethernet_dest (data : list u8) : list u8 :=
  let ip := ip_at 16 data in
  if (20 <=? length data)%nat && is_multicast ip
  then [u8_of 1; u8_of 0; u8_of 94; u8_of (Z.land (u8_val (oct1 ip)) 127); oct2 ip; oct3 ip;
        u8_of 0; u8_of 0]
  else map u8_of [255; 255; 255; 255; 255; 255; 0; 0].

Lemma dest_mac_eq data : dest_mac data = Ret (ethernet_dest data).
Proof.
  unfold dest_mac, ethernet_dest. destruct (20 <=? length data)%nat eqn:Hlen; [| done].
  apply Nat.leb_le in Hlen.
  assert (forall i, (i < 20)%nat -> exists b, data !! i = Some b) as Hb.
  { intros i Hi. apply lookup_lt_is_Some_2. lia. }
  destruct (Hb 16%nat ltac:(lia)) as [b16 H16], (Hb 17%nat ltac:(lia)) as [b17 H17].
  destruct (Hb 18%nat ltac:(lia)) as [b18 H18], (Hb 19%nat ltac:(lia)) as [b19 H19].
  rewrite (ip_at_lookup 16 _ _ _ _ _ H16 H17 H18 H19).
  rewrite (index_lt _ _ _ H16), (index_lt _ _ _ H17), (index_lt _ _ _ H18), (index_lt _ _ _ H19).
  run. cbn [andb oct1 oct2 oct3]. unfold is_multicast. cbn [oct0]. by destruct (_ && _).
Qed.

Lemma low_23_bits ip :
  be [u8_of (Z.land (u8_val (oct1 ip)) 127); oct2 ip; oct3 ip] = ip_u32 ip mod 2 ^ 23.
Proof.
  destruct ip as [a b c d]. unfold ip_u32, octets, be. cbn -[Z.mul Z.add u8_val u8_of].
  rewrite u8_val_of, (Z.land_ones _ 7) by lia. change (2 ^ 7) with 128.
  pose proof (u8_val_range b). pose proof (u8_val_range c). pose proof (u8_val_range d).
  rewrite (Z.mod_small (_ mod 128) 256) by (pose proof (Z.mod_pos_bound (u8_val b) 128); lia).
  pose proof (Z.div_mod (u8_val b) 128 ltac:(lia)).
  pose proof (Z.mod_pos_bound (u8_val b) 128 ltac:(lia)).
  apply (Z.mod_unique _ _ (u8_val a * 2 + u8_val b / 128)); lia.
Qed.

(** C34: the destination MAC never indexes out of range, is 8 bytes, and is the RFC 1112
    multicast MAC of the destination group (its low 23 bits after 01:00:5e) for a packet to a
    multicast address, the broadcast MAC for everything else, short buffers included. *)
Theorem dest_mac_spec data :
  exists mac, dest_mac data = Ret mac /\ length mac = 8%nat /\
    if decide (20 <= length data)%nat then
      if is_multicast (ip_at 16 data)
      then be (take 3 mac) = 65630 (* 01:00:5e *)
           /\ be (bytes_at 3 3 mac) = ip_u32 (ip_at 16 data) mod 2 ^ 23
      else take 6 mac = replicate 6 (u8_of 255)
    else take 6 mac = replicate 6 (u8_of 255).
Proof.
  exists (ethernet_dest data). split; [apply dest_mac_eq |]. unfold ethernet_dest.
  destruct (decide (20 <= length data)%nat) as [Hlen|Hlen].
  - rewrite (proj2 (Nat.leb_le _ _)) by done. cbn [andb].
    destruct (is_multicast (ip_at 16 data)); [| done]. split_and!; [done.. | apply low_23_bits].
  - by rewrite (proj2 (Nat.leb_gt _ _)) by lia.
Qed.

Lemma collect_broadcasts_spec name acc addrs :
  NoDup acc ->
  NoDup (collect_broadcasts name acc addrs)
  /\ forall ip, ip ∈ collect_broadcasts name acc addrs <->
       ip ∈ acc \/ exists a, a ∈ addrs /\ interface_name a = name /\ broadcast_ip a = Some ip.
Proof.
  revert acc. induction addrs as [|a addrs IH]; intros acc Hacc; cbn [collect_broadcasts].
  - split; [done |]. set_solver.
  - case_bool_decide as Hn.
    2: { destruct (IH acc Hacc) as [? H]. split; [done |]. intros ip. rewrite H. set_solver. }
    destruct (broadcast_ip a) as [b|] eqn:Hb.
    2: { destruct (IH acc Hacc) as [? H]. split; [done |]. intros ip. rewrite H.
         split; [set_solver |]. intros [?|(a' & [-> | ?]%elem_of_cons & ? & ?)]; set_solver. }
    case_bool_decide as Hin.
    + destruct (IH acc Hacc) as [? H]. split; [done |]. intros ip. rewrite H.
      split; [set_solver |]. intros [?|(a' & [-> | ?]%elem_of_cons & ? & Hip)]; [set_solver | | set_solver].
      left. by simplify_eq.
    + destruct (IH (acc ++ [b])) as [? H].
      { apply list.NoDup_app. split_and!; [done | set_solver | apply list.NoDup_singleton]. }
      split; [done |]. intros ip. rewrite H, elem_of_app, list_elem_of_singleton. split.
      * intros [[?| ->]|?]; [by left | right; exists a; set_solver | set_solver].
      * intros [?|(a' & [-> | ?]%elem_of_cons & ? & Hip)]; [by left; left | | set_solver].
        left. right. by simplify_eq.
Qed.

(** C38: a socket's broadcast addresses are never empty and never repeated, and are exactly the
    IPv4 broadcast addresses the kernel lists for its interface (255.255.255.255 when it lists
    none, or when listing fails). *)
Theorem socket_broadcasts_spec name addrs :
  socket_broadcasts name addrs <> [] /\ NoDup (socket_broadcasts name addrs)
  /\ forall ip, ip ∈ socket_broadcasts name addrs <->
       (exists l a, addrs = Ok l /\ a ∈ l /\ interface_name a = name /\ broadcast_ip a = Some ip)
       \/ (ip = limited_broadcast
           /\ forall l a b, addrs = Ok l -> a ∈ l -> interface_name a = name -> broadcast_ip a <> Some b).
Proof.
  unfold socket_broadcasts. destruct addrs as [l|e]; cbn.
  2: { split_and!; [done | apply list.NoDup_singleton |]. intros ip. set_solver. }
  destruct (collect_broadcasts_spec name [] l (base.NoDup_nil_2)) as [Hnd Hin].
  destruct (collect_broadcasts name [] l) as [|b bs] eqn:E; cbn [is_empty].
  - split_and!; [done | apply list.NoDup_singleton |]. intros ip. rewrite list_elem_of_singleton. split.
    + intros ->. right. split; [done |]. intros l' a b [= <-] Ha Hn Hb.
      assert (b ∈ []) by (rewrite Hin; eauto). set_solver.
    + intros [(l' & a & [= <-] & Ha & Hn & Hb)|[-> _]]; [| done].
      assert (ip ∈ []) by (rewrite Hin; eauto). set_solver.
  - split_and!; [done | done |]. intros ip. rewrite Hin. split.
    + intros [?|(a & ? & ? & ?)]; [set_solver | eauto 10].
    + intros [(l' & a & [= <-] & Ha & Hn & Hb)|[-> Hno]]; [eauto |].
      exfalso. assert (b ∈ b :: bs) as [?|(a & Ha & Hn & Hb)]%Hin by set_solver; [set_solver |].
      by apply (Hno l a b).
Qed.

(** The calls of a successful [PacketSocket_new], in order. *)
Definition open_trace (name : str) (fd idx : Z) (addrs : result Errno (list InterfaceAddress))
    : list event :=
  [Ev Socket (Ok fd); Ev (If_nametoindex name) (Ok idx); Ev (Bind fd (bind_address idx)) (Ok tt);
   Ev (Add_membership_allmulti fd (as_i32 idx)) (Ok tt); Ev (Attach_filter fd packet_filter) (Ok tt);
   Ev Getifaddrs addrs].

Lemma exec_call_ctx {A B} (op : sysop (result Errno A)) text (f : A -> prog (result str B)) t o :
  exec (let! x := call_ctx op text in f x) t o <->
  (exists e, t = [Ev op (Err e)] /\ o = Ret (Err text))
  \/ exists a t', t = Ev op (Ok a) :: t' /\ exec (f a) t' o.
Proof.
  unfold tryp, call_ctx, call. cbn [mbind prog_bind_inst prog_bind exec]. split.
  - intros ([a|e] & t' & -> & H); cbn in H; [by right; eauto |]. destruct H as [-> ->]. left. eauto.
  - intros [(e & -> & ->)|(a & t' & -> & H)]; [exists (Err e), [] | exists (Ok a), t']; done.
Qed.

(** A trace whose last call failed. *)
Definition ends_in_error (t : list event) : Prop :=
  exists t0 A (op : sysop (result Errno A)) e, t = t0 ++ [Ev op (Err e)].

Lemma ends_in_error_one {A} (op : sysop (result Errno A)) e : ends_in_error [Ev op (Err e)].
Proof. by exists [], A, op, e. Qed.

Lemma ends_in_error_cons ev t : ends_in_error t -> ends_in_error (ev :: t).
Proof. intros (t0 & A & op & e & ->). by exists (ev :: t0), A, op, e. Qed.

#[export] Hint Resolve ends_in_error_one ends_in_error_cons : bcr.

Lemma PacketSocket_new_cases name t o :
  exec (PacketSocket_new name) t o ->
  (ends_in_error t /\ exists e, o = Ret (Err e))
  \/ exists fd idx addrs, t = open_trace name fd idx addrs
       /\ o = Ret (Ok (mk_socket fd (as_i32 idx) name (socket_broadcasts name addrs))).
Proof.
  unfold PacketSocket_new. intros H.
  apply exec_call_ctx in H as [(e & -> & ->)|(fd & t1 & -> & H)]; [left; eauto with bcr |].
  apply exec_call_ctx in H as [(e & -> & ->)|(idx & t2 & -> & H)]; [left; eauto with bcr |].
  apply exec_call_ctx in H as [(e & -> & ->)|([] & t3 & -> & H)]; [left; eauto with bcr |].
  apply exec_call_ctx in H as [(e & -> & ->)|([] & t4 & -> & H)]; [left; eauto 6 with bcr |].
  destruct H as ([[]|e] & t5 & -> & H); cbn in H.
  - destruct H as (addrs & t6 & -> & -> & ->). right. by exists fd, idx, addrs.
  - destruct H as [-> ->]. left. eauto 7 with bcr.
Qed.

(** C37: opening a socket never panics; it succeeds exactly when its calls succeed, made in this
    order on the same descriptor and interface index (the filter attached after binding and
    before the socket is returned), whatever [getifaddrs] answers; and when it fails, the last
    call made is the one that failed. *)
Theorem PacketSocket_new_trace name t :
  ~ exec (PacketSocket_new name) t Panic
  /\ (forall s, exec (PacketSocket_new name) t (Ret (Ok s)) <->
        exists fd idx addrs, t = open_trace name fd idx addrs
          /\ s = mk_socket fd (as_i32 idx) name (socket_broadcasts name addrs))
  /\ (forall e, exec (PacketSocket_new name) t (Ret (Err e)) -> ends_in_error t).
Proof.
  split_and!.
  - intros [[_ [e [=]]]|(fd & idx & addrs & _ & [=])]%PacketSocket_new_cases.
  - intros s. split.
    + intros [[_ [e [=]]]|(fd & idx & addrs & -> & [= ->])]%PacketSocket_new_cases. eauto.
    + intros (fd & idx & addrs & -> & ->). unfold PacketSocket_new.
      do 4 (apply exec_call_ctx; right; do 2 eexists; split; [done |]).
      exists (Ok tt), [Ev Getifaddrs addrs]. split; [done |]. by exists addrs, [].
  - by intros e [[? _]|(fd & idx & addrs & _ & [=])]%PacketSocket_new_cases.
Qed.
