(* ===== verification/F64.v ===== *)
(** * Double-precision arithmetic

    Rust's [f64] and the operations the rate limiter uses, as the Standard Library's
    specification of IEEE 754 binary64 ([SpecFloat]: 53 bits of precision, round to nearest,
    ties to even). *)

From Stdlib Require Import SpecFloat.
From S2P Require Import Prelude.

Definition f64 : Type := spec_float.

Definition f64_prec : Z := 53.
Definition f64_emax : Z := 1024.

Definition f64_add : f64 -> f64 -> f64 := SFadd f64_prec f64_emax.
Definition f64_sub : f64 -> f64 -> f64 := SFsub f64_prec f64_emax.
Definition f64_mul : f64 -> f64 -> f64 := SFmul f64_prec f64_emax.
Definition f64_div : f64 -> f64 -> f64 := SFdiv f64_prec f64_emax.

(** [n as f64], for an unsigned integer *)
Definition f64_of (n : Z) : f64 := binary_normalize f64_prec f64_emax n 0 false.

(** [a >= b] *)
Definition f64_ge (a b : f64) : bool := SFleb b a.

(** [a.min(b)]: a NaN is ignored *)
Definition f64_min (a b : f64) : f64 :=
  match a, b with
  | S754_nan, _ => b
  | _, S754_nan => a
  | _, _ => if SFltb b a then b else a
  end.

(** ** Durations: [std::time::Duration], as a number of nanoseconds *)

Definition NANOS_PER_SEC : Z := 1000000000.

Definition as_secs_f64 (d : Z) : f64 :=
  f64_add (f64_of (d / NANOS_PER_SEC)) (f64_div (f64_of (d mod NANOS_PER_SEC)) (f64_of NANOS_PER_SEC)).

(** [later.duration_since(earlier)], which saturates to zero *)
Definition duration_since (later earlier : Z) : Z := Z.max 0 (later - earlier).
