(* ===== verification/F64Round.v ===== *)
(** * Rounding

    What the operations of [F64] compute, on non-negative numbers.  Values are integers: a
    number of units of 2^-1074, the least positive double.  [rounds x n] says that [x] is the
    rounding of [n] units: a neighbour of [n] on the grid of its binade, and [n] itself when
    that is on the grid. *)

From Stdlib Require Import SpecFloat.
From S2P Require Import Prelude F64.

(** ** Powers of two *)

Lemma pow2_pos n : 0 <= n -> 0 < 2 ^ n.
Proof. intros. by apply Z.pow_pos_nonneg. Qed.

Lemma pow2_split a b : 0 <= a -> 0 <= b -> 2 ^ (a + b) = 2 ^ a * 2 ^ b.
Proof. intros. by rewrite Z.pow_add_r. Qed.

Lemma pow2_le a b : a <= b -> 2 ^ a <= 2 ^ b.
Proof. intros. by apply Z.pow_le_mono_r. Qed.

Lemma pow2_lt_inv a b : 0 <= b -> 2 ^ a < 2 ^ b -> a < b.
Proof. intros Hb H. apply (Z.pow_lt_mono_r_iff 2); [lia | done..]. Qed.

(** ** Digits *)

Lemma digits2_bounds p :
  2 ^ (Zpos (digits2_pos p) - 1) <= Zpos p < 2 ^ Zpos (digits2_pos p).
Proof.
  induction p as [p IH|p IH|]; cbn [digits2_pos]; [..| cbn; lia];
    rewrite Pos2Z.inj_succ; replace (Z.succ (Zpos (digits2_pos p)) - 1) with (Z.succ (Zpos (digits2_pos p) - 1)) by lia;
    rewrite !Z.pow_succ_r by lia; lia.
Qed.

Lemma digits2_le p k : 0 <= k -> Zpos p < 2 ^ k -> Zpos (digits2_pos p) <= k.
Proof.
  intros Hk Hp. pose proof (digits2_bounds p) as [Hd _].
  assert (Zpos (digits2_pos p) - 1 < k); [| lia]. apply pow2_lt_inv; lia.
Qed.

Lemma digits2_gt p k : 0 <= k -> 2 ^ k <= Zpos p -> k < Zpos (digits2_pos p).
Proof. intros Hk Hp. pose proof (digits2_bounds p) as [_ Hd]. apply pow2_lt_inv; lia. Qed.

Lemma digits2_eq p k : 2 ^ (k - 1) <= Zpos p < 2 ^ k -> 1 <= k -> Zpos (digits2_pos p) = k.
Proof.
  intros [H1 H2] Hk. pose proof (digits2_le p k ltac:(lia) H2).
  pose proof (digits2_gt p (k - 1) ltac:(lia) H1). lia.
Qed.

Lemma Zdigits2_bounds m : 0 <= m -> m < 2 ^ Zdigits2 m /\ (0 < m -> 2 ^ (Zdigits2 m - 1) <= m) /\ 0 <= Zdigits2 m.
Proof.
  destruct m as [|p|p]; [done | | done]. intros _. cbn [Zdigits2].
  pose proof (digits2_bounds p). lia.
Qed.

(** The exponent of the grid a number with [e] as the weight of its leading digit is put on. *)
Definition grid (e : Z) : Z := fexp f64_prec f64_emax e.

Lemma grid_eq e : grid e = Z.max (e - 53) (-1074).
Proof. reflexivity. Qed.

(** ** Shifting right *)

Lemma iter_pos_ind {A} (P : Z -> A -> Prop) (f : A -> A) p i x :
  (forall i x, P i x -> P (i + 1) (f x)) -> P i x -> P (i + Zpos p) (SpecFloat.iter_pos f p x).
Proof.
  intros Hf. revert i x. induction p as [p IH|p IH|]; intros i x Hx; cbn [SpecFloat.iter_pos].
  - replace (i + Zpos p~1) with (i + 1 + Zpos p + Zpos p) by lia. by apply IH, IH, Hf.
  - replace (i + Zpos p~0) with (i + Zpos p + Zpos p) by lia. by apply IH, IH.
  - by apply Hf.
Qed.

(** After [i] shifts of [m]: the quotient, and, when nothing was lost before, no remainder
    recorded when there is none. *)
Definition shifted (l : location) (m i : Z) (r : shr_record) : Prop :=
  0 <= i /\ shr_m r = m / 2 ^ i
  /\ (l = loc_Exact -> m mod 2 ^ i = 0 -> shr_r r = false /\ shr_s r = false).

Lemma shr_1_div r : 0 <= shr_m r -> shr_m (shr_1 r) = shr_m r / 2.
Proof.
  destruct r as [m b s]. cbn [shr_m]. intros Hm. destruct m as [|[p|p|]|p]; cbn [shr_1 shr_m]; [done | | | done | lia].
  - rewrite (Pos2Z.inj_xI p). apply (Z.div_unique _ _ _ 1); lia.
  - rewrite (Pos2Z.inj_xO p). apply (Z.div_unique _ _ _ 0); lia.
Qed.

Lemma shr_1_exact r :
  0 <= shr_m r -> shr_m r mod 2 = 0 -> shr_r r = false -> shr_s r = false ->
  shr_r (shr_1 r) = false /\ shr_s (shr_1 r) = false.
Proof.
  destruct r as [m b s]. cbn [shr_m shr_r shr_s]. intros Hm Hmod -> ->.
  destruct m as [|[p|p|]|p]; cbn; try done. exfalso.
  rewrite Pos2Z.inj_xI, Z.add_comm, Z.mul_comm, Z.mod_add in Hmod by lia. done.
Qed.

Lemma shifted_step l m i r : 0 <= m -> shifted l m i r -> shifted l m (i + 1) (shr_1 r).
Proof.
  intros Hm (Hi & Hq & Hex). pose proof (pow2_pos i Hi).
  assert (0 <= shr_m r) by (rewrite Hq; apply Z.div_pos; lia).
  split; [lia |]. rewrite pow2_split by lia. change (2 ^ 1) with 2. split.
  - rewrite shr_1_div, Hq by done. apply Z.div_div; lia.
  - intros Hl Hmod. rewrite Z.rem_mul_r in Hmod by lia.
    pose proof (Z.mod_pos_bound m (2 ^ i) ltac:(lia)).
    pose proof (Z.mod_pos_bound (m / 2 ^ i) 2 ltac:(lia)).
    assert (m mod 2 ^ i = 0 /\ (m / 2 ^ i) mod 2 = 0) as [Ha Hb] by nia.
    destruct (Hex Hl Ha). apply shr_1_exact; congruence.
Qed.

Lemma shr_shifted m l e n :
  0 <= m -> exists r, shr (shr_record_of_loc m l) e n = (r, Z.max e (e + n)) /\ shifted l m (Z.max 0 n) r.
Proof.
  intros Hm.
  assert (shifted l m 0 (shr_record_of_loc m l)) as H0.
  { split; [done |]. change (2 ^ 0) with 1. rewrite Z.div_1_r. destruct l as [|[]]; done. }
  destruct n as [|p|p]; cbn [shr]; [eexists; split; [f_equal; lia | done] | |
    eexists; split; [f_equal; lia | by rewrite Z.max_l by lia]].
  eexists. split; [f_equal; lia |]. rewrite Z.max_r by lia.
  apply (iter_pos_ind (shifted l m) shr_1 p 0); [by intros; apply shifted_step | done].
Qed.

(** ** Rounding a number of grid steps *)

(** The double worth [k] steps of the grid of exponent [E]; rounding up may leave the binade. *)
Definition pack (k E : Z) : f64 :=
  match k with
  | Z0 => S754_zero false
  | Zpos m =>
      let (m, E) := if k =? 2 ^ 53 then ((2 ^ 52)%positive, E + 1) else (m, E) in
      if E <=? 971 then S754_finite false m E else S754_infinity false
  | Zneg _ => S754_nan
  end.

Lemma round_even_cases q r l :
  (q <= round_nearest_even q l <= q + 1)
  /\ (shr_r r = false -> shr_s r = false -> l = loc_of_shr_record r -> round_nearest_even q l = q).
Proof.
  split.
  - destruct l as [|[]]; cbn; try destruct (Z.even q); lia.
  - destruct r as [m [] []]; cbn; try done. by intros _ _ ->.
Qed.

(** Rounding [m] times 2^[e], with [l] saying whether something was already lost below [m]. *)
Lemma binary_round_aux_pack m e l :
  0 <= m ->
  let E := Z.max e (grid (Zdigits2 m + e)) in
  let q := m / 2 ^ (E - e) in
  exists k, q <= k <= q + 1 /\ (l = loc_Exact -> m mod 2 ^ (E - e) = 0 -> k = q)
    /\ k <= 2 ^ 53 /\ binary_round_aux f64_prec f64_emax false m e l = pack k E.
Proof.
  intros Hm E q. unfold binary_round_aux, shr_fexp. fold (grid (Zdigits2 m + e)).
  set (n := grid (Zdigits2 m + e) - e).
  destruct (shr_shifted m l e n Hm) as (r & -> & _ & Hq & Hex).
  replace (Z.max e (e + n)) with E by (unfold E, n; lia).
  replace (Z.max 0 n) with (E - e) in Hq, Hex by (unfold E, n; lia). fold q in Hq. rewrite Hq.
  set (k := round_nearest_even q (loc_of_shr_record r)).
  destruct (round_even_cases q r (loc_of_shr_record r)) as [Hk Hkex]. fold k in Hk, Hkex.
  pose proof (Zdigits2_bounds m Hm) as (Hlt & _ & Hd).
  pose proof (grid_eq (Zdigits2 m + e)) as Hgrid.
  assert (0 <= q) by (apply Z.div_pos; [lia | apply pow2_pos; lia]).
  assert (q < 2 ^ 53) as Hq53.
  { apply Z.div_lt_upper_bound; [apply pow2_pos; lia |]. rewrite <- pow2_split by lia.
    eapply Z.lt_le_trans; [exact Hlt |]. apply pow2_le. lia. }
  exists k. split; [done |]. split; [intros Hl H0; destruct (Hex Hl H0); auto |]. split; [lia |].
  destruct k as [|p|p] eqn:Hkp; [| | lia].
  - change (Zdigits2 0) with 0. rewrite Z.add_0_l, grid_eq.
    destruct (shr_shifted 0 loc_Exact E (Z.max (E - 53) (-1074) - E) ltac:(lia)) as (r' & -> & _ & Hr' & _).
    rewrite Z.div_0_l in Hr' by (pose proof (pow2_pos (Z.max 0 (Z.max (E - 53) (-1074) - E))); lia).
    by rewrite Hr'.
  - cbn [Zdigits2]. rewrite grid_eq.
    set (n' := Z.max (Zpos (digits2_pos p) + E - 53) (-1074) - E).
    destruct (shr_shifted (Zpos p) loc_Exact E n' ltac:(lia)) as (r' & -> & _ & Hr' & _).
    unfold pack. destruct (Zpos p =? 2 ^ 53) eqn:E53; unbool.
    + assert (n' = 1) as ->.
      { unfold n'. rewrite (digits2_eq p 54) by lia. lia. }
      rewrite E53 in Hr'. change (2 ^ 53 / 2 ^ Z.max 0 1) with (2 ^ 52) in Hr'. rewrite Hr'.
      by rewrite Z.max_r by lia.
    + assert (n' <= 0).
      { unfold n'. pose proof (digits2_le p 53 ltac:(lia) ltac:(lia)). lia. }
      rewrite (Z.max_l 0), Z.div_1_r in Hr' by lia. rewrite Hr'. by rewrite Z.max_l by lia.
Qed.

(** ** Values *)

(** The number of units in 2^[e], and in 1. *)
Definition units (e : Z) : Z := 2 ^ (e + 1074).
Definition one : Z := 2 ^ 1074.

Lemma units_pos e : -1074 <= e -> 0 < units e.
Proof. intros. apply pow2_pos. lia. Qed.

Lemma units_split e d : -1074 <= e -> 0 <= d -> units (e + d) = 2 ^ d * units e.
Proof. intros. unfold units. rewrite <- pow2_split by lia. f_equal. lia. Qed.

Lemma one_pos : 0 < one.
Proof. apply pow2_pos. lia. Qed.

Lemma one_units : one = units 0.
Proof. reflexivity. Qed.

Lemma one_eq : one = 2 ^ 1074.
Proof. reflexivity. Qed.

#[global] Opaque one.

(** [x] is a non-negative finite double, in its canonical representation, worth [v] units. *)
Definition canon (x : f64) (v : Z) : Prop :=
  match x with
  | S754_zero false => v = 0
  | S754_finite false m e =>
      -1074 <= e <= 971 /\ Zpos m < 2 ^ 53 /\ (2 ^ 52 <= Zpos m \/ e = -1074) /\ v = Zpos m * units e
  | _ => False
  end.

Lemma canon_nonneg x v : canon x v -> 0 <= v.
Proof.
  destruct x as [[]|[]| |[] m e]; try done; cbn; [lia |].
  intros (He & _ & _ & ->). pose proof (units_pos e). nia.
Qed.

Lemma canon_unique x v w : canon x v -> canon x w -> v = w.
Proof. destruct x as [[]|[]| |[] m e]; try done; cbn; [congruence |]. intros (_&_&_&->) (_&_&_&->). done. Qed.

Lemma pack_canon k E :
  0 <= k <= 2 ^ 53 -> -1074 <= E <= 970 -> 2 ^ 52 <= k \/ k = 0 \/ E = -1074 ->
  canon (pack k E) (k * units E).
Proof.
  intros Hk HE Hc. destruct k as [|m|m]; [done | | lia]. unfold pack.
  destruct (Zpos m =? 2 ^ 53) eqn:E53; unbool.
  - rewrite (proj2 (Z.leb_le _ _)) by lia. cbn [canon]. rewrite E53.
    split_and!; [lia | lia | lia | by left |]. rewrite units_split by lia.
    change (Zpos (2 ^ 52)) with (2 ^ 52). lia.
  - rewrite (proj2 (Z.leb_le _ _)) by lia. cbn [canon]. split_and!; try done; lia.
Qed.

(** ** Comparison *)

Lemma canon_compare x y v w : canon x v -> canon y w -> SFcompare x y = Some (v ?= w).
Proof.
  destruct x as [[]|[]| |[] m e]; try done; destruct y as [[]|[]| |[] m' e']; try done; cbn [canon SFcompare].
  - intros -> ->. done.
  - intros -> (He & _ & _ & ->). pose proof (units_pos e'). f_equal. symmetry. apply Z.compare_lt_iff. nia.
  - intros (He & _ & _ & ->) ->. pose proof (units_pos e). f_equal. symmetry. apply Z.compare_gt_iff. nia.
  - assert (forall m e m' e', e < e' -> -1074 <= e -> Zpos m < 2 ^ 53 -> 2 ^ 52 <= Zpos m' ->
              Zpos m * units e < Zpos m' * units e') as Hlt.
    { clear. intros m e m' e' Hlt He Hm Hm'. pose proof (units_pos e He).
      replace e' with (e + (1 + (e' - e - 1))) by lia. rewrite units_split, pow2_split by lia.
      pose proof (pow2_pos (e' - e - 1) ltac:(lia)) as HP. set (p := 2 ^ (e' - e - 1)) in *.
      apply (Z.lt_le_trans _ (2 ^ 53 * units e)); [by apply Z.mul_lt_mono_pos_r |].
      rewrite Z.mul_assoc. apply Z.mul_le_mono_nonneg_r; [lia |]. change (2 ^ 1) with 2. nia. }
    intros (He & Hm & Hc & ->) (He' & Hm' & Hc' & ->). destruct (Z.compare_spec e e') as [<-|Hl|Hg]; f_equal.
    + fold (Pos.compare m m'). pose proof (units_pos e ltac:(lia)).
      rewrite <- Zmult_compare_compat_r by lia. done.
    + symmetry. apply Z.compare_lt_iff, Hlt; lia.
    + symmetry. apply Z.compare_gt_iff, Hlt; lia.
Qed.

Lemma f64_ge_canon x y v w : canon x v -> canon y w -> f64_ge x y = (w <=? v).
Proof.
  intros Hx Hy. unfold f64_ge, SFleb. rewrite (canon_compare y x w v) by done.
  by destruct (Z.leb_spec w v), (Z.compare_spec w v); try lia.
Qed.

Lemma f64_min_canon x y v w : canon x v -> canon y w -> canon (f64_min x y) (Z.min v w).
Proof.
  intros Hx Hy. assert (f64_min x y = if SFltb y x then y else x) as ->.
  { destruct x as [[]|[]| |[] m e]; try done; destruct y as [[]|[]| |[] m' e']; done. }
  unfold SFltb. rewrite (canon_compare y x w v) by done. destruct (Z.compare_spec w v).
  - by rewrite Z.min_l by lia.
  - by rewrite Z.min_r by lia.
  - by rewrite Z.min_l by lia.
Qed.

(** ** Rounding a value *)

(** The exponent of the grid of [m] times 2^[e] is [E]: either [m] has at least 52 bits above
    the grid, or this is the finest grid. *)
Lemma grid_fine m e E :
  0 < m -> E = grid (Zdigits2 m + e) -> e <= E -> 2 ^ 52 * 2 ^ (E - e) <= m \/ E = -1074.
Proof.
  intros Hm HE He. pose proof (Zdigits2_bounds m ltac:(lia)) as (_ & Hlow & _).
  rewrite grid_eq in HE. destruct (Z.eq_dec E (-1074)); [by right | left].
  rewrite <- pow2_split by lia. replace (52 + (E - e)) with (Zdigits2 m - 1) by lia. auto.
Qed.

(** What [binary_round_aux] returns, when the result is not an overflow. *)
Lemma round_aux_canon m e l :
  0 <= m -> let E := Z.max e (grid (Zdigits2 m + e)) in
  E <= 970 -> 2 ^ 52 * 2 ^ (E - e) <= m \/ E = -1074 ->
  exists k, canon (binary_round_aux f64_prec f64_emax false m e l) (k * units E)
    /\ m / 2 ^ (E - e) <= k <= m / 2 ^ (E - e) + 1
    /\ (l = loc_Exact -> m mod 2 ^ (E - e) = 0 -> k = m / 2 ^ (E - e)).
Proof.
  intros Hm E HE Hfine. destruct (binary_round_aux_pack m e l Hm) as (k & Hk & Hex & H53 & ->).
  fold E in Hk, Hex |- *. assert (e <= E) by lia. pose proof (pow2_pos (E - e) ltac:(lia)).
  assert (0 <= m / 2 ^ (E - e)) by (apply Z.div_pos; lia).
  exists k. split_and!; [| lia | lia | done]. apply pack_canon; [lia | |].
  - pose proof (grid_eq (Zdigits2 m + e)). lia.
  - destruct Hfine as [Hfine | ->]; [left | by right; right].
    assert (2 ^ 52 <= m / 2 ^ (E - e)) by (apply Z.div_le_lower_bound; lia). lia.
Qed.

(** [x] is the rounding of [n] units. *)
Definition rounds (x : f64) (n : Z) : Prop :=
  exists k E, -1074 <= E /\ canon x (k * units E)
    /\ n / units E <= k <= n / units E + 1 /\ (n mod units E = 0 -> k = n / units E)
    /\ (2 ^ 52 * units E <= n \/ E = -1074).

Lemma canon_rounds x v : canon x v -> rounds x v.
Proof.
  intros Hx. pose proof Hx as Hx'. destruct x as [[]|[]| |[] m e]; try done; cbn in Hx'.
  - exists 0, (-1074). subst. split_and!; try done. by right.
  - destruct Hx' as (He & Hm & Hc & ->). exists (Zpos m), e. pose proof (units_pos e ltac:(lia)).
    rewrite Z.div_mul by lia. split_and!; try (done || lia). destruct Hc; [left; nia | by right].
Qed.

(** [u] and [v] differ by a relative 2^-52 and [s] at most, either way. *)
Definition near (s u v : Z) : Prop :=
  u * 2 ^ 52 <= v * (2 ^ 52 + 1) + s * 2 ^ 52 /\ v * 2 ^ 52 <= u * (2 ^ 52 + 1) + s * 2 ^ 52.

(** An error of at most one step of a grid that is 2^52 times finer than the value. *)
Lemma rounds_error x n :
  rounds x n -> 0 <= n -> exists v, canon x v /\ near 0 v n.
Proof.
  intros (k & E & HE & Hx & Hk & Hex & Hfine) Hn. exists (k * units E). split; [done |].
  pose proof (units_pos E HE). pose proof (Z.div_mod n (units E) ltac:(lia)) as Hdm.
  pose proof (Z.mod_pos_bound n (units E) ltac:(lia)). unfold near.
  destruct Hfine as [Hfine | ->].
  - assert (2 ^ 52 <= n / units E) by (apply Z.div_le_lower_bound; lia).
    assert (k * units E <= n + units E) by nia. assert (n <= k * units E + units E) by nia.
    assert (2 ^ 52 * units E <= k * units E) by nia. lia.
  - change (units (-1074)) with 1 in *. rewrite Z.mod_1_r in *. rewrite Hex by done. lia.
Qed.

(** Rounding does not go below a number of few bits that the value reaches. *)
Lemma rounds_ge x n v a b :
  rounds x n -> canon x v -> a * 2 ^ b <= n -> a <= 2 ^ 52 -> 0 <= b -> a * 2 ^ b <= v.
Proof.
  intros (k & E & HE & Hx & Hk & _ & Hfine) Hv Hn Ha Hb.
  pose proof (canon_unique _ _ _ Hv Hx) as ->.
  pose proof (units_pos E HE) as HU. pose proof (pow2_pos b Hb).
  pose proof (canon_nonneg _ _ Hv).
  destruct (Z.le_gt_cases (E + 1074) b) as [Hle|Hgt].
  - assert (2 ^ b = 2 ^ (b - (E + 1074)) * units E) as Hpow
      by (unfold units; rewrite <- pow2_split by lia; f_equal; lia).
    rewrite Hpow, Z.mul_assoc in Hn |- *. apply Z.mul_le_mono_nonneg_r; [lia |].
    transitivity (n / units E); [| lia]. apply Z.div_le_lower_bound; lia.
  - destruct Hfine as [Hfine | ->]; [| lia].
    assert (2 ^ 52 <= k) by (transitivity (n / units E); [apply Z.div_le_lower_bound |]; lia).
    assert (2 ^ b <= units E) by (apply pow2_le; lia). nia.
Qed.

(** A value with at most 53 significant bits is rounded to itself. *)
Lemma rounds_exact x n a b :
  rounds x n -> n = a * 2 ^ b -> 0 <= a < 2 ^ 53 -> 0 <= b -> canon x n.
Proof.
  intros (k & E & HE & Hx & Hk & Hex & Hfine) Hn Ha Hb.
  pose proof (units_pos E HE) as HU. pose proof (pow2_pos b Hb).
  assert (n mod units E = 0) as Hmod.
  { destruct (Z.le_gt_cases (E + 1074) b) as [Hle|Hgt].
    - subst n. unfold units. replace b with (E + 1074 + (b - (E + 1074))) by lia.
      rewrite pow2_split, (Z.mul_comm (2 ^ (E + 1074))), Z.mul_assoc by lia.
      apply Z.mod_mul. unfold units in HU. lia.
    - destruct Hfine as [Hfine | ->]; [| lia].
      unfold units in Hfine. replace (E + 1074) with (b + (1 + (E + 1074 - b - 1))) in Hfine by lia.
      rewrite !pow2_split in Hfine by lia. pose proof (pow2_pos (E + 1074 - b - 1) ltac:(lia)).
      change (2 ^ 1) with 2 in Hfine. nia. }
  rewrite Hex in Hx by done. apply Z.div_exact in Hmod; [| lia].
  rewrite Z.mul_comm in Hmod. by rewrite <- Hmod in Hx.
Qed.

(** ** Normalization *)

(** Bounds that exclude an overflow: values below 2^900. *)
Definition huge : Z := 2 ^ 1974.

Lemma huge_eq : huge = 2 ^ 1974.
Proof. reflexivity. Qed.

#[global] Opaque huge.

Lemma grid_small m e :
  0 < m -> -1074 <= e -> m * units e <= huge -> grid (Zdigits2 m + e) <= 970.
Proof.
  intros Hm He Hle. pose proof (Zdigits2_bounds m ltac:(lia)) as (_ & Hlow & Hd).
  rewrite grid_eq. specialize (Hlow Hm).
  assert (2 ^ (Zdigits2 m - 1 + (e + 1074)) <= 2 ^ 1974) as H.
  { destruct (Z.le_gt_cases 1 (Zdigits2 m)) as [H1|H1].
    - rewrite pow2_split by lia. eapply Z.le_trans; [| exact Hle].
      apply Z.mul_le_mono_nonneg_r; [pose proof (units_pos e); unfold units in *; lia | done].
    - exfalso. pose proof (Zdigits2_bounds m ltac:(lia)) as (Hlt & _).
      replace (Zdigits2 m) with 0 in Hlt by lia. change (2 ^ 0) with 1 in Hlt. lia. }
  apply Z.pow_le_mono_r_iff in H; lia.
Qed.

Lemma aux_rounds m e E :
  0 < m -> -1074 <= e -> E = grid (Zdigits2 m + e) -> e <= E <= 970 ->
  rounds (binary_round_aux f64_prec f64_emax false m e loc_Exact) (m * units e).
Proof.
  intros Hm He HE Hle.
  pose proof (round_aux_canon m e loc_Exact ltac:(lia)) as Hr. cbn zeta in Hr.
  replace (Z.max e (grid (Zdigits2 m + e))) with E in Hr by lia.
  destruct Hr as (k & Hc & Hk & Hex); [lia | apply grid_fine; lia |].
  pose proof (pow2_pos (E - e) ltac:(lia)). pose proof (units_pos e He).
  assert (units E = 2 ^ (E - e) * units e) as HU
    by (rewrite <- units_split by lia; f_equal; lia).
  exists k, E. split; [lia |]. split; [done |].
  rewrite HU, Z.div_mul_cancel_r, Z.mul_mod_distr_r by lia.
  split_and!; [lia | lia | intros Hz; apply Hex; [done | nia] |].
  destruct (grid_fine m e E Hm HE ltac:(lia)) as [Hf | ->]; [left; nia | by right].
Qed.

Lemma shl_align_fst m e e' : e' <= e -> Zpos (fst (shl_align m e e')) = Zpos m * 2 ^ (e - e').
Proof.
  intros Hle. unfold shl_align. destruct (e' - e) as [|p|p] eqn:Hd; cbn [fst]; [| lia |].
  - replace (e - e') with 0 by lia. lia.
  - replace (e - e') with (Zpos p) by lia. change (Pos.iter xO m p) with (Zpower.shift_pos p m).
    rewrite Zpower.shift_pos_correct. change (Z.pow_pos 2 p) with (2 ^ Zpos p). lia.
Qed.

Lemma normalize_rounds m e :
  0 <= m -> -1074 <= e -> m * units e <= huge ->
  rounds (binary_normalize f64_prec f64_emax m e false) (m * units e).
Proof.
  intros Hm He Hle. destruct m as [|p|p]; [| | lia].
  { exists 0, (-1074). change (0 * units e) with 0. split_and!; try done. by right. }
  cbn [binary_normalize]. unfold binary_round. fold (grid (Zpos (digits2_pos p) + e)).
  pose proof (grid_small (Zpos p) e ltac:(lia) He Hle) as Hsmall. cbn [Zdigits2] in Hsmall.
  remember (grid (Zpos (digits2_pos p) + e)) as E eqn:HE.
  assert (-1074 <= E) as HE' by (rewrite grid_eq in HE; lia).
  destruct (Z.le_gt_cases e E) as [Hge|Hlt].
  - assert (shl_align p e E = (p, e)) as ->.
    { unfold shl_align. destruct (E - e) eqn:Hd; [done | done | lia]. }
    by apply (aux_rounds _ _ E).
  - pose proof (shl_align_fst p e E ltac:(lia)) as Hz.
    assert (snd (shl_align p e E) = E) as Hsnd.
    { unfold shl_align. destruct (E - e) eqn:Hd; [lia | lia | done]. }
    destruct (shl_align p e E) as [z ez]. cbn [fst snd] in *. subst ez.
    replace (Zpos p * units e) with (Zpos z * units E)
      by (rewrite Hz; replace e with (E + (e - E)) at 2 by lia; rewrite units_split by lia; lia).
    apply (aux_rounds _ _ E); [lia | lia | | lia]. rewrite HE at 1. f_equal. cbn [Zdigits2].
    pose proof (digits2_bounds p) as Hd. rewrite (digits2_eq z (Zpos (digits2_pos p) + (e - E))); [lia | | lia].
    rewrite Hz. replace (Zpos (digits2_pos p) + (e - E) - 1) with (Zpos (digits2_pos p) - 1 + (e - E)) by lia.
    rewrite !pow2_split by lia. pose proof (pow2_pos (e - E) ltac:(lia)). nia.
Qed.

(** ** Operations *)

Lemma f64_of_rounds n : 0 <= n -> n * one <= huge -> rounds (f64_of n) (n * one).
Proof. intros. rewrite one_units in *. apply normalize_rounds; lia. Qed.

Lemma f64_of_exact n : 0 <= n < 2 ^ 53 -> canon (f64_of n) (n * one).
Proof.
  intros Hn. assert (n * one <= huge) as Hle.
  { pose proof one_pos. transitivity (2 ^ 53 * one); [nia |]. rewrite one_eq, huge_eq. rewrite <- pow2_split by lia. apply pow2_le. lia. }
  apply (rounds_exact _ _ n 1074); [by apply f64_of_rounds; lia | by rewrite one_eq | lia | lia].
Qed.

Lemma align_sum mx ex my ey :
  -1074 <= ex -> -1074 <= ey -> let ez := Z.min ex ey in
  Zpos (fst (shl_align mx ex ez)) * units ez = Zpos mx * units ex
  /\ Zpos (fst (shl_align my ey ez)) * units ez = Zpos my * units ey.
Proof.
  intros Hx Hy ez. rewrite !shl_align_fst by lia. split.
  - replace ex with (ez + (ex - ez)) at 2 by lia. rewrite units_split by lia. lia.
  - replace ey with (ez + (ey - ez)) at 2 by lia. rewrite units_split by lia. lia.
Qed.

Lemma f64_add_rounds x y v w :
  canon x v -> canon y w -> v + w <= huge -> rounds (f64_add x y) (v + w).
Proof.
  intros Hx Hy Hle. pose proof (canon_nonneg _ _ Hx). pose proof (canon_nonneg _ _ Hy).
  destruct x as [[]|[]| |[] mx ex]; try done; destruct y as [[]|[]| |[] my ey]; try done.
  - cbn in Hx, Hy. subst. by apply canon_rounds.
  - cbn in Hx. subst. by apply canon_rounds.
  - cbn in Hy. subst. rewrite Z.add_0_r. by apply canon_rounds.
  - destruct Hx as (Hex & _ & _ & ->), Hy as (Hey & _ & _ & ->).
    destruct (align_sum mx ex my ey) as [Ha Hb]; [lia..|].
    unfold f64_add, SFadd, cond_Zopp. rewrite <- Ha, <- Hb in *. rewrite <- Z.mul_add_distr_r in *.
    apply normalize_rounds; [lia | lia | done].
Qed.

Lemma f64_sub_rounds x y v w :
  canon x v -> canon y w -> w <= v -> v <= huge -> rounds (f64_sub x y) (v - w).
Proof.
  intros Hx Hy Hwv Hle. pose proof (canon_nonneg _ _ Hx). pose proof (canon_nonneg _ _ Hy).
  destruct x as [[]|[]| |[] mx ex]; try done; destruct y as [[]|[]| |[] my ey]; try done.
  - cbn in Hx, Hy. subst. by apply (canon_rounds (S754_zero false) 0).
  - exfalso. cbn in Hx. destruct Hy as (Hey & _ & _ & ->). pose proof (units_pos ey). nia.
  - cbn in Hy. subst. rewrite Z.sub_0_r. by apply canon_rounds.
  - destruct Hx as (Hex & _ & _ & ->), Hy as (Hey & _ & _ & ->).
    destruct (align_sum mx ex my ey) as [Ha Hb]; [lia..|].
    pose proof (units_pos (Z.min ex ey) ltac:(lia)).
    unfold f64_sub, SFsub, cond_Zopp. rewrite <- Ha, <- Hb in *. rewrite <- Z.mul_sub_distr_r in *.
    apply normalize_rounds; [nia | lia | nia].
Qed.

(** Multiplying and dividing: the error is a relative 2^-52, and at most one unit when the
    result is on the finest grid. *)

Lemma Zdigits2_mul_ge a b : 2 ^ 52 <= b -> 0 < a -> 53 <= Zdigits2 (a * b).
Proof.
  intros Hb Ha. destruct (a * b) as [|p|p] eqn:E; [nia | | nia]. cbn [Zdigits2].
  pose proof (digits2_gt p 52 ltac:(lia) ltac:(nia)). lia.
Qed.

Lemma scaled_error m e E k :
  0 <= m -> e <= E -> 2 ^ 52 * 2 ^ (E - e) <= m \/ E = -1074 ->
  m / 2 ^ (E - e) <= k <= m / 2 ^ (E - e) + 1 ->
  (k * 2 ^ (E - e) * 2 ^ 52 <= m * (2 ^ 52 + 1) /\ (m + 1) * 2 ^ 52 <= k * 2 ^ (E - e) * (2 ^ 52 + 1))
  \/ (E = -1074 /\ k * 2 ^ (E - e) <= m + 2 ^ (E - e) /\ m + 1 <= k * 2 ^ (E - e) + 2 ^ (E - e)).
Proof.
  intros Hm He Hfine Hk. pose proof (pow2_pos (E - e) ltac:(lia)) as Hp.
  pose proof (Z.mul_div_le m (2 ^ (E - e)) Hp). pose proof (Z.mul_succ_div_gt m (2 ^ (E - e)) Hp).
  assert (k * 2 ^ (E - e) <= m + 2 ^ (E - e)) by nia.
  assert (m + 1 <= k * 2 ^ (E - e) + 2 ^ (E - e)) by nia.
  destruct Hfine as [Hfine | ->]; [left | right; done].
  assert (2 ^ 52 <= k) by (transitivity (m / 2 ^ (E - e)); [apply Z.div_le_lower_bound |]; lia).
  assert (2 ^ 52 * 2 ^ (E - e) <= k * 2 ^ (E - e)) by nia. lia.
Qed.

Lemma f64_mul_canon x y v w :
  canon x v -> canon y w -> w = 0 \/ one <= w -> v * w <= huge * one ->
  exists u, canon (f64_mul x y) u /\ near one (u * one) (v * w).
Proof.
  intros Hx Hy Hw Hle. pose proof one_pos as Hone.
  pose proof (canon_nonneg _ _ Hx). pose proof (canon_nonneg _ _ Hy).
  destruct x as [[]|[]| |[] mx ex]; try done; destruct y as [[]|[]| |[] my ey]; try done;
    try (exists 0; split; [done | unfold near; first [cbn in Hx; subst v | cbn in Hy; subst w]; lia]).
  destruct Hx as (Hex & Hmx & _ & ->), Hy as (Hey & Hmy & Hcy & ->).
  pose proof (units_pos ex ltac:(lia)) as Hux. pose proof (units_pos ey ltac:(lia)) as Huy.
  assert (2 ^ 52 <= Zpos my) as Hny.
  { destruct Hcy as [| ->]; [done |]. exfalso. change (units (-1074)) with 1 in Hw.
    rewrite one_eq in Hw.
    pose proof (pow2_le 53 1074 ltac:(lia)). lia. }
  unfold f64_mul, SFmul. cbn [xorb]. rewrite Pos2Z.inj_mul.
  set (m := Zpos mx * Zpos my) in *. set (e := ex + ey).
  assert (53 <= Zdigits2 m) as Hd by by apply Zdigits2_mul_ge.
  assert (0 < m) as Hm by (unfold m; lia).
  remember (grid (Zdigits2 m + e)) as E eqn:HE.
  assert (e <= E /\ -1074 <= E) as [HeE HE'] by (rewrite grid_eq in HE; lia).
  pose proof (grid_fine m e E Hm HE HeE) as Hfine.
  assert (Zpos mx * units ex * (Zpos my * units ey) = m * 2 ^ (e + 2148)) as Hval.
  { unfold m, e, units. replace (ex + ey + 2148) with ((ex + 1074) + (ey + 1074)) by lia.
    rewrite (pow2_split (ex + 1074)) by lia. lia. }
  assert (forall k, k * units E * one = k * 2 ^ (E - e) * 2 ^ (e + 2148)) as Hres.
  { intros k. rewrite one_eq. unfold units. rewrite <- !Z.mul_assoc, <- !pow2_split by lia.
    do 2 f_equal. lia. }
  assert (E <= 970) as Hmax.
  { destruct Hfine as [Hfine | ->]; [| lia]. rewrite Hval, one_eq, huge_eq in Hle. rewrite <- pow2_split in Hle by lia.
    assert (2 ^ 52 * 2 ^ (E - e) * 2 ^ (e + 2148) <= 2 ^ (1974 + 1074)) as H2.
    { eapply Z.le_trans; [| exact Hle]. apply Z.mul_le_mono_nonneg_r; [pose proof (pow2_pos (e + 2148)); lia | lia]. }
    rewrite <- !pow2_split in H2 by lia. apply Z.pow_le_mono_r_iff in H2; lia. }
  pose proof (round_aux_canon m e loc_Exact ltac:(lia)) as Hr. cbn zeta in Hr. rewrite <- HE in Hr.
  rewrite Z.max_r in Hr by lia. destruct (Hr Hmax Hfine) as (k & Hc & Hk & _).
  exists (k * units E). split; [done |]. rewrite Hval, Hres.
  pose proof (pow2_pos (e + 2148) ltac:(lia)) as Hp.
  unfold near.
  destruct (scaled_error m e E k ltac:(lia) HeE Hfine ltac:(lia)) as [[Herr Herr'] | ( -> & Herr & Herr')].
  - split; nia.
  - assert (2 ^ (-1074 - e) * 2 ^ (e + 2148) = one) as Ho.
    { rewrite one_eq, <- pow2_split by lia. f_equal. lia. }
    assert (k * 2 ^ (-1074 - e) * 2 ^ (e + 2148) <= m * 2 ^ (e + 2148) + one).
    { rewrite <- Ho, <- Z.mul_add_distr_r. apply Z.mul_le_mono_nonneg_r; lia. }
    assert ((m + 1) * 2 ^ (e + 2148) <= k * 2 ^ (-1074 - e) * 2 ^ (e + 2148) + one); [| nia].
    rewrite <- Ho, <- Z.mul_add_distr_r. apply Z.mul_le_mono_nonneg_r; lia.
Qed.

(** The quotient of the division algorithm: its exponent and its digits. *)
Lemma div_core_cases mx ex my ey :
  exists q e l, SFdiv_core_binary f64_prec f64_emax (Zpos mx) ex (Zpos my) ey = (q, e, l)
    /\ Z.min (-1074) (ex - ey) <= e <= ex - ey
    /\ q = Zpos mx * 2 ^ (ex - ey - e) / Zpos my
    /\ e <= grid (Zdigits2 q + e) /\ (q = 0 -> grid (Zdigits2 q + e) = -1074).
Proof.
  unfold SFdiv_core_binary. cbn [Zdigits2].
  fold (grid (Zpos (digits2_pos mx) + ex - (Zpos (digits2_pos my) + ey))).
  set (dx := Zpos (digits2_pos mx)). set (dy := Zpos (digits2_pos my)).
  set (e := Z.min (grid (dx + ex - (dy + ey))) (ex - ey)).
  pose proof (grid_eq (dx + ex - (dy + ey))) as Hg.
  assert (match ex - ey - e with Z0 => Zpos mx | Zpos _ => Z.shiftl (Zpos mx) (ex - ey - e) | Zneg _ => 0 end
          = Zpos mx * 2 ^ (ex - ey - e)) as ->.
  { destruct (ex - ey - e) as [|p|p] eqn:Hs; [by rewrite Z.mul_1_r | | lia].
    by rewrite Z.shiftl_mul_pow2 by lia. }
  set (m := Zpos mx * 2 ^ (ex - ey - e)).
  assert (0 < m) as Hm by (unfold m; pose proof (pow2_pos (ex - ey - e) ltac:(lia)); lia).
  pose proof (Z.div_eucl_eq m (Zpos my) ltac:(lia)) as _.
  assert (Z.div_eucl m (Zpos my) = (m / Zpos my, m mod Zpos my)) as ->.
  { unfold Z.div, Z.modulo. by destruct (Z.div_eucl m (Zpos my)). }
  set (q := m / Zpos my). exists q, e. eexists. split; [reflexivity |].
  split; [lia |]. split; [done |]. rewrite grid_eq.
  assert (-1074 < dx + ex - (dy + ey) - 53 -> 53 <= Zdigits2 q) as Hnorm.
  { intros Hn. assert (2 ^ 52 <= q) as Hq.
    { apply Z.div_le_lower_bound; [lia |]. pose proof (digits2_bounds mx) as [Hx _].
      pose proof (digits2_bounds my) as [_ Hy]. fold dx in Hx. fold dy in Hy.
      assert (2 ^ dy * 2 ^ 52 <= m); [| lia].
      transitivity (2 ^ (dx - 1) * 2 ^ (ex - ey - e)).
      - rewrite <- !pow2_split by lia. apply pow2_le. lia.
      - unfold m. apply Z.mul_le_mono_nonneg_r; [pose proof (pow2_pos (ex - ey - e)); lia | done]. }
    destruct q as [|p|p]; [lia | | lia]. cbn [Zdigits2]. pose proof (digits2_gt p 52). lia. }
  assert (0 <= q) by (apply Z.div_pos; lia).
  pose proof (Zdigits2_bounds q ltac:(lia)) as (_ & _ & Hd).
  split.
  - destruct (Z.le_gt_cases (dx + ex - (dy + ey) - 53) (-1074)); lia.
  - intros Hq. rewrite Hq in *. change (Zdigits2 0) with 0 in *.
    destruct (Z.le_gt_cases (dx + ex - (dy + ey) - 53) (-1074)); lia.
Qed.

Lemma f64_div_canon x y v w :
  canon x v -> canon y w -> 0 < w -> v * one <= huge * w ->
  exists u, canon (f64_div x y) u /\ near w (u * w) (v * one).
Proof.
  intros Hx Hy Hw Hle. pose proof one_pos as Hone. pose proof (canon_nonneg _ _ Hx).
  destruct x as [[]|[]| |[] mx ex]; try done; destruct y as [[]|[]| |[] my ey]; try done;
    try (cbn in Hy; lia).
  { exists 0. cbn in Hx. subst v. split; [done | unfold near; lia]. }
  destruct Hx as (Hex & _ & _ & ->), Hy as (Hey & _ & _ & ->).
  unfold f64_div, SFdiv. cbn [xorb].
  destruct (div_core_cases mx ex my ey) as (q & e & l & -> & He & Hq & Hge & Hzero).
  remember (grid (Zdigits2 q + e)) as E eqn:HE.
  set (y := 2 ^ (e + ey + 2148)). assert (0 < y) as Hy by (apply pow2_pos; lia).
  assert (-1074 <= E) as HE' by (rewrite grid_eq in HE; lia).
  assert (0 <= q) as Hq0.
  { subst q. apply Z.div_pos; [pose proof (pow2_pos (ex - ey - e)); lia | lia]. }
  assert (q * Zpos my * y <= Zpos mx * units ex * one < (q + 1) * Zpos my * y) as [Hqy Hqy'].
  { assert (Zpos mx * units ex * one = Zpos mx * 2 ^ (ex - ey - e) * y) as ->.
    { rewrite one_eq. unfold units, y. rewrite <- !Z.mul_assoc, <- !pow2_split by lia. do 2 f_equal. lia. }
    subst q. rewrite !(Z.mul_comm _ (Zpos my)). split.
    - apply Z.mul_le_mono_nonneg_r; [lia |]. apply Z.mul_div_le. lia.
    - apply Z.mul_lt_mono_pos_r; [lia |]. apply Z.mul_succ_div_gt. lia. }
  assert (forall k, k * units E * (Zpos my * units ey) = k * 2 ^ (E - e) * (Zpos my * y)) as Hres.
  { intros k. unfold units, y.
    transitivity (k * Zpos my * (2 ^ (E + 1074) * 2 ^ (ey + 1074))); [lia |].
    transitivity (k * Zpos my * (2 ^ (E - e) * 2 ^ (e + ey + 2148))); [| lia].
    rewrite <- !pow2_split by lia. do 2 f_equal. lia. }
  assert (2 ^ 52 * 2 ^ (E - e) <= q \/ E = -1074) as Hfine.
  { destruct (Z.eq_dec q 0) as [Hz|Hz]; [right; auto | apply grid_fine; lia]. }
  assert (E <= 970) as Hmax.
  { destruct Hfine as [Hfine | ->]; [| lia].
    assert (2 ^ 52 * 2 ^ (E - e) * (Zpos my * y) <= huge * (Zpos my * units ey)) as H2 by nia.
    rewrite huge_eq in H2.
    assert (2 ^ 52 * 2 ^ (E - e) * y <= 2 ^ 1974 * units ey) as H3 by nia.
    unfold y, units in H3. rewrite <- !pow2_split in H3 by lia. apply Z.pow_le_mono_r_iff in H3; lia. }
  pose proof (round_aux_canon q e l Hq0) as Hr. cbn zeta in Hr. rewrite <- HE in Hr.
  rewrite Z.max_r in Hr by lia. destruct (Hr Hmax Hfine) as (k & Hc & Hk & _).
  exists (k * units E). split; [done |]. rewrite Hres.
  unfold near. set (v := Zpos mx * units ex * one) in *.
  destruct (scaled_error q e E k Hq0 Hge Hfine ltac:(lia)) as [[Herr Herr'] | ( -> & Herr & Herr')].
  - assert (k * 2 ^ (E - e) * 2 ^ 52 * (Zpos my * y) <= q * (2 ^ 52 + 1) * (Zpos my * y))
      by (apply Z.mul_le_mono_nonneg_r; lia).
    assert ((q + 1) * 2 ^ 52 * (Zpos my * y) <= k * 2 ^ (E - e) * (2 ^ 52 + 1) * (Zpos my * y))
      by (apply Z.mul_le_mono_nonneg_r; lia).
    pose proof (units_pos ey ltac:(lia)). assert (0 <= Zpos my * units ey) by lia. lia.
  - assert (2 ^ (-1074 - e) * (Zpos my * y) = Zpos my * units ey) as Ho.
    { unfold y, units. rewrite Z.mul_assoc, (Z.mul_comm _ (Zpos my)), <- Z.mul_assoc, <- pow2_split by lia.
      do 2 f_equal. lia. }
    assert (0 <= Zpos my * units ey) by (pose proof (units_pos ey ltac:(lia)); lia).
    pose proof (pow2_pos (-1074 - e) ltac:(lia)). pose proof (Z.div_pos q (2 ^ (-1074 - e)) ltac:(lia) ltac:(lia)).
    assert (k * 2 ^ (-1074 - e) * (Zpos my * y) <= q * (Zpos my * y) + Zpos my * units ey).
    { rewrite <- Ho, <- Z.mul_add_distr_r. apply Z.mul_le_mono_nonneg_r; lia. }
    assert ((q + 1) * (Zpos my * y) <= k * 2 ^ (-1074 - e) * (Zpos my * y) + Zpos my * units ey).
    { rewrite <- Ho, <- Z.mul_add_distr_r. apply Z.mul_le_mono_nonneg_r; lia. }
    assert (0 <= k * 2 ^ (-1074 - e) * (Zpos my * y)) by (repeat apply Z.mul_nonneg_nonneg; lia). lia.
Qed.
