(* ===== verification/RateLimit.v ===== *)
(** * The rate limiter

    Models [src/src/ratelimit.rs]: a token bucket whose counters are doubles. *)

From S2P Require Import Prelude Bytes RustStr Sys F64.

Record RateLimiter := mk_limiter { rate : f64; burst : f64; tokens : f64; last : Z }.

(** [RateLimiter::new], once the clock is read. *)
Definition new_at (rate burst now : Z) : RateLimiter :=
  let burst := f64_of (Z.max burst 1) in
  mk_limiter (f64_of rate) burst burst now.

Definition RateLimiter_new (rate burst : Z) : prog RateLimiter :=
  now ← call Instant_now;
  Done (new_at rate burst now).

(** The body of [allow], once the clock is read. *)
Definition allow_at (rl : RateLimiter) (now : Z) : bool * RateLimiter :=
  let elapsed := as_secs_f64 (duration_since now (last rl)) in
  let tokens := f64_min (f64_add (tokens rl) (f64_mul elapsed (rate rl))) (burst rl) in
  if f64_ge tokens (f64_of 1)
  then (true, mk_limiter (rate rl) (burst rl) (f64_sub tokens (f64_of 1)) now)
  else (false, mk_limiter (rate rl) (burst rl) tokens now).

Definition allow (rl : RateLimiter) : prog (bool * RateLimiter) :=
  now ← call Instant_now;
  Done (allow_at rl now).

(** The answers of a limiter asked at a sequence of instants. *)
Fixpoint allow_all_at (rl : RateLimiter) (instants : list Z) : list bool * RateLimiter :=
  match instants with
  | [] => ([], rl)
  | now :: instants =>
      let '(b, rl) := allow_at rl now in
      let '(bs, rl) := allow_all_at rl instants in
      (b :: bs, rl)
  end.
