(* ===== verification/RateProps.v ===== *)
(** * What the rate limiter guarantees

    The limiter counts with doubles; these theorems account for every rounding.  Token counts
    are values in units of 2^-1074 ([F64Round]). *)

From Stdlib Require Import SpecFloat.
From S2P Require Import Prelude Bytes RustStr Sys F64 F64Round RateLimit.

(** Instants of the monotonic clock, in nanoseconds: at most 2^63 seconds. *)
Definition instant_ok (now : Z) : Prop := 0 <= now < 2 ^ 63 * NANOS_PER_SEC.

Lemma small_huge n : n <= 2 ^ 900 -> n * one <= huge.
Proof.
  intros. pose proof one_pos. transitivity (2 ^ 900 * one); [nia |].
  rewrite one_eq, huge_eq, <- pow2_split by lia. apply pow2_le. lia.
Qed.

(** ** Elapsed time *)

Lemma as_secs_f64_canon d :
  0 <= d < 2 ^ 63 * NANOS_PER_SEC ->
  exists el, canon (as_secs_f64 d) el
    /\ el * 10 ^ 9 * 2 ^ 104 <= d * one * (2 ^ 52 + 1) ^ 2 + 10 ^ 9 * 2 ^ 52 * (2 ^ 52 + 1)
    /\ d * one * 2 ^ 104 <= el * 10 ^ 9 * (2 ^ 52 + 1) ^ 2 + 10 ^ 9 * 2 ^ 104.
Proof.
  unfold NANOS_PER_SEC. intros Hd. unfold as_secs_f64, NANOS_PER_SEC.
  pose proof (Z.div_mod d 1000000000 ltac:(lia)) as Hdm.
  pose proof (Z.mod_pos_bound d 1000000000 ltac:(lia)) as Hn.
  set (secs := d / 1000000000) in *. set (nanos := d mod 1000000000) in *.
  assert (0 <= secs < 2 ^ 63) as Hs by lia.
  pose proof one_pos as Ho.
  destruct (rounds_error (f64_of secs) (secs * one)) as (s & Hcs & Hes);
    [apply f64_of_rounds; [lia | apply small_huge; lia] | nia |].
  pose proof (f64_of_exact nanos ltac:(lia)) as Hcn.
  pose proof (f64_of_exact 1000000000 ltac:(lia)) as Hcd.
  destruct (f64_div_canon _ _ _ _ Hcn Hcd) as (q & Hcq & Heq); [lia | |].
  { pose proof (small_huge nanos ltac:(lia)). nia. }
  assert (near 1000000000 (q * 1000000000) (nanos * one)) as Heq'.
  { destruct Heq. split; apply (Z.mul_le_mono_pos_r _ _ one); (done || lia). }
  pose proof (canon_nonneg _ _ Hcs). pose proof (canon_nonneg _ _ Hcq).
  unfold near in *.
  destruct (rounds_error (f64_add (f64_of secs) (f64_div (f64_of nanos) (f64_of 1000000000))) (s + q))
    as (el & Hel & Hee); [apply f64_add_rounds; [done | done |] | lia |].
  - pose proof (small_huge (2 ^ 66) ltac:(lia)) as Hh. nia.
  - exists el. split; [done |]. unfold near in *. split; nia.
Qed.

(** Tokens are measured below in ticks of 2^-20 packet. *)
Definition tick : Z := 2 ^ 1054.

Lemma one_ticks : one = 2 ^ 20 * tick.
Proof. rewrite one_eq. unfold tick. by rewrite <- pow2_split by lia. Qed.

Lemma tick_eq : tick = 2 ^ 1054.
Proof. reflexivity. Qed.

Lemma tick_big : 2 ^ 300 <= tick.
Proof. apply pow2_le. lia. Qed.

#[global] Opaque tick.

(** The ticks that [d] nanoseconds are worth, for a rate lower by one part in 10^9. *)
Definition refill (R d : Z) : Z := R * d * 2 ^ 20 / (10 ^ 9 + 1).

(** The product of the elapsed time and the rate, in units. *)
Lemma refill_amount R rate d :
  0 <= R < 2 ^ 32 -> 0 <= d < 2 ^ 63 * NANOS_PER_SEC -> canon rate (R * one) ->
  exists p, canon (f64_mul (as_secs_f64 d) rate) p /\ p <= 2 ^ 98 * one
    /\ p * 2 ^ 52 * 10 ^ 9 <= R * d * one * (2 ^ 52 + 4) + 10 ^ 9 * one
    /\ refill R d * tick <= p.
Proof.
  intros HR Hd Hrate. destruct (as_secs_f64_canon d Hd) as (el & Hel & Hup & Hlow).
  unfold NANOS_PER_SEC in Hd. pose proof one_pos as Ho. pose proof (canon_nonneg _ _ Hel).
  assert (2 ^ 200 <= one) as Hbig by (rewrite one_eq; apply pow2_le; lia).
  assert (el <= 2 ^ 64 * one) as Hel64 by nia.
  assert (el * R <= 2 ^ 64 * one * 2 ^ 32) as HelR by (apply Z.mul_le_mono_nonneg; lia).
  pose proof (small_huge (2 ^ 100) ltac:(lia)) as Hh.
  destruct (f64_mul_canon _ _ _ _ Hel Hrate) as (p & Hp & Hbp).
  { destruct (Z.eq_dec R 0) as [-> |]; [by left | right; nia]. }
  { rewrite Z.mul_assoc. apply Z.mul_le_mono_nonneg_r; lia. }
  assert (near 1 p (el * R)) as [Hb1 Hb2].
  { destruct Hbp. split; apply (Z.mul_le_mono_pos_r _ _ one); (done || lia). }
  pose proof (canon_nonneg _ _ Hp). exists p. split; [done |].
  assert (el * 10 ^ 9 * 2 ^ 104 * R
          <= (d * one * (2 ^ 52 + 1) ^ 2 + 10 ^ 9 * 2 ^ 52 * (2 ^ 52 + 1)) * R) as Hup'
    by (apply Z.mul_le_mono_nonneg_r; lia).
  assert (d * one * 2 ^ 104 * R <= (el * 10 ^ 9 * (2 ^ 52 + 1) ^ 2 + 10 ^ 9 * 2 ^ 104) * R) as Hlow'
    by (apply Z.mul_le_mono_nonneg_r; lia).
  assert (0 <= R * d) as Hrd by nia.
  assert (refill R d * (10 ^ 9 + 1) <= R * d * 2 ^ 20) as Ha
    by (unfold refill; rewrite Z.mul_comm; apply Z.mul_div_le; lia).
  set (a := refill R d) in *. pose proof one_ticks as Ht. pose proof tick_big.
  assert (0 <= R * d * one) by nia. set (rdo := R * d * one) in *.
  assert (d * one * R = rdo) as Hrdo by (unfold rdo; lia). set (elr := el * R) in *.
  split_and!; [lia | |].
  - assert (p * 2 ^ 52 * 10 ^ 9 * 2 ^ 104 <= (rdo * (2 ^ 52 + 4) + 10 ^ 9 * one) * 2 ^ 104); [| lia].
    assert (elr * 10 ^ 9 * 2 ^ 104 <= rdo * (2 ^ 52 + 1) ^ 2 + 10 ^ 9 * 2 ^ 52 * (2 ^ 52 + 1) * 2 ^ 32)
      by (unfold elr in *; nia). lia.
  - destruct (Z.le_gt_cases a 0) as [Hneg|Hpos]; [nia |].
    assert (tick <= a * tick) by nia.
    assert (a * tick * (10 ^ 9 + 1) <= rdo) by (unfold rdo; rewrite Ht; nia).
    assert (rdo * 2 ^ 104 <= elr * 10 ^ 9 * (2 ^ 52 + 1) ^ 2 + 10 ^ 9 * 2 ^ 104 * 2 ^ 32)
      by (unfold elr in *; nia).
    set (x := a * tick) in *. lia.
Qed.

(** ** One question *)

(** A limiter of [R] packets per second and burst [B], with [t] units in its bucket. *)
Record limiter_ok (R B : Z) (rl : RateLimiter) (t : Z) : Prop := {
  ok_R : 0 <= R < 2 ^ 32;
  ok_B : 1 <= B < 2 ^ 32;
  ok_rate : canon (rate rl) (R * one);
  ok_burst : canon (burst rl) (B * one);
  ok_tokens : canon (tokens rl) t;
  ok_bounds : t <= B * one;
  ok_last : instant_ok (last rl)
}.

Lemma new_at_ok R B now :
  0 <= R < 2 ^ 32 -> 0 <= B < 2 ^ 32 -> instant_ok now ->
  limiter_ok R (Z.max B 1) (new_at R B now) (Z.max B 1 * one).
Proof. intros HR HB Hnow. split; cbn; try done; try lia; apply f64_of_exact; lia. Qed.

Lemma f64_of_0 : f64_of 0 = S754_zero false.
Proof. reflexivity. Qed.

Lemma canon_0 x : canon x 0 -> x = S754_zero false.
Proof.
  destruct x as [[]|[]| |[] m e]; try done. intros (He & _ & _ & Hv). pose proof (units_pos e). nia.
Qed.

Lemma f64_mul_0 x v : canon x v -> f64_mul x (S754_zero false) = S754_zero false.
Proof. by destruct x as [[]|[]| |[] m e]. Qed.

(** Removing one token is exact. *)
Lemma sub_one_canon x v :
  canon x v -> one <= v -> v <= 2 ^ 32 * one -> canon (f64_sub x (f64_of 1)) (v - one).
Proof.
  intros Hx H1 Hv. pose proof (f64_of_exact 1 ltac:(lia)) as Hc1. rewrite Z.mul_1_l in Hc1.
  pose proof (small_huge (2 ^ 32) ltac:(lia)) as Hh. pose proof one_pos as Ho.
  pose proof (f64_sub_rounds _ _ _ _ Hx Hc1 H1 ltac:(lia)) as Hr.
  destruct x as [[]|[]| |[] m e]; try done; cbn in Hx; [lia |].
  destruct Hx as (He & Hm & Hc & Hval). pose proof (units_pos e ltac:(lia)) as Hu.
  destruct (Z.le_gt_cases e 0) as [Hle|Hgt].
  - assert (one = 2 ^ (- e) * units e) as Hone.
    { rewrite one_units. replace 0 with (e + - e) at 1 by lia. by rewrite units_split by lia. }
    pose proof (pow2_pos (- e) ltac:(lia)).
    apply (rounds_exact _ _ (Zpos m - 2 ^ (- e)) (e + 1074)); [done | | nia | lia].
    rewrite Hval, Hone. unfold units. lia.
  - exfalso. replace e with (0 + e) in Hval by lia. rewrite units_split, <- one_units in Hval by lia.
    pose proof (pow2_le 1 e ltac:(lia)). change (2 ^ 1) with 2 in *.
    assert (2 ^ 52 * (2 * one) <= v); [| lia]. rewrite Hval.
    apply Z.mul_le_mono_nonneg; [lia | lia | lia | nia].
Qed.

(** What a bucket gains by waiting [d] nanoseconds and being asked once. *)
Definition gain (R B d : Z) : Z := R * d * one * (2 ^ 52 + 4) + 10 ^ 9 * one * (B + 1).

Lemma refill_canon R B rl t d :
  limiter_ok R B rl t -> 0 <= d < 2 ^ 63 * NANOS_PER_SEC ->
  exists t1, canon (f64_min (f64_add (tokens rl) (f64_mul (as_secs_f64 d) (rate rl))) (burst rl)) t1
    /\ t1 <= B * one /\ t1 * 10 ^ 9 * 2 ^ 52 <= t * 10 ^ 9 * 2 ^ 52 + gain R B d
    /\ (forall c, c * tick <= t -> Z.min (c + refill R d) (B * 2 ^ 20) * tick <= t1)
    /\ (R = 0 -> t1 = t).
Proof.
  intros [HR HB Hrate Hburst Htok Hle Hlast] Hd.
  destruct (refill_amount R (rate rl) d HR Hd Hrate) as (p & Hp & Hp98 & Hup & Hlow).
  pose proof one_pos as Ho. pose proof (canon_nonneg _ _ Hp). pose proof (canon_nonneg _ _ Htok).
  pose proof (small_huge (2 ^ 100) ltac:(lia)) as Hh. pose proof one_ticks as Ht. pose proof tick_big.
  assert (B * one <= 2 ^ 32 * one) as HBo by (apply Z.mul_le_mono_nonneg_r; lia).
  assert (F64Round.rounds (f64_add (tokens rl) (f64_mul (as_secs_f64 d) (rate rl))) (t + p)) as Hr
    by (apply f64_add_rounds; [done | done | lia]).
  destruct (rounds_error _ _ Hr) as (s & Hs & Hbs & _); [lia |].
  exists (Z.min s (B * one)). split; [by apply f64_min_canon |]. split; [lia |]. split_and!.
  - unfold gain. assert (Z.min s (B * one) * 2 ^ 52 <= (t + p) * 2 ^ 52 + B * one) by lia. lia.
  - intros c Hc. set (m := Z.min (c + refill R d) (B * 2 ^ 20)).
    assert (m * tick <= t + p) as Hm by (unfold m; nia).
    assert (m * tick <= s) by (rewrite tick_eq in *; apply (rounds_ge _ _ _ _ _ Hr Hs Hm); lia).
    assert (m * tick <= B * one) by (unfold m; nia). lia.
  - intros ->. rewrite Z.mul_0_l in Hrate. apply canon_0 in Hrate as Hr0. rewrite Hr0 in *.
    assert (f64_mul (as_secs_f64 d) (S754_zero false) = S754_zero false) as Hm
      by by destruct (as_secs_f64_canon d Hd) as (el & ?%f64_mul_0 & _).
    rewrite Hm in Hs.
    assert (f64_add (tokens rl) (S754_zero false) = tokens rl) as Hadd
      by by destruct (tokens rl) as [[]|[]| |[] m e].
    rewrite Hadd in Hs. rewrite (canon_unique _ _ _ Hs Htok). lia.
Qed.

Definition spent (b : bool) : Z := if b then one else 0.

Lemma allow_at_ok R B rl t now b rl' :
  limiter_ok R B rl t -> instant_ok now -> allow_at rl now = (b, rl') ->
  exists t', limiter_ok R B rl' t' /\ last rl' = now
    /\ (t' + spent b) * 10 ^ 9 * 2 ^ 52 <= t * 10 ^ 9 * 2 ^ 52 + gain R B (duration_since now (last rl))
    /\ (forall c, c * tick <= t ->
          Z.min (c + refill R (duration_since now (last rl))) (B * 2 ^ 20) * tick <= t' + spent b)
    /\ (b = false -> t' < one)
    /\ (R = 0 -> t' + spent b = t /\ b = (one <=? t)).
Proof.
  intros Hok Hnow. pose proof Hok as [HR HB Hrate Hburst Htok Hle Hlast].
  unfold allow_at. set (d := duration_since now (last rl)).
  assert (0 <= d < 2 ^ 63 * NANOS_PER_SEC) as Hd by (unfold d, duration_since, instant_ok in *; lia).
  destruct (refill_canon R B rl t d Hok Hd) as (t1 & Hc1 & Hle1 & Hgain & Hlow & Hzero).
  pose proof (f64_of_exact 1 ltac:(lia)) as Hone. rewrite Z.mul_1_l in Hone.
  set (x := f64_min _ _) in *. rewrite (f64_ge_canon _ _ _ _ Hc1 Hone). pose proof one_pos.
  assert (B * one <= 2 ^ 32 * one) as HBo by (apply Z.mul_le_mono_nonneg_r; lia).
  destruct (one <=? t1) eqn:E; unbool; intros [= <- <-].
  - exists (t1 - one). cbn [spent]. split; [split; cbn; try done; [apply sub_one_canon; lia || done | lia] |].
    split_and!; [done | lia | intros c Hc; specialize (Hlow c Hc); lia | done |].
    intros HR0. rewrite <- (Hzero HR0). split; [lia |]. symmetry. by apply Z.leb_le.
  - exists t1. cbn [spent]. split; [by split |].
    split_and!; [done | lia | intros c Hc; specialize (Hlow c Hc); lia | done |].
    intros HR0. rewrite <- (Hzero HR0). split; [lia |]. symmetry. apply Z.leb_gt. lia.
Qed.

(** ** Any number of questions *)

Definition count (bs : list bool) : Z := Z.of_nat (length (List.filter (fun b => b) bs)).

(** The nanoseconds that pass between questions. *)
Fixpoint waited (last : Z) (instants : list Z) : Z :=
  match instants with
  | [] => 0
  | now :: instants => duration_since now last + waited now instants
  end.

Lemma gain_split R B d1 d2 n :
  gain R B d1 + (R * d2 * one * (2 ^ 52 + 4) + n * (10 ^ 9 * one * (B + 1)))
  = R * (d1 + d2) * one * (2 ^ 52 + 4) + (n + 1) * (10 ^ 9 * one * (B + 1)).
Proof. unfold gain. ring. Qed.

Lemma allow_all_at_ok R B rl t instants bs rl' :
  limiter_ok R B rl t -> Forall instant_ok instants -> allow_all_at rl instants = (bs, rl') ->
  exists t', limiter_ok R B rl' t'
    /\ (t' + count bs * one) * 10 ^ 9 * 2 ^ 52
       <= t * 10 ^ 9 * 2 ^ 52
          + (R * waited (last rl) instants * one * (2 ^ 52 + 4)
             + Z.of_nat (length instants) * (10 ^ 9 * one * (B + 1))).
Proof.
  revert rl t bs. induction instants as [|now instants IH]; intros rl t bs Hok Hnow; cbn [allow_all_at].
  { intros [= <- <-]. exists t. split; [done |]. cbn [waited length]. change (count []) with 0. lia. }
  apply Forall_cons_1 in Hnow as [Hn Hnow].
  destruct (allow_at rl now) as [b rl1] eqn:E1. destruct (allow_all_at rl1 instants) as [bs1 rl2] eqn:E2.
  intros [= <- <-]. destruct (allow_at_ok _ _ _ _ _ _ _ Hok Hn E1) as (t1 & Hok1 & Hl & Hb1 & _).
  destruct (IH _ _ _ Hok1 Hnow E2) as (t2 & Hok2 & Hb2). exists t2. split; [done |].
  cbn [waited]. change (length (now :: instants)) with (S (length instants)).
  rewrite Nat2Z.inj_succ, <- Z.add_1_r, <- gain_split. rewrite Hl in Hb2.
  assert (count (b :: bs1) * one = spent b + count bs1 * one) as ->
    by (unfold count; destruct b; cbn [List.filter length spent]; lia).
  lia.
Qed.

(** C14 (bounds): a limiter made for [R] packets per second with burst [B] admits, over any
    sequence of questions, at most its burst plus the packets its rate allows for the time that
    passed, up to the rounding of the doubles: a relative 2^-50 on the time, and 2^-52 times
    (burst + 1) of a packet per question. *)
Theorem limiter_bound R B t rl instants :
  0 <= R <= u32_max -> 0 <= B <= u32_max ->
  exec (RateLimiter_new R B) t (Ret rl) ->
  (forall now, Ev Instant_now now ∈ t -> instant_ok now) -> Forall instant_ok instants ->
  count (allow_all_at rl instants).1 * 10 ^ 9 * 2 ^ 52
  <= Z.max B 1 * 10 ^ 9 * 2 ^ 52 + R * waited (last rl) instants * (2 ^ 52 + 4)
     + Z.of_nat (length instants) * (10 ^ 9 * (Z.max B 1 + 1)).
Proof.
  unfold u32_max. intros HR HB (now & t' & -> & -> & [= ->]) Hnow Hall.
  assert (instant_ok now) as Hn by (apply Hnow; left).
  pose proof (new_at_ok R B now ltac:(lia) ltac:(lia) Hn) as Hok.
  destruct (allow_all_at (new_at R B now) instants) as [bs rl'] eqn:E.
  destruct (allow_all_at_ok _ _ _ _ _ _ _ Hok Hall E) as (t' & Hok' & Hb). cbn [fst].
  pose proof (canon_nonneg _ _ (ok_tokens _ _ _ _ Hok')). pose proof one_pos as Ho.
  apply (Z.mul_le_mono_pos_r _ _ one); [done |]. lia.
Qed.

(** C17 (invariant): at any time the tokens of a limiter are a finite number between zero and
    its burst: no overflow, no NaN, no negative bucket, whatever the clock answers. *)
Theorem limiter_invariant R B t rl instants :
  0 <= R <= u32_max -> 0 <= B <= u32_max ->
  exec (RateLimiter_new R B) t (Ret rl) ->
  (forall now, Ev Instant_now now ∈ t -> instant_ok now) -> Forall instant_ok instants ->
  exists v, canon (tokens (allow_all_at rl instants).2) v /\ 0 <= v <= Z.max B 1 * one.
Proof.
  unfold u32_max. intros HR HB (now & t' & -> & -> & [= ->]) Hnow Hall.
  assert (instant_ok now) as Hn by (apply Hnow; left).
  pose proof (new_at_ok R B now ltac:(lia) ltac:(lia) Hn) as Hok.
  destruct (allow_all_at (new_at R B now) instants) as [bs rl'] eqn:E.
  destruct (allow_all_at_ok _ _ _ _ _ _ _ Hok Hall E) as (t' & Hok' & _). cbn [snd].
  exists t'. split; [apply Hok' |]. split; [eapply canon_nonneg, Hok' | apply Hok'].
Qed.

Lemma no_refill_answers B rl n instants :
  limiter_ok 0 B rl (Z.of_nat n * one) -> Forall instant_ok instants ->
  (allow_all_at rl instants).1
  = replicate (Nat.min (length instants) n) true ++ replicate (length instants - n) false.
Proof.
  revert rl n. induction instants as [|now instants IH]; intros rl n Hok Hnow; [done |].
  apply Forall_cons_1 in Hnow as [Hn Hnow]. cbn [allow_all_at].
  destruct (allow_at rl now) as [b rl1] eqn:E1. destruct (allow_all_at rl1 instants) as [bs1 rl2] eqn:E2.
  destruct (allow_at_ok _ _ _ _ _ _ _ Hok Hn E1) as (t1 & Hok1 & _ & _ & _ & _ & Hzero).
  destruct (Hzero eq_refl) as [Ht Hb]. cbn [fst]. pose proof one_pos.
  destruct n as [|n].
  - assert (b = false) as -> by (rewrite Hb; apply Z.leb_gt; lia). cbn [spent] in Ht.
    rewrite Z.add_0_r in Ht. subst t1. pose proof (IH _ _ Hok1 Hnow) as IH1. rewrite E2 in IH1.
    cbn [fst] in IH1. rewrite IH1, !Nat.min_0_r, !Nat.sub_0_r. done.
  - assert (b = true) as -> by (rewrite Hb; apply Z.leb_le; lia). cbn [spent] in Ht.
    assert (t1 = Z.of_nat n * one) as -> by lia. pose proof (IH _ _ Hok1 Hnow) as IH1. rewrite E2 in IH1.
    cbn [fst] in IH1. by rewrite IH1.
Qed.

(** A limiter of rate zero admits exactly the first [B] packets (one if [B] is zero) and
    refuses all the others, whatever the times: counting down with doubles is exact. *)
Theorem limiter_no_refill B t rl instants :
  0 <= B <= u32_max -> exec (RateLimiter_new 0 B) t (Ret rl) ->
  (forall now, Ev Instant_now now ∈ t -> instant_ok now) -> Forall instant_ok instants ->
  let n := Z.to_nat (Z.max B 1) in
  (allow_all_at rl instants).1
  = replicate (Nat.min (length instants) n) true ++ replicate (length instants - n) false.
Proof.
  unfold u32_max. intros HB (now & t' & -> & -> & [= ->]) Hnow Hall. cbn zeta.
  set (n := Z.to_nat (Z.max B 1)).
  assert (instant_ok now) as Hn by (apply Hnow; left).
  pose proof (new_at_ok 0 B now ltac:(lia) ltac:(lia) Hn) as Hok.
  apply (no_refill_answers (Z.max B 1)); [| done].
  by replace (Z.of_nat n) with (Z.max B 1) by (unfold n; lia).
Qed.

(** ** Never too strict

    A token bucket on integers: [B] packets at most, [c] ticks of 2^-20 packet in it, refilled at
    the rate less one part in 10^9. *)
Fixpoint bucket_answers (R B c last : Z) (instants : list Z) : list bool :=
  match instants with
  | [] => []
  | now :: instants =>
      let c := Z.min (c + refill R (duration_since now last)) (B * 2 ^ 20) in
      let b := 2 ^ 20 <=? c in
      b :: bucket_answers R B (if b then c - 2 ^ 20 else c) now instants
  end.

Lemma count_cons b bs : count (b :: bs) = (if b then 1 else 0) + count bs.
Proof. unfold count. destruct b; cbn [List.filter length]; lia. Qed.

(** The limiter may be [k] packets ahead of the bucket; what it spent on them is all that it
    may lack. *)
Lemma bucket_behind R B rl t c k instants :
  limiter_ok R B rl t -> Forall instant_ok instants -> 0 <= k -> (c - k * 2 ^ 20) * tick <= t ->
  count (bucket_answers R B c (last rl) instants) <= count (allow_all_at rl instants).1 + k.
Proof.
  revert rl t c k. induction instants as [|now instants IH]; intros rl t c k Hok Hnow Hk Hc.
  { cbn. change (count []) with 0. lia. }
  apply Forall_cons_1 in Hnow as [Hn Hnow]. cbn [allow_all_at bucket_answers].
  destruct (allow_at rl now) as [b rl1] eqn:E1. destruct (allow_all_at rl1 instants) as [bs rl2] eqn:E2.
  destruct (allow_at_ok _ _ _ _ _ _ _ Hok Hn E1) as (t1 & Hok1 & Hl & _ & Hlow & Hless & _).
  specialize (Hlow _ Hc). set (d := duration_since now (last rl)) in *.
  set (c1 := Z.min (c + refill R d) (B * 2 ^ 20)). pose proof one_ticks as Ht. pose proof tick_big.
  assert ((c1 - k * 2 ^ 20) * tick <= t1 + spent b) as Hc1.
  { etransitivity; [| exact Hlow]. apply Z.mul_le_mono_nonneg_r; unfold c1; lia. }
  cbn [fst]. rewrite !count_cons. rewrite <- Hl.
  assert (forall c' k', 0 <= k' -> (c' - k' * 2 ^ 20) * tick <= t1 ->
    count (bucket_answers R B c' (last rl1) instants) <= count bs + k') as IH1.
  { intros c' k' Hk' Hc'. pose proof (IH _ _ _ _ Hok1 Hnow Hk' Hc') as IH1. by rewrite E2 in IH1. }
  destruct (Z.leb_spec (2 ^ 20) c1) as [Hs|Hs], b; cbn [spent] in Hc1.
  - pose proof (IH1 (c1 - 2 ^ 20) k). lia.
  - assert (1 <= k) as Hk1 by (specialize (Hless eq_refl); nia).
    pose proof (IH1 (c1 - 2 ^ 20) (k - 1)). lia.
  - pose proof (IH1 c1 (k + 1)). lia.
  - pose proof (IH1 c1 k). lia.
Qed.

(** C15 (equivalence): the limiter is never too strict: over any sequence of questions it admits
    at least as many packets as a token bucket on integers of the same burst, whose rate is
    lower by one part in 10^9 and counted in ticks of 2^-20 packet.  Being for all sequences, it
    holds at every moment. *)
Theorem limiter_lower_bound R B t rl instants :
  0 <= R <= u32_max -> 0 <= B <= u32_max ->
  exec (RateLimiter_new R B) t (Ret rl) ->
  (forall now, Ev Instant_now now ∈ t -> instant_ok now) -> Forall instant_ok instants ->
  count (bucket_answers R (Z.max B 1) (Z.max B 1 * 2 ^ 20) (last rl) instants)
  <= count (allow_all_at rl instants).1.
Proof.
  unfold u32_max. intros HR HB (now & t' & -> & -> & [= ->]) Hnow Hall.
  assert (instant_ok now) as Hn by (apply Hnow; left).
  pose proof (new_at_ok R B now ltac:(lia) ltac:(lia) Hn) as Hok.
  pose proof (bucket_behind _ _ _ _ (Z.max B 1 * 2 ^ 20) 0 _ Hok Hall) as Hb.
  pose proof one_ticks. lia.
Qed.

(** Every question comes more than the time of one packet after the one before. *)
Fixpoint paced (R last : Z) (instants : list Z) : Prop :=
  match instants with
  | [] => True
  | now :: instants => 10 ^ 9 < R * duration_since now last /\ paced R now instants
  end.

Lemma refill_one R d : 10 ^ 9 < R * d -> 2 ^ 20 <= refill R d.
Proof. intros. apply Z.div_le_lower_bound; lia. Qed.

Lemma paced_answers R B rl t instants :
  limiter_ok R B rl t -> Forall instant_ok instants -> paced R (last rl) instants ->
  (allow_all_at rl instants).1 = replicate (length instants) true.
Proof.
  revert rl t. induction instants as [|now instants IH]; intros rl t Hok Hnow; [done |].
  apply Forall_cons_1 in Hnow as [Hn Hnow]. cbn [allow_all_at paced]. intros [Hgap Hp].
  destruct (allow_at rl now) as [b rl1] eqn:E1. destruct (allow_all_at rl1 instants) as [bs rl2] eqn:E2.
  destruct (allow_at_ok _ _ _ _ _ _ _ Hok Hn E1) as (t1 & Hok1 & Hl & _ & Hlow & Hless & _).
  pose proof (canon_nonneg _ _ (ok_tokens _ _ _ _ Hok)) as Ht0. pose proof (ok_B _ _ _ _ Hok).
  specialize (Hlow 0 Ht0). pose proof (refill_one _ _ Hgap). pose proof one_ticks. pose proof tick_big.
  assert (b = true) as ->.
  { destruct b; [done |]. specialize (Hless eq_refl). cbn [spent] in Hlow. nia. }
  rewrite <- Hl in Hp. pose proof (IH _ _ Hok1 Hnow Hp) as IH1. rewrite E2 in IH1.
  cbn [fst] in *. cbn. by f_equal.
Qed.

(** C16 (liveness): whatever was asked of the limiter before, packets that come slower than its
    rate are all admitted: a sender that was refused and slows down is served again, and the
    rounding of short times does not starve it. *)
Theorem limiter_paced R B t rl earlier instants :
  0 <= R <= u32_max -> 0 <= B <= u32_max ->
  exec (RateLimiter_new R B) t (Ret rl) ->
  (forall now, Ev Instant_now now ∈ t -> instant_ok now) ->
  Forall instant_ok earlier -> Forall instant_ok instants ->
  let rl' := (allow_all_at rl earlier).2 in
  paced R (last rl') instants ->
  (allow_all_at rl' instants).1 = replicate (length instants) true.
Proof.
  unfold u32_max. intros HR HB (now & t' & -> & -> & [= ->]) Hnow Hall1 Hall2. cbn zeta.
  assert (instant_ok now) as Hn by (apply Hnow; left).
  pose proof (new_at_ok R B now ltac:(lia) ltac:(lia) Hn) as Hok.
  destruct (allow_all_at (new_at R B now) earlier) as [bs rl'] eqn:E.
  destruct (allow_all_at_ok _ _ _ _ _ _ _ Hok Hall1 E) as (t' & Hok' & _). by eapply paced_answers.
Qed.

(** The instant of the last question. *)
Fixpoint last_asked (first : Z) (ts : list Z) : Z :=
  match ts with
  | [] => first
  | now :: ts => last_asked now ts
  end.

Lemma waited_app first ts1 ts2 :
  waited first (ts1 ++ ts2) = waited first ts1 + waited (last_asked first ts1) ts2.
Proof.
  revert first. induction ts1 as [|n ts1 IH]; intros first; [done |].
  cbn [app waited last_asked]. rewrite IH. lia.
Qed.

Lemma last_asked_app first ts1 ts2 :
  last_asked first (ts1 ++ ts2) = last_asked (last_asked first ts1) ts2.
Proof. revert first. by induction ts1 as [|n ts1 IH]; intros first; [| apply IH]. Qed.

(** ** Examples *)

(** The limiter of the unit test: [burst] 3 and no refill. *)
Example unit_test : (allow_all_at (new_at 0 3 0) [0; 0; 0; 0]).1 = [true; true; true; false].
Proof. vm_compute. reflexivity. Qed.

(** Ten packets per second: after the burst, one more packet every 100 ms. *)
Example refills :
  (allow_all_at (new_at 10 1 0) [0; 50000000; 100000000; 150000000; 400000000; 400000000]).1
  = [true; false; true; false; true; false].
Proof. vm_compute. reflexivity. Qed.

Lemma new_exec R B now : exec (RateLimiter_new R B) [Ev Instant_now now] (Ret (new_at R B now)).
Proof. by exists now, []. Qed.

Lemma zero_instant now : Ev Instant_now now ∈ [Ev Instant_now 0] -> instant_ok now.
Proof.
  intros H%list_elem_of_singleton.
  pose proof (f_equal instant_of H) as [= ->]. done.
Qed.

Definition demo_instants : list Z := [0; 50000000; 100000000; 150000000].

Lemma demo_instants_ok : Forall instant_ok demo_instants.
Proof. repeat constructor; cbn; done. Qed.

Lemma limiter_bound_witness :
  count (allow_all_at (new_at 10 1 0) demo_instants).1 = 2 /\
  count (allow_all_at (new_at 10 1 0) demo_instants).1 * 10 ^ 9 * 2 ^ 52
  <= Z.max 1 1 * 10 ^ 9 * 2 ^ 52 + 10 * waited 0 demo_instants * (2 ^ 52 + 4)
     + Z.of_nat (length demo_instants) * (10 ^ 9 * (Z.max 1 1 + 1)).
Proof.
  split; [vm_compute; reflexivity |].
  exact (limiter_bound 10 1 [Ev Instant_now 0] (new_at 10 1 0) demo_instants
           ltac:(unfold u32_max; lia) ltac:(unfold u32_max; lia) (new_exec 10 1 0) zero_instant demo_instants_ok).
Defined.

Lemma limiter_invariant_witness :
  exists v, canon (tokens (allow_all_at (new_at 10 1 0) demo_instants).2) v /\ 0 <= v <= Z.max 1 1 * one.
Proof.
  exact (limiter_invariant 10 1 [Ev Instant_now 0] (new_at 10 1 0) demo_instants
           ltac:(unfold u32_max; lia) ltac:(unfold u32_max; lia) (new_exec 10 1 0) zero_instant demo_instants_ok).
Defined.

Lemma limiter_lower_bound_witness :
  count (bucket_answers 10 1 (2 ^ 20) 0 demo_instants) = 2
  /\ count (bucket_answers 10 1 (2 ^ 20) 0 demo_instants)
     <= count (allow_all_at (new_at 10 1 0) demo_instants).1.
Proof.
  split; [vm_compute; reflexivity |].
  exact (limiter_lower_bound 10 1 [Ev Instant_now 0] (new_at 10 1 0) demo_instants
           ltac:(unfold u32_max; lia) ltac:(unfold u32_max; lia) (new_exec 10 1 0) zero_instant demo_instants_ok).
Defined.

(** After a flood in which packets were refused, packets every 110 milliseconds all pass. *)
Definition slow_instants : list Z := [260000000; 370000000; 480000000].

Lemma slow_instants_ok : Forall instant_ok slow_instants.
Proof. repeat constructor; cbn; done. Qed.

Lemma slow_paced : paced 10 (last (allow_all_at (new_at 10 1 0) demo_instants).2) slow_instants.
Proof.
  assert (last (allow_all_at (new_at 10 1 0) demo_instants).2 = 150000000) as ->
    by (vm_compute; reflexivity).
  cbn. unfold duration_since. lia.
Qed.

Lemma limiter_paced_witness :
  (allow_all_at (new_at 10 1 0) demo_instants).1 = [true; false; true; false]
  /\ (allow_all_at (allow_all_at (new_at 10 1 0) demo_instants).2 slow_instants).1 = replicate 3 true.
Proof.
  split; [vm_compute; reflexivity |].
  exact (limiter_paced 10 1 [Ev Instant_now 0] (new_at 10 1 0) demo_instants slow_instants
           ltac:(unfold u32_max; lia) ltac:(unfold u32_max; lia) (new_exec 10 1 0) zero_instant
           demo_instants_ok slow_instants_ok slow_paced).
Defined.

Lemma limiter_no_refill_witness :
  (allow_all_at (new_at 0 3 0) demo_instants).1 = [true; true; true; false].
Proof.
  exact (limiter_no_refill 3 [Ev Instant_now 0] (new_at 0 3 0) demo_instants
           ltac:(unfold u32_max; lia) (new_exec 0 3 0) zero_instant demo_instants_ok).
Defined.
