(* ===== verification/Relay.v ===== *)
(** * The relay loop

    Models [src/src/relay.rs]: the decision and the rewrite target per output interface, the
    pipeline a received packet goes through, the fan-out, and the rounds of the main loop. *)

From S2P Require Import Prelude Bytes RustStr Config Filter Checksum Pnet Packet NatRewrite.
From S2P Require Import Sys FdSet Error Logging Socket RateLimit.

Definition should_relay_to (dst : Ipv4Addr) (ingress_if out_if : str)
    (out_broadcasts : list Ipv4Addr) : bool :=
  if bool_decide (ingress_if = out_if) then false
  else is_multicast dst || bool_decide (dst = Ipv4Addr_new 255 255 255 255)
       || bool_decide (dst ∈ out_broadcasts).

Definition nat_rewrite_target (dst : Ipv4Addr) (out_broadcasts : list Ipv4Addr) : Ipv4Addr :=
  if bool_decide (dst ∈ out_broadcasts) then dst
  else default (Ipv4Addr_new 255 255 255 255) (head out_broadcasts).

Record Relay := mk_relay {
  input_sockets : list PacketSocket;
  output_sockets : list PacketSocket;
  filter : Filter;
  rate_limiter : option RateLimiter;
  verbose : bool
}.

(** What changes while the loop runs: its two buffers and the rate limiter. *)
Record state := mk_state {
  recv_buf : list u8;
  send_buf : list u8;
  limiter : option RateLimiter
}.

Definition buf_size : nat := Z.to_nat 65536.

#[global] Opaque buf_size.

Definition initial (r : Relay) : state :=
  mk_state (replicate buf_size (u8_of 0)) (replicate buf_size (u8_of 0)) (rate_limiter r).

Section relay.
Context {P : Pnet} {F : FdSets}.
(** How an [Errno] prints. *)
Context (errno_text : Errno -> str).
Context (r : Relay).

Definition when_verbose (m : prog unit) : prog unit := if verbose r then m else Done tt.

(** One iteration of the loop over the output sockets; returns the send buffer. *)
Definition relay_to (in_sock : PacketSocket) (pkt_info : PacketInfo) (nat_rule : Rule)
    (recv_buf : list u8) (len : nat) (send_buf : list u8) (out_sock : PacketSocket)
    : prog (list u8) :=
  if negb (should_relay_to (pkt_dst_ip pkt_info) (ifname in_sock) (ifname out_sock)
             (broadcast_addrs out_sock))
  then Done send_buf
  else
    _ ← lift (slice_to len send_buf);
    src ← lift (slice_to len recv_buf);
    let send_buf := put 0 src send_buf in
    let dest_broadcast := nat_rewrite_target (pkt_dst_ip pkt_info) (broadcast_addrs out_sock) in
    frame ← lift (slice_to len send_buf);
    res ← lift (apply_nat frame (rule_nat nat_rule) dest_broadcast);
    let send_buf := put 0 (snd res) send_buf in
    match fst res with
    | Err e =>
        _ ← when_verbose (eprintln (lit "NAT error: " ++ e));
        Done send_buf
    | Ok _ =>
        frame ← lift (slice_to len send_buf);
        sent ← send out_sock frame;
        _ ← (match sent with
             | Ok _ => when_verbose (log_relay pkt_info len (ifname out_sock))
             | Err e => when_verbose (eprintln (lit "Send error on " ++ ifname out_sock
                                                ++ lit ": " ++ errno_text e))
             end);
        Done send_buf
    end.

Fixpoint relay_to_all (in_sock : PacketSocket) (pkt_info : PacketInfo) (nat_rule : Rule)
    (recv_buf : list u8) (len : nat) (send_buf : list u8) (out_socks : list PacketSocket)
    : prog (list u8) :=
  match out_socks with
  | [] => Done send_buf
  | out_sock :: out_socks =>
      send_buf ← relay_to in_sock pkt_info nat_rule recv_buf len send_buf out_sock;
      relay_to_all in_sock pkt_info nat_rule recv_buf len send_buf out_socks
  end.

(** [if let Some(rl) = self.rate_limiter.as_mut() { if !rl.allow() ..] *)
Definition rate_check (l : option RateLimiter) : prog (bool * option RateLimiter) :=
  match l with
  | None => Done (true, None)
  | Some rl => res ← allow rl; Done (fst res, Some (snd res))
  end.

(** The body of the loop over the input sockets, for a socket that has data. *)
Definition relay_from (st : state) (in_sock : PacketSocket) : prog state :=
  received ← recv in_sock (length (recv_buf st));
  match received with
  | Err e =>
      _ ← when_verbose (eprintln (lit "Recv error on " ++ ifname in_sock
                                  ++ lit ": " ++ errno_text e));
      Done st
  | Ok bytes =>
      let len := length bytes in
      let recv_buf := put 0 bytes (recv_buf st) in
      pkt ← lift (slice_to len recv_buf);
      relayed ← lift (is_already_relayed pkt);
      if (relayed : bool) then Done (mk_state recv_buf (send_buf st) (limiter st))
      else
        info ← lift (extract_packet_info pkt);
        match info with
        | None => Done (mk_state recv_buf (send_buf st) (limiter st))
        | Some pkt_info =>
            if negb (should_relay (filter r) pkt_info) then
              _ ← when_verbose (log_filtered (lit "no match") pkt_info);
              Done (mk_state recv_buf (send_buf st) (limiter st))
            else
              admitted ← rate_check (limiter st);
              if negb (fst admitted) then
                _ ← when_verbose (log_filtered (lit "rate limit") pkt_info);
                Done (mk_state recv_buf (send_buf st) (snd admitted))
              else
                nat_rule ← lift (unwrap (get_nat_rule (filter r) pkt_info));
                send_buf ← relay_to_all in_sock pkt_info nat_rule recv_buf len (send_buf st)
                             (output_sockets r);
                Done (mk_state recv_buf send_buf (snd admitted))
        end
  end.

Fixpoint relay_from_ready (ready : list Z) (st : state) (in_socks : list PacketSocket)
    : prog state :=
  match in_socks with
  | [] => Done st
  | in_sock :: in_socks =>
      has_data ← lift (FdSet_contains ready (fd in_sock));
      if (has_data : bool) then
        st ← relay_from st in_sock;
        relay_from_ready ready st in_socks
      else relay_from_ready ready st in_socks
  end.

(** The loop that fills the set of descriptors to wait for. *)
Fixpoint insert_fds (read_fds : list Z) (in_socks : list PacketSocket) : outcome (list Z) :=
  match in_socks with
  | [] => Ret read_fds
  | sock :: in_socks =>
      read_fds ← FdSet_insert read_fds (fd sock);
      insert_fds read_fds in_socks
  end.

(** One turn of the [loop]. *)
Definition round (st : state) : prog (result error state) :=
  read_fds ← lift (insert_fds [] (input_sockets r));
  let! answer := pnix (call (Select read_fds 3)) in
  if fst answer =? 0 then Done (Ok st)
  else
    st ← relay_from_ready (snd answer) st (input_sockets r);
    Done (Ok st).

(** The first [n] turns: [Ok] means that the loop is still running. *)
Fixpoint rounds (n : nat) (st : state) : prog (result error state) :=
  match n with
  | O => Done (Ok st)
  | S n => let! st := round st in rounds n st
  end.

Definition run (n : nat) : prog (result error state) := rounds n (initial r).
End relay.
