(* ===== verification/UnitTests.v ===== *)
(** * The unit tests of the program

    The test functions at the end of the files under [src/src/], translated like the code they
    test, with the packet library of [Pnet.ref_pnet].  They all pass: the model is checked
    against what the authors expect of the code.  A failed assertion panics. *)

From S2P Require Import Prelude Bytes RustStr Config ExampleConfigs Filter Checksum Pnet Packet.
From S2P Require Import NatRewrite Sys Socket F64 F64Round RateLimit RateProps Relay.

Definition assert (b : bool) : outcome unit := if b then Ret tt else Panic.

(** [result.unwrap()] and [result.err().expect(..)] *)
Definition expect_ok {E A} (r : result E A) : outcome A :=
  match r with Ok a => Ret a | Err _ => Panic end.

Definition expect_err {E A} (r : result E A) : outcome E :=
  match r with Ok _ => Panic | Err e => Ret e end.

(** [str::contains] of a string *)
Fixpoint str_contains (pat s : str) : bool :=
  match strip_prefix pat s with
  | Some _ => true
  | None => match s with [] => false | _ :: s => str_contains pat s end
  end.

Definition is_some {A} (o : option A) : bool := match o with Some _ => true | None => false end.

(** ** [config.rs] *)

Definition test_parse_simple_allow_rule : outcome unit :=
  config ← expect_ok (parse (lit "allow udp any:137-139 255.255.255.255:137-139"));
  _ ← assert (bool_decide (length (rules config) = 1%nat));
  rule ← index (rules config) 0;
  _ ← assert (bool_decide (action rule = Allow));
  assert (bool_decide (protocol rule = Protocol_Udp)).

Definition test_tcp_protocol_rejected : outcome unit :=
  err ← expect_err (parse (lit "allow tcp any:80 255.255.255.255:80"));
  assert (str_contains (lit "TCP is not supported") err).

Definition test_parse_with_nat : outcome unit :=
  config ← expect_ok (parse (lit "allow udp 192.168.1.0/24:1900 255.255.255.255:1900 snat=10.0.0.1"));
  _ ← assert (bool_decide (length (rules config) = 1%nat));
  rule ← index (rules config) 0;
  assert (bool_decide (source_ip (rule_nat rule) = Some (Ipv4Addr_new 10 0 0 1))).

Definition test_misspelled_nat_option_rejected : outcome unit :=
  err ← expect_err (parse (lit "allow udp 192.168.1.0/24:1900 255.255.255.255:1900 snnat=10.0.0.1"));
  assert (str_contains (lit "Unknown option") err).

Definition test_invalid_nat_value_rejected : outcome unit :=
  err ← expect_err (parse (lit "allow udp any:1900 255.255.255.255:1900 snat=not-an-ip"));
  assert (str_contains (lit "Invalid snat address") err).

Definition test_nat_on_deny_rule_rejected : outcome unit :=
  err ← expect_err (parse (lit "deny udp any:any any:any snat=10.0.0.1"));
  assert (str_contains (lit "not allowed on a deny rule") err).

Definition test_inverted_port_range_rejected : outcome unit :=
  err ← expect_err (parse (lit "allow udp any:139-137 255.255.255.255:any"));
  assert (str_contains (lit "greater than end") err).

Definition test_ip_matcher_cidr : outcome unit :=
  let matcher := IpMatcher_Cidr (be (map u8_of [192; 168; 1; 0]))
                   (Z.land (Z.shiftl u32_max 8) u32_max) in
  _ ← assert (IpMatcher_matches matcher (Ipv4Addr_new 192 168 1 100));
  assert (negb (IpMatcher_matches matcher (Ipv4Addr_new 192 168 2 100))).

Definition test_port_matcher_range : outcome unit :=
  let matcher := PortMatcher_Range 137 139 in
  _ ← assert (PortMatcher_matches matcher 138);
  assert (negb (PortMatcher_matches matcher 140)).

(** The files are read when the test runs; [dir] is the directory of the crate. *)
Fixpoint example_configs_parse_from (dir : str) (names : list str) : prog unit :=
  match names with
  | [] => Done tt
  | name :: names =>
      let path := dir ++ lit "/" ++ name in
      read ← call (Read_to_string path);
      _ ← lift (expect_ok (from_file path read));
      example_configs_parse_from dir names
  end.

Definition example_configs_parse (dir : str) : prog unit :=
  example_configs_parse_from dir [lit "examples/sample.conf"; lit "examples/test.conf"].

(** ** [packet.rs] *)

Definition test_is_broadcast : outcome unit :=
  _ ← assert (is_broadcast (Ipv4Addr_new 255 255 255 255));
  _ ← assert (is_broadcast (Ipv4Addr_new 192 168 1 255));
  _ ← assert (negb (is_broadcast (Ipv4Addr_new 192 168 1 100)));
  _ ← assert (is_broadcast (Ipv4Addr_new 224 0 0 251));
  _ ← assert (is_broadcast (Ipv4Addr_new 239 255 255 250));
  assert (negb (is_broadcast (Ipv4Addr_new 10 20 1 173))).

(** The setters of [pnet] that only the tests call. *)
Class PnetBuild := {
  set_version : list u8 -> Z -> list u8;
  set_header_length : list u8 -> Z -> list u8;
  set_total_length : list u8 -> Z -> list u8;
  set_next_level_protocol : list u8 -> Z -> list u8;
  udp_set_length : list u8 -> Z -> list u8;
  udp_set_payload : list u8 -> list u8 -> list u8;
  udp_get_checksum : list u8 -> Z
}.

Definition ref_build : PnetBuild := {|
  set_version b v := put 0 [u8_of (Z.lor (Z.shiftl v 4) (Z.land (byte_at 0 b) 15))] b;
  set_header_length b v := put 0 [u8_of (Z.lor (Z.land (byte_at 0 b) 240) (Z.land v 15))] b;
  set_total_length b v := put 2 (be16 v) b;
  set_next_level_protocol b v := put 9 [u8_of v] b;
  udp_set_length b v := put 4 (be16 v) b;
  udp_set_payload b bs := put 8 bs b;
  udp_get_checksum := word_at 6
|}.

Section tests.
Context {P : Pnet} {PB : PnetBuild}.

Definition build_udp (src dst : Ipv4Addr) : outcome (list u8) :=
  let buf := replicate (20 + 8) (u8_of 0) in
  ip ← unwrap (Ipv4Packet_new buf);
  let ip := set_version ip 4 in
  let ip := set_header_length ip 5 in
  let ip := set_total_length ip 28 in
  let ip := set_ttl ip 64 in
  let ip := set_next_level_protocol ip IpNextHeaderProtocols_Udp in
  let ip := set_source ip src in
  let buf := set_destination ip dst in
  tail ← slice_from 20 buf;
  udp ← unwrap (UdpPacket_new tail);
  let udp := udp_set_source udp 1234 in
  let udp := udp_set_destination udp 5353 in
  let udp := udp_set_length udp 8 in
  let udp := udp_set_checksum udp 4660 in
  Ret (put 20 udp buf).

Definition assert_rejected (buf : list u8) : outcome unit :=
  o ← extract_packet_info buf; assert (negb (is_some o)).

Definition test_rejects_multicast_source : outcome unit :=
  mcast_to_mcast ← build_udp (Ipv4Addr_new 224 0 0 251) (Ipv4Addr_new 224 0 0 251);
  _ ← assert_rejected mcast_to_mcast;
  mcast_to_bcast ← build_udp (Ipv4Addr_new 239 255 255 250) (Ipv4Addr_new 255 255 255 255);
  assert_rejected mcast_to_bcast.

Definition test_rejects_broadcast_source : outcome unit :=
  bcast_src ← build_udp (Ipv4Addr_new 255 255 255 255) (Ipv4Addr_new 255 255 255 255);
  _ ← assert_rejected bcast_src;
  directed_src ← build_udp (Ipv4Addr_new 192 168 1 255) (Ipv4Addr_new 255 255 255 255);
  assert_rejected directed_src.

Definition test_accepts_unicast_source : outcome unit :=
  valid ← build_udp (Ipv4Addr_new 192 168 1 50) (Ipv4Addr_new 224 0 0 251);
  o ← extract_packet_info valid;
  info ← unwrap o;
  _ ← assert (bool_decide (pkt_src_ip info = Ipv4Addr_new 192 168 1 50));
  assert (bool_decide (pkt_dst_ip info = Ipv4Addr_new 224 0 0 251)).

Definition test_rejects_truncated_packet : outcome unit :=
  valid ← build_udp (Ipv4Addr_new 192 168 1 1) (Ipv4Addr_new 255 255 255 255);
  o ← extract_packet_info valid;
  _ ← assert (is_some o);
  cut ← slice_to (length valid - 1) valid;
  assert_rejected cut.

Definition assert_malformed (buf : list u8) : outcome unit :=
  o ← validate_ipv4_header buf; assert (negb (is_some o)).

Definition test_validate_rejects_malformed_headers : outcome unit :=
  _ ← assert_malformed [];
  _ ← assert_malformed (replicate 19 (u8_of 0));
  _ ← assert_malformed (map u8_of [64; 0; 0; 0]);
  _ ← assert_malformed (replicate 19 (u8_of 69));
  _ ← assert_malformed (replicate 20 (u8_of 64));
  _ ← assert_malformed (replicate 20 (u8_of 96));
  let short := <[0%nat := u8_of 79]> (replicate 28 (u8_of 0)) in
  _ ← assert_malformed short;
  o ← validate_ipv4_header (replicate 20 (u8_of 69));
  assert (bool_decide (o = Some 20%nat)).

(** The three entry points of the parsing path, whose answers are dropped. *)
Definition exercise (buf : list u8) : outcome unit :=
  _ ← is_already_relayed buf;
  _ ← extract_packet_info buf;
  _ ← apply_nat buf NatOptions_default (Ipv4Addr_new 10 0 0 255);
  Ret tt.

Fixpoint exercise_all (bufs : list (list u8)) : outcome unit :=
  match bufs with
  | [] => Ret tt
  | buf :: bufs => _ ← exercise buf; exercise_all bufs
  end.

(** The linear congruential generator. *)
Definition lcg (state : Z) : Z := (state * 1664525 + 1013904223) mod 2 ^ 32.

Fixpoint random_bytes (n : nat) (state : Z) : list u8 * Z :=
  match n with
  | O => ([], state)
  | S n =>
      let state := lcg state in
      let '(bs, state') := random_bytes n state in
      (u8_of (Z.shiftr state 16) :: bs, state')
  end.

Fixpoint fuzz_random (n : nat) (state : Z) : outcome unit :=
  match n with
  | O => Ret tt
  | S n =>
      let state := lcg state in
      let '(buf, state) := random_bytes (Z.to_nat (state mod 80)) state in
      _ ← exercise buf;
      fuzz_random n state
  end.

Definition fuzz_parsing_path_never_panics : outcome unit :=
  valid ← build_udp (Ipv4Addr_new 192 168 1 1) (Ipv4Addr_new 255 255 255 255);
  _ ← exercise_all (map (fun len => take len valid) (seq 0 (S (length valid))));
  _ ← exercise_all
        (size ← [0; 1; 4; 20; 28; 40; 64]%nat;
         ihl ← seqZ 0 16;
         [match replicate size (u8_of 51) with
          | [] => []
          | _ :: buf => u8_of (Z.lor (Z.shiftl 4 4) ihl) :: buf
          end]);
  fuzz_random (Z.to_nat 5000) 305419896.

(** ** [nat.rs] *)

Definition build_packet (ttl ip_id udp_cksum : Z) : outcome (list u8) :=
  let payload := map u8_of (lit "hello") in
  let buf := replicate (20 + 8 + length payload) (u8_of 0) in
  ip ← unwrap (Ipv4Packet_new buf);
  let ip := set_version ip 4 in
  let ip := set_header_length ip 5 in
  let ip := set_total_length ip (Z.of_nat (20 + 8 + length payload)) in
  let ip := set_identification ip ip_id in
  let ip := set_ttl ip ttl in
  let ip := set_next_level_protocol ip IpNextHeaderProtocols_Udp in
  let ip := set_source ip (Ipv4Addr_new 192 168 1 50) in
  let buf := set_destination ip (Ipv4Addr_new 255 255 255 255) in
  tail ← slice_from 20 buf;
  udp ← unwrap (UdpPacket_new tail);
  let udp := udp_set_source udp 1234 in
  let udp := udp_set_destination udp 5353 in
  let udp := udp_set_length udp (Z.of_nat (8 + length payload)) in
  let udp := udp_set_checksum udp udp_cksum in
  let udp := udp_set_payload udp payload in
  Ret (put 20 udp buf).

Definition relayed_packet_carries_loop_marker : outcome unit :=
  buf ← build_packet 64 4369 39321;
  '(res, buf) ← apply_nat buf NatOptions_default (Ipv4Addr_new 255 255 255 255);
  _ ← expect_ok res;
  ip ← unwrap (Ipv4Packet_new buf);
  _ ← assert (get_ttl ip =? 1);
  _ ← assert (get_identification ip =? RELAY_MARKER_IP_ID);
  other ← build_packet 1 RELAY_MARKER_IP_ID 0;
  relayed ← is_already_relayed other;
  _ ← assert relayed;
  relayed ← is_already_relayed buf;
  assert relayed.

Definition relayed_packet_has_valid_udp_checksum : outcome unit :=
  buf ← build_packet 64 4369 0;
  let src := Ipv4Addr_new 192 168 1 50 in
  let dst := Ipv4Addr_new 255 255 255 255 in
  '(res, buf) ← apply_nat buf NatOptions_default dst;
  _ ← expect_ok res;
  tail ← slice_from 20 buf;
  udp ← unwrap (UdpPacket_new tail);
  _ ← assert (negb (udp_get_checksum udp =? 0));
  assert (udp_get_checksum udp =? udp_ipv4_checksum udp src dst).

Definition legit_ttl1_zero_checksum_is_not_treated_as_relayed : outcome unit :=
  buf ← build_packet 1 4369 0;
  relayed ← is_already_relayed buf;
  assert (negb relayed).
End tests.

(** ** [socket.rs] *)

Definition pkt_with_dst (dst : list Z) : outcome (list u8) :=
  let buf := replicate 20 (u8_of 0) in
  Ret (put 16 (map u8_of dst) buf).

Definition assert_mac (data : list u8) (mac : list Z) : outcome unit :=
  m ← dest_mac data; assert (bool_decide (m = map u8_of mac)).

Definition multicast_maps_to_01005e_mac : outcome unit :=
  mdns ← pkt_with_dst [224; 0; 0; 251];
  _ ← assert_mac mdns [1; 0; 94; 0; 0; 251; 0; 0];
  ssdp ← pkt_with_dst [239; 255; 255; 250];
  assert_mac ssdp [1; 0; 94; 127; 255; 250; 0; 0].

Definition broadcast_uses_all_ones_mac : outcome unit :=
  let bcast := [255; 255; 255; 255; 255; 255; 0; 0] in
  limited ← pkt_with_dst [255; 255; 255; 255];
  _ ← assert_mac limited bcast;
  directed ← pkt_with_dst [192; 168; 1; 255];
  assert_mac directed bcast.

Definition short_buffer_falls_back_to_broadcast : outcome unit :=
  assert_mac (replicate 10 (u8_of 0)) [255; 255; 255; 255; 255; 255; 0; 0].

(** ** [ratelimit.rs]: the limiter reads the clock *)

Definition allows_up_to_burst_then_blocks : prog unit :=
  rl ← RateLimiter_new 0 3;
  '(b, rl) ← allow rl; _ ← lift (assert b);
  '(b, rl) ← allow rl; _ ← lift (assert b);
  '(b, rl) ← allow rl; _ ← lift (assert b);
  '(b, rl) ← allow rl; lift (assert (negb b)).

Definition burst_floors_at_one : prog unit :=
  rl ← RateLimiter_new 0 0;
  '(b, rl) ← allow rl; _ ← lift (assert b);
  '(b, rl) ← allow rl; lift (assert (negb b)).

(** ** [relay.rs] *)

Definition BCAST_A : Ipv4Addr := Ipv4Addr_new 192 168 1 255.
Definition LIMITED : Ipv4Addr := Ipv4Addr_new 255 255 255 255.
Definition MCAST : Ipv4Addr := Ipv4Addr_new 224 0 0 251.

Definition never_echoes_back_to_ingress_interface : outcome unit :=
  _ ← assert (negb (should_relay_to LIMITED (lit "eth0") (lit "eth0") [BCAST_A]));
  _ ← assert (negb (should_relay_to MCAST (lit "eth0") (lit "eth0") [BCAST_A]));
  assert (negb (should_relay_to BCAST_A (lit "eth0") (lit "eth0") [BCAST_A])).

Definition relays_broadcast_and_multicast_to_other_interfaces : outcome unit :=
  _ ← assert (should_relay_to LIMITED (lit "eth0") (lit "eth1") [BCAST_A]);
  assert (should_relay_to MCAST (lit "eth0") (lit "eth1") [BCAST_A]).

Definition directed_broadcast_only_to_matching_subnet : outcome unit :=
  _ ← assert (should_relay_to BCAST_A (lit "eth0") (lit "eth1") [BCAST_A]);
  assert (negb (should_relay_to BCAST_A (lit "eth0") (lit "eth2") [Ipv4Addr_new 10 0 0 255])).

Definition directed_broadcast_matches_any_subnet_on_multihomed_iface : outcome unit :=
  let bcasts := [Ipv4Addr_new 10 0 0 255; Ipv4Addr_new 172 16 0 255] in
  _ ← assert (should_relay_to (Ipv4Addr_new 10 0 0 255) (lit "eth0") (lit "eth1") bcasts);
  _ ← assert (should_relay_to (Ipv4Addr_new 172 16 0 255) (lit "eth0") (lit "eth1") bcasts);
  assert (negb (should_relay_to (Ipv4Addr_new 192 168 0 255) (lit "eth0") (lit "eth1") bcasts)).

Definition bidirectional_config_does_not_loop : outcome unit :=
  _ ← assert (negb (should_relay_to LIMITED (lit "eth0") (lit "eth0") [BCAST_A]));
  assert (should_relay_to LIMITED (lit "eth0") (lit "eth1") [BCAST_A]).

Definition nat_target_keeps_matching_directed_broadcast : outcome unit :=
  let bcasts := [Ipv4Addr_new 10 0 0 255; Ipv4Addr_new 172 16 0 255] in
  _ ← assert (bool_decide (nat_rewrite_target (Ipv4Addr_new 172 16 0 255) bcasts
                           = Ipv4Addr_new 172 16 0 255));
  assert (bool_decide (nat_rewrite_target LIMITED bcasts = Ipv4Addr_new 10 0 0 255)).

(** ** They pass *)

#[local] Existing Instance ref_pnet.
#[local] Existing Instance ref_build.
#[local] Existing Instance ref_pnet_laws.

(** The tests that compute. *)
Definition pure_tests : list (outcome unit) := [
  test_parse_simple_allow_rule; test_tcp_protocol_rejected; test_parse_with_nat;
  test_misspelled_nat_option_rejected; test_invalid_nat_value_rejected;
  test_nat_on_deny_rule_rejected; test_inverted_port_range_rejected; test_ip_matcher_cidr;
  test_port_matcher_range;
  test_is_broadcast; test_rejects_multicast_source; test_rejects_broadcast_source;
  test_accepts_unicast_source; test_rejects_truncated_packet;
  test_validate_rejects_malformed_headers;
  relayed_packet_carries_loop_marker; relayed_packet_has_valid_udp_checksum;
  legit_ttl1_zero_checksum_is_not_treated_as_relayed;
  multicast_maps_to_01005e_mac; broadcast_uses_all_ones_mac; short_buffer_falls_back_to_broadcast;
  never_echoes_back_to_ingress_interface; relays_broadcast_and_multicast_to_other_interfaces;
  directed_broadcast_only_to_matching_subnet;
  directed_broadcast_matches_any_subnet_on_multihomed_iface; bidirectional_config_does_not_loop;
  nat_target_keeps_matching_directed_broadcast
].

Lemma pure_tests_pass : Forall (eq (Ret tt)) pure_tests.
Proof. repeat constructor. Qed.

(** The parsing path never panics, whatever the buffer: the theorems on its functions say so,
    and no buffer needs to be computed with. *)
Lemma exercise_passes {P : Pnet} {L : PnetLaws P} buf : exercise buf = Ret tt.
Proof.
  unfold exercise. rewrite is_already_relayed_eq. run.
  destruct (extract_packet_info_total buf) as (o & -> & _). run. by rewrite apply_nat_total.
Qed.

Lemma exercise_all_passes {P : Pnet} {L : PnetLaws P} bufs : exercise_all bufs = Ret tt.
Proof. induction bufs as [|buf bufs IH]; [done |]. cbn [exercise_all]. by rewrite exercise_passes. Qed.

Lemma fuzz_random_passes {P : Pnet} {L : PnetLaws P} n state : fuzz_random n state = Ret tt.
Proof.
  revert state. induction n as [|n IH]; intros state; [done |]. cbn [fuzz_random].
  destruct (random_bytes _ _) as [buf state']. rewrite exercise_passes. apply IH.
Qed.

Lemma fuzz_passes : fuzz_parsing_path_never_panics = Ret tt.
Proof.
  unfold fuzz_parsing_path_never_panics.
  assert (exists valid, build_udp (Ipv4Addr_new 192 168 1 1) (Ipv4Addr_new 255 255 255 255) = Ret valid)
    as [valid ->] by (eexists; vm_compute; reflexivity).
  cbn [mbind outcome_bind]. rewrite !exercise_all_passes. apply fuzz_random_passes.
Qed.

(** The example files are there when the tests read them. *)
Definition shipped (dir : str) (e : event) : Prop :=
  match e with @Ev X op x =>
    match op in sysop X return X -> Prop with
    | Read_to_string path => fun x =>
        (path = dir ++ lit "/" ++ lit "examples/sample.conf" -> x = Ok sample_conf)
        /\ (path = dir ++ lit "/" ++ lit "examples/test.conf" -> x = Ok test_conf)
    | _ => fun _ => True
    end x
  end.

Lemma from_file_Ok {E} path content : from_file path (@Ok E _ content) = parse content.
Proof. reflexivity. Qed.

Lemma example_configs_pass dir t o :
  Forall (shipped dir) t -> exec (example_configs_parse dir) t o -> o = Ret tt.
Proof.
  intros Hs (x & t1 & -> & H). apply Forall_cons_1 in Hs as [[Hx _] Hs]. rewrite (Hx eq_refl) in H.
  cbn [mbind prog_bind_inst prog_bind] in H. rewrite from_file_Ok, sample_conf_loads in H.
  destruct H as (y & t2 & -> & H). apply Forall_cons_1 in Hs as [[_ Hy] Hs]. rewrite (Hy eq_refl) in H.
  cbn [mbind prog_bind_inst prog_bind] in H. rewrite from_file_Ok, test_conf_loads in H.
  by destruct H as [_ ->].
Qed.

Lemma exec_allow {A} rl (f : bool * RateLimiter -> prog A) t o :
  exec (allow rl ≫= f) t o <->
  exists now t', t = Ev Instant_now now :: t' /\ exec (f (allow_at rl now)) t' o.
Proof. done. Qed.

Lemma instants_ok_cons now t :
  Forall instant_ok (instants (Ev Instant_now now :: t)) -> instant_ok now /\ Forall instant_ok (instants t).
Proof. apply Forall_cons_1. Qed.

(** A limiter that is not refilled, asked one question at a time. *)
Lemma no_refill_step B n rl now :
  limiter_ok 0 B rl (Z.of_nat n * one) -> instant_ok now ->
  exists rl', allow_at rl now = (negb (n =? 0)%nat, rl') /\ limiter_ok 0 B rl' (Z.of_nat (n - 1) * one).
Proof.
  intros Hok Hnow. destruct (allow_at rl now) as [b rl'] eqn:E. exists rl'.
  destruct (allow_at_ok _ _ _ _ _ _ _ Hok Hnow E) as (t' & Hok' & _ & _ & _ & _ & Hzero).
  destruct (Hzero eq_refl) as [Ht ->]. pose proof one_pos. destruct n as [|n]; cbn [Nat.eqb negb].
  - rewrite (proj2 (Z.leb_gt _ _)) in * by lia. cbn [spent] in Ht. split; [done |].
    by replace (Z.of_nat (0 - 1) * one) with t' by lia.
  - rewrite (proj2 (Z.leb_le _ _)) in * by lia. cbn [spent] in Ht. split; [done |].
    by replace (Z.of_nat (S n - 1) * one) with t' by lia.
Qed.

(** Take a question off an execution, and the answer from [no_refill_step]. *)
Ltac next_question :=
  match goal with
  | H : exec (allow _ ≫= _) ?t _, Hn : Forall instant_ok (instants ?t), Hok : limiter_ok _ _ _ _ |- _ =>
      let Hnow := fresh in let Ha := fresh in let Hok' := fresh in
      apply exec_allow in H as (? & ? & -> & H);
      apply instants_ok_cons in Hn as [Hnow Hn];
      destruct (no_refill_step _ _ _ _ Hok Hnow) as (? & Ha & Hok'); rewrite Ha in H;
      clear Ha Hok; cbn [Nat.eqb Nat.sub negb] in H;
      try (apply (exec_lift_bind _ _ _ _ tt eq_refl) in H); cbn beta in H
  end.

Lemma allows_up_to_burst_passes t o :
  Forall instant_ok (instants t) -> exec allows_up_to_burst_then_blocks t o -> o = Ret tt.
Proof.
  intros Hn (now0 & t0 & -> & H). apply instants_ok_cons in Hn as [Hn0 Hn].
  pose proof (new_at_ok 0 3 now0 ltac:(lia) ltac:(lia) Hn0) as Hok.
  cbn [prog_bind_inst prog_bind] in H. change (Z.max 3 1 * one) with (Z.of_nat 3 * one) in Hok.
  do 4 next_question. by destruct H as [_ ->].
Qed.

Lemma burst_floors_passes t o :
  Forall instant_ok (instants t) -> exec burst_floors_at_one t o -> o = Ret tt.
Proof.
  intros Hn (now0 & t0 & -> & H). apply instants_ok_cons in Hn as [Hn0 Hn].
  pose proof (new_at_ok 0 0 now0 ltac:(lia) ltac:(lia) Hn0) as Hok.
  cbn [prog_bind_inst prog_bind] in H. change (Z.max 0 1 * one) with (Z.of_nat 1 * one) in Hok.
  do 2 next_question. by destruct H as [_ ->].
Qed.
