(* ===== verification/RelayCalls.v ===== *)
(** * The calls of the relay loop

    Which calls the loop makes, whatever the world answers: it prints in verbose mode only, a
    print that fails ends it, and it asks the clock at most once per packet, before it prints
    anything about that packet. *)

From S2P Require Import Prelude Bytes RustStr Config Filter Checksum Pnet Packet NatRewrite.
From S2P Require Import Sys FdSet Abort Error Logging Socket RateLimit Relay.

(** Calls the loop may make; [v] is whether it is verbose. *)
Definition loop_call (v : bool) (e : event) : bool :=
  match e with @Ev _ op _ =>
    match op with
    | Select _ _ | Read _ _ | Sendto _ _ _ | Instant_now => true
    | Println _ | Eprintln _ => v
    | _ => false
    end
  end.

Section loop.
Context {P : Pnet} {F : FdSets} (errno_text : Errno -> str) (r : Relay).

Let allowed (e : event) : Prop := loop_call (verbose r) e = true.

Lemma when_verbose_only op :
  (forall x, loop_call true (Ev op x) = true) -> only True allowed (when_verbose r (print op)).
Proof using.
  intros H. unfold when_verbose, allowed. destruct (verbose r); [by apply only_print | done].
Qed.

Hint Extern 1 (only True _ (when_verbose _ _)) => apply when_verbose_only; done : bcr.

Lemma relay_to_only in_sock info rule rb len sb out :
  only True allowed (relay_to errno_text r in_sock info rule rb len sb out).
Proof using. unfold relay_to, send, log_relay. repeat only_step. Qed.

Lemma relay_to_all_only in_sock info rule rb len sb outs :
  only True allowed (relay_to_all errno_text r in_sock info rule rb len sb outs).
Proof using.
  revert sb. induction outs; intros sb; cbn [relay_to_all]; [done |].
  apply only_bind; [apply relay_to_only | done].
Qed.

Lemma relay_from_only st s : only True allowed (relay_from errno_text r st s).
Proof using.
  unfold relay_from, recv, log_filtered, rate_check, allow.
  repeat (only_step || apply relay_to_all_only).
Qed.

Lemma relay_from_ready_only ready st socks :
  only True allowed (relay_from_ready errno_text r ready st socks).
Proof using.
  revert st. induction socks; intros st; cbn [relay_from_ready]; [done |].
  repeat (only_step || apply relay_from_only || done).
Qed.

Lemma run_only n : only True allowed (run errno_text r n).
Proof using.
  unfold run. generalize (initial r). induction n as [|n IH]; intros st; cbn [rounds]; [done |].
  apply only_tryp; [| done]. unfold round, pnix.
  repeat (only_step || apply relay_from_ready_only).
Qed.

(** ** Prints *)

Lemma when_verbose_aborts c op :
  (forall x, print_of (Ev op x) = Some x) -> aborts c (when_verbose r (print op)).
Proof using. intros. unfold when_verbose. destruct (verbose r); [by apply aborts_print | done]. Qed.

Hint Extern 1 (aborts _ (when_verbose _ _)) => apply when_verbose_aborts; done : bcr.

Lemma relay_to_aborts in_sock info rule rb len sb out :
  aborts True (relay_to errno_text r in_sock info rule rb len sb out).
Proof using. unfold relay_to, send, log_relay. repeat abort_step. Qed.

Lemma relay_to_all_aborts in_sock info rule rb len sb outs :
  aborts True (relay_to_all errno_text r in_sock info rule rb len sb outs).
Proof using.
  revert sb. induction outs; intros sb; cbn [relay_to_all]; [done |].
  apply aborts_bind; [apply relay_to_aborts | done].
Qed.

Lemma relay_from_aborts st s : aborts True (relay_from errno_text r st s).
Proof using.
  unfold relay_from, recv, log_filtered, rate_check, allow.
  repeat (abort_step || apply relay_to_all_aborts).
Qed.

Lemma relay_from_ready_aborts ready st socks :
  aborts True (relay_from_ready errno_text r ready st socks).
Proof using.
  revert st. induction socks; intros st; cbn [relay_from_ready]; [done |].
  repeat (abort_step || apply relay_from_aborts || done).
Qed.

Lemma run_aborts n : aborts True (run errno_text r n).
Proof using.
  unfold run. generalize (initial r). induction n as [|n IH]; intros st; cbn [rounds]; [done |].
  apply aborts_tryp; [| done]. unfold round, pnix.
  repeat (abort_step || apply relay_from_ready_aborts).
Qed.

(** ** The clock *)

Lemma when_verbose_clockless op :
  (forall x, instant_of (Ev op x) = None) -> clockless (when_verbose r (print op)).
Proof using. intros H. unfold when_verbose. destruct (verbose r); [by apply clockless_print | done]. Qed.

Lemma when_verbose_settled op : settled (when_verbose r (print op)).
Proof using. unfold when_verbose. destruct (verbose r); [apply settled_print | done]. Qed.

Hint Resolve when_verbose_settled : bcr.

Hint Extern 1 (clockless (when_verbose _ _)) => apply when_verbose_clockless; done : bcr.

Lemma relay_to_clockless in_sock info rule rb len sb out :
  clockless (relay_to errno_text r in_sock info rule rb len sb out).
Proof using. unfold relay_to, send, log_relay. repeat clock_step. Qed.

Lemma relay_to_all_clockless in_sock info rule rb len sb outs :
  clockless (relay_to_all errno_text r in_sock info rule rb len sb outs).
Proof using.
  revert sb. induction outs; intros sb; cbn [relay_to_all]; [done |].
  apply clockless_bind; [apply relay_to_clockless | done].
Qed.

Hint Resolve relay_to_clockless relay_to_all_clockless : bcr.

Lemma relay_to_settled in_sock info rule rb len sb out :
  settled (relay_to errno_text r in_sock info rule rb len sb out).
Proof using. unfold relay_to, send, log_relay. repeat settled_step. Qed.

Lemma relay_to_all_settled in_sock info rule rb len sb outs :
  settled (relay_to_all errno_text r in_sock info rule rb len sb outs).
Proof using.
  revert sb. induction outs; intros sb; cbn [relay_to_all]; [done |].
  apply settled_bind; [apply relay_to_settled | done | intros; apply relay_to_all_clockless].
Qed.

Hint Resolve relay_to_all_settled : bcr.

Lemma relay_from_settled st s : settled (relay_from errno_text r st s).
Proof using. unfold relay_from, recv, log_filtered, rate_check, allow. repeat settled_step. Qed.

(** The clock is asked for packets only. *)
Lemma relay_from_clockless st s : clockless (relay_from errno_text r st s).
Proof using.
  intros [bs|e]; (split; [done |]); [done | intros _].
  change (clockless (_ ← when_verbose r (eprintln (lit "Recv error on " ++ ifname s ++ lit ": " ++ errno_text e));
                     Done st)).
  repeat clock_step.
Qed.

Hint Resolve relay_from_settled relay_from_clockless : bcr.

Lemma relay_from_ready_clockless ready st socks :
  clockless (relay_from_ready errno_text r ready st socks).
Proof using. revert st. induction socks; intros st; cbn [relay_from_ready]; repeat clock_step. Qed.

Lemma relay_from_ready_settled ready st socks :
  settled (relay_from_ready errno_text r ready st socks).
Proof using.
  revert st. induction socks; intros st; cbn [relay_from_ready]; [done |].
  repeat (settled_step || apply relay_from_ready_clockless).
Qed.

Hint Resolve relay_from_ready_clockless relay_from_ready_settled : bcr.

Lemma rounds_clockless n st : clockless (rounds errno_text r n st).
Proof using.
  revert st. induction n as [|n IH]; intros st; cbn [rounds]; unfold round, pnix; repeat clock_step.
Qed.

Lemma run_settled n : settled (run errno_text r n).
Proof using.
  unfold run. generalize (initial r). induction n as [|n IH]; intros st; cbn [rounds]; [done |].
  unfold round, pnix, tryp. repeat (settled_step || apply rounds_clockless).
Qed.
End loop.
