(* ===== verification/RelaySpec.v ===== *)
(** * The relay loop refines its specification

    An abstract relay, without buffers, indices or error branches: which packets are accepted,
    what is sent for them, and the steps it takes.  What is observed of an execution of
    [Relay.run] are steps of it. *)

From S2P Require Import Prelude Bytes RustStr Config ConfigMatch Filter Checksum Pnet Packet NatRewrite.
From S2P Require Import Sys FdSet Abort Error Logging Socket RateLimit Relay RelayCalls.

(** ** What is observed of a trace *)

(** A packet handed to the kernel: descriptor, bytes, link address. *)
Definition sent : Type := Z * list u8 * sockaddr_ll.

Definition send_of (e : event) : option sent :=
  match e with @Ev _ op _ =>
    match op with Sendto fd data addr => Some (fd, data, addr) | _ => None end
  end.

Definition sends (t : list event) : list sent := omap send_of t.

(** What is observed: an event that brings something in (readiness, packets, time), with its
    answer, or a packet that goes out, whatever the kernel answers. *)
Inductive obs :=
  | In (e : event)
  | Out (s : sent).

Definition obs_of (e : event) : option obs :=
  match e with @Ev _ op _ =>
    match op with
    | Select _ _ | Read _ _ | Instant_now => Some (In e)
    | Sendto fd data addr => Some (Out (fd, data, addr))
    | _ => None
    end
  end.

Definition observe (t : list event) : list obs := omap obs_of t.

(** The packets that go out in an observation. *)
Definition outputs (l : list obs) : list sent :=
  omap (fun x => match x with Out s => Some s | In _ => None end) l.

Lemma observe_app t1 t2 : observe (t1 ++ t2) = observe t1 ++ observe t2.
Proof. apply omap_app. Qed.

Lemma sends_app t1 t2 : sends (t1 ++ t2) = sends t1 ++ sends t2.
Proof. apply omap_app. Qed.

Lemma outputs_app l1 l2 : outputs (l1 ++ l2) = outputs l1 ++ outputs l2.
Proof. apply omap_app. Qed.

Lemma outputs_observe t : outputs (observe t) = sends t.
Proof.
  unfold outputs, observe, sends. induction t as [|[X op x] t IH]; [done |].
  cbn [omap list_omap]. destruct op; cbn; by rewrite IH.
Qed.

Lemma outputs_out l : outputs (map Out l) = l.
Proof. unfold outputs. induction l as [|s l IH]; [done |]. cbn. by f_equal. Qed.

(** What is observed without a packet or a time coming in. *)
Definition idle (x : obs) : Prop :=
  match x with
  | Out _ => True
  | In (@Ev X op x) =>
      match op in sysop X return X -> Prop with
      | Select _ _ => fun answer => is_ok answer = false
      | Read _ _ => fun answer => is_ok answer = false
      | _ => fun _ => False
      end x
  end.

(** A run that a failed print ends is observed as the beginning of a run in calm worlds, where
    nothing more comes in. *)
Lemma exec_or_killed {A} c (p : prog A) t o :
  aborts c p -> settled p -> world_ok t -> exec p t o ->
  (calm t /\ (o = Panic -> c))
  \/ (o = Panic /\ killed t /\ exists t' o' l, exec p t' o' /\ calm t' /\ observe t' = observe t ++ l
                               /\ Forall idle l).
Proof.
  intros Hp Hs Hw He. destruct (aborts_exec _ _ _ _ Hp He) as [[Hc Hpanic]|[-> Hk]].
  { left. split; [| done]. apply List.Forall_and; [exact Hw | exact Hc]. }
  right. split_and!; [done | done |]. destruct Hk as (t0 & e & -> & Hfail & Hc0).
  apply world_ok_app in Hw as [Hw0 _].
  destruct (exec_goes_on (Err 0) 0 _ _ _ _ He Hfail) as (t1 & o1 & He1 & Ht1).
  exists (t0 ++ printed_after_all e :: t1), o1, (observe t1).
  assert (Forall (fun e => packet_of e = false) t1) as Hnp.
  { eapply List.Forall_impl; [| exact Ht1]. intros [X op x] H. destruct op; try done. cbn in H. by subst. }
  assert (print_of (printed_after_all e) <> None) as Hpr by (destruct e as [X op x]; by destruct op).
  pose proof (settled_exec _ _ _ _ _ Hs He1 Hpr Hnp) as Hi.
  split_and!; [done | | |].
  - apply calm_app. split; [by apply List.Forall_and |]. constructor; [by apply printed_after_all_calm |].
    apply (List.Forall_impl _ (answered_calm _ _) Ht1).
  - rewrite !observe_app. destruct e as [X op x]; destruct op; try done; cbn; by rewrite app_nil_r.
  - clear -Ht1 Hi. unfold observe. induction Ht1 as [|[X op x] t1 He _ IH]; [constructor |].
    unfold instants in Hi. cbn [omap list_omap] in *. destruct op; cbn in *; subst; try (by apply IH).
    1, 2, 3: constructor; [done | by apply IH].
    done.
Qed.

(** ** The abstract relay *)

(** The packets the relay forwards, with the fields and the rule that decide how. *)
Definition accepted (f : Filter) (pkt : list u8) (info : PacketInfo) (rule : Rule) : Prop :=
  ~ marked pkt /\ relayable pkt info /\ find_match (config f) info = Some rule
  /\ action rule = Allow.

Section spec.
Context {P : Pnet}.
Context (r : Relay).

Definition eligible (in_sock : PacketSocket) (dst : Ipv4Addr) (out : PacketSocket) : bool :=
  should_relay_to dst (ifname in_sock) (ifname out) (broadcast_addrs out).

Definition forward (pkt : list u8) (info : PacketInfo) (rule : Rule) (out : PacketSocket) : sent :=
  let frame := rewritten (rule_nat rule) (nat_rewrite_target (pkt_dst_ip info) (broadcast_addrs out)) pkt in
  (fd out, frame, send_address out (ethernet_dest frame)).

Definition forwards (in_sock : PacketSocket) (pkt : list u8) (info : PacketInfo) (rule : Rule)
    (outs : list PacketSocket) : list sent :=
  map (forward pkt info rule) (List.filter (eligible in_sock (pkt_dst_ip info)) outs).

(** One packet: the limiter before, what is observed, the limiter after. *)
Inductive packet_step (in_sock : PacketSocket) :
    option RateLimiter -> list obs -> option RateLimiter -> Prop :=
  | step_recv_error lim e :
      packet_step in_sock lim [In (Ev (Read (fd in_sock) buf_size) (Err e))] lim
  | step_drop lim pkt :
      (forall info rule, ~ accepted (filter r) pkt info rule) ->
      packet_step in_sock lim [In (Ev (Read (fd in_sock) buf_size) (Ok pkt))] lim
  | step_forward pkt info rule :
      accepted (filter r) pkt info rule ->
      packet_step in_sock None
        (In (Ev (Read (fd in_sock) buf_size) (Ok pkt))
         :: map Out (forwards in_sock pkt info rule (output_sockets r)))
        None
  | step_rated rl now rl' pkt info rule admitted :
      accepted (filter r) pkt info rule ->
      allow_at rl now = (admitted, rl') ->
      packet_step in_sock (Some rl)
        (In (Ev (Read (fd in_sock) buf_size) (Ok pkt)) :: In (Ev Instant_now now)
         :: map Out (if admitted then forwards in_sock pkt info rule (output_sockets r) else []))
        (Some rl').

(** One turn over the sockets the kernel reports ready, in the order of the command line. *)
Inductive sockets_step : list PacketSocket ->
    option RateLimiter -> list obs -> option RateLimiter -> Prop :=
  | sockets_nil lim : sockets_step [] lim [] lim
  | sockets_cons s socks lim l1 lim1 l2 lim2 :
      packet_step s lim l1 lim1 ->
      sockets_step socks lim1 l2 lim2 ->
      sockets_step (s :: socks) lim (l1 ++ l2) lim2.

Definition ready_sockets (ready : list Z) (socks : list PacketSocket) : list PacketSocket :=
  List.filter (fun s => bool_decide (fd s ∈ ready)) socks.

Definition select_op : sysop (result Errno (Z * list Z)) :=
  Select (map fd (input_sockets r)) 3.

(** The turns of the loop, until it is left by a failing [select] (the last index). *)
Inductive relay_steps : nat ->
    option RateLimiter -> list obs -> option RateLimiter -> option Errno -> Prop :=
  | relay_stop lim : relay_steps 0 lim [] lim None
  | relay_select_error n lim e : relay_steps (S n) lim [In (Ev select_op (Err e))] lim (Some e)
  | relay_timeout n ready lim l lim' e :
      relay_steps n lim l lim' e ->
      relay_steps (S n) lim (In (Ev select_op (Ok (0, ready))) :: l) lim' e
  | relay_turn n count ready lim l1 lim1 l2 lim2 e :
      count <> 0 ->
      sockets_step (ready_sockets ready (input_sockets r)) lim l1 lim1 ->
      relay_steps n lim1 l2 lim2 e ->
      relay_steps (S n) lim (In (Ev select_op (Ok (count, ready))) :: l1 ++ l2) lim2 e.
End spec.

(** ** Lemmas on executions *)

Lemma take_put_0 bs buf : take (length bs) (put 0 bs buf) = bs.
Proof. unfold put. rewrite take_0, app_nil_l. apply take_app_length. Qed.

Lemma length_put_0 bs buf : (length bs <= length buf)%nat -> length (put 0 bs buf) = length buf.
Proof. intros. by apply length_put. Qed.

Lemma relayable_nat_ok pkt info : relayable pkt info -> nat_ok pkt.
Proof. intros []. split; [done | intros _; lia]. Qed.

(** A program whose executions end with [tt] and are not observed, when it can print. *)
Definition quiet (m : prog unit) : Prop :=
  forall t o, calm t -> exec m t o -> o = Ret tt /\ observe t = [].

Lemma quiet_log r op :
  (forall x, print_of (Ev op x) = Some x) -> (forall x, obs_of (Ev op x) = None) ->
  quiet (when_verbose r (print op)).
Proof.
  intros Hp Hop t o Hc. unfold when_verbose. destruct (verbose r); [| by intros [-> ->]].
  intros ([[]|e] & t' & -> & [-> ->]).
  - split; [done |]. unfold observe. cbn [omap list_omap]. by rewrite Hop.
  - apply Forall_cons_1 in Hc as [[_ Hc] _]. unfold print_failed in Hc. by rewrite Hp in Hc.
Qed.

Lemma exec_quiet {A} (m : prog unit) (f : unit -> prog A) t o :
  quiet m -> calm t -> exec (m ≫= f) t o ->
  exists t', exec (f tt) t' o /\ calm t' /\ observe t = observe t'.
Proof.
  intros Hm Hc [[H%Hm ->]|([] & t1 & t2 & H1 & H2 & ->)]%exec_bind; [by destruct H | done |].
  apply calm_app in Hc as [Hc1 Hc2]. apply Hm in H1 as [_ H1]; [| done].
  exists t2. by rewrite observe_app, H1.
Qed.

#[export] Hint Resolve quiet_log : bcr.
#[export] Hint Extern 1 (quiet (when_verbose _ _)) => apply quiet_log; reflexivity : bcr.

(** ** The fan-out *)

Section refinement.
Context {P : Pnet} {L : PnetLaws P} {F : FdSets} {FL : FdSetsLaws F}.
Context (errno_text : Errno -> str) (r : Relay).

(** Take the pure steps of an execution whose slices are known to be in range. *)
Ltac pure_step H :=
  repeat (rewrite ?slice_to_le, ?take_put_0 in H by fit;
          cbn [lift mbind prog_bind_inst prog_bind fst snd] in H).

Lemma relay_to_spec in_sock info rule recv_buf pkt send_buf out t o :
  relayable pkt info -> take (length pkt) recv_buf = pkt ->
  (length pkt <= length recv_buf)%nat -> (length pkt <= length send_buf)%nat -> calm t ->
  exec (relay_to errno_text r in_sock info rule recv_buf (length pkt) send_buf out) t o ->
  exists send_buf', o = Ret send_buf' /\ length send_buf' = length send_buf
    /\ observe t = if eligible in_sock (pkt_dst_ip info) out
                   then [Out (forward pkt info rule out)] else [].
Proof using L.
  intros Hrel Htake Hrecv Hsend Hc H. unfold relay_to in H. unfold eligible.
  destruct (should_relay_to _ _ _ _); cbn [negb] in H.
  2: { destruct H as [-> ->]. by exists send_buf. }
  pure_step H. rewrite Htake in H. pure_step H.
  pose proof (relayable_nat_ok _ _ Hrel) as Hok.
  rewrite apply_nat_total, decide_True in H by done. pure_step H.
  set (frame := rewritten _ _ pkt) in H.
  assert (length frame = length pkt) as Hlen by by apply length_rewritten.
  rewrite <- Hlen in H at 1. pure_step H.
  unfold send in H. rewrite dest_mac_eq in H. pure_step H.
  destruct H as (x & t' & -> & H). apply Forall_cons_1 in Hc as [_ Hc].
  apply exec_quiet in H as (t2 & [-> ->] & _ & Ho); [| destruct x; unfold log_relay; eauto with bcr | done].
  eexists. split_and!; [done | fit |]. unfold observe in *. cbn. by f_equal.
Qed.

Lemma relay_to_all_spec in_sock info rule recv_buf pkt outs send_buf t o :
  relayable pkt info -> take (length pkt) recv_buf = pkt ->
  (length pkt <= length recv_buf)%nat -> (length pkt <= length send_buf)%nat -> calm t ->
  exec (relay_to_all errno_text r in_sock info rule recv_buf (length pkt) send_buf outs) t o ->
  exists send_buf', o = Ret send_buf' /\ length send_buf' = length send_buf
    /\ observe t = map Out (forwards in_sock pkt info rule outs).
Proof using L.
  intros Hrel Htake Hrecv. revert send_buf t.
  induction outs as [|out outs IH]; intros send_buf t Hsend Hc; cbn [relay_to_all].
  { intros [-> ->]. by exists send_buf. }
  intros [[H ->]|(sb & t1 & t2 & H1 & H2 & ->)]%exec_bind.
  { apply (relay_to_spec _ _ _ _ pkt) in H as (? & [=] & _); done. }
  apply calm_app in Hc as [Hc1 Hc2].
  apply (relay_to_spec _ _ _ _ pkt) in H1 as (sb1 & [= ->] & Hl1 & Ho1); [| done..].
  apply IH in H2 as (sb2 & -> & Hl2 & Ho2); [| lia | done].
  exists sb2. rewrite observe_app, Ho1, Ho2. split_and!; [done | lia |].
  unfold forwards. cbn [List.filter]. by destruct (eligible _ _ out).
Qed.

(** ** A received packet *)

Definition bufs_ok (st : state) : Prop :=
  length (recv_buf st) = buf_size /\ length (send_buf st) = buf_size.

(** An execution that ends well, in a state from which the loop can go on, and whose
    observations are a step of the abstract relay. *)
Definition refines_step (step : option RateLimiter -> list obs -> option RateLimiter -> Prop)
    (st : state) (t : list event) (o : outcome state) : Prop :=
  exists st', o = Ret st' /\ bufs_ok st' /\ step (limiter st) (observe t) (limiter st').

Lemma accepted_iff pkt info rule :
  accepted (filter r) pkt info rule <->
  ~ marked pkt /\ relayable pkt info /\ should_relay (filter r) info = true
  /\ get_nat_rule (filter r) info = Some rule.
Proof using.
  unfold accepted, should_relay, get_nat_rule, option_filter.
  destruct (find_match _ _) as [rule'|]; [| naive_solver].
  destruct (bool_decide_reflect (action rule' = Allow)); naive_solver.
Qed.

Lemma relayable_unique pkt info info' : relayable pkt info -> relayable pkt info' -> info = info'.
Proof using. intros [] []. congruence. Qed.

Definition rate_inputs (l : option RateLimiter) (now : Z) : list event :=
  match l with None => [] | Some _ => [Ev Instant_now now] end.

Definition rate_answer (l : option RateLimiter) (now : Z) : bool * option RateLimiter :=
  match l with
  | None => (true, None)
  | Some rl => (fst (allow_at rl now), Some (snd (allow_at rl now)))
  end.

Lemma exec_rate_check {A} l (f : bool * option RateLimiter -> prog A) t o :
  exec (rate_check l ≫= f) t o ->
  exists now t', t = rate_inputs l now ++ t' /\ exec (f (rate_answer l now)) t' o.
Proof using.
  destruct l as [rl|]; cbn; [| by exists 0, t]. intros (now & t' & -> & H). by exists now, t'.
Qed.

(** The part of [relay_from] after a packet was read, the copy into the buffer included. *)
Lemma relay_packet_spec in_sock info lim rb sb pkt t o :
  length rb = buf_size -> length sb = buf_size -> (length pkt <= buf_size)%nat ->
  take (length pkt) rb = pkt ->
  ~ marked pkt -> relayable pkt info -> should_relay (filter r) info = true -> calm t ->
  exec (admitted ← rate_check lim;
        if negb (fst admitted) then
          _ ← when_verbose r (log_filtered (lit "rate limit") info);
          Done (mk_state rb sb (snd admitted))
        else
          nat_rule ← lift (unwrap (get_nat_rule (filter r) info));
          sb ← relay_to_all errno_text r in_sock info nat_rule rb (length pkt) sb (output_sockets r);
          Done (mk_state rb sb (snd admitted))) t o ->
  exists rule now st', accepted (filter r) pkt info rule /\ o = Ret st' /\ bufs_ok st'
    /\ limiter st' = snd (rate_answer lim now)
    /\ observe t = map In (rate_inputs lim now)
         ++ map Out (if fst (rate_answer lim now)
                     then forwards in_sock pkt info rule (output_sockets r) else []).
Proof using L.
  intros Hrb Hsb Hlen Htake Hm Hrel Hrelay Hc (now & t' & -> & H)%exec_rate_check.
  apply calm_app in Hc as [_ Hc].
  destruct (should_relay_rule _ _ Hrelay) as (rule & Hrule & _).
  assert (accepted (filter r) pkt info rule) as Hacc by by apply accepted_iff.
  assert (observe (rate_inputs lim now) = map In (rate_inputs lim now)) as Hin by by destruct lim.
  destruct (rate_answer lim now) as [admitted lim'] eqn:E. cbn [fst snd] in H.
  exists rule, now. rewrite observe_app, Hin, E. cbn [fst snd].
  destruct admitted; cbn [negb] in H.
  - rewrite Hrule in H. cbn [lift unwrap mbind prog_bind_inst prog_bind] in H.
    apply exec_bind in H as [[H _]|(sb' & t1 & t2 & H1 & [-> ->] & ->)].
    { apply (relay_to_all_spec _ _ _ _ pkt) in H as (? & [=] & _); by rewrite ?Hrb, ?Hsb. }
    apply calm_app in Hc as [Hc _].
    apply (relay_to_all_spec _ _ _ _ pkt) in H1 as (sb1 & [= ->] & Hl & Ho);
      [| by rewrite ?Hrb, ?Hsb ..].
    eexists. rewrite app_nil_r, Ho. split_and!; [done | done | split; cbn; congruence | done..].
  - apply exec_quiet in H as (t2 & [-> ->] & _ & Ho); [| unfold log_filtered; eauto with bcr | done].
    eexists. rewrite Ho. by split_and!.
Qed.

Lemma relay_from_spec in_sock st t o :
  bufs_ok st -> calm t -> exec (relay_from errno_text r st in_sock) t o ->
  refines_step (packet_step r in_sock) st t o.
Proof using L.
  intros [Hr Hs] Hw ([pkt|e] & t' & -> & H).
  2: { apply Forall_cons_1 in Hw as [_ Hw]. apply exec_quiet in H as (t2 & [-> ->] & _ & Ho); [| eauto with bcr | done].
       exists st. unfold observe in *. cbn. rewrite Ho, Hr. by split_and!; [| | constructor]. }
  apply Forall_cons_1 in Hw as [[Hlen _] Hw]. cbn in Hlen. rewrite Hr in Hlen.
  pure_step H. rewrite is_already_relayed_eq in H. pure_step H.
  set (rb := put 0 pkt (recv_buf st)) in H.
  assert (length rb = buf_size) as Hrb by (unfold rb; fit).
  assert (take (length pkt) rb = pkt) as Htake by apply take_put_0.
  rewrite Hr. unfold refines_step.
  assert (forall lim, limiter st = lim -> (forall info rule, ~ accepted (filter r) pkt info rule) ->
    observe t' = [] -> o = Ret (mk_state rb (send_buf st) lim) ->
    exists st', o = Ret st' /\ bufs_ok st'
      /\ packet_step r in_sock (limiter st) (observe (Ev (Read (fd in_sock) buf_size) (Ok pkt) :: t'))
           (limiter st')) as Hdrop.
  { intros lim <- Hna Ho ->. eexists. split_and!; [done.. |].
    unfold observe in *. cbn. rewrite Ho. by constructor. }
  case_bool_decide as Hm.
  { destruct H as [-> ->]. apply (Hdrop _ eq_refl); try done. by intros ? ? []. }
  destruct (extract_packet_info_total pkt) as (oi & Hoi & Hspec). rewrite Hoi in H. pure_step H.
  destruct oi as [info|].
  2: { destruct H as [-> ->]. apply (Hdrop _ eq_refl); try done.
       by intros info rule (_ & Hrel%Hspec & _). }
  pose proof (proj1 (Hspec info) eq_refl) as Hrel.
  destruct (should_relay (filter r) info) eqn:Hrelay; cbn [negb] in H.
  2: { apply exec_quiet in H as (t2 & [-> ->] & _ & Ho); [| unfold log_filtered; eauto with bcr | done].
       apply (Hdrop _ eq_refl); try done. intros info' rule (_ & Hrel' & Hsr & _)%accepted_iff.
       rewrite (relayable_unique _ _ _ Hrel' Hrel) in Hsr. congruence. }
  apply (relay_packet_spec _ _ _ _ _ pkt) in H as (rule & now & st' & Hacc & -> & Hok & Hlim & Ho);
    [| done ..].
  exists st'. split_and!; [done | done |]. unfold observe in *. cbn. rewrite Ho, Hlim.
  destruct (limiter st) as [rl|]; cbn; [| by constructor].
  eapply step_rated; [done |]. by destruct (allow_at rl now).
Qed.

(** A marked packet is dropped before anything can go wrong. *)
Lemma relay_from_marked in_sock st pkt t o :
  bufs_ok st -> marked pkt -> world_ok (Ev (Read (fd in_sock) buf_size) (Ok pkt) :: t) ->
  exec (relay_from errno_text r st in_sock) (Ev (Read (fd in_sock) buf_size) (Ok pkt) :: t) o ->
  t = [] /\ exists st', o = Ret st' /\ bufs_ok st' /\ limiter st' = limiter st.
Proof using L.
  intros [Hr Hs] Hm [Hlen _]%Forall_cons_1 (x & t' & Heq & H). cbn in Hlen.
  assert (x = Ok pkt) as ->
    by (pose proof (f_equal (fun l => head l ≫= read_of) Heq) as Hx; by injection Hx).
  assert (t' = t) as -> by (pose proof (f_equal tail Heq) as Ht; exact (eq_sym Ht)). clear Heq.
  pure_step H. rewrite is_already_relayed_eq in H. pure_step H. rewrite bool_decide_eq_true_2 in H by done.
  destruct H as [-> ->]. split; [done |]. eexists. split_and!; [done | split; cbn; fit | done].
Qed.

(** What a step does with a given packet. *)
Lemma packet_step_read in_sock lim fd n pkt l lim' :
  packet_step r in_sock lim (In (Ev (Read fd n) (Ok pkt)) :: l) lim' ->
  ((forall info rule, ~ accepted (filter r) pkt info rule) /\ lim' = lim /\ l = [])
  \/ exists info rule now, accepted (filter r) pkt info rule
       /\ lim' = snd (rate_answer lim now)
       /\ l = map In (rate_inputs lim now)
              ++ map Out (if fst (rate_answer lim now)
                          then forwards in_sock pkt info rule (output_sockets r) else []).
Proof using.
  intros H.
  remember (In (Ev (Read fd n) (Ok pkt)) :: l) as all eqn:Hall.
  assert (forall fd' n' a l', In (Ev (Read fd' n') a) :: l' = In (Ev (Read fd n) (Ok pkt)) :: l ->
            a = Ok pkt /\ l' = l) as Hinj.
  { intros fd' n' a l' Heq. split.
    - pose proof (f_equal (fun l => match l with In e :: _ => read_of e | _ => None end) Heq) as Ha.
      by injection Ha.
    - pose proof (f_equal tail Heq) as Hl. exact Hl. }
  destruct H as [lim e|lim pkt' Hno|pkt' info rule Hacc|rl now rl' pkt' info rule b Hacc Hb];
    apply Hinj in Hall as [[= ->] <-].
  - by left.
  - right. by exists info, rule, 0.
  - right. exists info, rule, now. cbn. rewrite Hb. by split_and!.
Qed.

(** ** Turns of the loop *)

Lemma relay_from_ready_spec ready socks st t o :
  Forall (fun s => selectable (fd s)) socks ->
  bufs_ok st -> calm t -> exec (relay_from_ready errno_text r ready st socks) t o ->
  refines_step (sockets_step r (ready_sockets ready socks)) st t o.
Proof using L FL.
  intros Hfd. revert st t. induction Hfd as [|s socks Hs _ IH]; intros st t Hok Hw; cbn [relay_from_ready].
  { intros [-> ->]. exists st. by split_and!; [| | constructor]. }
  rewrite FdSet_contains_law, decide_True by done. cbn [lift mbind prog_bind_inst prog_bind].
  unfold ready_sockets. cbn [List.filter]. case_bool_decide as Hin; [| by apply IH].
  intros [[H ->]|(st1 & t1 & t2 & H1 & H2 & ->)]%exec_bind.
  { by apply relay_from_spec in H as (? & [=] & _). }
  apply calm_app in Hw as [Hw1 Hw2].
  apply relay_from_spec in H1 as (st1' & [= <-] & Hok1 & Hs1); [| done..].
  apply IH in H2 as (st2 & -> & Hok2 & Hs2); [| done..].
  exists st2. rewrite observe_app. by split_and!; [| | econstructor].
Qed.

(** The descriptors [select] can wait for. *)
Definition watchable : Prop := Forall (fun s => selectable (fd s)) (input_sockets r).

Lemma insert_fds_spec set socks :
  insert_fds set socks
  = if decide (Forall (fun s => selectable (fd s)) socks) then Ret (set ++ map fd socks) else Panic.
Proof using FL.
  revert set. induction socks as [|s socks IH]; intros set; cbn [insert_fds map].
  { rewrite decide_True by done. by rewrite app_nil_r. }
  rewrite FdSet_insert_law. destruct (decide (selectable (fd s))) as [Hs|Hs].
  - cbn [mbind outcome_bind]. rewrite IH, <- app_assoc.
    destruct (decide (Forall _ socks)) as [H|H];
      [by rewrite decide_True by by constructor | by rewrite decide_False by by intros [_ ?]%Forall_cons_1].
  - by rewrite decide_False by by intros [? _]%Forall_cons_1.
Qed.

(** How [n] turns may end: still running, or left by an error of [select]. *)
Definition loop_end (o : outcome (result error state)) (lim' : option RateLimiter)
    (e : option Errno) : Prop :=
  match e with
  | None => exists st', o = Ret (Ok st') /\ bufs_ok st' /\ limiter st' = lim'
  | Some e => o = Ret (Err (Nix e))
  end.

Lemma round_cases st t o :
  watchable -> exec (round errno_text r st) t o ->
  (exists e, t = [Ev (select_op r) (Err e)] /\ o = Ret (Err (Nix e)))
  \/ (exists ready, t = [Ev (select_op r) (Ok (0, ready))] /\ o = Ret (Ok st))
  \/ exists count ready t', count <> 0 /\ t = Ev (select_op r) (Ok (count, ready)) :: t'
       /\ exec (st ← relay_from_ready errno_text r ready st (input_sockets r); Done (Ok st)) t' o.
Proof using FL.
  intros Hwatch. unfold round. rewrite insert_fds_spec, decide_True by done.
  cbn [lift mbind prog_bind_inst prog_bind app].
  intros [(e & -> & ->)|([count ready] & t' & -> & Ht)]%exec_pnix; [by left; eauto | right].
  cbn [fst snd] in Ht. destruct (count =? 0) eqn:E; unbool.
  - destruct Ht as [-> ->]. left. exists ready. by subst.
  - right. by exists count, ready, t'.
Qed.

Lemma rounds_spec n st t o :
  watchable -> bufs_ok st -> calm t -> exec (rounds errno_text r n st) t o ->
  exists lim' e, relay_steps r n (limiter st) (observe t) lim' e /\ loop_end o lim' e.
Proof using L FL.
  intros Hwatch. revert st t. induction n as [|n IH]; intros st t Hok Hw; cbn [rounds].
  { intros [-> ->]. exists (limiter st), None. split; [constructor |]. by exists st. }
  intros [[Hr ->]|[(e & Hr & ->)|(st1 & t1 & t2 & Hr & Hrest & ->)]]%exec_tryp.
  - apply (round_cases _ _ _ Hwatch) in Hr as [(? & _ & [=])|[(? & _ & [=])|(c & ready & t' & _ & -> & Hr)]].
    apply Forall_cons_1 in Hw as [_ Hw].
    apply exec_bind in Hr as [[Hr _]|(? & ? & ? & _ & [_ [=]] & _)].
    by apply relay_from_ready_spec in Hr as (? & [=] & _).
  - apply (round_cases _ _ _ Hwatch) in Hr as [(e' & -> & [= ->])|[(? & _ & [=])|(c & ready & t' & _ & -> & Hr)]].
    + exists (limiter st), (Some e'). split; [apply relay_select_error | done].
    + by apply exec_bind in Hr as [[_ [=]]|(? & ? & ? & _ & [_ [=]] & _)].
  - apply calm_app in Hw as [Hw1 Hw2].
    apply (round_cases _ _ _ Hwatch) in Hr as [(? & _ & [=])|[(ready & -> & [= ->])|(c & ready & t' & Hc & -> & Hr)]].
    + apply IH in Hrest as (lim' & e & Hs & He); [| done..].
      exists lim', e. split; [by apply relay_timeout with (ready := ready) | done].
    + apply Forall_cons_1 in Hw1 as [_ Hw1].
      apply exec_bind in Hr as [[_ [=]]|(st2 & t3 & t4 & Hr & [-> [= ->]] & ->)].
      rewrite app_nil_r in Hw1 |- *.
      apply relay_from_ready_spec in Hr as (st3 & [= <-] & Hok3 & Hs3); [| done..].
      apply IH in Hrest as (lim' & e & Hs & He); [| done..].
      exists lim', e. split; [| done].
      change ((?a :: ?b) ++ ?c) with (a :: (b ++ c)).
      unfold observe at 1. cbn. fold (observe (t3 ++ t2)). rewrite observe_app. by econstructor.
Qed.

Lemma initial_bufs_ok : bufs_ok (initial r).
Proof using. split; apply length_replicate. Qed.

(** ** Runs that a failed print ends *)

(** How the loop may panic: a descriptor that [select] cannot wait for, or, in verbose mode, a
    line that cannot be printed. *)
Definition died (t : list event) : Prop := ~ watchable \/ (verbose r = true /\ killed t).

Lemma killed_verbose (t : list event) :
  Forall (fun e => loop_call (verbose r) e = true) t -> killed t -> verbose r = true.
Proof using.
  intros Ht (t0 & e & -> & He & _). apply Forall_app in Ht as [_ Ht]. apply Forall_cons_1 in Ht as [Ht _].
  destruct e as [X op x]; by destruct op.
Qed.

(** A packet, whatever becomes of the prints: a step of the abstract relay, or, if the process
    dies, the beginning of one. *)
Lemma relay_from_cases in_sock st t o :
  bufs_ok st -> world_ok t -> exec (relay_from errno_text r st in_sock) t o ->
  refines_step (packet_step r in_sock) st t o
  \/ (o = Panic /\ verbose r = true /\ killed t
      /\ exists l lim', Forall idle l /\ packet_step r in_sock (limiter st) (observe t ++ l) lim').
Proof using L.
  intros Hok Hw He.
  pose proof (relay_from_aborts errno_text r st in_sock) as Hab.
  destruct (exec_or_killed _ _ _ _ Hab (relay_from_settled _ _ _ _) Hw He)
    as [[Hc _]|(-> & Hk & t' & o' & l & He' & Hc & Ho & Hl)]; [left; by apply relay_from_spec | right].
  split_and!; [done | | done |].
  - apply (only_exec True (fun e => loop_call (verbose r) e = true)) in He as [Ht _];
      [by eapply killed_verbose | apply relay_from_only].
  - apply relay_from_spec in He' as (st' & _ & _ & Hs); [| done..]. rewrite Ho in Hs. by exists l, (limiter st').
Qed.

Lemma run_unwatchable n t o :
  ~ watchable -> exec (run errno_text r n) t o ->
  t = [] /\ (n = 0%nat /\ o = Ret (Ok (initial r)) \/ o = Panic).
Proof using FL.
  intros Hw. unfold run. destruct n as [|n]; cbn [rounds]; [intros [-> ->]; auto |].
  unfold round. rewrite insert_fds_spec, decide_False by done. intros [-> ->]. auto.
Qed.

Lemma run_cases n t o :
  world_ok t -> exec (run errno_text r n) t o ->
  exists l lim' e, relay_steps r n (rate_limiter r) (observe t ++ l) lim' e
    /\ ((l = [] /\ loop_end o lim' e) \/ (o = Panic /\ died t /\ Forall idle l)).
Proof using L FL.
  intros Hw He. destruct (decide watchable) as [Hwatch|Hwatch].
  2: { destruct (run_unwatchable _ _ _ Hwatch He) as [-> [[-> ->]| ->]].
       - exists [], (rate_limiter r), None. split; [constructor |]. left. split; [done |].
         exists (initial r). by split_and!; [| apply initial_bufs_ok |].
       - destruct n as [|n].
         + exists [], (rate_limiter r), None. split; [constructor | right]. by split_and!; [| left |].
         + exists [In (Ev (select_op r) (Err 0))], (rate_limiter r), (Some 0). split; [constructor | right].
           split_and!; [done | by left | by repeat constructor]. }
  destruct (exec_or_killed _ _ _ _ (run_aborts errno_text r n) (run_settled _ _ _) Hw He)
    as [[Hc _]|(-> & Hk & t' & o' & l & He' & Hc & Ho & Hl)].
  - apply rounds_spec in He as (lim' & e & Hs & Hend); [| done | apply initial_bufs_ok | done].
    exists [], lim', e. rewrite app_nil_r. auto.
  - apply rounds_spec in He' as (lim' & e & Hs & _); [| done | apply initial_bufs_ok | done].
    rewrite Ho in Hs. exists l, lim', e. split; [done | right]. split_and!; [done | right; split; [| exact Hk] | done].
    apply (only_exec True (fun e => loop_call (verbose r) e = true)) in He as [Ht _];
      [by eapply killed_verbose | apply run_only].
Qed.

(** C3 (refinement): what is observed of a run of the relay (readiness, packets in, times and
    packets out, in order), for any number of turns and whatever the world answers within what the
    kernel guarantees, are steps of the abstract relay: each turn waits for the sockets, takes one
    packet from each ready socket in the order of the command line, drops it or sends it,
    rewritten, once to every eligible output, whatever errors other sends met; the buffers left no
    trace.  The loop is left by an error of [select]; it panics only if an input's descriptor is
    too large for [select], or, in verbose mode, if the last line could not be printed, and then
    what was observed is the beginning of such steps. *)
Theorem run_refines n t o :
  world_ok t -> exec (run errno_text r n) t o ->
  exists l lim' e, relay_steps r n (rate_limiter r) (observe t ++ l) lim' e
    /\ ((l = [] /\ loop_end o lim' e) \/ (o = Panic /\ died t /\ Forall idle l)).
Proof using L FL. apply run_cases. Qed.
End refinement.
