(* ===== verification/RelayReal.v ===== *)
(** * The abstract relay is realised by the program

    The converse of the refinement of [RelaySpec]: whatever the abstract relay may do, within
    what the kernel guarantees of the packets read, the loop does for some answers of the world. *)

From S2P Require Import Prelude Bytes RustStr Config ConfigMatch Filter Checksum Pnet Packet NatRewrite.
From S2P Require Import Sys FdSet Abort Error Logging Socket RateLimit Relay RelayCalls RelaySpec.

(** ** Observations the world may give *)

Definition obs_ok (ok : event -> Prop) (x : obs) : Prop :=
  match x with In e => ok e | Out _ => True end.

Lemma observed_ok ok t : Forall ok t -> Forall (obs_ok ok) (observe t).
Proof.
  unfold observe. induction 1 as [|[X op x] t He _ IH]; [constructor |].
  cbn [omap list_omap]. destruct op; cbn; try done; by constructor.
Qed.

Lemma obs_ok_out ok out : Forall (obs_ok ok) (map Out out).
Proof. induction out; cbn; by constructor. Qed.

Section realised.
Context {P : Pnet} {L : PnetLaws P} {F : FdSets} {FL : FdSetsLaws F}.
Context (errno_text : Errno -> str) (r : Relay).

Lemma packet_step_answered s lim l lim' :
  packet_step r s lim l lim' -> Forall (obs_ok event_ok) l ->
  exists found now, Forall (obs_ok (answered found now)) l.
Proof using.
  intros [lim0 e|lim0 pkt _|pkt info rule _|rl now rl' pkt info rule b _ _] [Hread _]%Forall_cons_1.
  - exists (Err e), 0. by repeat constructor.
  - exists (Ok pkt), 0. repeat constructor. cbn. by rewrite decide_True.
  - exists (Ok pkt), 0. constructor; [cbn; by rewrite decide_True | apply obs_ok_out].
  - exists (Ok pkt), now. constructor; [cbn; by rewrite decide_True |].
    constructor; [done | apply obs_ok_out].
Qed.

(** What is read and the time determine a step. *)
Lemma packet_step_det found now s lim l1 lim1 l2 lim2 :
  packet_step r s lim l1 lim1 -> packet_step r s lim l2 lim2 ->
  Forall (obs_ok (answered found now)) l1 -> Forall (obs_ok (answered found now)) l2 ->
  l1 = l2 /\ lim1 = lim2.
Proof using.
  assert (forall pkt info rule info' rule', accepted (filter r) pkt info rule ->
    accepted (filter r) pkt info' rule' -> info = info' /\ rule = rule') as Hacc.
  { intros pkt info rule info' rule' (_ & Hi & Hr & _) (_ & Hi' & Hr' & _).
    assert (info = info') as -> by by eapply relayable_unique.
    split; [done | congruence]. }
  intros H1 H2 Ha1 Ha2.
  destruct H1; inversion H2; subst; apply Forall_cons_1 in Ha1 as [Ha1 Hb1], Ha2 as [Ha2 Hb2];
    cbn in Ha1, Ha2; rewrite <- Ha1 in Ha2; try done; try (injection Ha2 as ->);
    try (match goal with
         | Hno : (forall info rule, ~ accepted _ _ _ _), Hyes : accepted _ _ _ _ |- _ =>
             by destruct (Hno _ _ Hyes)
         end); try (by split).
  - edestruct Hacc as [-> ->]; [exact H | eassumption |]. by split.
  - apply Forall_cons_1 in Hb1 as [Hn1 _], Hb2 as [Hn2 _]. cbn in Hn1, Hn2. subst.
    edestruct Hacc as [-> ->]; [exact H | eassumption |].
    match goal with
    | H1 : allow_at _ _ = _, H2 : allow_at _ _ = _ |- _ => rewrite H1 in H2; by injection H2 as -> ->
    end.
Qed.
(** ** Realising steps *)

(** An execution of [m] that ends with [a] and is observed as [l]. *)
Definition realised {A} (m : prog A) (l : list obs) (a : A) : Prop :=
  exists t, exec m t (Ret a) /\ calm t /\ observe t = l.

Lemma realised_done {A} (a : A) : realised (Done a) [] a.
Proof using. exists []. by repeat split; constructor. Qed.

Lemma realised_bind {A B} (m : prog A) (f : A -> prog B) l1 a l2 b :
  realised m l1 a -> realised (f a) l2 b -> realised (m ≫= f) (l1 ++ l2) b.
Proof using.
  intros (t1 & H1 & Hw1 & <-) (t2 & H2 & Hw2 & <-). exists (t1 ++ t2).
  rewrite calm_app, observe_app. split_and!; [| done..].
  apply exec_bind. right. by exists a, t1, t2.
Qed.

Lemma relay_from_realised s st l lim' :
  bufs_ok st -> packet_step r s (limiter st) l lim' -> Forall (obs_ok event_ok) l ->
  exists st', realised (relay_from errno_text r st s) l st' /\ bufs_ok st' /\ limiter st' = lim'.
Proof using L.
  intros Hok Hstep Hl. destruct (packet_step_answered _ _ _ _ Hstep Hl) as (found & now & Ha).
  destruct (exec_answered found now (relay_from errno_text r st s)) as (t & o & He & Ht).
  assert (calm t) as Hw by (eapply List.Forall_impl; [apply answered_calm | exact Ht]).
  destruct (relay_from_spec errno_text r s st t o Hok Hw He) as (st' & -> & Hok' & Hstep').
  destruct (packet_step_det _ _ _ _ _ _ _ _ Hstep' Hstep (observed_ok _ _ Ht) Ha) as [<- <-].
  exists st'. split; [| done]. by exists t.
Qed.

Lemma relay_from_ready_realised ready socks st l lim' :
  Forall (fun s => selectable (fd s)) socks ->
  bufs_ok st -> sockets_step r (ready_sockets ready socks) (limiter st) l lim' ->
  Forall (obs_ok event_ok) l ->
  exists st', realised (relay_from_ready errno_text r ready st socks) l st'
    /\ bufs_ok st' /\ limiter st' = lim'.
Proof using L FL.
  intros Hfd. revert st l. induction Hfd as [|s socks Hs _ IH]; intros st l Hok Hstep Hl; cbn [relay_from_ready].
  { inversion Hstep; subst. exists st. split; [apply realised_done | done]. }
  rewrite FdSet_contains_law, decide_True by done. cbn [lift mbind prog_bind_inst prog_bind].
  unfold ready_sockets in Hstep. cbn [List.filter] in Hstep.
  case_bool_decide as Hin; [| by apply IH].
  inversion Hstep as [|? ? ? l1 lim1 l2 ? H1 H2]; subst. apply Forall_app in Hl as [Hl1 Hl2].
  destruct (relay_from_realised _ _ _ _ Hok H1 Hl1) as (st1 & Hr1 & Hok1 & <-).
  destruct (IH _ _ Hok1 H2 Hl2) as (st2 & Hr2 & Hok2 & Hlim2).
  exists st2. split; [by eapply realised_bind | done].
Qed.

Lemma realised_select a st l b :
  watchable r ->
  realised (if fst a =? 0 then Done (Ok st)
            else st ← relay_from_ready errno_text r (snd a) st (input_sockets r); Done (Ok st)) l b ->
  realised (round errno_text r st) (In (Ev (select_op r) (Ok a)) :: l) b.
Proof using FL.
  intros Hwatch. unfold round. rewrite insert_fds_spec, decide_True by done.
  cbn [lift mbind prog_bind_inst prog_bind app].
  intros (t & Ht & Hw & <-). exists (Ev (select_op r) (Ok a) :: t). split_and!; [| by constructor | done].
  by exists (Ok a), t.
Qed.

Lemma rounds_realised n lim l lim' e st :
  watchable r -> relay_steps r n lim l lim' e -> lim = limiter st -> bufs_ok st -> Forall (obs_ok event_ok) l ->
  exists o, realised (rounds errno_text r n st) l o /\ loop_end (Ret o) lim' e.
Proof using L FL.
  intros Hwatch Hs. revert st. induction Hs as [lim|n lim e|n ready lim l lim' e _ IH
    |n c ready lim l1 lim1 l2 lim2 e Hc H1 _ IH]; intros st -> Hok Hl.
  - exists (Ok st). split; [apply realised_done | by exists st].
  - exists (Err (Nix e)). split; [| done]. exists [Ev (select_op r) (Err e)].
    split_and!; [| by repeat constructor | done].
    cbn [rounds]. unfold round. rewrite insert_fds_spec, decide_True by done. by exists (Err e), [].
  - apply Forall_cons_1 in Hl as [_ Hl]. destruct (IH st eq_refl Hok Hl) as (o & Ho & Hend).
    exists o. split; [| done]. cbn [rounds].
    apply (realised_bind _ _ [In (Ev (select_op r) (Ok (0, ready)))] (Ok st)); [| done].
    apply realised_select, realised_done. done.
  - apply Forall_cons_1 in Hl as [_ Hl]. apply Forall_app in Hl as [Hl1 Hl2].
    destruct (relay_from_ready_realised _ _ _ _ _ Hwatch Hok H1 Hl1) as (st1 & Hr1 & Hok1 & Hlim1).
    destruct (IH st1 (eq_sym Hlim1) Hok1 Hl2) as (o & Ho & Hend).
    exists o. split; [| done]. cbn [rounds].
    apply (realised_bind _ _ (In (Ev (select_op r) (Ok (c, ready))) :: l1) (Ok st1)); [| done].
    apply realised_select; [done |]. cbn [fst snd]. rewrite (proj2 (Z.eqb_neq _ _)) by done.
    rewrite <- (app_nil_r l1). by eapply realised_bind; [| apply realised_done].
Qed.

(** C4 (refinement): conversely, the specification is exact.  Every behaviour of the abstract
    relay in which no packet read is longer than the buffer is a behaviour of the program, if
    [select] can wait for its inputs: for some answers of the world, the loop runs, is observed as
    just that, and ends as stated. *)
Theorem run_realises n l lim' e :
  watchable r -> relay_steps r n (rate_limiter r) l lim' e -> Forall (obs_ok event_ok) l ->
  exists t o, exec (run errno_text r n) t o /\ world_ok t /\ observe t = l /\ loop_end o lim' e.
Proof using L FL.
  intros Hwatch Hs Hl.
  destruct (rounds_realised _ _ _ _ _ (initial r) Hwatch Hs eq_refl (initial_bufs_ok r) Hl)
    as (o & (t & He & Hw & Ho) & Hend).
  exists t, (Ret o). split_and!; [done | by apply calm_world_ok | done | done].
Qed.
End realised.
