(* ===== verification/RelayProps.v ===== *)
(** * What the relay loop guarantees

    Consequences of the refinement of [RelaySpec]: where every packet that is sent comes from,
    what it carries, which outputs it goes to, and why relays do not feed each other. *)

From S2P Require Import Prelude Bytes RustStr Config ConfigMatch ConfigParse Filter Checksum Pnet.
From S2P Require Import Packet NatRewrite NatChecksum Sys FdSet Abort Error Logging Socket RateLimit Relay.
From S2P Require Import RelayCalls RelaySpec RelayReal.

(** ** The decision per output interface *)

Lemma should_relay_to_true dst ingress_if out_if bcasts :
  should_relay_to dst ingress_if out_if bcasts = true <->
  ingress_if <> out_if
  /\ (is_multicast dst = true \/ dst = limited_broadcast \/ dst ∈ bcasts).
Proof.
  unfold should_relay_to. change (Ipv4Addr_new 255 255 255 255) with limited_broadcast.
  case_bool_decide as Hif; [naive_solver |].
  rewrite !orb_true_iff, !bool_decide_eq_true. naive_solver.
Qed.

(** A packet goes out an interface exactly when it did not arrive on it and is multicast,
    or for the limited broadcast address, or for a broadcast address of that interface. *)
Theorem should_relay_to_iff dst ingress_if out_if bcasts :
  should_relay_to dst ingress_if out_if bcasts = true <->
  ingress_if <> out_if
  /\ (is_multicast dst = true \/ dst = limited_broadcast \/ dst ∈ bcasts).
Proof. apply should_relay_to_true. Qed.

Lemma nat_rewrite_target_in dst bcasts :
  (dst ∈ bcasts -> nat_rewrite_target dst bcasts = dst)
  /\ (bcasts <> [] -> nat_rewrite_target dst bcasts ∈ bcasts).
Proof.
  unfold nat_rewrite_target. case_bool_decide; [done |]. split; [done |].
  destruct bcasts; [done |]. intros _. left.
Qed.

(** The destination a packet is rewritten to is a broadcast address of the output
    interface, and the packet's own destination when that already is one. *)
Theorem nat_rewrite_target_spec dst bcasts :
  (dst ∈ bcasts -> nat_rewrite_target dst bcasts = dst)
  /\ (bcasts <> [] -> nat_rewrite_target dst bcasts ∈ bcasts)
  /\ (bcasts = [] -> nat_rewrite_target dst bcasts = limited_broadcast).
Proof.
  split_and!; [apply nat_rewrite_target_in.. |]. by intros ->.
Qed.

(** ** Where packets come from *)

(** [s], sent after [before], is [pkt] forwarded out [out] under [rule]: the packet read last,
    on [in_sock]. *)
Record forwarded {P : Pnet} (r : Relay) (before : list event) (s : sent) (in_sock out : PacketSocket)
    (pkt : list u8) (info : PacketInfo) (rule : Rule) : Prop := {
  fwd_in : in_sock ∈ input_sockets r;
  fwd_out : out ∈ output_sockets r;
  fwd_read : exists t1 t2, before = t1 ++ Ev (Read (fd in_sock) buf_size) (Ok pkt) :: t2
               /\ Forall (fun e => read_of e = None) t2;
  fwd_accepted : accepted (filter r) pkt info rule;
  fwd_eligible : eligible in_sock (pkt_dst_ip info) out = true;
  fwd_sent : s = forward pkt info rule out
}.

Definition no_read (x : obs) : Prop := match x with In e => read_of e = None | Out _ => True end.

Lemma observe_split t a e b :
  observe t = a ++ In e :: b ->
  exists t1 t2, t = t1 ++ e :: t2 /\ observe t1 = a /\ observe t2 = b.
Proof.
  revert a. induction t as [|[X op x] t IH]; intros a H; [by destruct a |].
  unfold observe in H. cbn [omap list_omap] in H. fold (observe t) in H.
  destruct (obs_of (Ev op x)) as [ob|] eqn:Eo.
  - destruct a as [|ob' a]; cbn in H; injection H as Hob H; subst ob.
    + exists [], t. destruct op; try discriminate Eo; injection Eo as <-; done.
    + destruct (IH _ H) as (t1 & t2 & -> & <- & <-). exists (Ev op x :: t1), t2.
      split_and!; [done | unfold observe; cbn [omap list_omap]; by rewrite Eo | done].
  - destruct (IH _ H) as (t1 & t2 & -> & <- & <-). exists (Ev op x :: t1), t2.
    split_and!; [done | unfold observe; cbn [omap list_omap]; by rewrite Eo | done].
Qed.

Lemma no_read_events t : Forall no_read (observe t) -> Forall (fun e => read_of e = None) t.
Proof.
  induction t as [|[X op x] t IH]; [done |]. unfold observe. cbn [omap list_omap]. fold (observe t).
  intros H. constructor; [| apply IH]; destruct op; try done; cbn in H; apply Forall_cons_1 in H as [? ?]; done.
Qed.

Section provenance.
Context {P : Pnet} (r : Relay).

(** The same for observations: the step that sent [s] out, after [before]. *)
Definition explained (before : list obs) (s : sent) : Prop :=
  exists i o pkt info rule a b, i ∈ input_sockets r /\ o ∈ output_sockets r
    /\ before = a ++ In (Ev (Read (fd i) buf_size) (Ok pkt)) :: b /\ Forall no_read b
    /\ accepted (filter r) pkt info rule /\ eligible i (pkt_dst_ip info) o = true
    /\ s = forward pkt info rule o.

(** Every packet that goes out in [l] is explained by what comes before it in [l]. *)
Definition all_explained (l : list obs) : Prop :=
  forall a s b, l = a ++ Out s :: b -> explained a s.

Lemma explained_app l a s : explained a s -> explained (l ++ a) s.
Proof using.
  intros (i & o & pkt & info & rule & a1 & b1 & Hi & Ho & -> & Hrest).
  exists i, o, pkt, info, rule, (l ++ a1), b1. by rewrite <- app_assoc.
Qed.

Lemma all_explained_app l1 l2 : all_explained l1 -> all_explained l2 -> all_explained (l1 ++ l2).
Proof using.
  intros H1 H2 a s b Heq. apply app_eq_inv in Heq as [([|x k] & -> & Hk)|(k & -> & ->)].
  - pose proof (explained_app a [] s (H2 [] s b (eq_sym Hk))) as H. by rewrite app_nil_r in H.
  - injection Hk as <- ->. by apply (H1 a s k).
  - by eapply explained_app, H2.
Qed.

Lemma all_explained_in e : all_explained [In e].
Proof using. intros [|x [|]] s b Heq; discriminate Heq. Qed.

Lemma forwards_explained in_sock pkt info rule mid :
  in_sock ∈ input_sockets r -> accepted (filter r) pkt info rule -> Forall no_read (map In mid) ->
  all_explained (In (Ev (Read (fd in_sock) buf_size) (Ok pkt))
                 :: map In mid ++ map Out (forwards in_sock pkt info rule (output_sockets r))).
Proof using.
  intros Hin Hacc Hmid a s b Heq. set (fs := forwards _ _ _ _ _) in Heq.
  assert (exists a', a = In (Ev (Read (fd in_sock) buf_size) (Ok pkt)) :: map In mid ++ a'
            /\ map Out fs = a' ++ Out s :: b) as (a' & -> & Hmap).
  { rewrite app_comm_cons in Heq. apply app_eq_inv in Heq as [([|x k] & Hl & Hk)|(k & -> & Hk)].
    - exists []. rewrite app_nil_r in Hl |- *. by split.
    - exfalso. injection Hk as <- _. assert (Out s ∈ In (Ev (Read (fd in_sock) buf_size) (Ok pkt)) :: map In mid)
        as [?|Hx]%elem_of_cons by (rewrite Hl; apply elem_of_app; right; left); [done |].
      by apply list_elem_of_In, in_map_iff in Hx as (e & [=] & _).
    - by exists k. }
  apply List.map_eq_app in Hmap as (f1 & f2 & Hfs & <- & Hf2).
  apply List.map_eq_cons in Hf2 as (s' & f3 & -> & [= ->] & _).
  assert (s ∈ fs) as Hs by (rewrite Hfs; apply elem_of_app; right; left).
  apply list_elem_of_In, in_map_iff in Hs as (o & <- & Ho).
  apply List.filter_In in Ho as [Ho%list_elem_of_In Helig].
  exists in_sock, o, pkt, info, rule, [], (map In mid ++ map Out f1).
  do 2 (split; [assumption |]). split; [reflexivity |]. split; [| by split; [| split]].
  apply Forall_app. split; [assumption |]. by apply List.Forall_map, List.Forall_forall.
Qed.

Lemma packet_step_explained in_sock lim l lim' :
  in_sock ∈ input_sockets r -> packet_step r in_sock lim l lim' -> all_explained l.
Proof using.
  intros Hin [lim0 e|lim0 pkt Hno|pkt info rule Hacc|rl now rl' pkt info rule b Hacc _].
  1, 2: apply all_explained_in.
  - by apply (forwards_explained in_sock pkt info rule []).
  - destruct b; [by apply (forwards_explained in_sock pkt info rule [Ev Instant_now now]); [| | constructor] |].
    apply (all_explained_app [_] [_]); apply all_explained_in.
Qed.

Lemma sockets_step_explained socks lim l lim' :
  (forall i, i ∈ socks -> i ∈ input_sockets r) -> sockets_step r socks lim l lim' -> all_explained l.
Proof using.
  intros Hsub. induction 1 as [|i socks lim l1 lim1 l2 lim2 H1 _ IH].
  { intros [] s b Heq; discriminate Heq. }
  apply all_explained_app; [eapply packet_step_explained; [apply Hsub; left | done] |].
  apply IH. intros ??. apply Hsub. by right.
Qed.

Lemma relay_steps_explained n lim l lim' e : relay_steps r n lim l lim' e -> all_explained l.
Proof using.
  induction 1 as [lim|n lim e|n ready lim l lim' e _ IH|n count ready lim l1 lim1 l2 lim2 e _ H1 _ IH].
  - intros [] s b Heq; discriminate Heq.
  - apply all_explained_in.
  - by apply (all_explained_app [_]); [apply all_explained_in |].
  - apply (all_explained_app [_]); [apply all_explained_in |]. apply all_explained_app; [| done].
    eapply sockets_step_explained; [| done].
    intros i Hi%list_elem_of_In. by apply List.filter_In in Hi as [?%list_elem_of_In _].
Qed.

Lemma explained_forwarded before s :
  explained (observe before) s ->
  exists i o pkt info rule, forwarded r before s i o pkt info rule.
Proof using.
  intros (i & o & pkt & info & rule & a & b & Hi & Ho & Heq & Hb & Hrest).
  apply observe_split in Heq as (t1 & t2 & -> & _ & <-). exists i, o, pkt, info, rule.
  destruct Hrest as (? & ? & ?). split; try done. exists t1, t2. split; [done | by apply no_read_events].
Qed.
End provenance.

(** ** What packets carry *)

(** The rules the parser loads. *)
Definition config_wf (c : Config) : Prop := Forall rule_wf (rules c).

Lemma parse_config_wf content c : parse content = Ok c -> config_wf c.
Proof.
  intros H%parse_Ok. unfold config_wf. induction H as [|l rule ls rs Hl _ IH]; constructor;
    [by apply parse_rule_well_formed in Hl | done].
Qed.

Lemma allow_all_wf : config_wf allow_all.
Proof. repeat constructor; done. Qed.

Lemma find_match_wf c pkt rule : config_wf c -> find_match c pkt = Some rule -> rule_wf rule.
Proof.
  intros Hwf (pre & post & Heq & _)%find_match_Some. unfold config_wf in Hwf. rewrite Heq in Hwf.
  apply Forall_app in Hwf as [_ Hwf]. by apply Forall_cons_1 in Hwf as [? _].
Qed.

(** What a packet sent for [pkt] out of [out] looks like on the wire. *)
Record wire_ok (pkt : list u8) (rule : Rule) (out : PacketSocket) (s : sent) (frame : list u8)
    (addr : sockaddr_ll) : Prop := {
  wire_sent : s = (fd out, frame, addr);
  wire_length : length frame = length pkt;
  wire_marked : marked frame;
  wire_ip_checksum : ip_checksum_ok frame = true;
  wire_udp_checksum :
    word_at (header_len pkt + 4) pkt = Z.of_nat (length pkt - header_len pkt) ->
    Z.of_nat (length pkt) <= 65535 -> udp_checksum_ok frame = true;
  wire_view : exists db, view frame = nat_spec (rule_nat rule) db (view pkt)
    /\ (ip_at 16 pkt ∈ broadcast_addrs out -> db = ip_at 16 pkt)
    /\ (broadcast_addrs out <> [] -> db ∈ broadcast_addrs out);
  wire_link : addr = send_address out (ethernet_dest frame)
}.

Section theorems.
Context {P : Pnet} {L : PnetLaws P} {F : FdSets} {FL : FdSetsLaws F}.

Lemma forward_wire f pkt info rule out :
  config_wf (config f) -> accepted f pkt info rule ->
  exists frame addr, wire_ok pkt rule out (forward pkt info rule out) frame addr.
Proof using L.
  intros Hwf (_ & Hrel & Hmatch & _). pose proof (relayable_nat_ok _ _ Hrel) as Hok.
  eexists _, _. unfold forward. split; [reflexivity | ..].
  - by apply length_rewritten.
  - by apply rewritten_marked.
  - by apply rewritten_ip_checksum.
  - intros. apply rewritten_udp_checksum; try done. apply Hrel.
  - exists (nat_rewrite_target (ip_at 16 pkt) (broadcast_addrs out)).
    replace (pkt_dst_ip info) with (ip_at 16 pkt) by (by rewrite (rel_info _ _ Hrel)).
    split; [| apply nat_rewrite_target_in]. apply rewritten_view; [done | apply Hrel |].
    apply find_match_wf in Hmatch; [| done]. destruct (wf_nat _ Hmatch). naive_solver.
  - done.
Qed.

Lemma run_forwarded errno_text r n t o t1 fd data addr x t2 :
  world_ok t -> exec (run errno_text r n) t o -> t = t1 ++ Ev (Sendto fd data addr) x :: t2 ->
  exists i out pkt info rule, forwarded r t1 (fd, data, addr) i out pkt info rule.
Proof using L FL.
  intros Hw (l & lim' & e & Hsteps & _)%run_cases ->; [| done].
  apply explained_forwarded, (relay_steps_explained _ _ _ _ _ _ Hsteps _ _ (observe t2 ++ l)).
  rewrite observe_app, <- app_assoc. done.
Qed.

(** C8 (safety): nothing is sent but what the configuration allows.  Every packet handed to
    the kernel, in a run of any length, is the rewriting of the datagram read last, on an input
    socket: a whole UDP datagram to a broadcast or multicast address, not already relayed, that
    the first matching rule allows; it goes out an output interface other than the one it
    arrived on, multicast and limited broadcasts out of any, a directed broadcast only out of
    one that owns the address. *)
Theorem run_safe errno_text r n t o t1 fd data addr x t2 :
  world_ok t -> exec (run errno_text r n) t o -> t = t1 ++ Ev (Sendto fd data addr) x :: t2 ->
  exists in_sock out pkt info rule,
    forwarded r t1 (fd, data, addr) in_sock out pkt info rule
    /\ ifname in_sock <> ifname out
    /\ (is_multicast (pkt_dst_ip info) = true \/ pkt_dst_ip info = limited_broadcast
        \/ pkt_dst_ip info ∈ broadcast_addrs out).
Proof using L FL.
  intros Hw He Ht. destruct (run_forwarded _ _ _ _ _ _ _ _ _ _ _ Hw He Ht) as (i & out & pkt & info & rule & Hf).
  exists i, out, pkt, info, rule. split; [done |].
  apply should_relay_to_true. apply (fwd_eligible _ _ _ _ _ _ _ _ Hf).
Qed.

(** What is sent is well formed.  Under a configuration of well-formed rules, every packet
    of a run reads as the abstract rewriting of the datagram that was read (payload and options
    untouched, addresses and ports as the rule says, an unrewritten destination moved to a
    broadcast address of the output interface), is marked, keeps its length (no byte of an
    earlier packet leaks from the buffers), carries valid checksums and goes to the link address
    of its destination. *)
Theorem run_wire errno_text r n t o t1 fd data addr x t2 :
  config_wf (config (filter r)) -> world_ok t -> exec (run errno_text r n) t o ->
  t = t1 ++ Ev (Sendto fd data addr) x :: t2 ->
  exists in_sock out pkt info rule,
    forwarded r t1 (fd, data, addr) in_sock out pkt info rule
    /\ wire_ok pkt rule out (fd, data, addr) data addr.
Proof using L FL.
  intros Hwf Hw He Ht. destruct (run_forwarded _ _ _ _ _ _ _ _ _ _ _ Hw He Ht) as (i & out & pkt & info & rule & Hf).
  destruct (forward_wire _ _ _ _ out Hwf (fwd_accepted _ _ _ _ _ _ _ _ Hf)) as (frame & addr' & Hwire).
  rewrite <- (fwd_sent _ _ _ _ _ _ _ _ Hf) in Hwire.
  pose proof (wire_sent _ _ _ _ _ _ Hwire) as [= -> -> ->].
  by exists i, out, pkt, info, rule.
Qed.

(** C9: relays do not feed each other.  A packet sent by one relay, read by another (or by
    the same one) on any socket and whatever its rules and state, makes it send nothing and
    costs it no token. *)
Theorem no_relay_loop errno_text r1 n t o t1 fd1 data addr x t2 r2 st in_sock t' o' :
  world_ok t -> exec (run errno_text r1 n) t o -> t = t1 ++ Ev (Sendto fd1 data addr) x :: t2 ->
  bufs_ok st -> world_ok (Ev (Read (fd in_sock) buf_size) (Ok data) :: t') ->
  exec (relay_from errno_text r2 st in_sock) (Ev (Read (fd in_sock) buf_size) (Ok data) :: t') o' ->
  observe t' = [] /\ exists st', o' = Ret st' /\ bufs_ok st' /\ limiter st' = limiter st.
Proof using L FL.
  intros Hw1 He1 Ht Hok Hw2 He2.
  destruct (run_forwarded _ _ _ _ _ _ _ _ _ _ _ Hw1 He1 Ht) as (i & out & pkt & info & rule & Hf).
  assert (marked data) as Hm.
  { pose proof (fwd_sent _ _ _ _ _ _ _ _ Hf) as [= _ -> _]. apply rewritten_marked, (relayable_nat_ok _ info).
    apply (fwd_accepted _ _ _ _ _ _ _ _ Hf). }
  apply (relay_from_marked _ _ _ _ data) in He2 as [-> H]; [by split | done..].
Qed.

(** C11 (completeness): an accepted packet is sent exactly once to each eligible output, in the
    order of the command line, unless the rate limiter, asked once, refuses it; errors of the
    kernel on some outputs do not keep it from the others.  Only a line that cannot be printed,
    in verbose mode, ends this early. *)
Theorem relay_complete errno_text r st in_sock pkt info rule t o :
  bufs_ok st -> world_ok (Ev (Read (fd in_sock) buf_size) (Ok pkt) :: t) ->
  accepted (filter r) pkt info rule ->
  exec (relay_from errno_text r st in_sock) (Ev (Read (fd in_sock) buf_size) (Ok pkt) :: t) o ->
  exists now l,
    observe t ++ l = map In (rate_inputs (limiter st) now)
      ++ map Out (if fst (rate_answer (limiter st) now)
                  then map (forward pkt info rule)
                         (List.filter (eligible in_sock (pkt_dst_ip info)) (output_sockets r))
                  else [])
    /\ ((l = [] /\ exists st', o = Ret st' /\ bufs_ok st'
                    /\ limiter st' = snd (rate_answer (limiter st) now))
        \/ (o = Panic /\ verbose r = true /\ killed t)).
Proof using L.
  intros Hok Hw Hacc He.
  assert (forall l lim', packet_step r in_sock (limiter st) (In (Ev (Read (fd in_sock) buf_size) (Ok pkt)) :: l) lim' ->
    exists now, lim' = snd (rate_answer (limiter st) now)
      /\ l = map In (rate_inputs (limiter st) now)
             ++ map Out (if fst (rate_answer (limiter st) now)
                         then forwards in_sock pkt info rule (output_sockets r) else [])) as Hstep.
  { intros l lim' [(Hno & _)|(info' & rule' & now & Hacc' & Hl & Ho)]%packet_step_read; [by destruct (Hno info rule) |].
    assert (info' = info) as -> by (destruct Hacc as (_ & ? & _), Hacc' as (_ & ? & _);
      by eapply relayable_unique).
    assert (rule' = rule) as -> by (destruct Hacc as (_ & _ & ? & _), Hacc' as (_ & _ & ? & _); congruence).
    by exists now. }
  destruct (relay_from_cases _ _ _ _ _ _ Hok Hw He)
    as [(st' & -> & Hok' & (now & Hl & Ho)%Hstep)|(-> & Hv & Hk & l & lim' & _ & (now & _ & Ho)%Hstep)].
  - exists now, []. rewrite app_nil_r. split; [exact Ho | left]. split; [done |]. by exists st'.
  - exists now, l. split; [exact Ho | right]. split_and!; [done | done |].
    destruct Hk as (t0 & e & Heq & Hfail & H0). destruct t0 as [|e0 t0]; cbn in Heq; simplify_eq.
    apply Forall_cons_1 in H0 as [_ H0]. by exists t0, e.
Qed.

(** The packets read in a trace, and in an observation. *)
Definition packets_read (t : list event) : nat := length (List.filter packet_of t).

Definition packets_in (l : list obs) : nat :=
  length (List.filter (fun x => match x with In e => packet_of e | Out _ => false end) l).

Lemma packets_in_app l1 l2 : packets_in (l1 ++ l2) = (packets_in l1 + packets_in l2)%nat.
Proof using. unfold packets_in. by rewrite List.filter_app, length_app. Qed.

Lemma packets_in_observe t : packets_in (observe t) = packets_read t.
Proof using.
  unfold packets_in, packets_read, observe. induction t as [|[X op x] t IH]; [done |].
  cbn [omap list_omap List.filter]. destruct op; cbn; try done. destruct x; cbn; by rewrite IH.
Qed.

Lemma length_forwards in_sock pkt info rule outs :
  (length (forwards in_sock pkt info rule outs) <= length outs)%nat.
Proof using.
  unfold forwards. rewrite length_map. induction outs; cbn; [done |]. destruct (eligible _ _ _); cbn; lia.
Qed.

(** At most one packet out per output socket, for each packet in. *)
Definition fans_out (r : Relay) (l : list obs) : Prop :=
  (length (outputs l) <= packets_in l * length (output_sockets r))%nat.

Lemma fans_out_app r l1 l2 : fans_out r l1 -> fans_out r l2 -> fans_out r (l1 ++ l2).
Proof using. unfold fans_out. rewrite outputs_app, length_app, packets_in_app. lia. Qed.

Lemma fans_out_in r e : fans_out r [In e].
Proof using. unfold fans_out. cbn. lia. Qed.

Lemma packet_step_fans_out (r : Relay) in_sock lim l lim' : packet_step r in_sock lim l lim' -> fans_out r l.
Proof using.
  assert (forall pkt out, (length out <= length (output_sockets r))%nat ->
    fans_out r (In (Ev (Read (fd in_sock) buf_size) (Ok pkt)) :: map Out out)) as Hf.
  { intros pkt out Hlen. unfold fans_out, packets_in.
    change (outputs (_ :: map Out out)) with (outputs (map Out out)). rewrite outputs_out. cbn. lia. }
  intros [lim0 e|lim0 pkt _|pkt info rule _|rl now rl' pkt info rule b _ _].
  1, 2: apply fans_out_in.
  - apply Hf, length_forwards.
  - pose proof (Hf pkt (if b then forwards in_sock pkt info rule (output_sockets r) else [])) as Hb.
    unfold fans_out in *. apply Hb. destruct b; [apply length_forwards | cbn; lia].
Qed.

Lemma sockets_step_fans_out (r : Relay) socks lim l lim' : sockets_step r socks lim l lim' -> fans_out r l.
Proof using.
  induction 1 as [|i socks lim l1 lim1 l2 lim2 H1%packet_step_fans_out _ IH]; [unfold fans_out; cbn; lia |].
  by apply fans_out_app.
Qed.

Lemma relay_steps_fans_out (r : Relay) n lim l lim' e : relay_steps r n lim l lim' e -> fans_out r l.
Proof using.
  induction 1 as [lim|n lim e|n ready lim l lim' e _ IH
                 |n count ready lim l1 lim1 l2 lim2 e _ H1%sockets_step_fans_out _ IH].
  - unfold fans_out. cbn. lia.
  - apply fans_out_in.
  - by apply (fans_out_app r [_]); [apply fans_out_in |].
  - apply (fans_out_app r [_]); [apply fans_out_in |]. by apply fans_out_app.
Qed.

Lemma idle_packets l : Forall idle l -> packets_in l = 0%nat.
Proof using.
  unfold packets_in. induction 1 as [|[[X op x]|s] l Hx _ IH]; cbn [List.filter]; [done | | done].
  destruct op; try done. cbn in Hx. destruct x; [done | exact IH].
Qed.

(** The relay does not amplify beyond its fan-out: over any run, it makes at most
    one send per output interface for each packet it reads. *)
Theorem run_fan_out errno_text r n t o :
  world_ok t -> exec (run errno_text r n) t o ->
  (length (sends t) <= packets_read t * length (output_sockets r))%nat.
Proof using L FL.
  intros Hw (l & lim' & e & Hsteps & Hend)%run_cases; [| done].
  apply relay_steps_fans_out in Hsteps. unfold fans_out in Hsteps.
  assert (packets_in l = 0)%nat as Hl by (destruct Hend as [[-> _]|(_ & _ & ?)]; [done | by apply idle_packets]).
  rewrite outputs_app, length_app, packets_in_app, Hl, packets_in_observe, outputs_observe in Hsteps. lia.
Qed.
End theorems.

(** ** A run *)

#[local] Existing Instances ref_fdsets ref_fdsets_laws.

(** A world where every call succeeds and every ready socket delivers [pkt]. *)
Definition calm_world (pkt : list u8) : handler unit := fun X op s =>
  (match op in sysop X return X with
   | Geteuid => 0
   | Read_to_string _ => Ok []
   | Getifaddrs => Ok []
   | Socket => Ok 3
   | If_nametoindex _ => Ok 2
   | Bind _ _ => Ok tt
   | Add_membership_allmulti _ _ => Ok tt
   | Attach_filter _ _ => Ok tt
   | User_from_name _ => Ok None
   | Setgroups _ => Ok tt
   | Setgid _ => Ok tt
   | Setuid _ => Ok tt
   | Seteuid _ => Err 1
   | Select fds _ => Ok (Z.of_nat (length fds), fds)
   | Read _ _ => Ok pkt
   | Sendto _ data _ => Ok (Z.of_nat (length data))
   | Instant_now => 0
   | Println _ => Ok tt
   | Eprintln _ => Ok tt
   end, s).

Definition eth0 : PacketSocket := mk_socket 3 2 (lit "eth0") [Ipv4Addr_new 192 168 1 255].
Definition eth1 : PacketSocket := mk_socket 4 3 (lit "eth1") [Ipv4Addr_new 10 0 0 255].
Definition demo_relay : Relay := mk_relay [eth0] [eth0; eth1] (Filter_new allow_all) None true.
Definition demo_packet : list u8 := sample_udp host_50 limited_broadcast.
Definition demo_text (e : Errno) : str := lit "error " ++ show e.

Definition demo_run := run_prog (calm_world demo_packet) (run (P := ref_pnet) demo_text demo_relay 2) tt.

(** Two turns: the packet is sent out of eth1 twice, each time to its broadcast address. *)
Example demo_sends :
  map (fun s => (fst (fst s), ip_at 16 (snd (fst s)))) (sends demo_run.1.1)
  = [(4, Ipv4Addr_new 10 0 0 255); (4, Ipv4Addr_new 10 0 0 255)].
Proof. vm_compute. reflexivity. Qed.

Definition panicked {A} (o : outcome A) : bool := match o with Panic => true | Ret _ => false end.

Lemma returnsb {A} (o : outcome A) : panicked o = false -> o <> Panic.
Proof. by destruct o. Qed.

(** The same with the standard output closed at the other end: the first packet is sent, and the
    line that says so is the relay's last call. *)
Definition closed_stdout_world (pkt : list u8) : handler unit := fun X op s =>
  match op in sysop X return X * unit with
  | Println _ => (Err 32, tt)
  | op => calm_world pkt _ op s
  end.

Definition closed_stdout_run :=
  run_prog (closed_stdout_world demo_packet) (run (P := ref_pnet) demo_text demo_relay 2) tt.

Example closed_stdout_panics :
  panicked closed_stdout_run.1.2 = true /\ length (sends closed_stdout_run.1.1) = 1%nat.
Proof. vm_compute. split; reflexivity. Qed.

Lemma demo_exec : exec (run (P := ref_pnet) demo_text demo_relay 2) demo_run.1.1 demo_run.1.2.
Proof. apply run_prog_runs. Qed.

Definition event_okb (e : event) : bool :=
  match e with @Ev X op x =>
    match op in sysop X return X -> bool with
    | Read _ count => fun a => match a with Ok bs => (length bs <=? count)%nat | Err _ => true end
    | _ => fun _ => true
    end x
  end.

Lemma world_okb t : forallb event_okb t = true -> world_ok t.
Proof.
  intros H. apply List.Forall_forall. intros e He. eapply forallb_forall in H; [| done].
  destruct e as [X op x]. destruct op; try done. cbn in *. destruct x; [by apply Nat.leb_le | done].
Qed.

Lemma demo_world : world_ok demo_run.1.1.
Proof. apply world_okb. vm_compute. reflexivity. Qed.

(** The calls of a trace before and after its first send. *)
Fixpoint until_send (t : list event) : list event * list event :=
  match t with
  | [] => ([], [])
  | e :: t' =>
      match send_of e with
      | Some _ => ([], t)
      | None => let '(a, b) := until_send t' in (e :: a, b)
      end
  end.

Lemma until_send_split t s :
  head (sends t) = Some s ->
  exists t1 fd data addr x t2, t = t1 ++ Ev (Sendto fd data addr) x :: t2
    /\ s = (fd, data, addr) /\ until_send t = (t1, Ev (Sendto fd data addr) x :: t2).
Proof.
  induction t as [|e t IH]; [done |]. cbn [until_send]. unfold sends. cbn [omap list_omap].
  destruct (send_of e) as [s'|] eqn:E.
  - intros [= ->]. destruct e as [X op x]. destruct op; try discriminate E. injection E as <-.
    eexists [], _, _, _, x, t. by split_and!.
  - intros H. destruct (IH H) as (t1 & fd & data & addr & x & t2 & Ht & Hs & Hu).
    exists (e :: t1), fd, data, addr, x, t2. rewrite Hu. split_and!; [by rewrite Ht | done | done].
Qed.

Definition demo_sent : sent := default (0, [], send_address eth1 []) (head (sends demo_run.1.1)).

Lemma demo_sent_head : head (sends demo_run.1.1) = Some demo_sent.
Proof. vm_compute. reflexivity. Qed.

Lemma run_safe_witness :
  world_ok demo_run.1.1 /\
  exists t1 fd data addr x t2, demo_run.1.1 = t1 ++ Ev (Sendto fd data addr) x :: t2 /\
  exists in_sock out pkt info rule,
    forwarded (P := ref_pnet) demo_relay t1 (fd, data, addr) in_sock out pkt info rule
    /\ ifname in_sock <> ifname out
    /\ (is_multicast (pkt_dst_ip info) = true \/ pkt_dst_ip info = limited_broadcast
        \/ pkt_dst_ip info ∈ broadcast_addrs out).
Proof.
  split; [exact demo_world |].
  destruct (until_send_split _ _ demo_sent_head) as (t1 & f & data & addr & x & t2 & Ht & _ & _).
  exists t1, f, data, addr, x, t2. split; [exact Ht |].
  exact (run_safe (L := ref_pnet_laws) demo_text demo_relay 2 _ _ t1 f data addr x t2
           demo_world demo_exec Ht).
Defined.

Lemma run_wire_witness :
  config_wf (config (filter demo_relay)) /\ world_ok demo_run.1.1 /\
  exists t1 fd data addr x t2, demo_run.1.1 = t1 ++ Ev (Sendto fd data addr) x :: t2 /\
  exists in_sock out pkt info rule,
    forwarded (P := ref_pnet) demo_relay t1 (fd, data, addr) in_sock out pkt info rule
    /\ wire_ok pkt rule out (fd, data, addr) data addr.
Proof.
  split; [exact allow_all_wf | split; [exact demo_world |]].
  destruct (until_send_split _ _ demo_sent_head) as (t1 & f & data & addr & x & t2 & Ht & _ & _).
  exists t1, f, data, addr, x, t2. split; [exact Ht |].
  exact (run_wire (L := ref_pnet_laws) demo_text demo_relay 2 _ _ t1 f data addr x t2
           allow_all_wf demo_world demo_exec Ht).
Defined.

(** A single packet, read from a socket by a relay in its initial state. *)
Definition demo_read (pkt : list u8) :=
  run_prog (calm_world pkt) (relay_from (P := ref_pnet) demo_text demo_relay (initial demo_relay) eth0) tt.

Lemma demo_read_trace pkt :
  exists t, (demo_read pkt).1.1 = Ev (Read (fd eth0) buf_size) (Ok pkt) :: t.
Proof.
  unfold demo_read, relay_from, recv, call. cbn [mbind prog_bind_inst prog_bind run_prog].
  destruct (calm_world _ _ _ _) as [x s] eqn:E. injection E as <- <-.
  destruct (run_prog _ _ _) as [[t o] s']. exists t. cbn [fst].
  change (recv_buf (initial demo_relay)) with (replicate buf_size (u8_of 0)).
  by rewrite length_replicate.
Qed.

Lemma demo_read_exec pkt t :
  (demo_read pkt).1.1 = Ev (Read (fd eth0) buf_size) (Ok pkt) :: t ->
  exec (relay_from (P := ref_pnet) demo_text demo_relay (initial demo_relay) eth0)
    (Ev (Read (fd eth0) buf_size) (Ok pkt) :: t) (demo_read pkt).1.2.
Proof. intros <-. apply run_prog_runs. Qed.

Definition demo_rule : Rule :=
  mk_rule Allow Protocol_Any IpMatcher_Any PortMatcher_Any IpMatcher_Any PortMatcher_Any
    BroadcastType_Any NatOptions_default.

Lemma demo_accepted :
  accepted (filter demo_relay) demo_packet
    (mk_info Protocol_Udp host_50 limited_broadcast 1234 5353)
    demo_rule.
Proof.
  split_and!; [by apply (bool_decide_unpack _); vm_compute | | done | done].
  split; try (vm_compute; reflexivity).
  - split; [vm_compute; reflexivity |]. split; apply Nat.leb_le; vm_compute; reflexivity.
  - split; apply Nat.leb_le; vm_compute; reflexivity.
  - split; vm_compute; [congruence | reflexivity].
Qed.

Lemma initial_ok r : bufs_ok (initial r).
Proof. apply initial_bufs_ok. Qed.

Lemma relay_complete_witness :
  exists t now l,
    accepted (filter demo_relay) demo_packet
      (mk_info Protocol_Udp host_50 limited_broadcast 1234 5353) demo_rule
    /\ (demo_read demo_packet).1.1 = Ev (Read (fd eth0) buf_size) (Ok demo_packet) :: t
    /\ (demo_read demo_packet).1.2 <> Panic
    /\ observe t ++ l = map In (rate_inputs None now)
         ++ map Out (if fst (rate_answer None now)
                     then map (forward (P := ref_pnet) demo_packet
                                 (mk_info Protocol_Udp host_50 limited_broadcast 1234 5353) demo_rule) [eth1]
                     else [])
    /\ ((l = [] /\ exists st', (demo_read demo_packet).1.2 = Ret st' /\ bufs_ok st' /\ limiter st' = None)
        \/ ((demo_read demo_packet).1.2 = Panic /\ verbose demo_relay = true /\ killed t)).
Proof.
  assert (world_ok (demo_read demo_packet).1.1) as Hw by (apply world_okb; vm_compute; reflexivity).
  destruct (demo_read_trace demo_packet) as [t Ht]. pose proof (demo_read_exec _ _ Ht) as He.
  rewrite Ht in Hw.
  destruct (relay_complete (L := ref_pnet_laws) demo_text demo_relay (initial demo_relay) eth0
              demo_packet _ demo_rule t _ (initial_ok _) Hw demo_accepted He)
    as (now & l & Hs & Hend).
  exists t, now, l. split_and!; [exact demo_accepted | exact Ht | | exact Hs | exact Hend].
  apply returnsb. vm_compute. reflexivity.
Defined.

Definition demo_frame : list u8 := snd (fst demo_sent).

Lemma no_relay_loop_witness :
  exists t st', head (sends demo_run.1.1) = Some demo_sent
    /\ (demo_read demo_frame).1.1 = Ev (Read (fd eth0) buf_size) (Ok demo_frame) :: t
    /\ observe t = [] /\ (demo_read demo_frame).1.2 = Ret st'.
Proof.
  assert (world_ok (demo_read demo_frame).1.1) as Hw by (apply world_okb; vm_compute; reflexivity).
  destruct (demo_read_trace demo_frame) as [t Ht]. pose proof (demo_read_exec _ _ Ht) as He.
  rewrite Ht in Hw.
  destruct (until_send_split _ _ demo_sent_head) as (t1 & f & data & addr & x & t2 & Hd & Hs & _).
  assert (demo_frame = data) as Hfr by (unfold demo_frame; rewrite Hs; reflexivity).
  rewrite Hfr in Hw, He.
  destruct (no_relay_loop (L := ref_pnet_laws) demo_text demo_relay 2 _ _ t1 f data addr x t2 demo_relay
              (initial demo_relay) eth0 t _ demo_world demo_exec Hd (initial_ok _) Hw He)
    as (Ho & st' & Hst & _).
  exists t, st'. rewrite Hfr in Ht |- *. split_and!; [exact demo_sent_head | exact Ht | exact Ho | exact Hst].
Defined.

Lemma run_fan_out_witness :
  world_ok demo_run.1.1 /\ length (sends demo_run.1.1) = 2%nat
  /\ (length (sends demo_run.1.1) <= packets_read demo_run.1.1 * length (output_sockets demo_relay))%nat.
Proof.
  split; [exact demo_world | split; [vm_compute; reflexivity |]].
  exact (run_fan_out (L := ref_pnet_laws) demo_text demo_relay 2 _ _ demo_world demo_exec).
Defined.

Lemma run_refines_witness :
  world_ok demo_run.1.1 /\ demo_run.1.2 <> Panic /\
  exists l lim' e,
    relay_steps (P := ref_pnet) demo_relay 2 None (observe demo_run.1.1 ++ l) lim' e
    /\ ((l = [] /\ loop_end demo_run.1.2 lim' e)
        \/ (demo_run.1.2 = Panic /\ died demo_relay demo_run.1.1 /\ Forall idle l)).
Proof.
  split; [exact demo_world | split; [apply returnsb; vm_compute; reflexivity |]].
  exact (run_refines (L := ref_pnet_laws) demo_text demo_relay 2 _ _ demo_world demo_exec).
Defined.

(** A turn that forwards a packet, and a turn where nothing comes. *)
Definition demo_obs : list obs :=
  In (Ev (select_op demo_relay) (Ok (1, [fd eth0])))
  :: (In (Ev (Read (fd eth0) buf_size) (Ok demo_packet))
      :: map Out (forwards (P := ref_pnet) eth0 demo_packet
                    (mk_info Protocol_Udp host_50 limited_broadcast 1234 5353) demo_rule [eth0; eth1]))
  ++ [In (Ev (select_op demo_relay) (Ok (0, [])))].

Lemma demo_steps : relay_steps (P := ref_pnet) demo_relay 2 None demo_obs None None.
Proof.
  apply relay_turn with (lim1 := None) (l2 := [In (Ev (select_op demo_relay) (Ok (0, [])))]); [done | |].
  - change (ready_sockets _ _) with [eth0].
    match goal with |- sockets_step _ _ _ ?l _ => rewrite <- (app_nil_r l) end.
    apply sockets_cons with (lim1 := None); [| constructor].
    apply (step_forward demo_relay eth0 _ _ _ demo_accepted).
  - apply relay_timeout, relay_stop.
Qed.

Lemma demo_obs_ok : Forall (obs_ok event_ok) demo_obs.
Proof. repeat constructor. cbn [obs_ok event_ok]. apply Nat.leb_le. vm_compute. reflexivity. Qed.

Lemma demo_watchable : watchable demo_relay.
Proof. apply (bool_decide_unpack _). vm_compute. exact I. Qed.

Lemma run_realises_witness :
  watchable demo_relay /\ length (outputs demo_obs) = 1%nat /\
  exists t o, exec (run (P := ref_pnet) demo_text demo_relay 2) t o /\ world_ok t
    /\ observe t = demo_obs /\ loop_end o None None.
Proof.
  split; [exact demo_watchable | split; [vm_compute; reflexivity |]].
  exact (run_realises (L := ref_pnet_laws) demo_text demo_relay 2 demo_obs None None demo_watchable
           demo_steps demo_obs_ok).
Defined.

Lemma nat_rewrite_target_spec_witness :
  Ipv4Addr_new 10 0 0 255 ∈ broadcast_addrs eth1
  /\ nat_rewrite_target (Ipv4Addr_new 10 0 0 255) (broadcast_addrs eth1) = Ipv4Addr_new 10 0 0 255.
Proof.
  split; [left |]. apply (nat_rewrite_target_spec (Ipv4Addr_new 10 0 0 255) (broadcast_addrs eth1)). left.
Defined.
