(* ===== verification/RateRelay.v ===== *)
(** * The relay under its rate limiter

    What the bounds of [RateProps] mean for the network: how much the relay may send, and that
    it sends all of a traffic that keeps to the rate. *)

From S2P Require Import Prelude Bytes RustStr Config Filter Checksum Pnet Packet NatRewrite.
From S2P Require Import Sys FdSet Abort F64 F64Round RateLimit RateProps.
From S2P Require Import Error Logging Socket Relay RelayCalls RelaySpec RelayReal RelayProps.

Definition instants_in (l : list obs) : list Z :=
  omap (fun x => match x with In e => instant_of e | Out _ => None end) l.

Lemma instants_in_app l1 l2 : instants_in (l1 ++ l2) = instants_in l1 ++ instants_in l2.
Proof. apply omap_app. Qed.

Lemma instants_in_observe t : instants_in (observe t) = instants t.
Proof.
  unfold instants, instants_in, observe. induction t as [|[X op x] t IH]; [done |].
  cbn [omap list_omap]. by destruct op; cbn; rewrite ?IH.
Qed.

Lemma instants_in_idle l : Forall idle l -> instants_in l = [].
Proof.
  unfold instants_in. induction 1 as [|[[X op x]|s] l Hx _ IH]; cbn [omap list_omap]; [done | | done].
  destruct op; done.
Qed.

Lemma instants_in_out out : instants_in (map Out out) = [].
Proof. by induction out. Qed.

Section relay.
Context {P : Pnet} (r : Relay) (R B : Z).

Let outs : Z := Z.of_nat (length (output_sockets r)).

(** A part of a run, from limiter [rl]: what it sends is paid for by tokens. *)
Definition paid (rl : RateLimiter) (l : list obs) (lim' : option RateLimiter) : Prop :=
  forall t, limiter_ok R B rl t -> Forall instant_ok (instants_in l) ->
  exists rl' t', lim' = Some rl' /\ limiter_ok R B rl' t'
    /\ RateLimit.last rl' = last_asked (RateLimit.last rl) (instants_in l)
    /\ Z.of_nat (length (outputs l)) * one * 10 ^ 9 * 2 ^ 52 + outs * t' * 10 ^ 9 * 2 ^ 52
       <= outs * (t * 10 ^ 9 * 2 ^ 52
                  + (R * waited (RateLimit.last rl) (instants_in l) * one * (2 ^ 52 + 4)
                     + Z.of_nat (length (instants_in l)) * (10 ^ 9 * one * (B + 1)))).

Lemma paid_nothing rl l : instants_in l = [] -> outputs l = [] -> paid rl l (Some rl).
Proof using.
  intros Hi Ho t Hok _. rewrite Hi, Ho. exists rl, t. split_and!; try done. cbn [waited length]. unfold outs. lia.
Qed.

Lemma paid_app rl l1 rl1 l2 lim2 : paid rl l1 (Some rl1) -> paid rl1 l2 lim2 -> paid rl (l1 ++ l2) lim2.
Proof using.
  intros H1 H2 t Hok Hn. rewrite instants_in_app in *. apply Forall_app in Hn as [Hn1 Hn2].
  destruct (H1 t Hok Hn1) as (rl1' & t1 & [= <-] & Hok1 & Hl1 & Hb1).
  destruct (H2 t1 Hok1 Hn2) as (rl2 & t2 & -> & Hok2 & Hl2 & Hb2).
  exists rl2, t2. rewrite outputs_app, waited_app, last_asked_app, !length_app, !Nat2Z.inj_add, <- Hl1.
  split_and!; [done | done | done |]. lia.
Qed.

Lemma packet_step_paid in_sock rl l lim' : packet_step r in_sock (Some rl) l lim' -> paid rl l lim'.
Proof using.
  intros H. remember (Some rl) as lim eqn:Hlim.
  destruct H as [lim e|lim pkt Hno|pkt info rule Hacc|rl0 now rl' pkt info rule b Hacc Hb];
    [subst; by apply paid_nothing.. | done |].
  injection Hlim as ->. set (out := if b then _ else []). intros t Hok.
  change (instants_in (In (Ev (Read (fd in_sock) buf_size) (Ok pkt)) :: In (Ev Instant_now now) :: map Out out))
    with (now :: instants_in (map Out out)).
  change (outputs (In (Ev (Read (fd in_sock) buf_size) (Ok pkt)) :: In (Ev Instant_now now) :: map Out out))
    with (outputs (map Out out)).
  rewrite instants_in_out, outputs_out. intros [Hn _]%Forall_cons_1.
  destruct (allow_at_ok _ _ _ _ _ _ _ Hok Hn Hb) as (t' & Hok' & Hl & Hgain & _).
  exists rl', t'. split_and!; [done | done | done |].
  cbn [waited]. change (length [now]) with 1%nat. rewrite Z.add_0_r.
  pose proof (length_forwards in_sock pkt info rule (output_sockets r)) as Hlen.
  pose proof one_pos. pose proof (gain_split R B (duration_since now (RateLimit.last rl)) 0 0) as Hg.
  rewrite Z.add_0_r in Hg.
  assert (Z.of_nat (length out) * one <= outs * spent b) as Hs
    by (unfold outs, out; destruct b; cbn [spent]; [nia | cbn; lia]).
  assert (outs * ((t' + spent b) * 10 ^ 9 * 2 ^ 52)
          <= outs * (t * 10 ^ 9 * 2 ^ 52 + gain R B (duration_since now (RateLimit.last rl)))) as Ho
    by (apply Z.mul_le_mono_nonneg_l; [unfold outs; lia | done]).
  lia.
Qed.

Lemma sockets_step_paid socks lim l lim' :
  sockets_step r socks lim l lim' -> forall rl, lim = Some rl -> paid rl l lim'.
Proof using.
  induction 1 as [lim|i socks lim l1 lim1 l2 lim2 H1 _ IH]; intros rl ->.
  { by apply paid_nothing. }
  apply packet_step_paid in H1. intros t Hok Hn. rewrite instants_in_app in Hn.
  pose proof (proj1 (Forall_app _ _ _) Hn) as [Hn1 _].
  destruct (H1 t Hok Hn1) as (rl1 & _ & -> & _).
  apply (paid_app _ _ rl1 _ _ H1 (IH _ eq_refl) t Hok). by rewrite instants_in_app.
Qed.

Lemma relay_steps_paid n lim l lim' e :
  relay_steps r n lim l lim' e -> forall rl, lim = Some rl -> paid rl l lim'.
Proof using.
  induction 1 as [lim|n lim e|n ready lim l lim' e _ IH
                 |n c ready lim l1 lim1 l2 lim2 e _ H1 _ IH]; intros rl ->.
  1, 2: by apply paid_nothing.
  - by apply (IH rl).
  - pose proof (sockets_step_paid _ _ _ _ H1 rl eq_refl) as Hp. intros t Hok Hn.
    change (instants_in (_ :: l1 ++ l2)) with (instants_in (l1 ++ l2)) in *.
    change (outputs (_ :: l1 ++ l2)) with (outputs (l1 ++ l2)) in *.
    rewrite instants_in_app in Hn. pose proof (proj1 (Forall_app _ _ _) Hn) as [Hn1 _].
    destruct (Hp t Hok Hn1) as (rl1 & _ & -> & _).
    apply (paid_app _ _ rl1 _ _ Hp (IH _ eq_refl) t Hok). by rewrite instants_in_app.
Qed.
End relay.

(** What [n] packets per output cost, for [asked] questions after the instant [start]. *)
Definition within_rate (outs R B start : Z) (asked : list Z) (sent : nat) : Prop :=
  Z.of_nat sent * 10 ^ 9 * 2 ^ 52
  <= outs * (Z.max B 1 * 10 ^ 9 * 2 ^ 52
             + R * waited start asked * (2 ^ 52 + 4)
             + Z.of_nat (length asked) * (10 ^ 9 * (Z.max B 1 + 1))).

Lemma run_within_rate {P : Pnet} {L : PnetLaws P} {F : FdSets} {FL : FdSetsLaws F} errno_text r R B now n t o :
  0 <= R <= u32_max -> 0 <= B <= u32_max -> instant_ok now ->
  rate_limiter r = Some (new_at R B now) -> Forall instant_ok (instants t) ->
  world_ok t -> exec (run errno_text r n) t o ->
  within_rate (Z.of_nat (length (output_sockets r))) R B now (instants t) (length (sends t)).
Proof.
  unfold u32_max, within_rate. intros HR HB Hnow Hrl Hn Hw He.
  pose proof (new_at_ok R B now ltac:(lia) ltac:(lia) Hnow) as Hok.
  apply run_cases in He as (l & lim' & e & Hsteps & Hend); [| done].
  assert (instants_in l = []) as Hl by (destruct Hend as [[-> _]|(_ & _ & ?)]; [done | by apply instants_in_idle]).
  destruct (relay_steps_paid r R (Z.max B 1) _ _ _ _ _ Hsteps _ Hrl _ Hok) as (rl' & t' & _ & Hok' & _ & Hb);
    [by rewrite instants_in_app, Hl, app_nil_r, instants_in_observe |].
  rewrite instants_in_app, Hl, app_nil_r, instants_in_observe, outputs_app, length_app, outputs_observe in Hb.
  cbn [RateLimit.last new_at] in Hb.
  pose proof (canon_nonneg _ _ (ok_tokens _ _ _ _ Hok')).
  pose proof one_pos as Ho. apply (Z.mul_le_mono_pos_r _ _ one); [done |].
  assert (0 <= Z.of_nat (length (output_sockets r)) * t') by lia. lia.
Qed.

(** The rate limiter bounds what the relay puts on the network.  Over a run of any
    length, whatever is received, the packets sent are at most, for each output interface, the
    burst plus what the rate allows for the time that passed between accepted packets, up to the
    rounding of the doubles. *)
Theorem run_rate_bound {P : Pnet} {L : PnetLaws P} {F : FdSets} {FL : FdSetsLaws F} errno_text r R B rl t0 n t o :
  0 <= R <= u32_max -> 0 <= B <= u32_max ->
  rate_limiter r = Some rl -> exec (RateLimiter_new R B) t0 (Ret rl) ->
  Forall instant_ok (instants t0) -> Forall instant_ok (instants t) ->
  world_ok t -> exec (run errno_text r n) t o ->
  within_rate (Z.of_nat (length (output_sockets r))) R B (RateLimit.last rl) (instants t)
    (length (sends t)).
Proof.
  intros HR HB Hrl (now & t' & -> & -> & [= ->]) Hn0 Hn Hw He.
  apply Forall_cons_1 in Hn0 as [Hnow _]. by apply (run_within_rate errno_text r R B now n t o).
Qed.

(** ** Traffic that keeps to the rate *)

(** The same relay without a limiter. *)
Definition unlimited (r : Relay) : Relay :=
  mk_relay (input_sockets r) (output_sockets r) (filter r) None (verbose r).

Definition untimed_obs (x : obs) : option obs :=
  match x with
  | In e => match instant_of e with Some _ => None | None => Some (In e) end
  | Out s => Some (Out s)
  end.

(** An observation without the questions to the clock. *)
Definition untimed (l : list obs) : list obs := omap untimed_obs l.

Lemma untimed_app l1 l2 : untimed (l1 ++ l2) = untimed l1 ++ untimed l2.
Proof. apply omap_app. Qed.

Lemma untimed_out out : untimed (map Out out) = map Out out.
Proof. unfold untimed. induction out as [|s out IH]; [done |]. cbn. by f_equal. Qed.

Lemma untimed_ok ok l : Forall (obs_ok ok) l -> Forall (obs_ok ok) (untimed l).
Proof.
  unfold untimed. induction 1 as [|[e|s] l Hx _ IH]; cbn; [constructor | | by constructor].
  destruct (instant_of e); [done | by constructor].
Qed.

Lemma paced_app R last ts1 ts2 :
  paced R last (ts1 ++ ts2) <-> paced R last ts1 /\ paced R (last_asked last ts1) ts2.
Proof.
  revert last. induction ts1 as [|now ts1 IH]; intros last; cbn [app paced last_asked]; [tauto |].
  rewrite IH. tauto.
Qed.

Section transparent.
Context {P : Pnet} (r : Relay) (R B : Z).

(** The questions of [l] to limiter [rl] are paced. *)
Definition keeps_pace (rl : RateLimiter) (l : list obs) : Prop :=
  (exists t, limiter_ok R B rl t) /\ Forall instant_ok (instants_in l)
  /\ paced R (RateLimit.last rl) (instants_in l).

Lemma keeps_pace_app rl l1 l2 lim1 :
  keeps_pace rl (l1 ++ l2) -> paid r R B rl l1 lim1 ->
  keeps_pace rl l1 /\ exists rl1, lim1 = Some rl1 /\ keeps_pace rl1 l2.
Proof using.
  unfold keeps_pace. rewrite instants_in_app. intros ((t & Hok) & [Hn1 Hn2]%Forall_app & [Hp1 Hp2]%paced_app) Hpaid.
  destruct (Hpaid t Hok Hn1) as (rl1 & t1 & -> & Hok1 & Hl & _). rewrite <- Hl in Hp2. eauto 10.
Qed.

Lemma packet_step_transparent s rl l lim' :
  packet_step r s (Some rl) l lim' -> keeps_pace rl l -> packet_step (unlimited r) s None (untimed l) None.
Proof using.
  intros H ((t & Hok) & Hn & Hp). remember (Some rl) as lim eqn:Hlim.
  destruct H as [lim e|lim pkt Hno|pkt info rule Hacc|rl0 now rl' pkt info rule b Hacc Hb];
    [by apply step_recv_error | by apply step_drop | done |].
  injection Hlim as ->. apply Forall_cons_1 in Hn as [Hn _]. destruct Hp as [Hgap _].
  pose proof (paced_answers R B rl t [now] Hok) as Hyes. cbn [allow_all_at paced length replicate] in Hyes.
  rewrite Hb in Hyes. destruct b; [| by specialize (Hyes (Forall_cons _ _ _ Hn (Forall_nil _)) (conj Hgap I))].
  change (untimed _) with (In (Ev (Read (fd s) buf_size) (Ok pkt))
    :: untimed (map Out (forwards s pkt info rule (output_sockets r)))).
  rewrite untimed_out. by apply (step_forward (unlimited r)).
Qed.

Lemma sockets_step_transparent socks lim l lim' :
  sockets_step r socks lim l lim' -> forall rl, lim = Some rl -> keeps_pace rl l ->
  sockets_step (unlimited r) socks None (untimed l) None.
Proof using.
  induction 1 as [lim|i socks lim l1 lim1 l2 lim2 H1 _ IH]; intros rl -> Hk; [constructor |].
  destruct (keeps_pace_app _ _ _ _ Hk (packet_step_paid _ R B _ _ _ _ H1)) as (Hk1 & rl1 & -> & Hk2).
  rewrite untimed_app. econstructor; [by eapply packet_step_transparent | by eapply IH].
Qed.

Lemma relay_steps_transparent n lim l lim' e :
  relay_steps r n lim l lim' e -> forall rl, lim = Some rl -> keeps_pace rl l ->
  relay_steps (unlimited r) n None (untimed l) None e.
Proof using.
  induction 1 as [lim|n lim e|n ready lim l lim' e _ IH
                 |n c ready lim l1 lim1 l2 lim2 e Hc H1 _ IH]; intros rl -> Hk.
  - apply relay_stop.
  - apply (relay_select_error (unlimited r)).
  - apply (relay_timeout (unlimited r)) with (ready := ready). by apply (IH rl).
  - destruct (keeps_pace_app rl l1 l2 lim1 Hk (sockets_step_paid _ R B _ _ _ _ H1 rl eq_refl))
      as (Hk1 & rl1 & -> & Hk2).
    change (untimed (_ :: l1 ++ l2)) with (In (Ev (select_op (unlimited r)) (Ok (c, ready))) :: untimed (l1 ++ l2)).
    rewrite untimed_app. eapply (relay_turn (unlimited r)); [done | | by eapply IH].
    by apply (sockets_step_transparent _ _ _ _ H1 rl eq_refl Hk1).
Qed.
End transparent.

Lemma untimed_idle l : Forall idle l -> untimed l = l.
Proof.
  unfold untimed. induction 1 as [|[[X op x]|s] l Hx _ IH]; [done | | cbn; by f_equal].
  destruct op; try done; cbn; by f_equal.
Qed.

(** C7 (liveness): the rate limiter is transparent to traffic that keeps to its rate.  If, in a
    run, the accepted packets come slower than the rate, the relay without limiter has a run
    with the same packets in and the same packets out, in the same order, and the same end; if
    the process dies (of a line that cannot be printed, or at once), a run that starts so. *)
Theorem run_transparent {P : Pnet} {L : PnetLaws P} {F : FdSets} {FL : FdSetsLaws F}
    errno_text r R B rl t0 n t o :
  0 <= R <= u32_max -> 0 <= B <= u32_max ->
  rate_limiter r = Some rl -> exec (RateLimiter_new R B) t0 (Ret rl) ->
  Forall instant_ok (instants t0) -> Forall instant_ok (instants t) ->
  paced R (RateLimit.last rl) (instants t) ->
  world_ok t -> exec (run errno_text r n) t o ->
  exists t' o' l, exec (run errno_text (unlimited r) n) t' o' /\ world_ok t'
    /\ observe t' = untimed (observe t) ++ l
    /\ ((l = [] /\ exists lim' e, loop_end o lim' e /\ loop_end o' None e)
        \/ (o = Panic /\ died r t /\ Forall idle l)).
Proof.
  unfold u32_max. intros HR HB Hrl (now & t' & -> & -> & [= ->]) Hn0 Hn Hp Hw He.
  apply Forall_cons_1 in Hn0 as [Hnow _].
  pose proof (new_at_ok R B now ltac:(lia) ltac:(lia) Hnow) as Hok.
  destruct (decide (watchable r)) as [Hwatch|Hwatch].
  2: { destruct (run_unwatchable errno_text r n t o Hwatch He) as [-> Hend].
       exists []. destruct n as [|n].
       - exists (Ret (Ok (initial (unlimited r)))), []. split_and!; [by split | constructor | done |].
         destruct He as [_ ->]. left. split; [done |]. exists (rate_limiter r), None.
         split; eexists; (split_and!; [done | apply initial_bufs_ok | done]).
       - destruct Hend as [[[=] _]| ->]. exists Panic, []. split_and!; [| constructor | done |].
         + unfold run. cbn [rounds]. unfold round.
           rewrite insert_fds_spec, decide_False by done. by split.
         + right. split_and!; [done | by left | done]. }
  apply run_cases in He as (l & lim' & e & Hsteps & Hend); [| done].
  assert (Forall idle l) as Hidle by (destruct Hend as [[-> _]|(_ & _ & ?)]; done).
  assert (Forall (obs_ok event_ok) (observe t ++ l)) as Hobs.
  { apply Forall_app. split; [by apply observed_ok |]. eapply List.Forall_impl; [| exact Hidle].
    intros [[X op x]|]; [| done]. destruct op; try done. by destruct x. }
  apply (relay_steps_transparent r R (Z.max B 1)) with (rl := new_at R B now) in Hsteps; [| done |].
  2: { unfold keeps_pace. rewrite instants_in_app, (instants_in_idle l Hidle), app_nil_r, instants_in_observe. eauto. }
  destruct (rounds_realised errno_text (unlimited r) _ _ _ _ _ (initial (unlimited r)) Hwatch Hsteps eq_refl (initial_bufs_ok _)
              (untimed_ok _ _ Hobs)) as (o' & (t' & He' & Hw' & Ho') & Hend').
  exists t', (Ret o'), l. rewrite untimed_app, (untimed_idle l Hidle) in Ho'.
  split_and!; [done | by apply calm_world_ok | done |].
  destruct Hend as [[-> Hend]|?]; [left | by right]. split; [done |]. by exists lim', e.
Qed.

(** ** Examples *)

#[local] Existing Instances ref_fdsets ref_fdsets_laws.

(** The relay of [RelayProps] with a limiter of one packet, in a world whose clock stands
    still: of two packets, one is sent. *)
Definition limited_relay : Relay :=
  mk_relay [eth0] [eth0; eth1] (Filter_new allow_all) (Some (new_at 10 1 0)) true.

Definition limited_run :=
  run_prog (calm_world demo_packet) (run (P := ref_pnet) demo_text limited_relay 2) tt.

Lemma run_rate_bound_witness :
  length (sends limited_run.1.1) = 1%nat /\
  within_rate 2 10 1 0 (instants limited_run.1.1) (length (sends limited_run.1.1)).
Proof.
  split; [vm_compute; reflexivity |].
  apply (run_rate_bound (L := ref_pnet_laws) demo_text limited_relay 10 1 (new_at 10 1 0)
           [Ev Instant_now 0] 2 limited_run.1.1 limited_run.1.2);
    [unfold u32_max; lia | unfold u32_max; lia | reflexivity | apply new_exec | | | |].
  - repeat constructor; cbn; done.
  - assert (instants limited_run.1.1 = [0; 0]) as -> by (vm_compute; reflexivity).
    repeat constructor; cbn; done.
  - apply world_okb. vm_compute. reflexivity.
  - apply run_prog_runs.
Defined.

(** A world whose clock advances by 200 milliseconds at each question: no packet is refused. *)
Definition ticking_world (pkt : list u8) : handler Z := fun X op now =>
  match op in sysop X return X * Z with
  | Instant_now => (now, now + 200000000)
  | op => ((calm_world pkt _ op tt).1, now)
  end.

Definition paced_run :=
  run_prog (ticking_world demo_packet) (run (P := ref_pnet) demo_text limited_relay 2) 200000000.

Lemma paced_run_instants : instants paced_run.1.1 = [200000000; 400000000].
Proof. vm_compute. reflexivity. Qed.

Lemma paced_run_world : world_ok paced_run.1.1.
Proof. apply world_okb. vm_compute. reflexivity. Qed.

Lemma run_transparent_witness :
  length (sends paced_run.1.1) = 2%nat /\ paced_run.1.2 <> Panic /\
  exists t' o' l, exec (run (P := ref_pnet) demo_text (unlimited limited_relay) 2) t' o' /\ world_ok t'
    /\ observe t' = untimed (observe paced_run.1.1) ++ l
    /\ ((l = [] /\ exists lim' e, loop_end paced_run.1.2 lim' e /\ loop_end o' None e)
        \/ (paced_run.1.2 = Panic /\ died limited_relay paced_run.1.1 /\ Forall idle l)).
Proof.
  split; [vm_compute; reflexivity | split; [apply returnsb; vm_compute; reflexivity |]].
  apply (run_transparent (L := ref_pnet_laws) demo_text limited_relay 10 1 (new_at 10 1 0)
           [Ev Instant_now 0] 2 paced_run.1.1 paced_run.1.2);
    [unfold u32_max; lia | unfold u32_max; lia | reflexivity | apply new_exec | | | | |].
  - repeat constructor; cbn; done.
  - rewrite paced_run_instants. repeat constructor; cbn; done.
  - rewrite paced_run_instants. cbn. unfold duration_since. lia.
  - exact paced_run_world.
  - apply run_prog_runs.
Defined.
