(* ===== verification/ExampleProps.v ===== *)
(** * What the example configuration does not relay

    [src/examples/sample.conf] has a rule for DHCP "discover/offer broadcasts"; the packet checks
    of [src/src/packet.rs] come before the rules, and a discover comes from 0.0.0.0. *)

From S2P Require Import Prelude Bytes RustStr Config ConfigMatch ExampleConfigs Filter Checksum.
From S2P Require Import Pnet Packet NatRewrite Sys Error Logging Socket RateLimit Relay RelaySpec.
From S2P Require Import FdSet Abort RelayProps.

Definition unspecified : Ipv4Addr := Ipv4Addr_new 0 0 0 0.

(** A DHCP discover (RFC 2131, section 4.1), as the filter sees it. *)
Definition dhcp_discover : PacketInfo :=
  mk_info Protocol_Udp unspecified limited_broadcast 68 67.

Lemma unspecified_not_relayable pkt info : ip_at 12 pkt = unspecified -> ~ relayable pkt info.
Proof. by intros Hsrc [_ _ _ _ _ [Hne _] _]. Qed.

(** C39: the DHCP rule of the example configuration cannot work.  The rule allows a discover, but
    no relay, whatever its configuration and state, sends anything for a packet that comes from
    0.0.0.0, as every discover does. *)
Theorem dhcp_discover_dropped {P : Pnet} {L : PnetLaws P} errno_text r st s pkt t o :
  bufs_ok st -> world_ok (Ev (Read (fd s) buf_size) (Ok pkt) :: t) ->
  ip_at 12 pkt = unspecified ->
  exec (relay_from errno_text r st s) (Ev (Read (fd s) buf_size) (Ok pkt) :: t) o ->
  (exists c, parse sample_conf = Ok c /\ should_relay (Filter_new c) dhcp_discover = true)
  /\ observe t = [].
Proof.
  intros Hok Hw Hsrc He. split.
  { exists (mk_config sample_rules). split; [exact sample_conf_loads | vm_compute; reflexivity]. }
  assert (forall l lim', packet_step r s (limiter st) (In (Ev (Read (fd s) buf_size) (Ok pkt)) :: l) lim' -> l = [])
    as Hstep.
  { intros l lim' [(_ & _ & ->)|(info & rule & _ & (_ & Hrel & _) & _)]%packet_step_read; [done |].
    by apply unspecified_not_relayable in Hrel. }
  destruct (relay_from_cases _ _ _ _ _ _ Hok Hw He) as [(st' & _ & _ & H%Hstep)|(_ & _ & _ & l & lim' & _ & H%Hstep)];
    [exact H | by apply app_eq_nil in H as [? _]].
Qed.

(** A discover on the wire, from port 68 to port 67, its payload left out. *)
Definition discover_packet : list u8 :=
  put 20 (be16 68 ++ be16 67) (sample_udp unspecified limited_broadcast).

Lemma dhcp_discover_dropped_witness :
  ip_at 12 discover_packet = unspecified /\
  exists t, (demo_read discover_packet).1.1 = Ev (Read (fd eth0) buf_size) (Ok discover_packet) :: t
    /\ observe t = [].
Proof.
  split; [vm_compute; reflexivity |].
  assert (world_ok (demo_read discover_packet).1.1) as Hw by (apply world_okb; vm_compute; reflexivity).
  destruct (demo_read_trace discover_packet) as [t Ht]. pose proof (demo_read_exec _ _ Ht) as He.
  rewrite Ht in Hw. exists t. split; [exact Ht |].
  exact (proj2 (dhcp_discover_dropped (L := ref_pnet_laws) demo_text demo_relay (initial demo_relay) eth0
                  discover_packet t _ (initial_ok _) Hw eq_refl He)).
Defined.
