(* ===== verification/Network.v ===== *)
(** * Relays on a network

    Several hosts run the program, on any segments wired in any way, cycles included.  A network
    is the hosts' relays with their states and the frames waiting in sockets' receive queues; a
    step takes one of them off its queue and runs [relay_from] on it, or loses it.  A host whose
    process dies keeps what it has sent on the way, and receives no more.  The theorems
    say why there are no broadcast storms. *)

From stdpp Require Import relations.
From S2P Require Import Prelude Bytes RustStr Config Filter Checksum Pnet Packet NatRewrite.
From S2P Require Import Sys FdSet Abort Error Logging Socket RateLimit Relay RelaySpec RelayReal RelayProps.

(** ** Padding

    A frame arrives with what the link appended to reach its minimal length. *)

Lemma bytes_at_app off n buf pad :
  (off + n <= length buf)%nat -> bytes_at off n (buf ++ pad) = bytes_at off n buf.
Proof.
  intros. unfold bytes_at. rewrite drop_app_le by lia. apply take_app_le. rewrite length_drop. lia.
Qed.

Lemma marked_app buf pad : marked buf -> marked (buf ++ pad).
Proof.
  intros (Hok & H8 & H4). pose proof (header_ok_len _ Hok) as Hlen. destruct Hok as [Hv Hfit].
  unfold marked, header_ok, header_fits, header_len, byte_at, word_at in *.
  rewrite !bytes_at_app by lia. rewrite length_app. split_and!; try done; lia.
Qed.

Lemma Forall_sublist_of {A} (Q : A -> Prop) l l' : l `sublist_of` l' -> Forall Q l' -> Forall Q l.
Proof. rewrite !list.Forall_forall. intros Hs H x Hx. apply H. by eapply elem_of_sublist. Qed.

(** ** Networks *)

(** A frame in the receive queue of a socket of a host. *)
Record hop := mk_hop { host : nat; at_sock : PacketSocket; frame : list u8 }.

(** The relays of the hosts with their states (none: the process died), and the frames to be
    received. *)
Record net := mk_net { hosts : list (Relay * option state); air : list hop }.

Definition left_with (o : outcome state) : option state :=
  match o with Ret st => Some st | Panic => None end.

Section network.
Context {P : Pnet} {L : PnetLaws P}.
Context (errno_text : Errno -> str).
(** The wiring: the sockets, of any host, that hear what a host sends on a descriptor. *)
Context (heard : nat -> Z -> list (nat * PacketSocket)).

(** A copy of each packet sent, for each socket that hears it. *)
Definition copies (i : nat) (out : list sent) : list hop :=
  flat_map (fun s => map (fun js => mk_hop js.1 js.2 s.1.2) (heard i s.1.1)) out.

Definition padded (h h' : hop) : Prop :=
  host h' = host h /\ at_sock h' = at_sock h /\ exists pad, frame h' = frame h ++ pad.

(** What arrives of what is sent: some of the copies, padded. *)
Definition arrives (i : nat) (out : list sent) (new : list hop) : Prop :=
  exists all, Forall2 padded (copies i out) all /\ new `sublist_of` all.

Inductive net_step (n : net) : net -> Prop :=
  | net_relay r st h air1 air2 t o new :
      air n = air1 ++ h :: air2 ->
      hosts n !! host h = Some (r, Some st) ->
      world_ok (Ev (Read (fd (at_sock h)) buf_size) (Ok (frame h)) :: t) ->
      exec (relay_from errno_text r st (at_sock h))
        (Ev (Read (fd (at_sock h)) buf_size) (Ok (frame h)) :: t) o ->
      arrives (host h) (sends t) new ->
      net_step n (mk_net (<[host h := (r, left_with o)]> (hosts n)) (air1 ++ air2 ++ new))
  | net_lost h air1 air2 :
      air n = air1 ++ h :: air2 ->
      net_step n (mk_net (hosts n) (air1 ++ air2)).

(** The buffers of all hosts have their size. *)
Definition net_ok (n : net) : Prop := Forall (fun rs => from_option bufs_ok True rs.2) (hosts n).

(** ** What a frame can cause *)

Definition relays (n : net) : list Relay := map fst (hosts n).

(** The sockets that hear any output of a host. *)
Definition fanout (rs : list Relay) (i : nat) : nat :=
  match rs !! i with
  | Some r => sum_list_with (fun out => length (heard i (fd out))) (output_sockets r)
  | None => 0%nat
  end.

(** A marked frame causes nothing but its reception; another one, a copy for every socket that
    hears the host. *)
Definition weight (rs : list Relay) (h : hop) : nat :=
  if decide (marked (frame h)) then 1%nat else S (fanout rs (host h)).

Definition load (n : net) : nat := sum_list_with (weight (relays n)) (air n).

Lemma length_copies_forwards i s pkt info rule outs :
  (length (copies i (forwards s pkt info rule outs))
   <= sum_list_with (fun out => length (heard i (fd out))) outs)%nat.
Proof using.
  unfold forwards, copies. induction outs as [|out outs IH]; [done |]. cbn [List.filter sum_list_with].
  destruct (eligible _ _ out); cbn [map flat_map]; [| lia]. rewrite length_app, length_map. cbn. lia.
Qed.

Lemma copies_marked i out : Forall (fun s : sent => marked s.1.2) out -> Forall (fun h => marked (frame h)) (copies i out).
Proof using.
  unfold copies. induction 1 as [|s out Hs _ IH]; cbn; [constructor |].
  apply Forall_app. split; [| done]. by induction (heard _ _); constructor.
Qed.

Lemma copies_prefix i out out' : out `prefix_of` out' -> (length (copies i out) <= length (copies i out'))%nat.
Proof using. intros [k ->]. unfold copies. rewrite flat_map_app, length_app. apply Nat.le_add_r. Qed.

Lemma arrives_length i out new : arrives i out new -> (length new <= length (copies i out))%nat.
Proof using. intros (all & ->%Forall2_length & H). by apply sublist_length. Qed.

Lemma arrives_marked i out new :
  arrives i out new -> Forall (fun s : sent => marked s.1.2) out -> Forall (fun h => marked (frame h)) new.
Proof using.
  intros (all & Hpad & Hsub) Hout%(copies_marked i). apply (Forall_sublist_of _ _ _ Hsub). clear Hsub.
  induction Hpad as [|h h' hs hs' (_ & _ & pad & Hf) _ IH]; [constructor |].
  apply Forall_cons_1 in Hout as [Hh Hout]. constructor; [rewrite Hf; by apply marked_app | by apply IH].
Qed.

(** ** Steps *)

(** What a host sends for a frame, and what it is left with. *)
Lemma relay_from_sends r st s pkt t o :
  bufs_ok st -> world_ok (Ev (Read (fd s) buf_size) (Ok pkt) :: t) ->
  exec (relay_from errno_text r st s) (Ev (Read (fd s) buf_size) (Ok pkt) :: t) o ->
  from_option bufs_ok True (left_with o)
    /\ (sends t = []
        \/ ~ marked pkt
           /\ exists info rule, relayable pkt info
                /\ sends t `prefix_of` forwards s pkt info rule (output_sockets r)).
Proof using L.
  intros Hok Hw He.
  assert (forall l lim', packet_step r s (limiter st) (In (Ev (Read (fd s) buf_size) (Ok pkt)) :: l) lim' ->
    outputs l = [] \/ ~ marked pkt /\ exists info rule, relayable pkt info
      /\ outputs l = forwards s pkt info rule (output_sockets r)) as Hstep.
  { intros l lim' [(_ & _ & ->)|(info & rule & now & Hacc & _ & ->)]%packet_step_read; [by left |].
    rewrite outputs_app, outputs_out.
    assert (outputs (map In (rate_inputs (limiter st) now)) = []) as -> by by destruct (limiter st).
    destruct Hacc as (Hm & Hrel & _). destruct (rate_answer _ _).1; [right | by left]. eauto. }
  rewrite <- outputs_observe.
  destruct (relay_from_cases _ _ _ _ _ _ Hok Hw He)
    as [(st' & -> & Hok' & H%Hstep)|(-> & _ & _ & l & lim' & _ & H%Hstep)]; (split; [done |]);
    rewrite ?outputs_app in H; destruct H as [H|(Hm & info & rule & Hrel & H)].
  - by left.
  - right. split; [done |]. exists info, rule. rewrite <- H. by split.
  - left. by apply app_eq_nil in H as [? _].
  - right. split; [done |]. exists info, rule. split; [done |]. rewrite <- H. by apply prefix_app_r.
Qed.

Lemma forwards_marked s pkt info rule outs :
  relayable pkt info -> Forall (fun x : sent => marked x.1.2) (forwards s pkt info rule outs).
Proof using.
  intros Hrel%relayable_nat_ok. unfold forwards. induction (List.filter _ _); constructor; [| done].
  by apply rewritten_marked.
Qed.

(** What every step does: relays stay, buffers keep their size, frames that appear are marked,
    and their number is paid for by the frame taken. *)
Lemma net_step_spec n n' :
  net_ok n -> net_step n n' ->
  net_ok n' /\ relays n' = relays n
  /\ exists h air1 air2 new, air n = air1 ++ h :: air2 /\ air n' = air1 ++ air2 ++ new
       /\ Forall (fun h => marked (frame h)) new /\ (length new < weight (relays n) h)%nat.
Proof using L.
  assert (forall h, 0 < weight (relays n) h)%nat as Hpos by (intros h; unfold weight; case_decide; lia).
  intros Hok [r st h air1 air2 t o new Hair Hh Hw He Harr|h air1 air2 Hair].
  2: { split_and!; [done.. |]. exists h, air1, air2, []. rewrite app_nil_r. by split_and!. }
  pose proof (Forall_lookup_1 _ _ _ _ Hok Hh) as Hb. cbn in Hb.
  destruct (relay_from_sends _ _ _ _ _ _ Hb Hw He) as (Hb' & Hsent).
  split_and!.
  - by apply Forall_insert.
  - unfold relays. cbn [hosts]. rewrite list_fmap_insert. cbn [fst].
    apply list_insert_id. by rewrite list_lookup_fmap, Hh.
  - exists h, air1, air2, new. split_and!; [done | done | |].
    + apply (arrives_marked _ _ _ Harr). destruct Hsent as [->|(_ & info & rule & Hrel & Hs)];
        [constructor |]. pose proof (forwards_marked (at_sock h) _ _ rule (output_sockets r) Hrel) as Hf.
      destruct Hs as [k Hk]. rewrite Hk in Hf. by apply Forall_app in Hf as [Hf _].
    + pose proof (arrives_length _ _ _ Harr) as Hlen. unfold weight.
      destruct Hsent as [Hs|(Hm & info & rule & _ & Hs)].
      * rewrite Hs in Hlen. cbn in Hlen. specialize (Hpos h). unfold weight in Hpos. lia.
      * rewrite decide_False by done. pose proof (copies_prefix (host h) _ _ Hs).
        pose proof (length_copies_forwards (host h) (at_sock h) (frame h) info rule (output_sockets r)).
        unfold fanout, relays. rewrite list_lookup_fmap, Hh. cbn. lia.
Qed.

Lemma load_marked rs new :
  Forall (fun h => marked (frame h)) new -> sum_list_with (weight rs) new = length new.
Proof using.
  induction 1 as [|h new Hh _ IH]; [done |]. cbn. rewrite IH. unfold weight. by rewrite decide_True.
Qed.

Lemma net_step_load n n' : net_ok n -> net_step n n' -> (load n' < load n)%nat.
Proof using L.
  intros Hok (_ & Hrs & h & air1 & air2 & new & Hair & Hair' & Hm & Hlen)%net_step_spec; [| done].
  unfold load. rewrite Hrs, Hair, Hair', !sum_list_with_app. cbn [sum_list_with].
  rewrite (load_marked _ new) by done. lia.
Qed.

(** A frame that a host without limiter accepts can reach every socket that hears an eligible
    output. *)
Lemma net_relays n h air1 air2 r st info rule :
  air n = air1 ++ h :: air2 -> hosts n !! host h = Some (r, Some st) ->
  bufs_ok st -> limiter st = None -> (length (frame h) <= buf_size)%nat ->
  accepted (filter r) (frame h) info rule ->
  exists st', bufs_ok st' /\ limiter st' = None
    /\ net_step n (mk_net (<[host h := (r, Some st')]> (hosts n))
         (air1 ++ air2 ++ copies (host h) (forwards (at_sock h) (frame h) info rule (output_sockets r)))).
Proof using L.
  intros Hair Hh Hok Hlim Hlen Hacc.
  set (out := forwards (at_sock h) (frame h) info rule (output_sockets r)).
  set (read := Ev (Read (fd (at_sock h)) buf_size) (Ok (frame h))).
  assert (packet_step r (at_sock h) (limiter st) (In read :: map Out out) None) as Hstep
    by (rewrite Hlim; by apply step_forward).
  destruct (relay_from_realised errno_text _ _ _ _ _ Hok Hstep) as (st' & (t & He & Hw & Ho) & Hok' & Hlim').
  { constructor; [done | apply obs_ok_out]. }
  exists st'. split_and!; [done | done |].
  assert (exists t', t = read :: t' /\ sends t' = out) as (t' & -> & Hs).
  { destruct He as (x & t' & -> & _). rewrite (proj1 Hok) in Ho. unfold observe in Ho. cbn in Ho.
    pose proof (f_equal head Ho) as Hx. pose proof (f_equal tail Ho) as Ht. cbn in Hx, Ht.
    exists t'. split.
    - rewrite (proj1 Hok).
      pose proof (f_equal (fun o => match o with Some (In e) => e | _ => read end) Hx) as He.
      cbv beta iota in He. by rewrite He.
    - rewrite <- outputs_observe. change (omap obs_of t') with (observe t') in Ht.
      rewrite Ht. apply outputs_out. }
  apply (net_relay n r st h air1 air2 t' (Ret st')); [exact Hair | exact Hh | by apply calm_world_ok | exact He |]. rewrite Hs.
  exists (copies (host h) out). split; [| done].
  clear. induction (copies _ _) as [|c cs IH]; constructor; [| done].
  split_and!; [done | done |]. exists []. by rewrite app_nil_r.
Qed.

(** C2 (termination): relays cannot make a broadcast storm.  However the hosts are wired,
    cycles included, whatever their rules, whatever is padded, lost or reordered, the frames in
    flight cause at most [load n] receptions: one for each marked frame, and for each other
    frame one more than the sockets that hear the host that receives it. *)
Theorem storm_ends k n n' : net_ok n -> nsteps net_step k n n' -> (k + load n' <= load n)%nat.
Proof using L.
  intros Hok Hs. induction Hs as [|k n n1 n' H1 _ IH]; [lia |].
  pose proof (net_step_load _ _ Hok H1). apply net_step_spec in H1 as (Hok1 & _); [| done].
  specialize (IH Hok1). lia.
Qed.

(** C5 (invariant): a datagram is relayed over one hop at most: every frame in flight on a
    network is one that was there at the start, or carries the mark that keeps every relay from
    forwarding it. *)
Theorem one_hop n n' :
  net_ok n -> rtc net_step n n' ->
  net_ok n' /\ relays n' = relays n
  /\ Forall (fun h => h ∈ air n \/ marked (frame h)) (air n').
Proof using L.
  intros Hok Hs. induction Hs as [n|n n1 n' H1 _ IH].
  { split_and!; [done.. |]. apply list.Forall_forall. by left. }
  apply net_step_spec in H1 as (Hok1 & Hrs & h & air1 & air2 & new & Hair & Hair' & Hm & _); [| done].
  destruct (IH Hok1) as (Hok' & Hrs' & Hall). split_and!; [done | congruence |].
  apply (list.Forall_impl _ _ _ Hall). intros h' [Hh'|?]; [| by right]. rewrite Hair' in Hh'. rewrite Hair.
  apply elem_of_app in Hh' as [?|[?|Hnew]%elem_of_app]; [left; set_solver.. |].
  right. by apply (proj1 (list.Forall_forall _ _) Hm).
Qed.
End network.

(** ** A cycle

    Two hosts that both bridge the same two segments, in both directions, and a broadcast that
    both receive: without the mark, it would circulate for ever. *)

Definition cycle_relay : Relay := mk_relay [eth0; eth1] [eth0; eth1] (Filter_new allow_all) None false.

(** Both hosts hear everything on both segments, their own packets included. *)
Definition cycle_heard (_ : nat) (fd : Z) : list (nat * PacketSocket) :=
  if fd =? 3 then [(0%nat, eth0); (1%nat, eth0)] else [(0%nat, eth1); (1%nat, eth1)].

Definition cycle_net : net :=
  mk_net [(cycle_relay, Some (initial cycle_relay)); (cycle_relay, Some (initial cycle_relay))]
    [mk_hop 0 eth0 demo_packet; mk_hop 1 eth0 demo_packet].

Lemma cycle_ok : net_ok cycle_net.
Proof. repeat constructor; apply length_replicate. Qed.

Lemma cycle_load : load cycle_heard cycle_net = 10%nat.
Proof. vm_compute. reflexivity. Qed.

Lemma demo_packet_fits : (length demo_packet <= buf_size)%nat.
Proof. apply Nat.leb_le. vm_compute. reflexivity. Qed.

(** Both hosts relay the broadcast, and their packets are heard. *)
Lemma cycle_steps :
  exists n, nsteps (net_step (P := ref_pnet) demo_text cycle_heard) 2 cycle_net n
    /\ length (air n) = 4%nat.
Proof.
  destruct (net_relays (L := ref_pnet_laws) demo_text cycle_heard cycle_net (mk_hop 0 eth0 demo_packet)
              [] [mk_hop 1 eth0 demo_packet] _ _ _ _ eq_refl eq_refl (initial_bufs_ok _) eq_refl
              demo_packet_fits demo_accepted) as (st1 & Hok1 & Hlim1 & H1).
  set (n1 := mk_net _ _) in H1.
  destruct (net_relays (L := ref_pnet_laws) demo_text cycle_heard n1 (mk_hop 1 eth0 demo_packet)
              [] _ _ _ _ _ eq_refl eq_refl (initial_bufs_ok _) eq_refl
              demo_packet_fits demo_accepted) as (st2 & _ & _ & H2).
  eexists. split; [eapply nsteps_l; [exact H1 |]; eapply nsteps_l; [exact H2 | apply nsteps_O] |].
  cbn [air]. vm_compute. reflexivity.
Qed.

Lemma storm_ends_witness :
  net_ok cycle_net /\ load cycle_heard cycle_net = 10%nat /\
  exists n, nsteps (net_step (P := ref_pnet) demo_text cycle_heard) 2 cycle_net n
    /\ length (air n) = 4%nat /\ (2 + load cycle_heard n <= load cycle_heard cycle_net)%nat.
Proof.
  destruct cycle_steps as (n & Hs & Hlen).
  split; [exact cycle_ok | split; [exact cycle_load |]]. exists n. split; [exact Hs | split; [exact Hlen |]].
  exact (storm_ends (L := ref_pnet_laws) demo_text cycle_heard 2 cycle_net n cycle_ok Hs).
Defined.

Lemma one_hop_witness :
  net_ok cycle_net /\
  exists n, rtc (net_step (P := ref_pnet) demo_text cycle_heard) cycle_net n
    /\ length (air n) = 4%nat
    /\ Forall (fun h => h ∈ air cycle_net \/ marked (frame h)) (air n).
Proof.
  destruct cycle_steps as (n & Hs & Hlen). split; [exact cycle_ok |]. exists n.
  pose proof (rtc_nsteps_2 _ _ _ Hs) as Hr. split; [exact Hr | split; [exact Hlen |]].
  exact (proj2 (proj2 (one_hop (L := ref_pnet_laws) demo_text cycle_heard cycle_net n cycle_ok Hr))).
Defined.
