(* ===== verification/Startup.v ===== *)
(** * Startup and privileges

    Models [src/src/main.rs]: the checks made before any socket is opened, opening the sockets,
    dropping root, and handing over to the relay loop.  [Cli] is what the argument parser
    produced. *)

From S2P Require Import Prelude Bytes RustStr Config Filter Checksum Pnet Packet NatRewrite.
From S2P Require Import Sys FdSet Error Interface Socket RateLimit Relay.

Record Cli := mk_cli {
  input : list str;
  output : list str;
  cli_config : option str;
  user : str;
  no_drop : bool;
  rate_limit : Z;
  rate_burst : option Z;
  cli_verbose : bool
}.

Definition permission_error (text : str) : error := Bcr (BcrError_Permission text).

Definition validate_permissions : prog (result error unit) :=
  euid ← call Geteuid;
  if negb (euid =? 0) then
    Done (Err (permission_error (lit "bcr requires root privileges or CAP_NET_RAW capability")))
  else Done (Ok tt).

(** ** Validation of the environment *)

(** The loops that look each interface of the command line up; [what] is "Input" or "Output". *)
Fixpoint check_interfaces (what : str) (if_names ifs : list str) : result error unit :=
  match ifs with
  | [] => Ok tt
  | if_ :: ifs =>
      if negb (bool_decide (if_ ∈ if_names)) then
        Err (Bcr (BcrError_Interface (what ++ lit " interface " ++ quoted if_ ++ lit " not found or not up")))
      else check_interfaces what if_names ifs
  end.

(** The loop that warns about inputs whose only output is themselves. *)
Fixpoint warn_no_output (output_ifs input_ifs : list str) : prog unit :=
  match input_ifs with
  | [] => Done tt
  | in_if :: input_ifs =>
      _ ← (if negb (existsb (fun o => negb (bool_decide (o = in_if))) output_ifs)
           then eprintln (lit "Warning: input interface " ++ quoted in_if
                  ++ lit " has no distinct output interface; packets received on it will not be relayed (bcr never echoes a packet back out its ingress interface)")
           else Done tt);
      warn_no_output output_ifs input_ifs
  end.

Definition validate_startup (config : Config) (input_ifs output_ifs : list str)
    : prog (result error unit) :=
  let! interfaces := discover_interfaces in
  let if_names := map name (List.filter is_up interfaces) in
  let! _ := Done (check_interfaces (lit "Input") if_names input_ifs) in
  let! _ := Done (check_interfaces (lit "Output") if_names output_ifs) in
  _ ← (if forallb (fun r => bool_decide (action r = Deny)) (rules config)
       then eprintln (lit "Warning: Configuration has no allow rules, no packets will be relayed")
       else Done tt);
  _ ← warn_no_output output_ifs input_ifs;
  Done (Ok tt).

(** ** Dropping privileges *)

Definition drop_privileges (username : str) : prog (result error unit) :=
  let! found := pcontext (call (User_from_name username))
                  (lit "Failed to look up user " ++ quoted username) in
  let! user := Done (ok_or found (permission_error (lit "User " ++ quoted username ++ lit " does not exist"))) in
  let! _ := pcontext (call (Setgroups [user_gid user])) (lit "Failed to drop supplementary groups") in
  let! _ := pcontext (call (Setgid (user_gid user)))
              (lit "Failed to setgid to " ++ show (user_gid user)) in
  let! _ := pcontext (call (Setuid (user_uid user)))
              (lit "Failed to setuid to " ++ show (user_uid user)) in
  regained ← call (Seteuid 0);
  if is_ok regained then
    Done (Err (permission_error (lit "privilege drop failed: process can still regain root")))
  else
    _ ← println (lit "Dropped privileges to " ++ quoted username ++ lit " (uid="
                 ++ show (user_uid user) ++ lit ", gid=" ++ show (user_gid user) ++ lit ")");
    Done (Ok tt).

(** ** [main] *)

Definition load_config (path : option str) : prog (result error Config) :=
  match path with
  | Some path =>
      read ← call (Read_to_string path);
      Done (map_err (fun e => Bcr (BcrError_Config (lit "Failed to load config: " ++ e)))
              (from_file path read))
  | None => Done (Ok allow_all)
  end.

(** The iterator that opens a socket per name, up to the first error; [what] is "input" or
    "output". *)
Fixpoint open_sockets (what : str) (names : list str) : prog (result error (list PacketSocket)) :=
  match names with
  | [] => Done (Ok [])
  | if_name :: names =>
      let! s := pcontext (PacketSocket_new if_name)
                  (lit "Failed to create socket for " ++ what ++ lit " interface " ++ quoted if_name) in
      let! socks := open_sockets what names in
      Done (Ok (s :: socks))
  end.

Definition make_limiter (cli : Cli) : prog (option RateLimiter) :=
  if 0 <? rate_limit cli then
    let burst := default (rate_limit cli) (rate_burst cli) in
    rl ← RateLimiter_new (rate_limit cli) burst;
    Done (Some rl)
  else Done None.

Fixpoint join (sep : str) (parts : list str) : str :=
  match parts with
  | [] => []
  | [p] => p
  | p :: parts => p ++ sep ++ join sep parts
  end.

Definition show_bool (b : bool) : str := if b then lit "true" else lit "false".

Fixpoint print_lines (ls : list str) : prog unit :=
  match ls with
  | [] => Done tt
  | l :: ls => _ ← println l; print_lines ls
  end.

Definition banner (version : str) (cli : Cli) : list str := [
  lit "bcr v" ++ version ++ lit " starting";
  lit "  Input:   " ++ join (lit ", ") (input cli);
  lit "  Output:  " ++ join (lit ", ") (output cli);
  lit "  Config:  " ++ default (lit "(none)") (cli_config cli);
  lit "  Drop to: " ++ (if no_drop cli then lit "(disabled)" else user cli);
  lit "  Rate:    " ++ (if 0 <? rate_limit cli
                       then show (rate_limit cli) ++ lit " pkt/s (burst "
                            ++ show (default (rate_limit cli) (rate_burst cli)) ++ lit ")"
                       else lit "unlimited");
  lit "  Verbose: " ++ show_bool (cli_verbose cli);
  []
].

Section main.
Context {P : Pnet} {F : FdSets}.
Context (errno_text : Errno -> str) (version : str).

(** [main] up to the relay loop. *)
Definition setup (cli : Cli) : prog (result error Relay) :=
  let! _ := validate_permissions in
  let! config := load_config (cli_config cli) in
  let! _ := validate_startup config (input cli) (output cli) in
  let! input_sockets := open_sockets (lit "input") (input cli) in
  let! output_sockets := open_sockets (lit "output") (output cli) in
  let filter := Filter_new config in
  rate_limiter ← make_limiter cli;
  let relay := mk_relay input_sockets output_sockets filter rate_limiter (cli_verbose cli) in
  _ ← print_lines (banner version cli);
  if no_drop cli then
    _ ← eprintln (lit "Warning: --no-drop set, running as root for the entire lifetime");
    Done (Ok relay)
  else
    let! _ := drop_privileges (user cli) in
    Done (Ok relay).

(** [main], for the first [n] turns of the relay loop. *)
Definition main (n : nat) (cli : Cli) : prog (result error state) :=
  let! relay := setup cli in
  run errno_text relay n.
End main.
