(* ===== verification/StartupProps.v ===== *)
(** * What startup guarantees

    The relay loop is only entered by a process that started as root, with the configuration and
    the interfaces it was asked for, and that has verifiably dropped its privileges. *)

From stdpp Require Import gmap sets.
From S2P Require Import Prelude Bytes RustStr Config ConfigMatch ConfigParse Filter Checksum Pnet.
From S2P Require Import Packet NatRewrite.
From S2P Require Import Sys FdSet Abort Error Interface Logging Socket RateLimit Relay RelayCalls.
From S2P Require Import RelaySpec RelayProps Startup.

(** ** Kinds of calls *)

(** Traffic: waiting for packets, receiving and sending them. *)
Definition traffic (e : event) : bool :=
  match e with @Ev _ op _ =>
    match op with Select _ _ | Read _ _ | Sendto _ _ _ => true | _ => false end
  end.

Definition no_traffic (e : event) : Prop := traffic e = false.

Lemma PacketSocket_new_only name : only True no_traffic (PacketSocket_new name).
Proof. unfold PacketSocket_new, attach_packet_filter, call_ctx. repeat only_step; done. Qed.

Lemma open_sockets_only what names : only True no_traffic (open_sockets what names).
Proof.
  induction names as [|n names IH]; cbn [open_sockets]; [done |].
  repeat only_step. apply only_pcontext, PacketSocket_new_only.
Qed.

Lemma warn_no_output_only outs ins : only True no_traffic (warn_no_output outs ins).
Proof. induction ins as [|i ins IH]; cbn [warn_no_output]; repeat only_step; done. Qed.

Lemma print_lines_only ls : only True no_traffic (print_lines ls).
Proof. induction ls as [|l ls IH]; cbn [print_lines]; repeat only_step; done. Qed.

#[export] Hint Resolve PacketSocket_new_only open_sockets_only warn_no_output_only print_lines_only : bcr.

Lemma validate_startup_only c ins outs : only True no_traffic (validate_startup c ins outs).
Proof. unfold validate_startup, discover_interfaces, pnix. repeat only_step. Qed.

Lemma drop_privileges_only u : only True no_traffic (drop_privileges u).
Proof. unfold drop_privileges, pcontext. repeat only_step. Qed.

#[export] Hint Resolve validate_startup_only drop_privileges_only : bcr.

Lemma setup_only {P : Pnet} version cli : only True no_traffic (setup version cli).
Proof.
  unfold setup, validate_permissions, load_config, make_limiter, RateLimiter_new. repeat only_step.
Qed.

(** ** Prints

    Startup panics only when a line cannot be printed. *)

Lemma PacketSocket_new_aborts name : aborts False (PacketSocket_new name).
Proof. unfold PacketSocket_new, attach_packet_filter, call_ctx. repeat abort_step. Qed.

Lemma open_sockets_aborts what names : aborts False (open_sockets what names).
Proof.
  induction names as [|n names IH]; cbn [open_sockets]; [done |]. unfold pcontext.
  repeat (abort_step || apply PacketSocket_new_aborts).
Qed.

Lemma warn_no_output_aborts outs ins : aborts False (warn_no_output outs ins).
Proof. induction ins as [|i ins IH]; cbn [warn_no_output]; repeat abort_step. Qed.

Lemma print_lines_aborts ls : aborts False (print_lines ls).
Proof. induction ls as [|l ls IH]; cbn [print_lines]; repeat abort_step. Qed.

#[export] Hint Resolve open_sockets_aborts warn_no_output_aborts print_lines_aborts : bcr.

Lemma validate_startup_aborts c ins outs : aborts False (validate_startup c ins outs).
Proof. unfold validate_startup, discover_interfaces, pnix. repeat abort_step. Qed.

Lemma drop_privileges_aborts u : aborts False (drop_privileges u).
Proof. unfold drop_privileges, pcontext. repeat abort_step. Qed.

#[export] Hint Resolve validate_startup_aborts drop_privileges_aborts : bcr.

Lemma setup_aborts {P : Pnet} version cli : aborts False (setup version cli).
Proof.
  unfold setup, validate_permissions, load_config, make_limiter, RateLimiter_new. repeat abort_step.
Qed.

(** ** What each part of the startup has done when it succeeds *)

(** An interface that exists and is up: its first entry in the kernel's list says so. *)
Definition up (ifaddrs : list InterfaceAddress) (n : str) : Prop :=
  first_entry ifaddrs (mk_interface n true).

Inductive opened : list str -> list PacketSocket -> list event -> Prop :=
  | opened_nil : opened [] [] []
  | opened_cons n fd idx addrs names socks t :
      opened names socks t ->
      opened (n :: names) (mk_socket fd (as_i32 idx) n (socket_broadcasts n addrs) :: socks)
        (open_trace n fd idx addrs ++ t).

Definition drop_calls (username : str) (u : User) (e : Errno) : list event := [
  Ev (User_from_name username) (Ok (Some u));
  Ev (Setgroups [user_gid u]) (Ok tt);
  Ev (Setgid (user_gid u)) (Ok tt);
  Ev (Setuid (user_uid u)) (Ok tt);
  Ev (Seteuid 0) (Err e)
].

Definition drop_message (username : str) (u : User) : sysop (result Errno unit) :=
  Println (lit "Dropped privileges to " ++ quoted username ++ lit " (uid="
           ++ show (user_uid u) ++ lit ", gid=" ++ show (user_gid u) ++ lit ")").

Definition drop_trace (username : str) (u : User) (e : Errno) : list event :=
  drop_calls username u e ++ [Ev (drop_message username u) (Ok tt)].

Lemma drop_privileges_cases username t o :
  exec (drop_privileges username) t o ->
  (o = Ret (Ok tt) /\ exists u e, t = drop_trace username u e)
  \/ (o = Panic /\ exists u e x, t = drop_calls username u e ++ [Ev (drop_message username u) (Err x)])
  \/ ((exists e, o = Ret (Err e))
      /\ (ends_in_error t \/ t = [Ev (User_from_name username) (Ok None)]
          \/ exists t0, t = t0 ++ [Ev (Seteuid 0) (Ok tt)])).
Proof.
  unfold drop_privileges.
  intros [(e & -> & ->)|(found & t1 & -> & H)]%exec_pcontext; [right; right; eauto with bcr |].
  destruct found as [u|]; cbn [ok_or] in H.
  2: { destruct H as [-> ->]. right. right. eauto. }
  change (exec (let! _ := pcontext (call (Setgroups [user_gid u])) (lit "Failed to drop supplementary groups") in
    let! _ := pcontext (call (Setgid (user_gid u))) (lit "Failed to setgid to " ++ show (user_gid u)) in
    let! _ := pcontext (call (Setuid (user_uid u))) (lit "Failed to setuid to " ++ show (user_uid u)) in
    regained ← call (Seteuid 0);
    if is_ok regained then
      Done (Err (permission_error (lit "privilege drop failed: process can still regain root")))
    else _ ← print (drop_message username u); Done (Ok tt)) t1 o) in H.
  apply exec_pcontext in H as [(e & -> & ->)|([] & t2 & -> & H)]; [right; right; eauto 9 with bcr |].
  apply exec_pcontext in H as [(e & -> & ->)|([] & t3 & -> & H)]; [right; right; eauto 9 with bcr |].
  apply exec_pcontext in H as [(e & -> & ->)|([] & t4 & -> & H)]; [right; right; eauto 9 with bcr |].
  destruct H as ([[]|e] & t5 & -> & H); cbn [is_ok] in H.
  - destruct H as [-> ->]. right. right. split; [eauto |]. right. right.
    by exists [Ev (User_from_name username) (Ok (Some u)); Ev (Setgroups [user_gid u]) (Ok tt);
               Ev (Setgid (user_gid u)) (Ok tt); Ev (Setuid (user_uid u)) (Ok tt)].
  - apply exec_print in H as [(t6 & -> & -> & ->)|(x & -> & ->)].
    + left. split; [done |]. by exists u, e.
    + right. left. split; [done |]. by exists u, e, x.
Qed.

(** C35: dropping privileges succeeds exactly when the user exists, the supplementary groups,
    the group and the user ids are set to that user's, in this order, an attempt to become
    root again has failed, and the message that says so is printed; when all was done but the
    message cannot be printed, it panics, and it never does otherwise; it stops at the first
    call that fails. *)
Theorem drop_privileges_spec username t :
  (exec (drop_privileges username) t (Ret (Ok tt)) <-> exists u e, t = drop_trace username u e)
  /\ (exec (drop_privileges username) t Panic
      <-> exists u e x, t = drop_calls username u e ++ [Ev (drop_message username u) (Err x)])
  /\ (forall err, exec (drop_privileges username) t (Ret (Err err)) ->
        ends_in_error t \/ t = [Ev (User_from_name username) (Ok None)]
        \/ exists t0, t = t0 ++ [Ev (Seteuid 0) (Ok tt)]).
Proof.
  assert (forall u e w t' o, exec (_ ← print (drop_message username u); Done (@Ok error unit tt)) (Ev (drop_message username u) w :: t') o ->
    exec (drop_privileges username) (drop_calls username u e ++ Ev (drop_message username u) w :: t') o) as Hrun.
  { intros u e w t' o H. unfold drop_privileges.
    apply exec_pcontext. right. do 2 eexists. split; [done |]. cbn [ok_or tryp mbind prog_bind_inst prog_bind].
    do 3 (apply exec_pcontext; right; do 2 eexists; split; [done |]).
    exists (Err e), (Ev (drop_message username u) w :: t'). by split. }
  split_and!.
  - split.
    + by intros [[_ ?]|[[[=] _]|[[? [=]] _]]]%drop_privileges_cases.
    + intros (u & e & ->). apply Hrun, exec_print. left. by exists [].
  - split.
    + by intros [[[=] _]|[[_ ?]|[[? [=]] _]]]%drop_privileges_cases.
    + intros (u & e & x & ->). apply Hrun, exec_print. right. by exists x.
  - by intros err [[[=] _]|[[[=] _]|[_ ?]]]%drop_privileges_cases.
Qed.

Lemma check_interfaces_Ok what if_names ifs :
  check_interfaces what if_names ifs = Ok tt <-> Forall (fun n => n ∈ if_names) ifs.
Proof.
  induction ifs as [|n ifs IH]; cbn [check_interfaces]; [done |]. rewrite Forall_cons_iff, <- IH.
  case_bool_decide; cbn [negb]; naive_solver.
Qed.

Lemma up_names ifaddrs n :
  n ∈ map name (List.filter is_up (discover_loop [] ∅ ifaddrs)) <-> up ifaddrs n.
Proof.
  destruct (discover_loop_spec [] ∅ ifaddrs (base.NoDup_nil_2)) as [_ Hin]; [set_solver |].
  rewrite list_elem_of_In, in_map_iff. setoid_rewrite List.filter_In. setoid_rewrite <- list_elem_of_In.
  setoid_rewrite Hin. unfold up. split.
  - intros ([m b] & <- & [H|[_ H]] & Hup); [by apply not_elem_of_nil in H |]. cbn in *. by subst.
  - intros H. exists (mk_interface n true). split_and!; [done | right; set_solver | done].
Qed.

Definition warning (e : event) : Prop := exists text, e = Ev (Eprintln text) (Ok tt).

(** Warnings, of which the last one could not be printed. *)
Definition warned_in_vain (t : list event) : Prop :=
  exists warnings text e, t = warnings ++ [Ev (Eprintln text) (Err e)] /\ Forall warning warnings.

(** Programs that do nothing but print warnings. *)
Definition warns (m : prog unit) : Prop :=
  forall t o, exec m t o -> (o = Ret tt /\ Forall warning t) \/ (o = Panic /\ warned_in_vain t).

Lemma warns_bind {A} m (p : prog A) t o :
  warns m -> exec (_ ← m; p) t o ->
  (o = Panic /\ warned_in_vain t)
  \/ exists w t', t = w ++ t' /\ Forall warning w /\ exec p t' o.
Proof.
  intros Hm [[H ->]|([] & t1 & t2 & H1 & H2 & ->)]%exec_bind.
  - destruct (Hm _ _ H) as [[[=] _]|[_ ?]]. by left.
  - destruct (Hm _ _ H1) as [[_ Hw]|[[=] _]]. right. by exists t1, t2.
Qed.

Lemma warned_in_vain_app w t : Forall warning w -> warned_in_vain t -> warned_in_vain (w ++ t).
Proof.
  intros Hw (w' & text & e & -> & Hw'). exists (w ++ w'), text, e. rewrite <- app_assoc.
  split; [done | by apply Forall_app].
Qed.

Lemma warns_then {A} m1 m2 (a : A) t o :
  warns m1 -> warns m2 -> exec (_ ← m1; _ ← m2; Done a) t o ->
  (o = Ret a /\ Forall warning t) \/ (o = Panic /\ warned_in_vain t).
Proof.
  intros H1 H2 H. destruct (warns_bind _ _ _ _ H1 H) as [?|(w1 & t' & -> & Hw1 & H')]; [by right |].
  destruct (warns_bind _ _ _ _ H2 H') as [[-> ?]|(w2 & t2 & -> & Hw2 & -> & ->)]; [right | left].
  - split; [done | by apply warned_in_vain_app].
  - split; [done |]. rewrite app_nil_r. by apply Forall_app.
Qed.

Lemma warns_if (b : bool) text : warns (if b then eprintln text else Done tt).
Proof.
  intros t o. destruct b; [| intros [-> ->]; by left].
  intros ([[]|e] & t' & -> & [-> ->]); [left | right]; (split; [done |]).
  - by repeat econstructor.
  - by exists [], text, e.
Qed.

Lemma warn_no_output_warns outs ins : warns (warn_no_output outs ins).
Proof.
  induction ins as [|i ins IH]; cbn [warn_no_output]; [intros t o [-> ->]; by left |].
  intros t o H. destruct (warns_bind _ _ _ _ (warns_if _ _) H) as [?|(w & t' & -> & Hw & H')]; [by right |].
  destruct (IH _ _ H') as [[-> ?]|[-> ?]]; [left | right].
  - split; [done | by apply Forall_app].
  - split; [done | by apply warned_in_vain_app].
Qed.

Definition missing_error (what n : str) : error :=
  Bcr (BcrError_Interface (what ++ lit " interface " ++ quoted n ++ lit " not found or not up")).

Lemma check_interfaces_Err what if_names ifs e :
  check_interfaces what if_names ifs = Err e ->
  exists n, n ∈ ifs /\ (n ∉ if_names) /\ e = missing_error what n.
Proof.
  induction ifs as [|n ifs IH]; cbn [check_interfaces]; [done |].
  case_bool_decide as Hn; cbn [negb].
  - intros (m & ? & ? & ?)%IH. exists m. split_and!; [by right | done..].
  - intros [= <-]. exists n. split_and!; [left | done..].
Qed.

Lemma validate_startup_cases c ins outs t o :
  exec (validate_startup c ins outs) t o ->
  (exists ifaddrs warnings, o = Ret (Ok tt) /\ t = Ev Getifaddrs (Ok ifaddrs) :: warnings
     /\ Forall warning warnings /\ Forall (up ifaddrs) (ins ++ outs))
  \/ (exists e, o = Ret (Err (Nix e)) /\ t = [Ev Getifaddrs (Err e)])
  \/ (exists ifaddrs what n, o = Ret (Err (missing_error what n)) /\ t = [Ev Getifaddrs (Ok ifaddrs)]
       /\ n ∈ ins ++ outs /\ ~ up ifaddrs n)
  \/ exists ifaddrs t', o = Panic /\ t = Ev Getifaddrs (Ok ifaddrs) :: t' /\ warned_in_vain t'
       /\ Forall (up ifaddrs) (ins ++ outs).
Proof.
  unfold validate_startup, discover_interfaces.
  intros H. destruct H as ([l|e] & t' & -> & H); cbn [map_err mbind prog_bind_inst prog_bind tryp pnix] in H.
  2: { destruct H as [-> ->]. right. left. by exists e. }
  cbn [call prog_bind] in H. unfold tryp in H. cbn [mbind prog_bind_inst prog_bind] in H.
  set (names := map name _) in H.
  assert (forall n, n ∉ names -> ~ up l n) as Hnot by (intros n Hn Hup; by apply up_names in Hup).
  destruct (check_interfaces (lit "Input") names ins) as [[]|e] eqn:Hin; cbn [prog_bind] in H.
  2: { destruct H as [-> ->]. apply check_interfaces_Err in Hin as (n & ? & ? & ->).
       right. right. left. exists l, (lit "Input"), n. split_and!; [done | done | apply elem_of_app; by left | auto]. }
  destruct (check_interfaces (lit "Output") names outs) as [[]|e] eqn:Hout; cbn [prog_bind] in H.
  2: { destruct H as [-> ->]. apply check_interfaces_Err in Hout as (n & ? & ? & ->).
       right. right. left. exists l, (lit "Output"), n. split_and!; [done | done | apply elem_of_app; by right | auto]. }
  apply check_interfaces_Ok in Hin, Hout. assert (Forall (up l) (ins ++ outs)) as Hup.
  { apply Forall_app. split; eapply List.Forall_impl; [|exact Hin| |exact Hout];
      intros n Hn; by apply up_names. }
  apply (warns_then _ _ _ _ _ (warns_if _ _) (warn_no_output_warns outs ins)) in H as [[-> Hw]|[-> Hw]].
  - left. by exists l, t'.
  - right. right. right. by exists l, t'.
Qed.

(** C36: startup validation reads the interface list once, and passes exactly when every
    interface of the command line is in that list and up; what it prints on the way are only
    warnings; otherwise the error names an interface that is missing or down.  It panics only
    when the interfaces are up and a warning cannot be printed. *)
Theorem validate_startup_spec c ins outs t o :
  exec (validate_startup c ins outs) t o ->
  (exists ifaddrs warnings, o = Ret (Ok tt) /\ t = Ev Getifaddrs (Ok ifaddrs) :: warnings
     /\ Forall warning warnings /\ Forall (up ifaddrs) (ins ++ outs))
  \/ (exists e, o = Ret (Err (Nix e)) /\ t = [Ev Getifaddrs (Err e)])
  \/ (exists ifaddrs what n, o = Ret (Err (missing_error what n)) /\ t = [Ev Getifaddrs (Ok ifaddrs)]
       /\ n ∈ ins ++ outs /\ ~ up ifaddrs n)
  \/ exists ifaddrs t', o = Panic /\ t = Ev Getifaddrs (Ok ifaddrs) :: t' /\ warned_in_vain t'
       /\ Forall (up ifaddrs) (ins ++ outs).
Proof. apply validate_startup_cases. Qed.

Lemma open_sockets_Ok what names socks t :
  exec (open_sockets what names) t (Ret (Ok socks)) -> opened names socks t.
Proof.
  revert socks t. induction names as [|n names IH]; intros socks t; cbn [open_sockets].
  - intros [-> [= ->]]. constructor.
  - intros (s & t1 & t2 & H1%exec_pcontext_Ok & H2 & ->)%exec_tryp_Ok.
    apply exec_tryp_Ok in H2 as (socks' & t3 & t4 & H2 & [-> [= ->]] & ->). rewrite app_nil_r.
    apply PacketSocket_new_cases in H1 as [[_ [? [=]]]|(fd & idx & addrs & -> & [= ->])].
    constructor. by apply IH.
Qed.

Lemma opened_names names socks t : opened names socks t -> map ifname socks = names.
Proof. induction 1; cbn; congruence. Qed.

(** The configuration a command line asks for. *)
Definition loaded (path : option str) (c : Config) (t : list event) : Prop :=
  match path with
  | None => c = allow_all /\ t = []
  | Some path => exists content, t = [Ev (Read_to_string path) (Ok content)] /\ parse content = Ok c
  end.

Lemma load_config_Ok path c t : exec (load_config path) t (Ret (Ok c)) -> loaded path c t.
Proof.
  destruct path as [path|]; cbn [load_config]; [| by intros [-> [= ->]]].
  intros (read & t' & -> & -> & H). unfold from_file, with_context in H.
  destruct read as [content|e]; cbn in H; [| done].
  destruct (parse content) as [c'|] eqn:E; cbn in H; simplify_eq. by exists content.
Qed.

Lemma loaded_wf path c t : loaded path c t -> config_wf c.
Proof.
  destruct path; cbn; [intros (content & _ & H); by apply parse_config_wf in H |].
  intros [-> _]. apply allow_all_wf.
Qed.

(** The limiter a command line asks for. *)
Definition limited (cli : Cli) (l : option RateLimiter) (t : list event) : Prop :=
  if 0 <? rate_limit cli then
    exists now, t = [Ev Instant_now now]
      /\ l = Some (new_at (rate_limit cli) (default (rate_limit cli) (rate_burst cli)) now)
  else l = None /\ t = [].

Lemma make_limiter_exec cli t o :
  exec (make_limiter cli) t o -> exists l, o = Ret l /\ limited cli l t.
Proof.
  unfold make_limiter, limited. destruct (0 <? rate_limit cli); [| by intros [-> ->]; eauto].
  intros (now & t' & -> & -> & ->). eauto 10.
Qed.

Definition printed (ls : list str) : list event := map (fun l => Ev (Println l) (Ok tt)) ls.

Lemma print_lines_exec ls t : exec (print_lines ls) t (Ret tt) -> t = printed ls.
Proof.
  revert t. induction ls as [|l ls IH]; intros t; cbn [print_lines]; [by intros [-> _] |].
  intros [(t' & -> & H)|(e & _ & [=])]%exec_print. by rewrite (IH _ H).
Qed.

(** How a process gets rid of root, or announces that it keeps it. *)
Definition dropped (cli : Cli) (t : list event) : Prop :=
  if no_drop cli
  then t = [Ev (Eprintln (lit "Warning: --no-drop set, running as root for the entire lifetime")) (Ok tt)]
  else exists u e, t = drop_trace (user cli) u e.

(** What a startup that handed [relay] over has established, and the calls it made, phase by
    phase. *)
Record started (version : str) (cli : Cli) (relay : Relay) (t : list event) (c : Config)
    (ifaddrs : list InterfaceAddress) (t_config warnings t_in t_out t_rate t_drop : list event) : Prop := {
  st_trace : t = Ev Geteuid 0 :: t_config ++ Ev Getifaddrs (Ok ifaddrs) :: warnings ++ t_in ++ t_out
                 ++ t_rate ++ printed (banner version cli) ++ t_drop;
  st_config : loaded (cli_config cli) c t_config;
  st_filter : filter relay = Filter_new c;
  st_up : Forall (up ifaddrs) (input cli ++ output cli);
  st_warnings : Forall warning warnings;
  st_input : opened (input cli) (input_sockets relay) t_in;
  st_output : opened (output cli) (output_sockets relay) t_out;
  st_rate : limited cli (rate_limiter relay) t_rate;
  st_verbose : verbose relay = cli_verbose cli;
  st_drop : dropped cli t_drop
}.

Lemma setup_started version cli relay t :
  exec (setup version cli) t (Ret (Ok relay)) ->
  exists c ifaddrs t_config warnings t_in t_out t_rate t_drop,
    started version cli relay t c ifaddrs t_config warnings t_in t_out t_rate t_drop.
Proof.
  unfold setup. intros ([] & t1 & t2 & H1 & H & ->)%exec_tryp_Ok.
  destruct H1 as (euid & t' & -> & H1). cbn [mbind prog_bind_inst prog_bind] in H1.
  destruct (euid =? 0) eqn:E; unbool; cbn [negb] in H1; [subst | by destruct H1 as [_ ?]].
  destruct H1 as [-> _].
  apply exec_tryp_Ok in H as (c & t3 & t4 & H2%load_config_Ok & H & ->).
  apply exec_tryp_Ok in H as ([] & t5 & t6 & H3 & H & ->).
  apply validate_startup_cases in H3 as [(ifaddrs & w & _ & -> & Hw & Hup)|[(? & [=] & _)|[(? & ? & ? & [=] & _)|(? & ? & [=] & _)]]].
  apply exec_tryp_Ok in H as (ins & t7 & t8 & H4%open_sockets_Ok & H & ->).
  apply exec_tryp_Ok in H as (outs & t9 & t10 & H5%open_sockets_Ok & H & ->).
  apply exec_bind in H as [[_ [=]]|(l & t11 & t12 & H6 & H & ->)].
  apply make_limiter_exec in H6 as (l' & [= <-] & H6).
  apply exec_bind in H as [[_ [=]]|([] & t13 & t14 & H7 & H & ->)].
  apply print_lines_exec in H7 as ->.
  assert (relay = mk_relay ins outs (Filter_new c) l (cli_verbose cli) /\ dropped cli t14) as [-> Hd].
  { unfold dropped. destruct (no_drop cli).
    - by apply exec_print in H as [(t' & -> & -> & [= ->])|(e & _ & [=])].
    - apply exec_tryp_Ok in H as ([] & t15 & t16 & H & [-> [= ->]] & ->). rewrite app_nil_r.
      by apply drop_privileges_cases in H as [[_ ?]|[[[=] _]|[[? [=]] _]]]. }
  exists c, ifaddrs, t3, w, t7, t9, t11, t14. by split.
Qed.

