(* ===== verification/MainProps.v ===== *)
(** * What the whole program guarantees

    The theorems on [main], from the command line to the packets on the wire: traffic flows only
    behind a complete startup and a verified privilege drop, and what is sent is what the
    configuration that was loaded allows. *)

From S2P Require Import Prelude Bytes RustStr Config ConfigMatch ConfigParse Filter Checksum Pnet.
From S2P Require Import Packet NatRewrite.
From S2P Require Import Sys FdSet Abort Error Interface Logging Socket RateLimit Relay RelayCalls.
From S2P Require Import RelaySpec RelayProps Startup StartupProps.

Section main.
Context {P : Pnet} {L : PnetLaws P} {F : FdSets} {FL : FdSetsLaws F}.
Context (errno_text : Errno -> str) (version : str).

Lemma main_cases n cli t o :
  exec (main errno_text version n cli) t o ->
  (Forall no_traffic t /\ ((exists e, o = Ret (Err e)) \/ (o = Panic /\ killed t)))
  \/ exists relay t1 t2, t = t1 ++ t2 /\ Forall no_traffic t1 /\ Forall (fun e => print_failed e = false) t1
       /\ exec (setup version cli) t1 (Ret (Ok relay)) /\ exec (run errno_text relay n) t2 o.
Proof using.
  assert (forall t o, exec (setup version cli) t o -> Forall no_traffic t) as Hno
    by (intros t' o' H; by apply (only_exec True no_traffic) in H as [? _]; [| apply setup_only]).
  pose proof (setup_aborts version cli) as Hab.
  intros [[H ->]|[(e & H & ->)|(relay & t1 & t2 & H1 & H2 & ->)]]%exec_tryp.
  - left. split; [by eapply Hno | right]. by destruct (aborts_exec _ _ _ _ Hab H) as [[_ []]|[_ ?]].
  - left. split; [by eapply Hno | eauto].
  - right. exists relay, t1, t2. split_and!; [done | by eapply Hno | | done..].
    by destruct (aborts_exec _ _ _ _ Hab H1) as [[? _]|[[=] _]].
Qed.

Lemma opened_socket names socks t s : opened names socks t -> s ∈ socks -> Ev Socket (Ok (fd s)) ∈ t.
Proof using.
  induction 1 as [|n f idx addrs names socks t _ IH]; [by intros ?%not_elem_of_nil |].
  intros [->|Hs]%elem_of_cons; apply elem_of_app; [left; left | right; by apply IH].
Qed.

Lemma not_watchable_socket relay : ~ watchable relay -> exists s, s ∈ input_sockets relay /\ ~ selectable (fd s).
Proof using. by intros (s & ? & ?)%not_Forall_Exists%list.Exists_exists; [exists s | apply _]. Qed.

(** C13: traffic flows only behind a complete startup: a run either ends without waiting for,
    reading or sending a single packet, or its calls are those of a startup that succeeded
    (started as root, the configuration asked for loaded, every interface up, one socket opened
    for each name, in order, the rate limiter asked for, and the privileges dropped) followed by
    those of the relay loop on the relay it set up.  The program panics only when its last call
    was to print a line that could not be printed, or when the kernel gave it a descriptor that
    is too large for [select]. *)
Theorem main_starts n cli t o :
  world_ok t -> exec (main errno_text version n cli) t o ->
  (o = Panic -> killed t \/ exists fd, Ev Socket (Ok fd) ∈ t /\ ~ selectable fd)
  /\ ((Forall no_traffic t /\ ((exists e, o = Ret (Err e)) \/ o = Panic))
      \/ exists relay t1 t2 c ifaddrs t_config warnings t_in t_out t_rate t_drop,
           t = t1 ++ t2
           /\ started version cli relay t1 c ifaddrs t_config warnings t_in t_out t_rate t_drop
           /\ Forall no_traffic t1 /\ exec (run errno_text relay n) t2 o).
Proof using L FL.
  intros Hw He. apply main_cases in He as [[Ht Ho]|(relay & t1 & t2 & -> & Hno & Hpr & Hs & Hr)].
  - split; [| left; split; [done |]; naive_solver].
    intros ->. left. by destruct Ho as [[? [=]]|[_ ?]].
  - apply world_ok_app in Hw as [_ Hw].
    apply setup_started in Hs as (c & ifaddrs & ta & tb & tc & td & te & tf & Hs). split.
    + intros ->. apply run_cases in Hr as (l & lim' & e & _ & Hend); [| done].
      destruct Hend as [[_ Hend]|(_ & [Hd|[_ Hk]] & _)].
      * destruct e as [e|]; cbn in Hend; [done | by destruct Hend as (? & [=] & _)].
      * right. apply not_watchable_socket in Hd as (s & Hin & Hfd). exists (fd s). split; [| done].
        pose proof (opened_socket _ _ _ _ (st_input _ _ _ _ _ _ _ _ _ _ _ _ Hs) Hin) as Hev.
        apply elem_of_app. left. rewrite (st_trace _ _ _ _ _ _ _ _ _ _ _ _ Hs).
        apply elem_of_cons. right. apply elem_of_app. right. apply elem_of_cons. right.
        apply elem_of_app. right. apply elem_of_app. by left.
      * left. by apply killed_app.
    + right. by exists relay, t1, t2, c, ifaddrs, ta, tb, tc, td, te, tf.
Qed.

(** What the loop never calls. *)
Lemma run_loop_calls relay n t o :
  exec (run errno_text relay n) t o -> Forall (fun e => loop_call (verbose relay) e = true) t.
Proof using.
  intros H. by apply (only_exec True (fun e => loop_call (verbose relay) e = true)) in H as [? _]; [| apply run_only].
Qed.

Lemma app_split_no_traffic t1 t2 ta e tb :
  t1 ++ t2 = ta ++ e :: tb -> Forall no_traffic t1 -> traffic e = true ->
  exists tc, ta = t1 ++ tc /\ t2 = tc ++ e :: tb.
Proof using.
  revert ta. induction t1 as [|x t1 IH]; intros ta Heq Hno He; [by exists ta |].
  apply Forall_cons_1 in Hno as [Hx Hno]. destruct ta as [|y ta]; cbn in Heq; simplify_eq.
  - red in Hx. congruence.
  - destruct (IH _ H0 Hno He) as (tc & -> & ->). by exists tc.
Qed.

(** C12 (safety): least privilege.  Unless told not to, no packet is waited for, read or sent
    before the process has set its supplementary groups, group and user to the unprivileged
    user's and has checked that it cannot become root again; and from that point on the process
    makes no other calls than those of the relay loop, and prints only if it is verbose. *)
Theorem privileges_dropped_first n cli t o ta e tb :
  no_drop cli = false -> exec (main errno_text version n cli) t o ->
  t = ta ++ e :: tb -> traffic e = true ->
  exists u err before after,
    ta = before ++ drop_trace (user cli) u err ++ after
    /\ Forall no_traffic before
    /\ Forall (fun e => loop_call (cli_verbose cli) e = true) (after ++ e :: tb).
Proof using.
  intros Hnd He -> Ht. apply main_cases in He as [[Hno _]|(relay & t1 & t2 & Heq & Hno & _ & Hs & Hr)].
  { apply Forall_app in Hno as [_ Hno]. apply Forall_cons_1 in Hno as [Hno _]. red in Hno. congruence. }
  symmetry in Heq. destruct (app_split_no_traffic _ _ _ _ _ Heq Hno Ht) as (tc & -> & ->).
  apply setup_started in Hs as (c & ifaddrs & t_config & w & t_in & t_out & t_rate & t_drop & Hs).
  pose proof (st_drop _ _ _ _ _ _ _ _ _ _ _ _ Hs) as Hd. unfold dropped in Hd. rewrite Hnd in Hd.
  destruct Hd as (u & err & Hd). pose proof (st_trace _ _ _ _ _ _ _ _ _ _ _ _ Hs) as Htr.
  exists u, err, (Ev Geteuid 0 :: t_config ++ Ev Getifaddrs (Ok ifaddrs) :: w ++ t_in ++ t_out
                  ++ t_rate ++ printed (banner version cli)), tc.
  assert (t1 = (Ev Geteuid 0 :: t_config ++ Ev Getifaddrs (Ok ifaddrs) :: w ++ t_in ++ t_out
                  ++ t_rate ++ printed (banner version cli)) ++ drop_trace (user cli) u err) as Heq1.
  { rewrite Htr, Hd. cbn [app]. f_equal. rewrite <- !app_assoc. cbn [app]. by rewrite <- !app_assoc. }
  split_and!; [by rewrite Heq1, <- !app_assoc | |
    rewrite <- (st_verbose _ _ _ _ _ _ _ _ _ _ _ _ Hs); by apply run_loop_calls in Hr].
  rewrite Heq1 in Hno. by apply Forall_app in Hno as [? _].
Qed.

(** A process that is not root gets a permission error and makes no call but the one that
    tells it so. *)
Theorem main_requires_root n cli uid t o :
  uid <> 0 -> exec (main errno_text version n cli) (Ev Geteuid uid :: t) o ->
  t = [] /\ o = Ret (Err (permission_error (lit "bcr requires root privileges or CAP_NET_RAW capability"))).
Proof using.
  intros Huid He. unfold main, setup, validate_permissions in He.
  destruct He as (uid' & t' & Heq & He).
  assert (uid' = uid) as ->.
  { pose (f := fun e : event => match e with @Ev X op x =>
      match op in sysop X return X -> option Z with Geteuid => Some | _ => fun _ => None end x end).
    pose proof (f_equal (fun l => head l ≫= f) Heq) as H. by injection H. }
  assert (t = t') as -> by exact (f_equal tail Heq). clear Heq.
  unfold tryp in He. cbn [mbind prog_bind_inst prog_bind] in He.
  rewrite (proj2 (Z.eqb_neq _ _) Huid) in He. cbn [negb prog_bind] in He. exact He.
Qed.

(** C1: a started relay sends only what its configuration allows, from one interface of the
    command line to another.  Whenever the program sends a packet, it has started up, and with
    the sockets it opened and the configuration it loaded then (that of the file it was given, or
    the default that allows all): the packet it read last came in on an input socket, and the
    first matching rule of the configuration allows it; what is sent is its rewriting, well
    formed, marked and with valid checksums, on an output socket of another interface. *)
Theorem main_safe n cli t o t1 f data addr x t2 :
  world_ok t -> exec (main errno_text version n cli) t o ->
  t = t1 ++ Ev (Sendto f data addr) x :: t2 ->
  exists relay ts c ifaddrs t_config warnings t_in t_out t_rate t_drop in_sock out pkt info rule tr tq,
    t1 = ts ++ tr ++ Ev (Read (fd in_sock) buf_size) (Ok pkt) :: tq
    /\ started version cli relay ts c ifaddrs t_config warnings t_in t_out t_rate t_drop
    /\ in_sock ∈ input_sockets relay /\ out ∈ output_sockets relay
    /\ Forall (fun e => read_of e = None) tq
    /\ accepted (Filter_new c) pkt info rule
    /\ ifname in_sock ∈ input cli /\ ifname out ∈ output cli /\ ifname in_sock <> ifname out
    /\ wire_ok pkt rule out (f, data, addr) data addr.
Proof using L FL.
  intros Hw He ->. apply main_cases in He as [[Hno _]|(relay & ts & tl & Heq & Hno & _ & Hsetup & Hr)].
  { exfalso. apply Forall_app in Hno as [_ Hno]. by apply Forall_cons_1 in Hno as [Hno _]. }
  symmetry in Heq. destruct (app_split_no_traffic _ _ _ _ _ Heq Hno eq_refl) as (tc & -> & ->).
  rewrite <- app_assoc in Hw. apply world_ok_app in Hw as [_ Hw].
  apply setup_started in Hsetup as (c & ifaddrs & ta & tb & tcc & td & te & tf & Hst).
  destruct (run_forwarded _ _ _ _ _ _ _ _ _ _ _ Hw Hr eq_refl) as (i & out & pkt & info & rule & Hf).
  pose proof (fwd_accepted _ _ _ _ _ _ _ _ Hf) as Hacc.
  rewrite (st_filter _ _ _ _ _ _ _ _ _ _ _ _ Hst) in Hacc.
  pose proof (st_config _ _ _ _ _ _ _ _ _ _ _ _ Hst) as Hload.
  destruct (forward_wire (Filter_new c) _ _ _ out (loaded_wf _ _ _ Hload) Hacc) as (frame & addr' & Hwire).
  rewrite <- (fwd_sent _ _ _ _ _ _ _ _ Hf) in Hwire.
  pose proof (wire_sent _ _ _ _ _ _ Hwire) as Heqs. injection Heqs as -> <- <-.
  destruct (fwd_read _ _ _ _ _ _ _ _ Hf) as (tr & tq & -> & Htq).
  pose proof (fwd_in _ _ _ _ _ _ _ _ Hf) as Hin. pose proof (fwd_out _ _ _ _ _ _ _ _ Hf) as Hout.
  exists relay, ts, c, ifaddrs, ta, tb, tcc, td, te, tf, i, out, pkt, info, rule, tr, tq.
  assert (forall names socks tr x, opened names socks tr -> x ∈ socks -> ifname x ∈ names) as Hop.
  { intros names socks tr' x' Ho Hx. rewrite <- (opened_names _ _ _ Ho).
    apply list_elem_of_In, in_map. by apply list_elem_of_In. }
  split; [done |]. split; [exact Hst |]. split; [exact Hin |]. split; [exact Hout |].
  split; [done |]. split; [exact Hacc |]. split_and!; [| | | done].
  - eapply Hop; [apply (st_input _ _ _ _ _ _ _ _ _ _ _ _ Hst) | exact Hin].
  - eapply Hop; [apply (st_output _ _ _ _ _ _ _ _ _ _ _ _ Hst) | exact Hout].
  - apply (should_relay_to_true (pkt_dst_ip info) _ _ (broadcast_addrs out)).
    apply (fwd_eligible _ _ _ _ _ _ _ _ Hf).
Qed.
End main.

(** ** A run of the program *)

#[local] Existing Instances ref_fdsets ref_fdsets_laws.

(** A host with two interfaces, on which every ready socket delivers [pkt]; the state is the
    next file descriptor. *)
Definition lan_world (pkt : list u8) : handler Z := fun X op s =>
  let s' := match op with Socket => s + 1 | _ => s end in
  (match op in sysop X return X with
   | Geteuid => 0
   | Read_to_string _ => Ok (lit "allow udp any:any any:5353")
   | Getifaddrs => Ok [
       mk_ifaddr (lit "lo") true None;
       mk_ifaddr (lit "eth0") true (Some (Sockaddr_in (Ipv4Addr_new 192 168 1 255)));
       mk_ifaddr (lit "eth1") true (Some (Sockaddr_in (Ipv4Addr_new 10 0 0 255)));
       mk_ifaddr (lit "eth0") true (Some Sockaddr_other)]
   | Socket => Ok s
   | If_nametoindex n => if bool_decide (n = lit "eth0") then Ok 2 else Ok 3
   | Bind _ _ => Ok tt
   | Add_membership_allmulti _ _ => Ok tt
   | Attach_filter _ _ => Ok tt
   | User_from_name _ => Ok (Some (mk_user 65534 65534))
   | Setgroups _ => Ok tt
   | Setgid _ => Ok tt
   | Setuid _ => Ok tt
   | Seteuid _ => Err 1
   | Select fds _ => Ok (Z.of_nat (length fds), fds)
   | Read _ _ => Ok pkt
   | Sendto _ data _ => Ok (Z.of_nat (length data))
   | Instant_now => 0
   | Println _ => Ok tt
   | Eprintln _ => Ok tt
   end, s').

Definition demo_cli : Cli :=
  mk_cli [lit "eth0"] [lit "eth0"; lit "eth1"] (Some (lit "bcr.conf")) (lit "nobody") false 0 None false.

Definition demo_main :=
  run_prog (lan_world demo_packet) (main (P := ref_pnet) demo_text (lit "0.1.0") 1 demo_cli) 3.

Example demo_main_sends :
  map (fun s => (fst (fst s), ip_at 16 (snd (fst s)))) (sends demo_main.1.1)
  = [(5, Ipv4Addr_new 10 0 0 255)].
Proof. vm_compute. reflexivity. Qed.

Lemma demo_main_exec :
  exec (main (P := ref_pnet) demo_text (lit "0.1.0") 1 demo_cli) demo_main.1.1 demo_main.1.2.
Proof. apply run_prog_runs. Qed.

Lemma demo_main_world : world_ok demo_main.1.1.
Proof. apply world_okb. vm_compute. reflexivity. Qed.

Definition demo_main_sent : sent :=
  default (0, [], send_address eth1 []) (head (sends demo_main.1.1)).

Lemma demo_main_sent_head : head (sends demo_main.1.1) = Some demo_main_sent.
Proof. vm_compute. reflexivity. Qed.

Lemma main_starts_witness :
  world_ok demo_main.1.1 /\ length (sends demo_main.1.1) = 1%nat
  /\ ((Forall no_traffic demo_main.1.1 /\ ((exists e, demo_main.1.2 = Ret (Err e)) \/ demo_main.1.2 = Panic))
      \/ exists relay t1 t2 c ifaddrs t_config warnings t_in t_out t_rate t_drop,
           demo_main.1.1 = t1 ++ t2
           /\ started (lit "0.1.0") demo_cli relay t1 c ifaddrs t_config warnings t_in t_out t_rate t_drop
           /\ Forall no_traffic t1 /\ exec (run (P := ref_pnet) demo_text relay 1) t2 demo_main.1.2).
Proof.
  split; [exact demo_main_world | split; [vm_compute; reflexivity |]].
  exact (proj2 (main_starts (L := ref_pnet_laws) demo_text (lit "0.1.0") 1 demo_cli _ _
                  demo_main_world demo_main_exec)).
Defined.

Lemma main_safe_witness :
  exists t1 f data addr x t2, demo_main.1.1 = t1 ++ Ev (Sendto f data addr) x :: t2 /\
  exists relay ts c ifaddrs t_config warnings t_in t_out t_rate t_drop in_sock out pkt info rule tr tq,
    t1 = ts ++ tr ++ Ev (Read (fd in_sock) buf_size) (Ok pkt) :: tq
    /\ started (lit "0.1.0") demo_cli relay ts c ifaddrs t_config warnings t_in t_out t_rate t_drop
    /\ in_sock ∈ input_sockets relay /\ out ∈ output_sockets relay
    /\ Forall (fun e => read_of e = None) tq
    /\ accepted (Filter_new c) pkt info rule
    /\ ifname in_sock ∈ input demo_cli /\ ifname out ∈ output demo_cli /\ ifname in_sock <> ifname out
    /\ wire_ok pkt rule out (f, data, addr) data addr.
Proof.
  destruct (until_send_split _ _ demo_main_sent_head) as (t1 & f & data & addr & x & t2 & Ht & _ & _).
  exists t1, f, data, addr, x, t2. split; [exact Ht |].
  exact (main_safe (L := ref_pnet_laws) demo_text (lit "0.1.0") 1 demo_cli _ _ t1 f data addr x t2
           demo_main_world demo_main_exec Ht).
Defined.

(** The calls of [demo_main] before its first [select], and from there on. *)
Fixpoint until_traffic (t : list event) : list event * list event :=
  match t with
  | [] => ([], [])
  | e :: t' =>
      if traffic e then ([], t)
      else let '(ta, tb) := until_traffic t' in (e :: ta, tb)
  end.

Lemma until_traffic_split t :
  t = (until_traffic t).1 ++ (until_traffic t).2
  /\ forall e, head (until_traffic t).2 = Some e -> traffic e = true.
Proof.
  induction t as [|e t [IH1 IH2]]; [done |]. cbn [until_traffic].
  destruct (traffic e) eqn:E.
  - split; [done |]. by intros e' [= <-].
  - destruct (until_traffic t) as [ta tb]. cbn [fst snd app] in *. split; [by f_equal | exact IH2].
Qed.

Lemma privileges_dropped_first_witness :
  no_drop demo_cli = false /\
  exists ta e tb, demo_main.1.1 = ta ++ e :: tb /\ traffic e = true /\
  exists u err before after,
    ta = before ++ drop_trace (user demo_cli) u err ++ after
    /\ Forall no_traffic before
    /\ Forall (fun e => loop_call (cli_verbose demo_cli) e = true) (after ++ e :: tb).
Proof.
  split; [reflexivity |].
  destruct (until_traffic_split demo_main.1.1) as [Hsplit Hhead].
  assert (is_empty (until_traffic demo_main.1.1).2 = false) as Hne by (vm_compute; reflexivity).
  destruct (until_traffic demo_main.1.1) as [ta [|e tb]]; [discriminate Hne |].
  cbn [fst snd] in Hsplit. pose proof (Hhead e eq_refl) as Ht.
  exists ta, e, tb. split; [exact Hsplit | split; [exact Ht |]].
  exact (privileges_dropped_first (P := ref_pnet) demo_text (lit "0.1.0") 1 demo_cli _ _ ta e tb eq_refl
           demo_main_exec Hsplit Ht).
Defined.

Lemma main_requires_root_witness :
  1000 <> 0 /\
  @nil event = []
  /\ Ret (Err (permission_error (lit "bcr requires root privileges or CAP_NET_RAW capability")))
     = @Ret (result error state)
         (Err (permission_error (lit "bcr requires root privileges or CAP_NET_RAW capability"))).
Proof.
  split; [discriminate |].
  apply (main_requires_root (P := ref_pnet) demo_text (lit "0.1.0") 1 demo_cli 1000); [discriminate |].
  exists 1000, []. split; [reflexivity |]. split; reflexivity.
Defined.

Definition demo_checks :=
  run_prog (lan_world []) (validate_startup allow_all (input demo_cli) (output demo_cli)) 3.

Lemma validate_startup_spec_witness :
  exists t o, exec (validate_startup allow_all (input demo_cli) (output demo_cli)) t o /\
  ((exists ifaddrs warnings, o = Ret (Ok tt) /\ t = Ev Getifaddrs (Ok ifaddrs) :: warnings
      /\ Forall warning warnings /\ Forall (up ifaddrs) (input demo_cli ++ output demo_cli))
   \/ (exists e, o = Ret (Err (Nix e)) /\ t = [Ev Getifaddrs (Err e)])
   \/ (exists ifaddrs what n, o = Ret (Err (missing_error what n)) /\ t = [Ev Getifaddrs (Ok ifaddrs)]
        /\ n ∈ input demo_cli ++ output demo_cli /\ ~ up ifaddrs n)
   \/ exists ifaddrs t', o = Panic /\ t = Ev Getifaddrs (Ok ifaddrs) :: t' /\ warned_in_vain t'
        /\ Forall (up ifaddrs) (input demo_cli ++ output demo_cli)).
Proof.
  exists demo_checks.1.1, demo_checks.1.2.
  assert (exec (validate_startup allow_all (input demo_cli) (output demo_cli))
            demo_checks.1.1 demo_checks.1.2) as H by apply run_prog_runs.
  split; [exact H | exact (validate_startup_spec _ _ _ _ _ H)].
Defined.
