(* ===== verification/MainRate.v ===== *)
(** * The rate limit of the program

    The bound of [RateRelay], from the command line: what the whole program sends, in terms of
    the rate and burst the user asked for and of the clock. *)

From S2P Require Import Prelude Bytes RustStr Config Filter Checksum Pnet Packet NatRewrite.
From S2P Require Import Sys F64 F64Round RateLimit RateProps Error Interface Logging Socket.
From S2P Require Import FdSet Abort Relay RelayCalls RelaySpec RelayReal RelayProps RateRelay.
From S2P Require Import Startup StartupProps MainProps.

(** ** The clock is read once during startup *)

Lemma instants_app t1 t2 : instants (t1 ++ t2) = instants t1 ++ instants t2.
Proof. apply omap_app. Qed.

Lemma instants_warnings t : Forall warning t -> instants t = [].
Proof. by induction 1 as [|e t [text ->] _ IH]. Qed.

Lemma instants_opened names socks t : opened names socks t -> instants t = [].
Proof. by induction 1. Qed.

Lemma instants_printed ls : instants (printed ls) = [].
Proof. by induction ls. Qed.

Lemma instants_loaded path c t : loaded path c t -> instants t = [].
Proof. destruct path; [by intros (content & -> & _) | by intros [_ ->]]. Qed.

Lemma instants_dropped cli t : dropped cli t -> instants t = [].
Proof. unfold dropped. destruct (no_drop cli); [by intros -> | by intros (u & e & ->)]. Qed.

Lemma started_instants version cli relay t c ifaddrs ta w ti to tr td :
  started version cli relay t c ifaddrs ta w ti to tr td -> instants t = instants tr.
Proof.
  intros [-> Hc _ _ Hw Hi Ho _ _ Hd].
  change (instants (Ev Geteuid 0 :: ?l)) with (instants l).
  rewrite instants_app. change (instants (Ev Getifaddrs (Ok ifaddrs) :: ?l)) with (instants l).
  rewrite !instants_app, (instants_loaded _ _ _ Hc), (instants_warnings _ Hw), (instants_opened _ _ _ Hi),
    (instants_opened _ _ _ Ho), instants_printed, (instants_dropped _ _ Hd). by rewrite app_nil_r.
Qed.

Lemma sends_no_traffic t : Forall no_traffic t -> sends t = [].
Proof.
  induction 1 as [|[X op x] t He _ IH]; [done |]. unfold sends in *. cbn [omap list_omap]. rewrite IH.
  by destruct op.
Qed.

(** C6 (bounds): the rate limit of the command line holds of the whole program: over a run of any
    length, whatever is received, the packets sent are at most, per output interface, the burst
    (the rate, when no burst is given; one at least) plus what the rate allows for the time since
    startup, up to the rounding of the doubles. *)
Theorem main_rate_bound {P : Pnet} {L : PnetLaws P} {F : FdSets} {FL : FdSetsLaws F} errno_text version n cli t o :
  0 < rate_limit cli <= u32_max -> (forall b, rate_burst cli = Some b -> 0 <= b <= u32_max) ->
  world_ok t -> Forall instant_ok (instants t) ->
  exec (main errno_text version n cli) t o ->
  sends t = [] \/ exists start asked,
    instants t = start :: asked
    /\ within_rate (Z.of_nat (length (output cli))) (rate_limit cli)
         (default (rate_limit cli) (rate_burst cli)) start asked (length (sends t)).
Proof.
  intros HR HB Hw Hn He.
  assert (0 <= default (rate_limit cli) (rate_burst cli) <= u32_max) as HB'
    by (destruct (rate_burst cli) as [b|]; cbn; [by apply HB | lia]).
  apply main_cases in He as [[Hno _]|(relay & t1 & t2 & -> & Hno & _ & Hsetup & Hr)];
    [left; by apply sends_no_traffic | right].
  apply setup_started in Hsetup as (c & ifaddrs & ta & w & ti & to & tr & td & Hst).
  pose proof (started_instants _ _ _ _ _ _ _ _ _ _ _ _ Hst) as Hi.
  pose proof (st_rate _ _ _ _ _ _ _ _ _ _ _ _ Hst) as Hl. unfold limited in Hl.
  rewrite (proj2 (Z.ltb_lt _ _)) in Hl by lia. destruct Hl as (now & -> & Hl).
  rewrite instants_app, Hi in *. apply Forall_cons_1 in Hn as [Hnow Hn].
  apply world_ok_app in Hw as [_ Hw]. exists now, (instants t2). split; [done |].
  rewrite sends_app, (sends_no_traffic t1) by done.
  pose proof (run_within_rate errno_text relay (rate_limit cli) _ now n t2 o ltac:(lia) HB' Hnow Hl Hn Hw Hr) as Hb.
  rewrite <- (opened_names _ _ _ (st_output _ _ _ _ _ _ _ _ _ _ _ _ Hst)), length_map. done.
Qed.

(** ** A run under a limit *)

#[local] Existing Instances ref_fdsets ref_fdsets_laws.

Definition limited_cli : Cli :=
  mk_cli [lit "eth0"] [lit "eth0"; lit "eth1"] None (lit "nobody") false 10 (Some 1) false.

(** The clock of [lan_world] stands still: of two packets, one is sent. *)
Definition limited_main :=
  run_prog (lan_world demo_packet) (main (P := ref_pnet) demo_text (lit "0.1.0") 2 limited_cli) 3.

Lemma limited_main_instants : instants limited_main.1.1 = [0; 0; 0].
Proof. vm_compute. reflexivity. Qed.

Lemma limited_main_world : world_ok limited_main.1.1.
Proof. apply world_okb. vm_compute. reflexivity. Qed.

Lemma main_rate_bound_witness :
  length (sends limited_main.1.1) = 1%nat /\
  (sends limited_main.1.1 = [] \/ exists start asked,
    instants limited_main.1.1 = start :: asked
    /\ within_rate 2 10 1 start asked (length (sends limited_main.1.1))).
Proof.
  split; [vm_compute; reflexivity |].
  apply (main_rate_bound (L := ref_pnet_laws) demo_text (lit "0.1.0") 2 limited_cli
           limited_main.1.1 limited_main.1.2).
  - unfold u32_max. cbn. lia.
  - intros b [= <-]. unfold u32_max. lia.
  - exact limited_main_world.
  - rewrite limited_main_instants. repeat constructor; cbn; done.
  - apply run_prog_runs.
Defined.
